(* ===== verification/_CoqProject ===== *)
-Q . S2P
Prelude.v
Floats.v
FloatErr.v
Text.v
Path.v
Config.v
Events.v
Pacing.v
Breaker.v
OpenRtb.v
Bitmap.v
Catalog.v
Loader.v
Externals.v
Model.v
Hedge.v
Frequency.v
Counters.v
Scoring.v
Ml.v
GenModel.v
Integration.v
Segments.v
Calls.v
Pipeline.v
PipelineInv.v
PipelineProps.v
WinNotice.v
Kafka.v
KafkaPoll.v
Exchange.v
Server.v
Http.v
Setup.v
Warmup.v
Traffic.v
Process.v
Healthy.v
ProcessProps.v
Main.v
TestKit.v
CoreTests.v
StageTests.v
ServerTests.v
Conformance.v
