(* ===== verification/Prelude.v ===== *)
(** * Verification of the bidder

    This library models the real-time bidder ([bidder-core] and [bidder-server])
    from the query rows and request bytes to the response and the published
    events, and proves the properties that make it correct.  Definitions are
    executable translations of the Rust code and keep its names; each file's head
    says what it models.

    ** The program

    A bid request becomes a [BidContext] that nine stages transform in turn:
    validation, enrichment with the user's segments, candidate retrieval from the
    catalog's bitmap indices, a per-impression limit, scoring, frequency capping,
    budget pacing, ranking and response building.  The stages reach the rest of
    the process through shared objects: the catalog snapshot the loader rebuilds
    from Postgres, the segment cache and its Redis repository, the scorer, the
    frequency capper with its write-behind workers, and the budget pacer.  Calls
    to Redis go through a circuit breaker and a hedging token bucket that the
    callers share.  The bid handler decodes the body with an exchange adapter,
    runs the pipeline behind a timeout, and publishes an event per bid to Kafka;
    the win handler authenticates and deduplicates a notice, records the
    impression and publishes the win.  [main] wires these and warms the server up.

    ** Files and sources

    - [Prelude]: machine integers with their wrap-around, durations, [Result],
      loops and lists, strings; [Floats]: IEEE [f32]/[f64] operations and casts;
      [FloatErr]: error bounds of [f64] products; [Text]: UTF-8 and hexadecimal;
      [Path]: [std::path].
    - [Config]: [config/mod.rs]; [Events]: [events.rs] and its publisher trait.
    - [Pacing]: [pacing/mod.rs] (class [BudgetPacer] and [BudgetPacerLaws]) and
      [pacing/local.rs] (the instance); [Pacing.Concurrent] interleaves the atomic
      operations of concurrent reservations on one counter.
    - [Breaker]: [breaker/mod.rs], a step per lock section.
    - [OpenRtb]: the structs of [model/openrtb.rs], field by field.
    - [Bitmap]: the roaring bitmap as a class with laws; [Catalog]:
      [catalog/types.rs], [campaign_catalog.rs], [targeting/mod.rs], with the
      targeting rule [matches] as specification; [Loader]: [catalog/loader.rs],
      the index construction from query rows and the refresh loop.
    - [Externals]: moka/dashmap caches, the tokio channel and Redis as classes
      with laws and an instance each.
    - [Model]: [model/candidate.rs], [model/context.rs], [clock.rs], [notice.rs].
    - [Hedge]: [hedge.rs], [hedge_feedback.rs]: token bucket (also as interleaved
      atomic steps), the race of two attempts, the feedback tick.
    - [Frequency]: [frequency/] and [bidder-server/src/freq_cap.rs]: Redis capper,
      impression workers, in-process capper, eviction and write-behind drain.
    - [Scoring]: [scoring/]: the four scorers, feature extraction, batching;
      [Ml]: the session pool of [scoring/ml.rs] (parity check, construction, hot
      reload) and the scorer tree [main.rs] builds from the configuration;
      [GenModel]: the model and the parity fixture of [tools/gen-test-model/], which
      [Ml] reads; [Integration]: the generator's [main] and the integration test
      [bidder-core/tests/ml_scorer_integration.rs] on the files it leaves.
    - [Segments]: [repository/mod.rs], [cache/mod.rs], [segment_repo.rs].
    - [Pipeline]: [pipeline/] and the assembly in [main.rs]; [PipelineInv]: stage
      lemmas and the run invariant; [PipelineProps]: the end-to-end properties.
    - [WinNotice]: [bidder-server/src/win_notice.rs], the [win] handler of
      [server/handlers.rs]; [Kafka]: [kafka.rs] and [kafka_incident.rs];
      [KafkaPoll]: the poll thread of [kafka.rs] and the drop that joins it.
    - [Exchange]: [exchange/]: the adapter trait and its two implementations.
    - [Calls]: concurrent calls to Redis over the breaker, the hedge bucket and the
      latency tracker they share, in steps of a lock section or an atomic operation;
      [Counters]: concurrent operations on the in-process capper's cache of counters.
    - [Server]: the bid and health handlers, the timeout middleware and the limits
      of [server/]; [Http]: the layers around them ([routes.rs],
      [layers/metrics.rs]) over requests in flight, and the shutdown of [main.rs];
      [Setup]: [telemetry/], [metrics/], [server/socket.rs], [error.rs] and the
      reading of the configuration; [Warmup]: [server/warmup.rs].
    - [Traffic]: concurrent requests over the pacer and the catalog, interleaved at
      their atomic counter operations, with drops, reloads and catalog swaps.
    - [Process]: the state [main] shares and one step per handler and background
      task, with the invariants of a run; [Healthy]: the segment repository and the
      frequency capper as plain lookups, and what makes the server's equal to them;
      [ProcessProps]: the properties.
    - [Main]: [main] itself, step by step, with its errors and the self-test's
      requests, which may be lost on the way.
    - [TestKit], [CoreTests], [StageTests], [ServerTests]: ninety unit and integration
      tests of the repository over these definitions; [Conformance] runs them.

    A Rust [dyn] trait is a type class ([BudgetPacer], [Scorer],
    [FrequencyCapper], [UserSegmentRepository], [NoticeUrlBuilder],
    [ExchangeAdapter], [EventPublisher]); what the pipeline relies on is a class
    of laws, which the implementations here are shown to satisfy, so the pipeline
    theorems hold for every implementation that does.  What the server is built
    on (roaring, moka, the tokio channel, Redis, HMAC, hex, JSON and protobuf
    codecs, rdkafka, the ONNX runtime) is a class or an argument, with documented
    behaviour as its laws.

    ** What is shown

    - Process: the bids served after any sequence of steps match the tables of the
      last successful refresh; over a healthy Redis the wired endpoint is the bid
      handler over plain lookups of segments and counters; what the in-process
      capper never learns and what a lost breaker probe does to the server.
    - Pipeline: only winners are charged; runs never fail, never end undecided,
      and answer at most once per impression; what a deadline abort leaves
      reserved; what the limit, capping and ranking stages keep; the privacy gate.
    - Traffic: the balance of every budget over all interleavings, the bound on
      what is spent between two reloads, what a reload pays back twice, and that a
      request running alone is a pipeline run.
    - Server and start-up: the answer of the bid handler to what its run decided,
      the outcome of [main] on every failing step and the server it builds when none
      fails, the warm-up of the cache, and when the self-test lets the server get
      ready; what the permits, the load-shed
      tracker and the HTTP metrics have counted at any moment, and how a shutdown
      drains.
    - Concurrent Redis calls: the breaker gets stuck only by lost probes, hedge
      tokens are conserved up to the leaks of dropped races, a call running alone is
      the sequential one, and every call ends.
    - Pacing: each branch of a reservation, the bound on overspend, the
      reserve/release round trip.
    - Breaker: window invariant, opening condition, single probe, recovery.
    - Catalog and loader: retrieval on the built catalog computes the targeting
      rule on the tables, the served catalog is that of the last success, what a
      refresh does to budgets, the hour of the week.
    - Hedging: what a hedged call returns and spends, the bound on outstanding
      hedges, the effect of load shedding on the tokens.
    - Frequency capping: a candidate is rejected when the impressions written in the
      current day or hour window reach its cap, the in-process verdicts, what an
      eviction books as impressions, the breaker probe it loses; for
      concurrent operations, what a counter is worth, which recordings a warm-up or
      an eviction hides, and that none waits for ever.
    - Scoring: batching, padding and pooling are invisible but for a reload between
      two batches; what the cascade asks its second stage and does with the answer; the experiment hash and ramp-up; which scorer trees are
      built, which models pass parity, what a reload serves, what the shipped
      parity fixture cannot tell apart, and when the integration test passes on it.
    - Segments: encoding round trip, caching of refused reads, the dropped probe.
    - Win notices: who gets past the gate, that what is signed is accepted, that a
      win counts at most once, the encoding of URL values.
    - Exchange and Kafka: exact AdX prices, what an AdX request decodes to, the
      hysteresis the incident policy implements and when it cannot end, the account
      of published events, and what a drop of the publisher waits for.

    ** Conventions and bounds

    Integers are [Z] with explicit wrap-around or saturation where the code can
    leave the width.  Clock readings, latencies, the order in which a map or heap
    yields its elements and the answers of Redis and Postgres are arguments; Redis
    answers a call for the keys it is sent, and its counters expire.  An ML scorer
    carries the pools that reloads will put in place of its own, one step for each
    time a batch loads the snapshot.  The
    chunk loop of the ML scorer takes the length of the batch as fuel, enough
    because every iteration consumes at least one candidate; the other recursions
    are structural.  Concurrency is modelled where shared state interleaves: pacer
    counters ([Pacing.Concurrent], [Traffic]), breaker, hedge bucket and latency
    tracker ([Calls]), the in-process capper's counters ([Counters], which has the
    shards of a map as a parameter), permits and HTTP counters ([Http], a step per
    poll), the Kafka poll thread ([KafkaPoll]).  In [Process] handlers and tasks run
    one step after the other; a request the timeout drops there has run a prefix of
    its stages, and a drop in the middle of a segment read is in [Segments].  The
    pipeline's world holds the shared Redis state twice, once per call site, and the
    stage that changes one copy updates the other.

    ** Not modelled

    Library code and I/O, which the definitions take as arguments or classes with
    laws: axum's dispatch and tower's semaphore, figment, the OpenTelemetry and
    Prometheus exporters, sockets, serde encodings, SQL execution, rdkafka, the ONNX
    runtime, the notify watcher.  Left out: the spawning of tasks, panics inside
    libraries other than that of the channel constructor, log lines and the metrics
    no decision reads, the empty benchmark [bidder-bench], generated protobuf code,
    and the encoding of the generated test model.  Concurrent misses of one user on
    the segment cache are not interleaved: collapsing them into one fetch is moka's
    own code ([try_get_with]), and the bidder adds nothing to it. *)
From stdpp Require Export base gmap strings list fin_maps sorting pretty.
From stdpp Require Export relations.
From Stdlib Require Export ZArith Lia.
From Stdlib Require Import Permutation.

#[global] Open Scope Z_scope.

(** ** Machine integers

    A [uN]/[iN] value is a [Z]; the range of the width is a boolean predicate
    and the operations that can leave it are written out with their wrap-around
    or saturation. *)

Definition u8_max : Z := 2 ^ 8 - 1.
Definition u32_max : Z := 2 ^ 32 - 1.
Definition u64_max : Z := 2 ^ 64 - 1.

Definition in_u8 (z : Z) : Prop := 0 <= z <= u8_max.
Definition in_u32 (z : Z) : Prop := 0 <= z <= u32_max.
Definition in_u64 (z : Z) : Prop := 0 <= z <= u64_max.
Definition in_i32 (z : Z) : Prop := - 2 ^ 31 <= z < 2 ^ 31.
Definition in_i64 (z : Z) : Prop := - 2 ^ 63 <= z < 2 ^ 63.

(** [as u8], [as u32], [as u64]: truncation to the low bits. *)
Definition as_u8 (z : Z) : Z := z mod 2 ^ 8.
Definition as_u32 (z : Z) : Z := z mod 2 ^ 32.
Definition as_u64 (z : Z) : Z := z mod 2 ^ 64.

(** Two's complement reading of the low bits: [as i64] and the wrap-around of
    the atomic [fetch_add]/[fetch_sub] on an [AtomicI64]. *)
Definition as_i32 (z : Z) : Z := (z + 2 ^ 31) mod 2 ^ 32 - 2 ^ 31.
Definition as_i64 (z : Z) : Z := (z + 2 ^ 63) mod 2 ^ 64 - 2 ^ 63.

(** [saturating_sub] on an unsigned type, [saturating_add] on [u32]. *)
Definition usaturating_sub (a b : Z) : Z := Z.max 0 (a - b).
Definition u32_saturating_add (a b : Z) : Z := Z.min u32_max (a + b).

Lemma as_i64_id z : in_i64 z -> as_i64 z = z.
Proof. unfold in_i64, as_i64; intros H. rewrite Z.mod_small; lia. Qed.

Lemma as_i64_range z : in_i64 (as_i64 z).
Proof. unfold in_i64, as_i64. pose proof (Z.mod_pos_bound (z + 2 ^ 63) (2 ^ 64)). lia. Qed.

Lemma as_u64_id z : in_u64 z -> as_u64 z = z.
Proof. unfold in_u64, as_u64, u64_max; intros H. apply Z.mod_small; lia. Qed.

Lemma as_u32_id z : in_u32 z -> as_u32 z = z.
Proof. unfold in_u32, as_u32, u32_max; intros H. apply Z.mod_small; lia. Qed.

Lemma as_u64_range z : in_u64 (as_u64 z).
Proof. unfold in_u64, as_u64, u64_max. pose proof (Z.mod_pos_bound z (2 ^ 64)). lia. Qed.

Lemma as_u32_range z : in_u32 (as_u32 z).
Proof. unfold in_u32, as_u32, u32_max. pose proof (Z.mod_pos_bound z (2 ^ 32)). lia. Qed.

(** Wrapping addition is associative: an update by [a] followed by one by [b]
    is one update by [a + b]. *)
Lemma as_i64_add a b : as_i64 (as_i64 a + b) = as_i64 (a + b).
Proof.
  unfold as_i64.
  replace ((a + 2 ^ 63) mod 2 ^ 64 - 2 ^ 63 + b + 2 ^ 63)
    with ((a + 2 ^ 63) mod 2 ^ 64 + b) by lia.
  rewrite Zplus_mod_idemp_l. f_equal. f_equal. lia.
Qed.

Lemma as_u64_add a b : as_u64 (as_u64 a + b) = as_u64 (a + b).
Proof. unfold as_u64. apply Zplus_mod_idemp_l. Qed.

(** ** Time

    A [Duration] is a number of nanoseconds, an [Instant] the nanoseconds since
    an arbitrary origin; [elapsed] saturates at zero as the standard library's
    monotonic clock does. *)

Notation Duration := Z (only parsing).
Notation Instant := Z (only parsing).

Definition from_nanos (n : Z) : Duration := n.
Definition from_micros (n : Z) : Duration := n * 1000.
Definition from_millis (n : Z) : Duration := n * 1000000.
Definition from_secs (n : Z) : Duration := n * 1000000000.
Definition as_micros (d : Duration) : Z := d / 1000.
Definition as_millis (d : Duration) : Z := d / 1000000.

Definition duration_since (now t : Instant) : Duration := Z.max 0 (now - t).

(** ** Results *)

Inductive Result (A E : Type) : Type :=
| Ok (a : A)
| Err (e : E).
Arguments Ok {A E} a.
Arguments Err {A E} e.

Definition is_ok {A E} (r : Result A E) : bool :=
  match r with Ok _ => true | Err _ => false end.

Declare Scope result_scope.
Delimit Scope result_scope with result.
Notation "'let?' x ':=' c 'in' k" :=
  (match c with Ok x => k | Err e => Err e end)
  (at level 10, x binder, c at level 100, k at level 200) : result_scope.

(** [o.unwrap_or(d)] *)
Definition unwrap_or {A} (o : option A) (d : A) : A :=
  match o with Some a => a | None => d end.

(** ** Tactics *)

(** Case analysis on the scrutinee of a [match] or [if] of the goal, resp. of a
    hypothesis, keeping the equation. *)
Ltac case_goal :=
  match goal with
  | |- context [match ?x with _ => _ end] =>
      lazymatch x with
      | context [match _ with _ => _ end] => fail
      | _ => let E := fresh "E" in destruct x eqn:E
      end
  end.
Ltac case_hyp H :=
  match type of H with
  | context [match ?x with _ => _ end] =>
      lazymatch x with
      | context [match _ with _ => _ end] => fail
      | _ => let E := fresh "E" in destruct x eqn:E
      end
  end.

(** Boolean comparisons on [Z] as propositions. *)
Ltac zbool :=
  repeat match goal with
  | H : (_ <=? _) = true |- _ => apply Z.leb_le in H
  | H : (_ <=? _) = false |- _ => apply Z.leb_gt in H
  | H : (_ <? _) = true |- _ => apply Z.ltb_lt in H
  | H : (_ <? _) = false |- _ => apply Z.ltb_ge in H
  | H : (_ =? _) = true |- _ => apply Z.eqb_eq in H
  | H : (_ =? _) = false |- _ => apply Z.eqb_neq in H
  | H : (_ && _)%bool = true |- _ => apply andb_true_iff in H; destruct H
  | H : (_ || _)%bool = false |- _ => apply orb_false_iff in H; destruct H
  | H : negb _ = true |- _ => apply negb_true_iff in H
  | H : negb _ = false |- _ => apply negb_false_iff in H
  end.
Ltac zlia := zbool; lia.

(** A decidable proposition on closed terms, by evaluation. *)
Ltac vm_decide :=
  match goal with |- ?P => refine (@bool_decide_unpack P _ _); vm_compute; exact I end.

Create HintDb bidder.
Create Rewrite HintDb bidder.
#[export] Hint Resolve as_i64_range as_u64_range as_u32_range : bidder.
#[export] Hint Rewrite as_i64_id as_u64_id as_u32_id using (unfold in_i64, in_u64, in_u32, u64_max, u32_max in *; lia) : bidder.

(** ** Lists *)

(** Sum of a measure over a list. *)
Definition sum_by {A} (f : A -> Z) (l : list A) : Z := foldr (fun a s => f a + s) 0 l.

Lemma sum_by_cons {A} (f : A -> Z) a l : sum_by f (a :: l) = f a + sum_by f l.
Proof. done. Qed.

Lemma sum_by_app {A} (f : A -> Z) l1 l2 : sum_by f (l1 ++ l2) = sum_by f l1 + sum_by f l2.
Proof. unfold sum_by. induction l1 as [|a l1 IH]; simpl; lia. Qed.

Lemma sum_by_nonneg {A} (f : A -> Z) l : (forall a, a ∈ l -> 0 <= f a) -> 0 <= sum_by f l.
Proof.
  unfold sum_by. induction l as [|a l IH]; simpl; intros H; [lia|].
  pose proof (H a ltac:(set_solver)). specialize (IH ltac:(set_solver)). lia.
Qed.

(** Replacing one element. *)
Lemma sum_by_insert {A} (f : A -> Z) l j a b : l !! j = Some a -> sum_by f (<[j := b]> l) = sum_by f l - f a + f b.
Proof.
  revert j; induction l as [|x l IH]; intros [|j]; intros Hj; simplify_eq/=.
  - change (f b + sum_by f l = f a + sum_by f l - f a + f b). lia.
  - change (f x + sum_by f (<[j := b]> l) = f x + sum_by f l - f a + f b). rewrite (IH j Hj). lia.
Qed.

Lemma sum_by_perm {A} (f : A -> Z) l1 l2 : l1 ≡ₚ l2 -> sum_by f l1 = sum_by f l2.
Proof. unfold sum_by. induction 1; simpl; lia. Qed.

#[global] Instance sum_by_Proper {A} (f : A -> Z) : Proper ((≡ₚ) ==> (=)) (sum_by f).
Proof. intros l1 l2 H. by apply sum_by_perm. Qed.

(** A left-to-right run of a state transformer over a list, collecting outputs:
    a [for] loop that pushes one result per element. *)
Fixpoint fold_map {S A B} (f : S -> A -> S * B) (s : S) (l : list A) : S * list B :=
  match l with
  | [] => (s, [])
  | a :: l => let '(s1, b) := f s a in let '(s2, bs) := fold_map f s1 l in (s2, b :: bs)
  end.

Lemma length_fold_map {S A B} (f : S -> A -> S * B) s l : length (fold_map f s l).2 = length l.
Proof.
  revert s; induction l as [|a l IH]; intros s; simpl; [done|].
  destruct (f s a) as [s1 b]. specialize (IH s1). destruct (fold_map f s1 l). simpl in *. lia.
Qed.

Lemma fold_map_app {S A B} (f : S -> A -> S * B) s l1 l2 :
  fold_map f s (l1 ++ l2) =
  let '(s1, b1) := fold_map f s l1 in let '(s2, b2) := fold_map f s1 l2 in (s2, b1 ++ b2).
Proof.
  revert s; induction l1 as [|a l1 IH]; intros s; simpl.
  - by destruct (fold_map f s l2).
  - destruct (f s a) as [s1 b]. rewrite IH. destruct (fold_map f s1 l1) as [s2 bs].
    by destruct (fold_map f s2 l2).
Qed.

(** A relation that lowers three measures lexicographically ends. *)
Lemma lex3_acc {A} (R : A -> A -> Prop) (f g h : A -> nat) :
  (forall x x', R x x' -> (f x' < f x)%nat \/
     f x' = f x /\ ((g x' < g x)%nat \/ g x' = g x /\ (h x' < h x)%nat)) ->
  forall x, Acc (flip R) x.
Proof.
  intros HR x. remember (f x) as a eqn:Ha. remember (g x) as b eqn:Hb. remember (h x) as c eqn:Hc. revert b c x Ha Hb Hc.
  induction (lt_wf a) as [a _ IHa]. intros b. induction (lt_wf b) as [b _ IHb]. intros c. induction (lt_wf c) as [c _ IHc].
  intros x -> -> ->. constructor. intros x' Hx'. apply HR in Hx' as [|[Hf [|[Hg ?]]]].
  - by eapply IHa.
  - rewrite <- Hf in *. by eapply IHb.
  - rewrite <- Hf, <- Hg in *. by eapply IHc.
Qed.

(** A fold whose step preserves an invariant preserves it. *)
Lemma foldl_inv {S A} (P : S -> Prop) (f : S -> A -> S) l s :
  P s -> (forall s a, a ∈ l -> P s -> P (f s a)) -> P (foldl f s l).
Proof.
  revert s; induction l as [|a l IH]; intros s Hs Hf; simpl; [done|].
  apply IH; [|intros]; apply Hf; set_solver.
Qed.

Lemma fold_map_inv {S A B} (P : S -> Prop) (f : S -> A -> S * B) l s :
  P s -> (forall s a, a ∈ l -> P s -> P (f s a).1) -> P (fold_map f s l).1.
Proof.
  revert s; induction l as [|a l IH]; intros s Hs Hf; simpl; [done|].
  destruct (f s a) as [s1 b] eqn:E.
  specialize (IH s1). destruct (fold_map f s1 l). simpl in *. apply IH.
  - replace s1 with (f s a).1 by (by rewrite E). apply Hf; set_solver.
  - intros; apply Hf; set_solver.
Qed.

(** A loop that inserts one entry per element, with distinct keys. *)
Lemma foldl_insert_lookup {R V} `{Countable K} (key : R -> K) (val : R -> V) (l : list R) (k : K) (v : V) :
  NoDup (key <$> l) ->
  foldl (fun (m : gmap K V) r => <[key r := val r]> m) ∅ l !! k = Some v <->
  exists r, r ∈ l /\ key r = k /\ val r = v.
Proof.
  intros Hnd.
  assert (forall m : gmap K V, (forall r, r ∈ l -> m !! key r = None) ->
    (foldl (fun m r => <[key r := val r]> m) m l !! k = Some v <->
     m !! k = Some v \/ exists r, r ∈ l /\ key r = k /\ val r = v)) as Hgen.
  { induction l as [|r l IH]; intros m Hm; simpl; [set_solver|].
    rewrite fmap_cons in Hnd. apply NoDup_cons in Hnd as [Hr Hnd]. rewrite IH; [|done|].
    - destruct (decide (key r = k)) as [<-|Hne].
      + rewrite lookup_insert_eq. rewrite (Hm r) by set_solver. set_solver.
      + rewrite lookup_insert_ne by done. set_solver.
    - intros r' Hr'. rewrite lookup_insert_ne; [apply Hm; set_solver|].
      intros E. apply Hr. rewrite E. apply list_elem_of_fmap. eauto. }
  rewrite Hgen by (intros; apply lookup_empty). rewrite lookup_empty. naive_solver.
Qed.

(** Iterator adapters of the standard library that stdpp has no name for. *)
Definition find_first {A} (p : A -> bool) (l : list A) : option A :=
  foldr (fun a r => if p a then Some a else r) None l.

Lemma find_first_Some {A} (p : A -> bool) l a :
  find_first p l = Some a -> a ∈ l /\ p a = true.
Proof.
  induction l as [|b l IH]; simpl; [done|].
  destruct (p b) eqn:E; intros H; simplify_eq; [set_solver|]. destruct (IH H). set_solver.
Qed.

Lemma find_first_None {A} (p : A -> bool) l a :
  find_first p l = None -> a ∈ l -> p a = false.
Proof.
  induction l as [|b l IH]; simpl; [set_solver|].
  destruct (p b) eqn:E; intros H; [done|]. rewrite elem_of_cons. intros [->|?]; auto.
Qed.

Lemma find_first_is_Some {A} (p : A -> bool) l a :
  a ∈ l -> p a = true -> exists b, find_first p l = Some b.
Proof.
  intros Ha Hp. destruct (find_first p l) as [b|] eqn:E; [eauto|].
  rewrite (find_first_None p l a E Ha) in Hp. done.
Qed.

Lemma NoDup_fmap_filter {A B} (f : A -> B) (P : A -> Prop) `{forall a, Decision (P a)} l :
  NoDup (f <$> l) -> NoDup (f <$> filter P l).
Proof.
  induction l as [|a l IH]; [done|]. rewrite fmap_cons, filter_cons. intros [Ha Hl]%NoDup_cons.
  case_decide; [|auto]. rewrite fmap_cons. apply NoDup_cons. split; [|auto].
  intros (b & Hb & Hin)%list_elem_of_fmap. apply Ha. rewrite Hb. apply list_elem_of_fmap.
  exists b. split; [done|]. by apply list_elem_of_filter in Hin as [_ ?].
Qed.

Lemma StronglySorted_filter {A} (R : relation A) (P : A -> Prop) `{forall a, Decision (P a)} l :
  StronglySorted R l -> StronglySorted R (filter P l).
Proof.
  induction 1 as [|a l Hs IH Ha]; [constructor|]. rewrite filter_cons. case_decide; [|done].
  constructor; [done|]. rewrite Forall_forall in Ha |- *. intros x [_ Hx]%list_elem_of_filter. auto.
Qed.

(** Filters that agree on the elements of a list. *)
Lemma filter_ext_in {A} (P Q : A -> Prop) `{forall a, Decision (P a)} `{forall a, Decision (Q a)} (l : list A) :
  (forall a, a ∈ l -> P a <-> Q a) -> filter P l = filter Q l.
Proof.
  induction l as [|a l IH]; intros Hpq; [done|]. rewrite !filter_cons.
  rewrite (decide_ext (P a) (Q a)) by (apply Hpq; set_solver).
  rewrite IH; [done|]. intros; apply Hpq; set_solver.
Qed.

Lemma filter_all {A} (P : A -> Prop) `{forall a, Decision (P a)} (l : list A) :
  (forall a, a ∈ l -> P a) -> filter P l = l.
Proof.
  induction l as [|a l IH]; intros Hp; [done|]. rewrite filter_cons, decide_True by (apply Hp; set_solver).
  rewrite IH; [done|]. intros; apply Hp; set_solver.
Qed.

(** [Iterator::max_by]: a left fold that keeps the later of two equal elements. *)
Definition max_by {A} (cmp : A -> A -> comparison) (l : list A) : option A :=
  match l with
  | [] => None
  | a :: l => Some (foldl (fun m x => match cmp m x with Gt => m | _ => x end) a l)
  end.

Lemma max_by_elem {A} (cmp : A -> A -> comparison) l m : max_by cmp l = Some m -> m ∈ l.
Proof.
  destruct l as [|a l]; simpl; [done|]. intros [= <-].
  assert (forall acc, foldl (fun m x => match cmp m x with Gt => m | _ => x end) acc l ∈ acc :: l) as H.
  { induction l as [|b l IH]; intros acc; simpl; [set_solver|].
    pose proof (IH (match cmp acc b with Gt => acc | _ => b end)) as H.
    destruct (cmp acc b); set_solver. }
  apply H.
Qed.

Lemma max_by_None {A} (cmp : A -> A -> comparison) (l : list A) : max_by cmp l = None <-> l = [].
Proof. by destruct l. Qed.

(** Under a total preorder the fold returns an upper bound of the list. *)
Section MaxBy.
Context {A : Type} (cmp : A -> A -> comparison) (P : A -> Prop).
Hypothesis cmp_refl : forall a, P a -> cmp a a <> Gt.
Hypothesis cmp_antisym : forall a b, P a -> P b -> cmp a b = Gt -> cmp b a <> Gt.
Hypothesis cmp_trans : forall a b c, P a -> P b -> P c ->
  cmp a b <> Gt -> cmp b c <> Gt -> cmp a c <> Gt.

Lemma max_by_upper_acc l acc :
  P acc -> Forall P l ->
  let m := foldl (fun m x => match cmp m x with Gt => m | _ => x end) acc l in
  P m /\ cmp acc m <> Gt /\ forall x, x ∈ l -> cmp x m <> Gt.
Proof.
  revert acc; induction l as [|b l IH]; intros acc Ha Hl; simpl.
  { split_and!; auto. set_solver. }
  apply Forall_cons in Hl as [Hb Hl].
  assert (P (match cmp acc b with Gt => acc | _ => b end)) as Hn by by destruct (cmp acc b).
  destruct (IH _ Hn Hl) as (Hm & Hle & Hall). split_and!; [done| |].
  - eapply cmp_trans; [| | | |exact Hle]; auto. destruct (cmp acc b) eqn:E; rewrite ?E; auto.
  - intros x [->|Hx]%elem_of_cons; [|auto].
    eapply cmp_trans; [| | | |exact Hle]; auto. destruct (cmp acc b) eqn:E; auto.
Qed.

Lemma max_by_upper l m :
  Forall P l -> max_by cmp l = Some m -> forall x, x ∈ l -> cmp x m <> Gt.
Proof.
  destruct l as [|a l]; simpl; [done|]. intros [Ha Hl]%Forall_cons [= <-] x Hx.
  destruct (max_by_upper_acc l a Ha Hl) as (_ & H1 & H2).
  apply elem_of_cons in Hx as [->|Hx]; auto.
Qed.
End MaxBy.

(** ** Strings *)

(** A character occurs in a string. *)
Fixpoint has_char (c : Ascii.ascii) (s : string) : bool :=
  match s with
  | EmptyString => false
  | String a s => bool_decide (a = c) || has_char c s
  end.

Lemma has_char_app c s1 s2 : has_char c (s1 +:+ s2) = has_char c s1 || has_char c s2.
Proof. induction s1 as [|a s1 IH]; simpl; [done|]. by rewrite IH, orb_assoc. Qed.

Lemma string_app_inj_l (s t1 t2 : string) : s +:+ t1 = s +:+ t2 -> t1 = t2.
Proof. by intros ?%(inj (String.append s)). Qed.

(** Two texts split at the first occurrence of a separator agree piecewise. *)
Lemma split_first_sep c (a b x y : string) :
  has_char c a = false -> has_char c b = false ->
  a +:+ String c x = b +:+ String c y -> a = b /\ x = y.
Proof.
  revert b; induction a as [|k a IH]; intros [|k' b]; simpl; intros Ha Hb Heq; simplify_eq.
  - done.
  - by rewrite bool_decide_eq_true_2 in Hb.
  - by rewrite bool_decide_eq_true_2 in Ha.
  - apply orb_false_iff in Ha as [_ Ha]. apply orb_false_iff in Hb as [_ Hb].
    destruct (IH b Ha Hb ltac:(done)) as [-> ->]. done.
Qed.

Lemma string_app_assoc (s1 s2 s3 : string) : (s1 +:+ s2) +:+ s3 = s1 +:+ (s2 +:+ s3).
Proof. induction s1 as [|c s1 IH]; [done|].
  change (String c ((s1 +:+ s2) +:+ s3) = String c (s1 +:+ s2 +:+ s3)). by rewrite IH.
Qed.

(** ... and at the last one. *)
Lemma split_last_sep c (a b x y : string) :
  has_char c x = false -> has_char c y = false ->
  a +:+ String c x = b +:+ String c y -> a = b /\ x = y.
Proof.
  revert b; induction a as [|k a IH]; intros [|k' b]; simpl; intros Hx Hy Heq; simplify_eq.
  - done.
  - exfalso. rewrite has_char_app in Hx. simpl in Hx.
    rewrite bool_decide_eq_true_2, orb_true_r in Hx; done.
  - exfalso. rewrite has_char_app in Hy. simpl in Hy.
    rewrite bool_decide_eq_true_2, orb_true_r in Hy; done.
  - destruct (IH b Hx Hy ltac:(done)) as [-> ->]. done.
Qed.

(** Decimal digits contain no punctuation. *)
Definition is_digit (c : Ascii.ascii) : bool :=
  let n := Ascii.nat_of_ascii c in (Nat.leb 48 n && Nat.leb n 57)%nat.
Fixpoint all_chars (p : Ascii.ascii -> bool) (s : string) : bool :=
  match s with EmptyString => true | String c s => p c && all_chars p s end.

Lemma all_chars_has p c s : all_chars p s = true -> p c = false -> has_char c s = false.
Proof.
  induction s as [|a s IH]; simpl; [done|]. rewrite andb_true_iff. intros [Ha Hs] Hc.
  rewrite IH by done. rewrite bool_decide_eq_false_2; [done|]. congruence.
Qed.

(** What [{}] prints for an integer: digits, after a minus sign if negative. *)
Definition is_decimal (c : Ascii.ascii) : bool := is_digit c || bool_decide (c = Ascii.ascii_of_nat 45).

Lemma pretty_N_char_digit x : is_digit (pretty_N_char x) = true.
Proof. unfold pretty_N_char. by repeat case_match. Qed.

Lemma pretty_N_go_digits x s : all_chars is_digit s = true -> all_chars is_digit (pretty_N_go x s) = true.
Proof.
  revert s; induction (N.lt_wf_0 x) as [x _ IH]; intros s Hs.
  assert (x = 0 \/ 0 < x)%N as [->|?] by lia; [by rewrite pretty_N_go_0|].
  rewrite pretty_N_go_step by done. apply IH; [apply N.div_lt; lia|]. simpl.
  by rewrite pretty_N_char_digit.
Qed.

Lemma pretty_N_digits (x : N) : all_chars is_digit (pretty x) = true.
Proof. unfold pretty, pretty_N. case_decide; [done|]. by apply pretty_N_go_digits. Qed.

Lemma all_chars_impl (p q : Ascii.ascii -> bool) s :
  (forall c, p c = true -> q c = true) -> all_chars p s = true -> all_chars q s = true.
Proof. intros Hpq. induction s as [|c s IH]; simpl; [done|]. rewrite !andb_true_iff. naive_solver. Qed.

Lemma pretty_Z_decimal (z : Z) : all_chars is_decimal (pretty z) = true.
Proof.
  assert (forall x : N, all_chars is_decimal (pretty x) = true) as HN.
  { intros x. apply (all_chars_impl is_digit); [|apply pretty_N_digits].
    intros c Hc. unfold is_decimal. by rewrite Hc. }
  destruct z as [|p|p]; [done|apply (HN (N.pos p))|]. simpl. apply (HN (N.pos p)).
Qed.

Lemma pretty_Z_has_char (z : Z) c : is_decimal c = false -> has_char c (pretty z) = false.
Proof. apply all_chars_has, pretty_Z_decimal. Qed.
