(* ===== verification/Floats.v ===== *)
(** * IEEE-754 arithmetic of the source's [f32] and [f64]

    Both types are the standard library's [spec_float] (pure Gallina), at
    precision 24 / exponent bound 128 for [f32] and 53 / 1024 for [f64]: every
    operation rounds to nearest even, NaN and the infinities included.  Decimal
    literals are written as the correctly rounded quotient of two integers,
    which is the value the compiler gives the literal. *)
From Corelib Require Export SpecFloat.
From S2P Require Import Prelude.

Definition f32 := spec_float.
Definition f64 := spec_float.

(** ** Conversions and literals *)
Definition f64_of_Z (z : Z) : f64 := binary_normalize 53 1024 z 0 false.
Definition f32_of_Z (z : Z) : f32 := binary_normalize 24 128 z 0 false.

Definition f64_div : f64 -> f64 -> f64 := SFdiv 53 1024.
Definition f64_mul : f64 -> f64 -> f64 := SFmul 53 1024.
Definition f64_add : f64 -> f64 -> f64 := SFadd 53 1024.
Definition f64_sub : f64 -> f64 -> f64 := SFsub 53 1024.
Definition f32_div : f32 -> f32 -> f32 := SFdiv 24 128.
Definition f32_mul : f32 -> f32 -> f32 := SFmul 24 128.
Definition f32_add : f32 -> f32 -> f32 := SFadd 24 128.
Definition f32_sub : f32 -> f32 -> f32 := SFsub 24 128.

(** The literal [n/d]. *)
Definition f64_lit (n d : Z) : f64 := f64_div (f64_of_Z n) (f64_of_Z d).
Definition f32_lit (n d : Z) : f32 := f32_div (f32_of_Z n) (f32_of_Z d).

(** ** Comparisons: all four are false on NaN. *)
Definition fcmp : spec_float -> spec_float -> option comparison := SFcompare.
Definition flt : spec_float -> spec_float -> bool := SFltb.
Definition fle : spec_float -> spec_float -> bool := SFleb.
Definition fgt (a b : spec_float) : bool := SFltb b a.
Definition fge (a b : spec_float) : bool := SFleb b a.
Definition is_nan (a : spec_float) : bool := match a with S754_nan => true | _ => false end.

(** [f32::min]: the non-NaN operand when one is NaN. *)
Definition fmin (a b : spec_float) : spec_float :=
  if is_nan a then b else if is_nan b then a else if flt b a then b else a.

(** [f32::clamp]: NaN stays NaN. *)
Definition fclamp (lo hi a : spec_float) : spec_float :=
  if flt a lo then lo else if fgt a hi then hi else a.

(** ** Float to integer: [as u64] truncates toward zero and saturates, NaN is 0. *)
Definition ftrunc (a : spec_float) : option Z :=
  match a with
  | S754_zero _ => Some 0
  | S754_finite s m e =>
      let q := if 0 <=? e then Z.shiftl (Zpos m) e else Z.shiftr (Zpos m) (- e) in
      Some (if s then - q else q)
  | _ => None
  end.

Definition f_to_u64 (a : spec_float) : Z :=
  match ftrunc a with
  | Some q => Z.min u64_max (Z.max 0 q)
  | None => match a with S754_infinity false => u64_max | _ => 0 end
  end.

Definition f_to_i64 (a : spec_float) : Z :=
  match ftrunc a with
  | Some q => Z.min (2 ^ 63 - 1) (Z.max (- 2 ^ 63) q)
  | None => match a with
            | S754_infinity false => 2 ^ 63 - 1
            | S754_infinity true => - 2 ^ 63
            | _ => 0
            end
  end.

(** [f64::ceil], up to the sign of a zero result. *)
Definition f64_ceil (a : f64) : f64 :=
  match a with
  | S754_finite s m e =>
      if 0 <=? e then a
      else let q := Z.shiftr (Zpos m) (- e) in
           let exact := Z.shiftl q (- e) =? Zpos m in
           f64_of_Z (if s then - q else if exact then q else q + 1)
  | _ => a
  end.

(** [f64::round]: half away from zero. *)
Definition f64_round (a : f64) : f64 :=
  match a with
  | S754_finite s m e =>
      if 0 <=? e then a
      else let q := Z.shiftr (2 * Zpos m + Z.shiftl 1 (- e)) (1 - e) in
           f64_of_Z (if s then - q else q)
  | _ => a
  end.

(** [Duration::as_secs_f64]: whole seconds plus the nanosecond remainder. *)
Definition as_secs_f64 (d : Duration) : f64 :=
  f64_add (f64_of_Z (d / 1000000000))
          (f64_div (f64_of_Z (d mod 1000000000)) (f64_of_Z 1000000000)).

(** ** The comparison is a total preorder away from NaN *)

Lemma pos_cmp_cont m1 m2 : Pos.compare_cont Eq m1 m2 = Pos.compare m1 m2.
Proof. done. Qed.

Lemma fcmp_nan_l a b : fcmp a b = None <-> is_nan a = true \/ is_nan b = true.
Proof. destruct a, b; simpl; intuition congruence. Qed.

Lemma fcmp_refl a : is_nan a = false -> fcmp a a = Some Eq.
Proof.
  destruct a as [|[]| |[] m e]; simpl; try done;
    rewrite Z.compare_refl, pos_cmp_cont, Pos.compare_refl; done.
Qed.

Lemma fcmp_antisym a b : fcmp b a = option_map CompOpp (fcmp a b).
Proof.
  destruct a as [|[]| |[] m e], b as [|[]| |[] m' e']; simpl; try done;
    rewrite (Z.compare_antisym e' e), (pos_cmp_cont m m'), (pos_cmp_cont m' m), (Pos.compare_antisym m' m);
    destruct (Z.compare e' e); simpl; rewrite ?CompOpp_involutive; done.
Qed.

(** The order is the lexicographic order of an integer key. *)
Definition fkey (a : spec_float) : Z * Z * Z :=
  match a with
  | S754_infinity true => (-2, 0, 0)
  | S754_finite true m e => (-1, - e, - Zpos m)
  | S754_zero _ => (0, 0, 0)
  | S754_finite false m e => (1, e, Zpos m)
  | S754_infinity false => (2, 0, 0)
  | S754_nan => (3, 0, 0)
  end.

Definition key_le (p q : Z * Z * Z) : Prop :=
  let '(a1, a2, a3) := p in let '(b1, b2, b3) := q in
  a1 < b1 \/ (a1 = b1 /\ (a2 < b2 \/ (a2 = b2 /\ a3 <= b3))).

Lemma key_le_trans p q r : key_le p q -> key_le q r -> key_le p r.
Proof. destruct p as [[]], q as [[]], r as [[]]; simpl; lia. Qed.

Lemma fcmp_key a b :
  is_nan a = false -> is_nan b = false -> fcmp a b <> Some Gt <-> key_le (fkey a) (fkey b).
Proof.
  destruct a as [|[]| |[] m e], b as [|[]| |[] m' e']; intros Ha Hb; simpl in *; try done;
    try (split; [intros _; lia | intros _ [=]]); try (split; [intros []; done | lia]);
    rewrite (pos_cmp_cont m m');
    destruct (Z.compare_spec e e'); try (split; [intros []; done | lia]);
    try (split; [intros _; lia | intros _ [=]]); subst;
    destruct (Pos.compare_spec m m'); simpl;
    try (split; [intros []; done | lia]); (split; [intros _; lia | intros _ [=]]).
Qed.

Lemma fcmp_trans a b c :
  is_nan a = false -> is_nan b = false -> is_nan c = false ->
  fcmp a b <> Some Gt -> fcmp b c <> Some Gt -> fcmp a c <> Some Gt.
Proof.
  intros Ha Hb Hc. rewrite !fcmp_key by done. eauto using key_le_trans.
Qed.

Lemma fcmp_some a b : is_nan a = false -> is_nan b = false -> exists c, fcmp a b = Some c.
Proof. intros Ha Hb. destruct (fcmp a b) eqn:E; [eauto|]. apply fcmp_nan_l in E. destruct E; congruence. Qed.

Lemma fle_iff a b : fle a b = true <-> is_nan a = false /\ is_nan b = false /\ key_le (fkey a) (fkey b).
Proof.
  split.
  - intros H. assert (is_nan a = false /\ is_nan b = false) as [Ha Hb].
    { unfold fle, SFleb in H. destruct (SFcompare a b) eqn:E; [|done].
      destruct (is_nan a) eqn:Ea, (is_nan b) eqn:Eb; try done;
        assert (fcmp a b = None) as Hn by (apply fcmp_nan_l; auto); unfold fcmp in Hn; congruence. }
    split_and!; [done..|]. apply fcmp_key; [done..|]. unfold fcmp. intros Hg. unfold fle, SFleb in H.
    by rewrite Hg in H.
  - intros (Ha & Hb & Hk). apply fcmp_key in Hk; [|done..]. destruct (fcmp_some a b Ha Hb) as [c Hc].
    unfold fle, SFleb. unfold fcmp in *. rewrite Hc in *. by destruct c.
Qed.

Lemma flt_iff a b : flt a b = true <-> is_nan a = false /\ is_nan b = false /\ fle b a = false.
Proof.
  unfold flt, SFltb, fle, SFleb. pose proof (fcmp_antisym a b) as Has. pose proof (fcmp_nan_l a b) as Hn.
  unfold fcmp in *. rewrite Has. destruct (SFcompare a b) as [[]|] eqn:E; simpl.
  - split; [done|]. intros (_ & _ & [=]).
  - split; [|done]. intros _. split_and!; [|  |done].
    + destruct (is_nan a); [|done]. discriminate (proj2 Hn (or_introl eq_refl)).
    + destruct (is_nan b); [|done]. discriminate (proj2 Hn (or_intror eq_refl)).
  - split; [done|]. intros (_ & _ & [=]).
  - split; [done|]. intros (Ha & Hb & _). destruct (proj1 Hn eq_refl); congruence.
Qed.

Lemma fle_trans a b c : fle a b = true -> fle b c = true -> fle a c = true.
Proof. rewrite !fle_iff. intros (? & ? & ?) (? & ? & ?). split_and!; try done. by eapply key_le_trans. Qed.

Lemma flt_le_trans a b c : flt a b = true -> fle b c = true -> flt a c = true.
Proof.
  rewrite !flt_iff. intros (Ha & Hb & Hba) Hbc. pose proof Hbc as (_ & Hc & _)%fle_iff. split_and!; [done..|].
  destruct (fle c a) eqn:E; [|done]. by rewrite (fle_trans b c a Hbc E) in Hba.
Qed.

(** Sanity: literals and casts agree with the values a Rust program prints. *)
Example lit_half : f64_lit 1 2 = S754_finite false 4503599627370496 (-53).
Proof. reflexivity. Qed.
Example ceil_ex : f_to_u64 (f64_ceil (f64_lit 17 10)) = 2.
Proof. reflexivity. Qed.
Example round_ex : f_to_i64 (f64_round (f64_lit (-5) 2)) = -3.
Proof. reflexivity. Qed.
