(* ===== verification/FloatErr.v ===== *)
(** * Rounding error of [f64] division and multiplication

    The bounds the exact-cents and drop-rate arguments rest on: away from
    overflow and underflow, a quotient or product of two [f64] is a normalised
    float within half a unit in the last place of the exact value, stated on
    integers (a relative error of at most [2^-53]).  Integers below [2^53] are
    represented exactly. *)
From S2P Require Import Prelude Floats.

(** ** Digits *)

Lemma digits2_pos_spec m :
  2 ^ (Zpos (digits2_pos m) - 1) <= Zpos m < 2 ^ Zpos (digits2_pos m).
Proof.
  induction m as [m IH|m IH|]; cbn [digits2_pos]; [| |done].
  all: rewrite Pos2Z.inj_succ; unfold Z.succ; rewrite Z.add_simpl_r.
  all: set (k := Z.pos (digits2_pos m)) in *.
  all: assert (2 ^ (k + 1) = 2 * 2 ^ k) by (rewrite Z.pow_add_r by lia; lia).
  all: assert (2 ^ k = 2 * 2 ^ (k - 1)) by (rewrite <- Z.pow_succ_r by lia; f_equal; lia).
  all: lia.
Qed.

Lemma Zdigits2_unique m k : 0 < m -> 2 ^ (k - 1) <= m < 2 ^ k -> Zdigits2 m = k.
Proof.
  intros Hm Hk. destruct m as [|p|]; try lia. simpl. pose proof (digits2_pos_spec p) as Hd.
  destruct (Z.lt_trichotomy (Z.pos (digits2_pos p)) k) as [H|[H|H]]; [|done|].
  - pose proof (Z.pow_le_mono_r 2 (Z.pos (digits2_pos p)) (k - 1)). lia.
  - pose proof (Z.pow_le_mono_r 2 k (Z.pos (digits2_pos p) - 1)). lia.
Qed.

Lemma Zdigits2_bounds m : 0 < m -> 2 ^ (Zdigits2 m - 1) <= m < 2 ^ Zdigits2 m.
Proof. destruct m as [|p|]; try lia. intros _. apply digits2_pos_spec. Qed.

Lemma Zdigits2_ge m k : 0 <= k -> 2 ^ k <= m -> k < Zdigits2 m.
Proof.
  intros Hk Hm. pose proof (Z.pow_pos_nonneg 2 k). pose proof (Zdigits2_bounds m ltac:(lia)) as Hd.
  destruct (Z.lt_ge_cases k (Zdigits2 m)); [done|].
  pose proof (Z.pow_le_mono_r 2 (Zdigits2 m) k). lia.
Qed.

Lemma Zdigits2_le m k : 0 < m -> m < 2 ^ k -> Zdigits2 m <= k.
Proof.
  intros Hm Hk. pose proof (Zdigits2_bounds m Hm).
  destruct (Z.le_gt_cases (Zdigits2 m) k); [done|].
  pose proof (Z.pow_le_mono_r 2 k (Zdigits2 m - 1)). lia.
Qed.

(** ** Locations

    [loc_ok m l n d]: the exact value [n/d] is [m] plus a fraction that [l]
    places against one half. *)
Definition loc_ok (m : Z) (l : location) (n d : Z) : Prop :=
  match l with
  | loc_Exact => n = m * d
  | loc_Inexact Lt => m * d < n /\ 2 * (n - m * d) < d
  | loc_Inexact Eq => 2 * (n - m * d) = d
  | loc_Inexact Gt => n < (m + 1) * d /\ 2 * (n - m * d) > d
  end.

Definition rec_ok (r : shr_record) (n d : Z) : Prop := loc_ok (shr_m r) (loc_of_shr_record r) n d.

Lemma rec_of_loc m l n d : loc_ok m l n d -> rec_ok (shr_record_of_loc m l) n d.
Proof. destruct l as [|[]]; done. Qed.

Lemma loc_of_rec_of_loc m l : loc_of_shr_record (shr_record_of_loc m l) = l.
Proof. by destruct l as [|[]]. Qed.

Lemma shr_1_ok r n d : 0 <= shr_m r -> 0 < d -> rec_ok r n d -> rec_ok (shr_1 r) n (2 * d).
Proof.
  destruct r as [m rr s]. unfold rec_ok. cbn [shr_m]. intros Hm Hd.
  destruct m as [|[p|p|]|]; [| | | |lia]; destruct rr, s; cbn [shr_1 shr_m loc_of_shr_record loc_ok orb].
  all: lia.
Qed.

Lemma shr_1_m r : 0 <= shr_m r -> shr_m (shr_1 r) = shr_m r / 2.
Proof.
  destruct r as [[|[p|p|]|] rr s]; cbn [shr_1 shr_m]; intros Hm; [done| | |done|lia].
  - Z.to_euclidean_division_equations; lia.
  - Z.to_euclidean_division_equations; lia.
Qed.

Lemma iter_pos_iter {A} (f : A -> A) p x : iter_pos f p x = Pos.iter f x p.
Proof.
  revert x; induction p as [p IH|p IH|]; intros x; simpl; [| |done].
  - rewrite !IH, <- !Pos.iter_swap. done.
  - by rewrite !IH.
Qed.

Lemma shr_iter_ok p r n d :
  0 <= shr_m r -> 0 < d -> rec_ok r n d ->
  rec_ok (iter_pos shr_1 p r) n (2 ^ Zpos p * d) /\ shr_m (iter_pos shr_1 p r) = shr_m r / 2 ^ Zpos p.
Proof.
  intros Hm Hd Hr. rewrite iter_pos_iter. induction p as [|p IH] using Pos.peano_ind.
  - simpl. split; [by apply shr_1_ok|]. by apply shr_1_m.
  - destruct IH as [IH1 IH2]. rewrite Pos.iter_succ, Pos2Z.inj_succ, Z.pow_succ_r by lia.
    assert (0 < 2 ^ Zpos p) by (apply Z.pow_pos_nonneg; lia).
    assert (0 <= shr_m (Pos.iter shr_1 r p)) by (rewrite IH2; by apply Z.div_pos).
    split.
    + rewrite <- Z.mul_assoc. apply shr_1_ok; [done|nia|done].
    + rewrite shr_1_m, IH2 by done. rewrite Z.div_div by lia. f_equal. lia.
Qed.

Lemma round_half m l n d :
  0 < d -> loc_ok m l n d ->
  let M := round_nearest_even m l in 2 * Z.abs (M * d - n) <= d /\ m <= M <= m + 1.
Proof.
  intros Hd. destruct l as [|[]]; cbn [loc_ok round_nearest_even]; intros H; try (destruct (Z.even m)); lia.
Qed.

Lemma new_location_ok m q r :
  0 < m -> 0 <= r < m -> loc_ok q (new_location m r) (q * m + r) m.
Proof.
  intros Hm Hr. unfold new_location, new_location_even, new_location_odd.
  destruct (Z.even m) eqn:Ev; (destruct (Z.eqb_spec r 0) as [->|Hne]; [simpl; lia|]).
  { destruct (Z.compare_spec (2 * r) m); cbn [loc_ok]; lia. }
  assert (m = 2 * (m / 2) + 1) as Hodd.
  { rewrite <- Z.negb_odd in Ev. apply negb_false_iff in Ev. rewrite Zodd_mod in Ev.
    apply Z.eqb_eq in Ev. pose proof (Z.div_mod m 2). lia. }
  destruct (Z.compare_spec (2 * r + 1) m); cbn [loc_ok]; lia.
Qed.

(** ** Rounding *)

Lemma loc_ok_le m l n d : 0 < d -> loc_ok m l n d -> m * d <= n.
Proof. intros Hd. destruct l as [|[]]; simpl; lia. Qed.

Lemma shr_fexp_spec m e l n d :
  0 <= m -> 0 < d -> loc_ok m l n d ->
  let k := Z.max 0 (fexp 53 1024 (Zdigits2 m + e) - e) in
  exists r, shr_fexp 53 1024 m e l = (r, e + k) /\ rec_ok r n (2 ^ k * d) /\ shr_m r = m / 2 ^ k.
Proof.
  intros Hm Hd Hl. apply rec_of_loc in Hl. unfold shr_fexp, shr.
  assert (shr_m (shr_record_of_loc m l) = m) as Hr by by destruct l as [|[]].
  destruct (fexp 53 1024 (Zdigits2 m + e) - e) as [|p|p] eqn:E.
  1, 3: exists (shr_record_of_loc m l); replace (Z.max 0 _) with 0 by lia;
    rewrite Z.add_0_r, Z.pow_0_r, Z.mul_1_l, Z.div_1_r; done.
  destruct (shr_iter_ok p _ n d ltac:(by rewrite Hr) Hd Hl) as [H1 H2]. rewrite Hr in H2.
  exists (iter_pos shr_1 p (shr_record_of_loc m l)). replace (Z.max 0 (Z.pos p)) with (Z.pos p) by lia. done.
Qed.

(** An exponent in the normal range. *)
Definition normal_exp (z : Z) : Prop := -1021 <= z <= 1023.

Lemma round_aux_spec sx mx ex lx n d :
  2 ^ 52 <= mx -> 0 < d -> loc_ok mx lx n d -> normal_exp (Zdigits2 mx + ex) ->
  exists m e, binary_round_aux 53 1024 sx mx ex lx = S754_finite sx m e /\
    2 ^ 52 <= Zpos m < 2 ^ 53 /\ ex <= e /\
    2 ^ 53 * Z.abs (Zpos m * 2 ^ (e - ex) * d - n) <= n.
Proof.
  intros Hmx Hd Hl [Hlo Hhi]. pose proof (Zdigits2_bounds mx ltac:(lia)) as HD.
  pose proof (Zdigits2_ge mx 52 ltac:(lia) Hmx) as HD52. pose proof (loc_ok_le _ _ _ _ Hd Hl) as Hn.
  destruct (shr_fexp_spec mx ex lx n d ltac:(lia) Hd Hl) as (r1 & E1 & R1 & M1).
  replace (Z.max 0 _) with (Zdigits2 mx - 53) in * by (unfold fexp, emin; lia).
  set (D := Zdigits2 mx) in *. set (k := D - 53) in *. set (m1 := mx / 2 ^ k) in *.
  assert (0 < 2 ^ k) by (apply Z.pow_pos_nonneg; lia).
  assert (2 ^ D = 2 ^ 53 * 2 ^ k /\ 2 ^ (D - 1) = 2 ^ 52 * 2 ^ k) as [HD1 HD2].
  { split; rewrite <- Z.pow_add_r by lia; f_equal; lia. }
  assert (2 ^ 52 <= m1 < 2 ^ 53) as Hm1.
  { unfold m1. split; [apply Z.div_le_lower_bound; lia|apply Z.div_lt_upper_bound; lia]. }
  unfold binary_round_aux. rewrite E1.
  destruct (round_half _ _ n (2 ^ k * d) ltac:(nia) R1) as [Herr HM]. rewrite M1 in *.
  set (M := round_nearest_even m1 _) in *.
  assert (2 ^ 53 * Z.abs (M * (2 ^ k * d) - n) <= n) as Hrel by nia.
  destruct (shr_fexp_spec M (ex + k) loc_Exact M 1 ltac:(lia) ltac:(lia) ltac:(simpl; lia)) as (r2 & E2 & _ & M2).
  rewrite E2. destruct (Z.eq_dec M (2 ^ 53)) as [HMe|HMe].
  - rewrite HMe in *. change (Zdigits2 (2 ^ 53)) with 54 in *.
    replace (Z.max 0 _) with 1 in * by (unfold fexp, emin; lia). change (2 ^ 53 / 2 ^ 1) with (2 ^ 52) in M2.
    rewrite M2. change (2 ^ 52) with (Z.pos 4503599627370496). cbv iota.
    rewrite (proj2 (Z.leb_le _ _)) by lia. exists 4503599627370496%positive, (ex + k + 1).
    split_and!; try lia; [done|].
    replace (ex + k + 1 - ex) with (k + 1) by lia. rewrite Z.pow_add_r by lia.
    replace (Z.pos 4503599627370496 * (2 ^ k * 2 ^ 1) * d) with (2 ^ 53 * (2 ^ k * d)) by lia. done.
  - assert (Zdigits2 M = 53) as HM53 by (apply Zdigits2_unique; change (53 - 1) with 52; lia).
    rewrite HM53 in *. replace (Z.max 0 _) with 0 in * by (unfold fexp, emin; lia).
    rewrite Z.pow_0_r, Z.div_1_r in M2. rewrite M2.
    destruct M as [|p|p] eqn:EM; try lia. rewrite (proj2 (Z.leb_le _ _)) by lia.
    exists p, (ex + k + 0). split_and!; try lia; [done|].
    replace (ex + k + 0 - ex) with k by lia. rewrite <- Z.mul_assoc. done.
Qed.

(** ** Integers, quotients and products *)

(** A normalised positive float of value [m * 2^e]. *)
Definition normal (m : positive) : Prop := 2 ^ 52 <= Zpos m < 2 ^ 53.

Lemma iter_xO m p : Zpos (Pos.iter xO m p) = Zpos m * 2 ^ Zpos p.
Proof.
  induction p as [|p IH] using Pos.peano_ind; [simpl; lia|].
  rewrite Pos.iter_succ, Pos2Z.inj_succ, Z.pow_succ_r by lia. lia.
Qed.

Lemma f64_of_Z_exact z :
  0 < z < 2 ^ 53 ->
  exists m e, f64_of_Z z = S754_finite false m e /\ normal m /\ -52 <= e <= 0 /\ Zpos m = z * 2 ^ (- e).
Proof.
  intros [Hz Hz']. destruct z as [|p|p]; try lia.
  pose proof (Zdigits2_bounds (Zpos p) Hz) as HD. simpl Zdigits2 in HD.
  assert (Z.pos (digits2_pos p) <= 53) as HD53 by (apply (Zdigits2_le (Zpos p)); [lia|exact Hz']).
  set (D := Z.pos (digits2_pos p)) in *.
  unfold f64_of_Z, binary_normalize, binary_round, shl_align. fold D.
  assert (exists q, match fexp 53 1024 (D + 0) - 0 with
    | Z.neg d => (Pos.iter xO p d, fexp 53 1024 (D + 0)) | _ => (p, 0) end = (q, D - 53) /\
    Z.pos q = Z.pos p * 2 ^ (53 - D)) as (q & -> & Hq).
  { replace (fexp 53 1024 (D + 0)) with (D - 53) by (unfold fexp, emin; lia).
    destruct (D - 53 - 0) as [|k|k] eqn:Ek; [| lia |].
    - exists p. replace (53 - D) with 0 by lia. split; [f_equal; lia|lia].
    - exists (Pos.iter xO p k). split; [done|]. rewrite iter_xO. do 2 f_equal. lia. }
  assert (2 ^ 52 <= Z.pos q < 2 ^ 53) as Hqr.
  { assert (2 ^ 52 = 2 ^ (D - 1) * 2 ^ (53 - D)) as -> by (rewrite <- Z.pow_add_r by lia; f_equal; lia).
    assert (2 ^ 53 = 2 ^ D * 2 ^ (53 - D)) as -> by (rewrite <- Z.pow_add_r by lia; f_equal; lia).
    assert (0 < 2 ^ (53 - D)) by (apply Z.pow_pos_nonneg; lia). rewrite Hq. clear Hq. nia. }
  destruct (round_aux_spec false (Z.pos q) (D - 53) loc_Exact (Z.pos q) 1) as (m & e & -> & Hm & He & Herr);
    [lia|lia|simpl; lia|rewrite (Zdigits2_unique _ 53) by (change (53 - 1) with 52; lia); unfold normal_exp; lia|].
  assert (Z.pos m * 2 ^ (e - (D - 53)) = Z.pos q) as Heq by lia.
  assert (e = D - 53) as ->.
  { destruct (Z.eq_dec e (D - 53)); [done|]. pose proof (Z.pow_le_mono_r 2 1 (e - (D - 53))). nia. }
  exists m, (D - 53). replace (D - 53 - (D - 53)) with 0 in Heq by lia.
  replace (- (D - 53)) with (53 - D) by lia. split_and!; [done|exact Hm|lia|lia|lia].
Qed.

(** [SFmul]: the value [m1 2^e1 * m2 2^e2], to relative error [2^-53]. *)
Lemma f64_mul_spec m1 e1 m2 e2 :
  normal m1 -> normal m2 -> -900 <= e1 + e2 <= 900 ->
  exists m e, f64_mul (S754_finite false m1 e1) (S754_finite false m2 e2) = S754_finite false m e /\
    normal m /\ e1 + e2 <= e /\
    2 ^ 53 * Z.abs (Zpos m * 2 ^ (e - (e1 + e2)) - Zpos m1 * Zpos m2) <= Zpos m1 * Zpos m2.
Proof.
  intros H1 H2 He. unfold normal in *. unfold f64_mul, SFmul. simpl xorb.
  destruct (round_aux_spec false (Z.pos (m1 * m2)) (e1 + e2) loc_Exact (Z.pos (m1 * m2)) 1)
    as (m & e & -> & Hm & Hle & Herr).
  - rewrite Pos2Z.inj_mul. nia.
  - lia.
  - simpl. lia.
  - assert (52 < Zdigits2 (Z.pos (m1 * m2))) by (apply Zdigits2_ge; [lia|rewrite Pos2Z.inj_mul; nia]).
    assert (Zdigits2 (Z.pos (m1 * m2)) <= 106).
    { apply Zdigits2_le; [lia|]. rewrite Pos2Z.inj_mul. change (2 ^ 106) with (2 ^ 53 * 2 ^ 53). nia. }
    unfold normal_exp. lia.
  - exists m, e. rewrite Pos2Z.inj_mul in Herr. split_and!; try done; lia.
Qed.

(** [SFdiv] of two integers below [2^52]: the quotient to relative error [2^-53]. *)
Lemma f64_div_of_Z a b :
  0 < a < 2 ^ 52 -> 0 < b < 2 ^ 52 ->
  exists m e, f64_div (f64_of_Z a) (f64_of_Z b) = S754_finite false m e /\
    normal m /\ -120 <= e <= 0 /\
    2 ^ 53 * Z.abs (Zpos m * b - a * 2 ^ (- e)) <= a * 2 ^ (- e).
Proof.
  intros Ha Hb.
  destruct (f64_of_Z_exact a ltac:(lia)) as (m1 & e1 & -> & Hm1 & He1 & V1).
  destruct (f64_of_Z_exact b ltac:(lia)) as (m2 & e2 & -> & Hm2 & He2 & V2).
  unfold normal in *. unfold f64_div, SFdiv, SFdiv_core_binary.
  rewrite !(Zdigits2_unique (Zpos _) 53) by (change (53 - 1) with 52; lia).
  replace (Z.min _ (e1 - e2)) with (e1 - e2 - 53) by (unfold fexp, emin; lia).
  replace (e1 - e2 - (e1 - e2 - 53)) with 53 by lia. rewrite Z.shiftl_mul_pow2 by lia.
  pose proof (Z.div_mod (Z.pos m1 * 2 ^ 53) (Z.pos m2) ltac:(lia)) as Hdm.
  pose proof (Z.mod_pos_bound (Z.pos m1 * 2 ^ 53) (Z.pos m2) ltac:(lia)) as Hr.
  unfold Z.div, Z.modulo in Hdm, Hr. destruct (Z.div_eucl (Z.pos m1 * 2 ^ 53) (Z.pos m2)) as [q r].
  simpl xorb.
  assert (2 ^ 52 <= q < 2 ^ 54) as Hq by nia.
  assert (52 < Zdigits2 q) by (apply Zdigits2_ge; lia).
  assert (Zdigits2 q <= 54) by (apply Zdigits2_le; lia).
  destruct (round_aux_spec false q (e1 - e2 - 53) (new_location (Z.pos m2) r) (Z.pos m1 * 2 ^ 53) (Z.pos m2))
    as (m & e & -> & Hm & Hle & Herr); [lia|lia| |unfold normal_exp; lia|].
  { rewrite Hdm, (Z.mul_comm (Z.pos m2) q). by apply new_location_ok. }
  set (E := e1 - e2 - 53) in *.
  assert (a * 2 ^ (- E - e2) = Z.pos m1 * 2 ^ 53) as Hn.
  { rewrite V1, <- Z.mul_assoc, <- Z.pow_add_r by lia. do 2 f_equal. lia. }
  assert (e <= 0) as He0.
  { destruct (Z.le_gt_cases e 0); [done|exfalso]. pose proof (Z.pow_le_mono_r 2 (1 + (- E)) (e - E)) as Hp.
    replace (- E - e2) with ((- E) + (- e2)) in Hn by lia. rewrite Z.pow_add_r in Hn by lia.
    rewrite Z.pow_add_r in Hp by lia. rewrite V2, <- Hn in Herr.
    assert (0 < 2 ^ (- E) * 2 ^ (- e2)) by (apply Z.mul_pos_pos; apply Z.pow_pos_nonneg; lia).
    assert (2 ^ 53 * (2 ^ (- E) * 2 ^ (- e2)) <= Z.pos m * 2 ^ (e - E) * (b * 2 ^ (- e2))).
    { replace (2 ^ 53 * (2 ^ (- E) * 2 ^ (- e2))) with (2 ^ 52 * (2 ^ 1 * 2 ^ (- E)) * (1 * 2 ^ (- e2))) by lia.
      assert (0 < 2 ^ (- e2)) by (apply Z.pow_pos_nonneg; lia).
      assert (0 < 2 ^ (- E)) by (apply Z.pow_pos_nonneg; lia).
      apply Z.mul_le_mono_nonneg; [lia| |lia|apply Z.mul_le_mono_nonneg_r; lia].
      apply Z.mul_le_mono_nonneg; lia. }
    set (U := 2 ^ (- E) * 2 ^ (- e2)) in *. set (L := Z.pos m * 2 ^ (e - E) * (b * 2 ^ (- e2))) in *.
    assert (a * U < 2 ^ 52 * U) by (apply Z.mul_lt_mono_pos_r; lia). lia. }
  assert (0 < 2 ^ (e - E) * 2 ^ (- e2)) as HT by (apply Z.mul_pos_pos; apply Z.pow_pos_nonneg; lia).
  exists m, e. fold (normal m). split; [done|]. split; [exact Hm|]. split; [lia|].
  apply (Z.mul_le_mono_pos_l _ _ _ HT).
  replace (Z.pos m * 2 ^ (e - E) * Z.pos m2) with ((2 ^ (e - E) * 2 ^ (- e2)) * (Z.pos m * b)) in Herr
    by (rewrite V2; ring).
  replace (Z.pos m1 * 2 ^ 53) with ((2 ^ (e - E) * 2 ^ (- e2)) * (a * 2 ^ (- e))) in Herr.
  2:{ rewrite <- Hn. replace (- E - e2) with ((e - E) + (- e2) + (- e)) by lia.
      rewrite !Z.pow_add_r by lia. ring. }
  rewrite <- Z.mul_sub_distr_l, Z.abs_mul in Herr. lia.
Qed.

(** ** Comparison and rounding of normalised floats *)

(** Normalised floats compare as their values. *)
Lemma normal_flt m1 e1 m2 e2 :
  normal m1 -> normal m2 -> e1 <= 0 -> e2 <= 0 ->
  Zpos m1 * 2 ^ (- e2) < Zpos m2 * 2 ^ (- e1) ->
  flt (S754_finite false m1 e1) (S754_finite false m2 e2) = true.
Proof.
  unfold normal. intros H1 H2 He1 He2 Hv. unfold flt, SFltb. simpl.
  destruct (Z.compare_spec e1 e2) as [->|Hlt|Hgt]; [|done|exfalso].
  - fold (Pos.compare m1 m2). assert (0 < 2 ^ (- e2)) by (apply Z.pow_pos_nonneg; lia).
    destruct (Pos.compare_spec m1 m2); [nia|done|nia].
  - replace (- e2) with (- e1 + (e1 - e2)) in Hv by lia. rewrite Z.pow_add_r in Hv by lia.
    assert (0 < 2 ^ (- e1)) by (apply Z.pow_pos_nonneg; lia).
    pose proof (Z.pow_le_mono_r 2 1 (e1 - e2) ltac:(lia) ltac:(lia)) as Hq.
    set (P := 2 ^ (- e1)) in *. set (Q := 2 ^ (e1 - e2)) in *.
    assert (2 ^ 52 * 2 <= Z.pos m1 * Q) by (apply Z.mul_le_mono_nonneg; lia).
    assert (Z.pos m2 * P <= Z.pos m1 * Q * P) by (apply Z.mul_le_mono_nonneg_r; lia). lia.
Qed.

(** A float within less than one half of an integer rounds to it. *)
Lemma round_near m e z :
  -1000 <= e <= 0 -> 0 <= z < 2 ^ 52 ->
  2 * Z.abs (Zpos m - z * 2 ^ (- e)) < 2 ^ (- e) ->
  f_to_i64 (f64_round (S754_finite false m e)) = z.
Proof.
  intros He Hz Hd. unfold f64_round. destruct (Z.leb_spec 0 e) as [H0|H0].
  { assert (e = 0) as -> by lia. change (2 ^ (- 0)) with 1 in Hd. unfold f_to_i64, ftrunc.
    rewrite Z.leb_refl, Z.shiftl_0_r. lia. }
  rewrite Z.shiftr_div_pow2, Z.shiftl_mul_pow2, Z.mul_1_l by lia.
  replace ((2 * Z.pos m + 2 ^ (- e)) / 2 ^ (1 - e)) with z.
  2:{ apply Z.div_unique with (2 * Z.pos m + 2 ^ (- e) - 2 ^ (1 - e) * z); [|lia].
      left. replace (1 - e) with (1 + - e) by lia. rewrite Z.pow_add_r by lia. lia. }
  destruct (Z.eq_dec z 0) as [->|Hz0]; [done|].
  destruct (f64_of_Z_exact z ltac:(lia)) as (m' & e' & -> & _ & He' & V).
  unfold f_to_i64, ftrunc. destruct (Z.leb_spec 0 e').
  - assert (e' = 0) as -> by lia. rewrite Z.shiftl_0_r. change (2 ^ (- 0)) with 1 in V. lia.
  - rewrite Z.shiftr_div_pow2, V, Z.div_mul by lia. lia.
Qed.

Lemma f64_of_Z_opp z : z <> 0 -> f64_of_Z (- z) = SFopp (f64_of_Z z).
Proof.
  destruct z as [|p|p]; [done| |]; intros _; simpl; unfold binary_round;
    destruct (shl_align _ _ _) as [q ez]; unfold binary_round_aux;
    destruct (shr_fexp _ _ _ _ _) as [r1 e1]; destruct (shr_fexp _ _ _ _ _) as [r2 e2];
    destruct (shr_m r2); try done; by destruct (_ <=? _).
Qed.
