(* ===== verification/Text.v ===== *)
(** * Text

    The [str] methods the program uses on UTF-8 bytes: [trim], [lines], and the
    tests built on them. *)
From S2P Require Import Prelude.

Definition utf8 (s : string) : list Z := Z.of_nat ∘ Ascii.nat_of_ascii <$> String.list_ascii_of_string s.

(** [char::is_whitespace], by the number of bytes of the character. *)
Definition white1 (b : Z) : bool := ((9 <=? b) && (b <=? 13)) || (b =? 32).
Definition white2 (b c : Z) : bool := (b =? 0xC2) && ((c =? 0x85) || (c =? 0xA0)).
Definition white3 (b c d : Z) : bool :=
  ((b =? 0xE1) && (c =? 0x9A) && (d =? 0x80)) ||
  ((b =? 0xE2) && (c =? 0x80) && (((0x80 <=? d) && (d <=? 0x8A)) || (d =? 0xA8) || (d =? 0xA9) || (d =? 0xAF))) ||
  ((b =? 0xE2) && (c =? 0x81) && (d =? 0x9F)) ||
  ((b =? 0xE3) && (c =? 0x80) && (d =? 0x80)).

(** Drop white space from the front; [w2] and [w3] read the bytes of a character
    in the order in which they come. *)
Fixpoint strip (w2 : Z -> Z -> bool) (w3 : Z -> Z -> Z -> bool) (l : list Z) : list Z :=
  match l with
  | [] => []
  | b :: l1 =>
      if white1 b then strip w2 w3 l1
      else match l1 with
           | [] => l
           | c :: l2 =>
               if w2 b c then strip w2 w3 l2
               else match l2 with
                    | [] => l
                    | d :: l3 => if w3 b c d then strip w2 w3 l3 else l
                    end
           end
  end.

Definition trim_start : list Z -> list Z := strip white2 white3.
Definition trim_end (l : list Z) : list Z :=
  rev (strip (fun c b => white2 b c) (fun d c b => white3 b c d) (rev l)).
Definition trim (l : list Z) : list Z := trim_end (trim_start l).
Definition is_empty (l : list Z) : bool := match l with [] => true | _ => false end.

(** [str::lines]: terminated by a line feed, a carriage return before it dropped. *)
Definition strip_cr (rev_line : list Z) : list Z :=
  match rev_line with b :: l => if b =? 13 then l else rev_line | [] => [] end.
Fixpoint lines_from (rev_line l : list Z) : list (list Z) :=
  match l with
  | [] => match rev_line with [] => [] | _ => [rev rev_line] end
  | b :: l => if b =? 10 then rev (strip_cr rev_line) :: lines_from [] l else lines_from (b :: rev_line) l
  end.
Definition lines : list Z -> list (list Z) := lines_from [].

(** [std::str::from_utf8]: the well-formed byte sequences of the Unicode standard. *)
Definition tail_byte (b : Z) : bool := (0x80 <=? b) && (b <=? 0xBF).
Definition seq2 (b c : Z) : bool := (0xC2 <=? b) && (b <=? 0xDF) && tail_byte c.
Definition seq3 (b c d : Z) : bool :=
  tail_byte d &&
  (((b =? 0xE0) && (0xA0 <=? c) && (c <=? 0xBF)) ||
   ((((0xE1 <=? b) && (b <=? 0xEC)) || (b =? 0xEE) || (b =? 0xEF)) && tail_byte c) ||
   ((b =? 0xED) && (0x80 <=? c) && (c <=? 0x9F))).
Definition seq4 (b c d e : Z) : bool :=
  tail_byte d && tail_byte e &&
  (((b =? 0xF0) && (0x90 <=? c) && (c <=? 0xBF)) ||
   ((0xF1 <=? b) && (b <=? 0xF3) && tail_byte c) ||
   ((b =? 0xF4) && (0x80 <=? c) && (c <=? 0x8F))).
Fixpoint utf8_valid (l : list Z) : bool :=
  match l with
  | [] => true
  | b :: l1 =>
      if b <=? 0x7F then utf8_valid l1
      else match l1 with
           | [] => false
           | c :: l2 =>
               if seq2 b c then utf8_valid l2
               else match l2 with
                    | [] => false
                    | d :: l3 =>
                        if seq3 b c d then utf8_valid l3
                        else match l3 with
                             | [] => false
                             | e :: l4 => if seq4 b c d e then utf8_valid l4 else false
                             end
                    end
           end
  end.

(** The string of a byte sequence. *)
Definition of_bytes (l : list Z) : string :=
  String.string_of_list_ascii ((fun b => Ascii.ascii_of_nat (Z.to_nat b)) <$> l).

Lemma utf8_of_bytes l : Forall in_u8 l -> utf8 (of_bytes l) = l.
Proof.
  unfold utf8, of_bytes. rewrite String.list_ascii_of_string_of_list_ascii, <- list_fmap_compose.
  induction 1 as [|b l Hb _ IH]; [done|]. rewrite fmap_cons, IH. f_equal.
  unfold compose, in_u8, u8_max in *. rewrite Ascii.nat_ascii_embedding by lia. lia.
Qed.

Lemma of_bytes_utf8 s : of_bytes (utf8 s) = s.
Proof.
  induction s as [|c s IH]; [done|]. unfold utf8, of_bytes in *. simpl.
  rewrite Nat2Z.id, Ascii.ascii_nat_embedding. f_equal. exact IH.
Qed.

(** ** [str::parse::<u32>] *)

Definition digit_value (c : Ascii.ascii) : option Z :=
  let n := Z.of_nat (Ascii.nat_of_ascii c) in
  if (48 <=? n) && (n <=? 57) then Some (n - 48) else None.

(** The digits after those that make [acc]; an overflow of [max] fails. *)
Fixpoint parse_digits (max acc : Z) (s : string) : option Z :=
  match s with
  | EmptyString => Some acc
  | String c s =>
      match digit_value c with
      | Some d => let n := acc * 10 + d in if n <=? max then parse_digits max n s else None
      | None => None
      end
  end.

Definition parse_u32 (s : string) : option Z :=
  match s with
  | EmptyString => None
  | String c EmptyString => parse_digits u32_max 0 s
  | String c rest => if bool_decide (c = Ascii.ascii_of_nat 43) then parse_digits u32_max 0 rest
                     else parse_digits u32_max 0 s
  end.

Lemma digit_value_pretty (x : N) : digit_value (pretty_N_char (x mod 10)) = Some (Z.of_N (x mod 10)).
Proof.
  pose proof (N.mod_lt x 10 ltac:(lia)) as Hm. generalize dependent (x mod 10)%N. intros d Hd.
  assert (d = 0 \/ d = 1 \/ d = 2 \/ d = 3 \/ d = 4 \/ d = 5 \/ d = 6 \/ d = 7 \/ d = 8 \/ d = 9)%N as Hc by lia.
  repeat destruct Hc as [->|Hc]; try done. by subst.
Qed.

(** Printing and reading back the digits of [x]. *)
Lemma parse_pretty_go max (x : N) s :
  Z.of_N x <= max -> parse_digits max 0 (pretty_N_go x s) = parse_digits max (Z.of_N x) s.
Proof.
  revert s; induction (N.lt_wf_0 x) as [x _ IH]; intros s Hx.
  assert (x = 0 \/ 0 < x)%N as [->|Hpos] by lia; [by rewrite pretty_N_go_0|].
  pose proof (N.div_mod x 10 ltac:(lia)) as Hdm. pose proof (N.div_lt x 10 Hpos ltac:(lia)) as Hlt.
  rewrite pretty_N_go_step by done. rewrite IH by lia. cbn [parse_digits].
  rewrite digit_value_pretty. replace (Z.of_N (x / 10) * 10 + Z.of_N (x mod 10)) with (Z.of_N x) by lia.
  by rewrite (proj2 (Z.leb_le _ _) Hx).
Qed.

Lemma digit_not_plus c : is_digit c = true -> bool_decide (c = Ascii.ascii_of_nat 43) = false.
Proof. intros Hc. apply bool_decide_eq_false. intros ->. discriminate Hc. Qed.

Lemma parse_u32_digits s : s <> ""%string -> all_chars is_digit s = true -> parse_u32 s = parse_digits u32_max 0 s.
Proof.
  destruct s as [|c [|c' s]]; [done|done|]. intros _ [Hc _]%andb_true_iff. unfold parse_u32.
  by rewrite digit_not_plus.
Qed.

(** A [u32] printed in decimal parses back. *)
Lemma parse_u32_pretty z : in_u32 z -> parse_u32 (pretty z) = Some z.
Proof.
  unfold in_u32. intros Hz. destruct z as [|p|p]; [done| |lia].
  change (pretty (Z.pos p)) with (pretty (N.pos p)). pose proof (pretty_N_digits (N.pos p)) as Hd.
  unfold pretty, pretty_N in *. rewrite decide_False in * by done.
  rewrite parse_u32_digits; [|intros He|done].
  - rewrite parse_pretty_go by lia. done.
  - pose proof (parse_pretty_go u32_max (N.pos p) "" ltac:(lia)) as Hp. rewrite He in Hp. done.
Qed.

Example trim_ex : trim (utf8 "  a b
 ") = utf8 "a b".
Proof. reflexivity. Qed.
Example lines_ex : lines [97; 13; 10; 10; 98] = [[97]; []; [98]].
Proof. reflexivity. Qed.
