(* ===== verification/Path.v ===== *)
(** * Paths

    [std::path::Path] as the program uses it on Unix: [parent], [join], and a path
    resolved against the working directory. *)
From S2P Require Import Prelude.
From Stdlib Require Import Ascii.

Module Path.

Definition slash : ascii := "/"%char.
Definition dot : ascii := "."%char.
Definition is_absolute (p : string) : bool :=
  match p with String c _ => bool_decide (c = slash) | EmptyString => false end.

(** The root, or the [.] a path begins with: what [Components] does not read from the
    back of the body. *)
Definition prefix (p : list ascii) : list ascii :=
  match p with
  | c :: rest =>
      if bool_decide (c = slash) then [c]
      else if bool_decide (c = dot) then
        match rest with [] => [c] | d :: _ => if bool_decide (d = slash) then [c] else [] end
      else []
  | [] => []
  end.

(** The last component of a reversed body, reversed, and what is before its slash. *)
Fixpoint last_component (body : list ascii) : list ascii * list ascii :=
  match body with
  | [] => ([], [])
  | c :: body => if bool_decide (c = slash) then ([], body)
                 else let '(comp, rest) := last_component body in (c :: comp, rest)
  end.
(** [parse_single_component]: empty components and [.] are skipped. *)
Definition skipped (comp : list ascii) : bool := bool_decide (comp = []) || bool_decide (comp = [dot]).

(** [next_back] on the body: what is left once the last component has been read. *)
Fixpoint next_back (fuel : nat) (body : list ascii) : option (list ascii) :=
  match fuel, body with
  | _, [] | O, _ => None
  | S fuel, _ => let '(comp, rest) := last_component body in
                 if skipped comp then next_back fuel rest else Some rest
  end.
(** [trim_right] *)
Fixpoint trim_right (fuel : nat) (body : list ascii) : list ascii :=
  match fuel, body with
  | _, [] | O, _ => []
  | S fuel, _ => let '(comp, rest) := last_component body in
                 if skipped comp then trim_right fuel rest else body
  end.

Definition parent (p : string) : option string :=
  let l := String.list_ascii_of_string p in
  let pre := prefix l in
  let body := rev (drop (length pre) l) in
  match next_back (length body) body with
  | Some rest => Some (String.string_of_list_ascii (pre ++ rev (trim_right (length rest) rest)))
  | None => match pre with
            | c :: _ => if bool_decide (c = dot) then Some ""%string else None
            | [] => None
            end
  end.

(** [join]: an absolute path replaces what it is joined to. *)
Definition join (p q : string) : string :=
  if is_absolute q then q
  else match last (String.list_ascii_of_string p) with
       | None => q
       | Some c => if bool_decide (c = slash) then p +:+ q else p +:+ "/" +:+ q
       end.

(** What the operating system opens. *)
Definition resolve (cwd p : string) : string := join cwd p.

Example parents : parent <$> ["a/b/c.onnx"; "m.onnx"; "/m"; "/"; ""; "."; "./m"; "a//b/"; "a/./b"; ".."; "/a/"; "a/b/."; ".m"; "./."]%string =
  [Some "a/b"; Some ""; Some "/"; None; None; Some ""; Some "."; Some "a"; Some "a"; Some ""; Some "/"; Some "a"; Some ""; Some ""]%string.
Proof. reflexivity. Qed.

Lemma last_component_bare l : slash ∉ l -> last_component l = (l, []).
Proof.
  induction l as [|c l IH]; [done|]. rewrite not_elem_of_cons. intros [Hc Hl]. cbn.
  rewrite bool_decide_false by congruence. by rewrite IH.
Qed.

(** A file name alone has an empty parent, which is not no parent. *)
Lemma parent_bare p : slash ∉ String.list_ascii_of_string p -> p <> ""%string -> p <> "."%string -> parent p = Some ""%string.
Proof.
  intros Hs He Hd. unfold parent. set (l := String.list_ascii_of_string p) in *.
  assert (l <> []) as Hne by (destruct p; done).
  assert (l <> [dot]) as Hnd.
  { intros E. apply Hd. rewrite <- (String.string_of_list_ascii_of_string p). fold l. by rewrite E. }
  assert (prefix l = []) as ->.
  { destruct l as [|c [|d l]]; [done|..]; rewrite !not_elem_of_cons in Hs; cbn; repeat case_bool_decide; naive_solver. }
  cbn [length]. rewrite drop_0. destruct (rev l) as [|c body] eqn:Er.
  { apply (f_equal (@rev ascii)) in Er. rewrite rev_involutive in Er. done. }
  assert (slash ∉ rev l) as Hsr by by intros Hin%list_elem_of_In%in_rev%list_elem_of_In.
  change (next_back (length (c :: body)) (c :: body)) with
    (let '(comp, rest) := last_component (c :: body) in if skipped comp then next_back (length body) rest else Some rest).
  rewrite <- Er, last_component_bare by done.
  unfold skipped. rewrite !bool_decide_false; [done| |].
  - intros E. apply (f_equal (@rev ascii)) in E. by rewrite rev_involutive in E.
  - by rewrite Er.
Qed.
End Path.
