(* ===== verification/Config.v ===== *)
(** * Configuration

    [bidder-core/src/config/mod.rs]: the sections of [config.toml] as records,
    the enumerations, the values [serde] fills in for absent keys, and the budget
    lookup of the pipeline.  Reading the file and the environment is [figment]'s
    work; what it extracts is the [Config] value the other files take. *)
From S2P Require Import Prelude Floats.

(** An address to bind: the bytes of the IPv4 or IPv6 address and the port. *)
Record SocketAddr := { sa_ip : list Z; sa_port : Z }.

Record PostgresConfig := {
  pg_url : string;
  pg_max_connections : Z;
  pg_min_connections : Z;
  pg_acquire_timeout_ms : Z;
  pg_idle_timeout_secs : Z;
  pg_max_lifetime_secs : Z;
}.

Record RedisConfig := {
  rc_url : string;
  rc_pool_size : nat;
  rc_segment_cache_capacity : Z;
  rc_segment_cache_ttl_secs : Z;
}.

Record CatalogConfig := {
  cc_refresh_interval_secs : Z;
  cc_max_consecutive_failures : Z;
}.

Record ServerConfig := {
  sv_bind : SocketAddr;
  sv_max_concurrency : nat;
  sv_warmup_enabled : bool;
}.

Module LogFormat.
Inductive t := Json | Pretty.
#[global] Instance eq_dec : EqDecision t.
Proof. solve_decision. Defined.
End LogFormat.

Record TelemetryConfig := {
  tl_otlp_endpoint : string;
  tl_success_sample_rate : f64;
  tl_log_format : LogFormat.t;
  tl_service_name : string;
  tl_tail_sampling_via_collector : bool;
}.

Record MetricsConfig := { mt_bind : SocketAddr }.

Record LatencyBudgetConfig := {
  http_parse_ms : Z;
  request_validate_ms : Z;
  user_enrichment_ms : Z;
  candidate_retrieval_ms : Z;
  candidate_limit_ms : Z;
  scoring_ms : Z;
  frequency_cap_ms : Z;
  ranking_ms : Z;
  budget_pacing_ms : Z;
  response_build_ms : Z;
  pipeline_deadline_ms : Z;
  http_timeout_ms : Z;
  win_timeout_ms : Z;
}.

Record PipelineConfig := { max_candidates_per_imp : nat }.

Record FreqCapConfig := {
  impression_workers : nat;
  in_process_enabled : bool;
  in_process_cap_capacity : nat;
  in_process_write_buffer_size : nat;
  in_process_flush_interval_ms : Z;
}.

Definition default_in_process_cap_capacity : nat := Z.to_nat 500000.
Definition default_in_process_write_buffer_size : nat := Z.to_nat 65536.
Definition default_in_process_flush_interval_ms : Z := 1000.

Module KafkaDropPolicy.
Inductive t := Newest | Oldest | RandomSample | IncidentMode.
#[global] Instance eq_dec : EqDecision t.
Proof. solve_decision. Defined.
End KafkaDropPolicy.

Module ScoringKind.
Inductive t := FeatureWeighted | Ml | Cascade | AbTest.
#[global] Instance eq_dec : EqDecision t.
Proof. solve_decision. Defined.
End ScoringKind.

Record MLConfig := {
  ml_model_path : string;
  ml_parity_path : option string;
  ml_input_tensor_name : string;
  ml_output_tensor_name : string;
  ml_pool_size : nat;
  ml_max_batch : nat;
  ml_batch_pad_to : nat;
}.

Definition default_input_tensor_name : string := "features".
Definition default_output_tensor_name : string := "pctr".
Definition default_pool_size : nat := 2.
Definition default_max_batch : nat := 64.
Definition default_batch_pad_to : nat := 8.

Record CascadeConfig := {
  cs_stage1 : ScoringKind.t;
  cs_stage2 : ScoringKind.t;
  cs_top_k : nat;
  cs_threshold : f32;
}.

Record ABTestConfig := {
  at_control : ScoringKind.t;
  at_treatment : ScoringKind.t;
  at_treatment_share : f32;
  at_hash_seed : string;
}.

Record ScoringConfig := {
  sg_kind : ScoringKind.t;
  sg_ml : option MLConfig;
  sg_cascade : option CascadeConfig;
  sg_ab_test : option ABTestConfig;
}.

(** A [[scoring.ml]] section as written: the keys with a default may be absent. *)
Definition MLConfig_deserialize (model_path : string) (parity_path input_tensor_name output_tensor_name : option string)
    (pool_size max_batch batch_pad_to : option nat) : MLConfig := {|
  ml_model_path := model_path;
  ml_parity_path := parity_path;
  ml_input_tensor_name := unwrap_or input_tensor_name default_input_tensor_name;
  ml_output_tensor_name := unwrap_or output_tensor_name default_output_tensor_name;
  ml_pool_size := unwrap_or pool_size default_pool_size;
  ml_max_batch := unwrap_or max_batch default_max_batch;
  ml_batch_pad_to := unwrap_or batch_pad_to default_batch_pad_to |}.

(** A [[freq_cap]] section as written. *)
Definition FreqCapConfig_deserialize (workers : nat) (enabled : option bool) (capacity buffer : option nat)
    (interval_ms : option Z) : FreqCapConfig := {|
  impression_workers := workers;
  in_process_enabled := unwrap_or enabled false;
  in_process_cap_capacity := unwrap_or capacity default_in_process_cap_capacity;
  in_process_write_buffer_size := unwrap_or buffer default_in_process_write_buffer_size;
  in_process_flush_interval_ms := unwrap_or interval_ms default_in_process_flush_interval_ms |}.

Record WinNoticeConfig := {
  require_auth : bool;
  cfg_secret : string;
  cfg_secrets : gmap string string;
  dedup_ttl_secs : Z;
  notice_base_url : string;
}.

Record KafkaConfig := {
  brokers : string;
  events_topic : string;
  queue_capacity : nat;
  send_timeout_ms : Z;
  drop_policy : KafkaDropPolicy.t;
}.

Record Config := {
  cfg_server : ServerConfig;
  cfg_telemetry : TelemetryConfig;
  cfg_metrics : MetricsConfig;
  cfg_latency_budget : LatencyBudgetConfig;
  cfg_postgres : PostgresConfig;
  cfg_redis : RedisConfig;
  cfg_catalog : CatalogConfig;
  cfg_pipeline : PipelineConfig;
  cfg_freq_cap : FreqCapConfig;
  cfg_kafka : KafkaConfig;
  cfg_win_notice : WinNoticeConfig;
  cfg_scoring : ScoringConfig;
}.

Definition budget_for_stage (b : LatencyBudgetConfig) (name : string) : option Z :=
  if bool_decide (name = "request_validation"%string) then Some (request_validate_ms b)
  else if bool_decide (name = "user_enrichment"%string) then Some (user_enrichment_ms b)
  else if bool_decide (name = "candidate_retrieval"%string) then Some (candidate_retrieval_ms b)
  else if bool_decide (name = "candidate_limit"%string) then Some (candidate_limit_ms b)
  else if bool_decide (name = "scoring"%string) then Some (scoring_ms b)
  else if bool_decide (name = "frequency_cap"%string) then Some (frequency_cap_ms b)
  else if bool_decide (name = "ranking"%string) then Some (ranking_ms b)
  else if bool_decide (name = "budget_pacing"%string) then Some (budget_pacing_ms b)
  else if bool_decide (name = "response_build"%string) then Some (response_build_ms b)
  else None.
