(* ===== verification/Events.v ===== *)
(** * Ad events

    [bidder-core/src/events.rs] and the messages of
    [bidder-protos/proto/events.proto]: the envelope published for each bid and
    each win, the publisher trait, and the partition key the handlers use. *)
From S2P Require Import Prelude.

(** ** Messages *)

Record BidEvent := {
  be_request_id : string;
  be_imp_id : string;
  be_campaign_id : Z;
  be_creative_id : Z;
  be_bid_price_micros : Z;
  be_timestamp_ms : Z;
  be_user_id : string;
  be_device_type : Z;
}.

Record WinEvent := {
  we_request_id : string;
  we_imp_id : string;
  we_campaign_id : Z;
  we_creative_id : Z;
  we_clearing_price_micros : Z;
  we_timestamp_ms : Z;
  we_user_id : string;
}.

(** [ImpressionEvent] and [ClickEvent] have the same fields. *)
Record TrackerEvent := {
  te_request_id : string;
  te_imp_id : string;
  te_campaign_id : Z;
  te_creative_id : Z;
  te_timestamp_ms : Z;
  te_user_id : string;
}.

Record VideoQuartileEvent := {
  vq_request_id : string;
  vq_imp_id : string;
  vq_campaign_id : Z;
  vq_creative_id : Z;
  vq_quartile : Z;
  vq_timestamp_ms : Z;
  vq_user_id : string;
}.

(** The envelope's [oneof body]. *)
Module AdEvent.
Inductive t :=
| Bid (e : BidEvent)
| Win (e : WinEvent)
| Impression (e : TrackerEvent)
| Click (e : TrackerEvent)
| VideoQuartile (e : VideoQuartileEvent).
End AdEvent.

(** ** [EventPublisher] *)

(** [publish publisher topic key event] *)
Class EventPublisher (K : Type) := { publish : K -> string -> list Z -> AdEvent.t -> K }.
Inductive NoOpEventPublisher := no_op_publisher.
#[global] Instance no_op_event_publisher : EventPublisher NoOpEventPublisher := {| publish k _ _ _ := k |}.

(** [campaign_id.to_le_bytes()], the key of every event. *)
Definition le_bytes4 (z : Z) : list Z :=
  [z mod 2 ^ 8; z / 2 ^ 8 mod 2 ^ 8; z / 2 ^ 16 mod 2 ^ 8; z / 2 ^ 24 mod 2 ^ 8].
