(* ===== verification/Pacing.v ===== *)
(** * Budget pacing

    [bidder-core/src/pacing/mod.rs] (the [BudgetPacer] trait) and
    [bidder-core/src/pacing/local.rs] (the in-process implementation).  The
    trait is the class [BudgetPacer] with its laws [BudgetPacerLaws]; the
    pipeline stages are verified against the laws, and [LocalBudgetPacer] is
    proved to satisfy them.  [Concurrent] models the two atomic operations of
    [check_and_reserve] interleaved between requests. *)
From S2P Require Import Prelude.

Inductive PaceDecision := HasBudget | Exhausted.

#[global] Instance PaceDecision_eq_dec : EqDecision PaceDecision.
Proof. solve_decision. Defined.

(** ** The trait *)
Class BudgetPacer (P : Type) := {
  check_and_reserve : P -> Z -> Z -> PaceDecision * P;
  release : P -> Z -> Z -> P;
  reload : P -> list (Z * Z) -> P;
}.

(** What the trait's comments promise, over the remaining budget a pacer holds
    for a campaign ([None]: no entry). *)
Class BudgetPacerLaws (P : Type) `{BudgetPacer P} := {
  remaining : P -> Z -> option Z;
  pacer_wf : P -> Prop;
  reserve_wf p id bid : pacer_wf p -> pacer_wf (check_and_reserve p id bid).2;
  release_wf p id bid : pacer_wf p -> pacer_wf (release p id bid);
  remaining_range p id c : pacer_wf p -> remaining p id = Some c -> in_i64 c;
  reserve_decision p id bid :
    (check_and_reserve p id bid).1 = HasBudget <-> exists c, remaining p id = Some c /\ 0 < c;
  reserve_has p id bid c : remaining p id = Some c -> 0 < c ->
    remaining (check_and_reserve p id bid).2 id = Some (as_i64 (c - bid));
  reserve_exhausted p id bid : pacer_wf p ->
    (check_and_reserve p id bid).1 = Exhausted ->
    remaining (check_and_reserve p id bid).2 id = remaining p id;
  reserve_other p id id' bid : id <> id' ->
    remaining (check_and_reserve p id bid).2 id' = remaining p id';
  release_same p id bid : remaining (release p id bid) id
    = (fun c => as_i64 (c + bid)) <$> remaining p id;
  release_other p id id' bid : id <> id' -> remaining (release p id bid) id' = remaining p id';
}.

(** ** [LocalBudgetPacer] *)
Module Local.

(** [counters: RwLock<HashMap<CampaignId, Arc<AtomicI64>>>].  The [Arc]s never
    leave the map, so a counter is its current value. *)
Record LocalBudgetPacer := { counters : gmap Z Z }.

Definition new : LocalBudgetPacer := {| counters := ∅ |}.

(** [counter.fetch_sub(bid_cents as i64)]: the new value and whether the
    previous one was positive. *)
Definition fetch_sub_test (c bid : Z) : Z * bool := (as_i64 (c - bid), negb (c <=? 0)).

(** [counter.fetch_add(bid_cents as i64)] *)
Definition fetch_add (c bid : Z) : Z := as_i64 (c + bid).

Definition check_and_reserve (p : LocalBudgetPacer) (campaign_id bid_cents : Z)
  : PaceDecision * LocalBudgetPacer :=
  match counters p !! campaign_id with
  | None => (Exhausted, p)
  | Some prev =>
      let '(c, positive) := fetch_sub_test prev bid_cents in
      if positive
      then (HasBudget, {| counters := <[campaign_id := c]> (counters p) |})
      else (Exhausted, {| counters := <[campaign_id := fetch_add c bid_cents]> (counters p) |})
  end.

Definition release (p : LocalBudgetPacer) (campaign_id bid_cents : Z) : LocalBudgetPacer :=
  match counters p !! campaign_id with
  | Some c => {| counters := <[campaign_id := fetch_add c bid_cents]> (counters p) |}
  | None => p
  end.

(** [entry(id).and_modify(store).or_insert_with(new)]: both arms leave the
    budget as the value of [id]. *)
Definition reload (p : LocalBudgetPacer) (budgets : list (Z * Z)) : LocalBudgetPacer :=
  {| counters := foldl (fun m '(id, budget_cents) => <[id := budget_cents]> m) (counters p) budgets |}.

(** Every counter is an [i64]. *)
Definition wf (p : LocalBudgetPacer) : Prop := map_Forall (fun _ c => in_i64 c) (counters p).

Lemma fetch_sub_add c bid : in_i64 c -> fetch_add (as_i64 (c - bid)) bid = c.
Proof.
  intros Hc. unfold fetch_add. rewrite as_i64_add.
  replace (c - bid + bid) with c by lia. by apply as_i64_id.
Qed.

Lemma check_and_reserve_wf p id bid : wf p -> wf (check_and_reserve p id bid).2.
Proof.
  unfold wf, check_and_reserve, fetch_sub_test, fetch_add. intros H.
  repeat case_goal; simplify_eq/=; try done; apply map_Forall_insert_2; auto with bidder.
Qed.

Lemma release_wf p id bid : wf p -> wf (release p id bid).
Proof.
  unfold wf, release, fetch_add. intros H.
  case_goal; [|done]. apply map_Forall_insert_2; auto with bidder.
Qed.

#[global] Instance local_pacer : BudgetPacer LocalBudgetPacer := {|
  Pacing.check_and_reserve := check_and_reserve;
  Pacing.release := release;
  Pacing.reload := reload;
|}.

#[global] Instance local_pacer_laws : BudgetPacerLaws LocalBudgetPacer.
Proof.
  refine {| Pacing.remaining p id := counters p !! id; pacer_wf := wf |}; simpl.
  - apply check_and_reserve_wf.
  - apply release_wf.
  - intros p id c H Hl. by apply (H id).
  - unfold check_and_reserve, fetch_sub_test. intros p id bid.
    destruct (counters p !! id) as [c|]; simpl; [|split; [done|intros (? & [=] & _)]].
    destruct (c <=? 0) eqn:E; simpl; zbool; split; try done.
    + intros (c' & [= <-] & ?). lia.
    + intros _. exists c. split; [done|lia].
  - unfold check_and_reserve, fetch_sub_test. intros p id bid c -> Hc.
    replace (c <=? 0) with false by lia. simpl. by simplify_map_eq.
  - unfold check_and_reserve, fetch_sub_test. intros p id bid Hwf.
    destruct (counters p !! id) as [c|] eqn:E; simpl; [|done].
    destruct (c <=? 0); simpl; [|done]. intros _. simplify_map_eq.
    rewrite fetch_sub_add; [done|]. by apply (Hwf id).
  - unfold check_and_reserve, fetch_sub_test. intros p id id' bid Hne.
    repeat case_goal; simplify_eq/=; by simplify_map_eq.
  - unfold release. intros p id bid.
    destruct (counters p !! id) as [c|] eqn:E; simpl; by simplify_map_eq.
  - unfold release. intros p id id' bid Hne. case_goal; by simplify_map_eq.
Defined.

(** The value [reload] leaves: the last budget listed for the campaign. *)
Definition last_budget (id : Z) (budgets : list (Z * Z)) : option Z :=
  foldl (fun r '(i, b) => if i =? id then Some b else r) None budgets.

Lemma reload_lookup_acc (m : gmap Z Z) budgets id :
  foldl (fun m '(i, b) => <[i := b]> m) m budgets !! id =
  foldl (fun r '(i, b) => if i =? id then Some b else r) (m !! id) budgets.
Proof.
  revert m; induction budgets as [|[i b] l IH]; intros m; simpl; [done|]. rewrite IH. f_equal.
  destruct (i =? id) eqn:E; zbool; simplify_map_eq; done.
Qed.

Lemma last_budget_acc (r : option Z) budgets id :
  foldl (fun r '(i, b) => if i =? id then Some b else r) r budgets =
  match last_budget id budgets with Some b => Some b | None => r end.
Proof.
  unfold last_budget. revert r; induction budgets as [|[i b] l IH]; intros r; simpl; [done|].
  rewrite IH. destruct (i =? id); [|done].
  rewrite (IH (Some b)). by destruct (foldl _ None l).
Qed.

Lemma reload_remaining p budgets id :
  counters (reload p budgets) !! id =
  match last_budget id budgets with Some b => Some b | None => counters p !! id end.
Proof. unfold reload; simpl. by rewrite reload_lookup_acc, last_budget_acc. Qed.

Lemma reload_wf p budgets : wf p ->
  Forall (fun '(_, budget) => in_i64 budget) budgets -> wf (reload p budgets).
Proof.
  intros Hp Hb. cbn. unfold wf, reload. cbn [counters]. rewrite Forall_forall in Hb.
  apply (foldl_inv (map_Forall (fun _ c => in_i64 c))); [exact Hp|]. intros m [id b] Hin Hm.
  apply map_Forall_insert_2; [by apply (Hb (id, b))|done].
Qed.
End Local.

(** ** Interleaved reservations on one counter

    [check_and_reserve] takes only a read lock, so requests interleave between
    its [fetch_sub] and the compensating [fetch_add].  [cc_pending] holds the
    bids whose [fetch_sub] found no budget and whose [fetch_add] is still to
    run; at most [max_inflight] requests are in that window. *)
Module Concurrent.
Import Local.

Record state := { cc_counter : Z; cc_accepted : Z; cc_pending : list Z }.

Section Steps.
Context (max_bid max_inflight budget : Z).

Inductive step : state -> state -> Prop :=
| step_accept c acc pend bid c' :
    0 <= bid <= max_bid -> fetch_sub_test c bid = (c', true) ->
    step {| cc_counter := c; cc_accepted := acc; cc_pending := pend |}
         {| cc_counter := c'; cc_accepted := acc + bid; cc_pending := pend |}
| step_deny c acc pend bid c' :
    0 <= bid <= max_bid -> Z.of_nat (length pend) < max_inflight ->
    fetch_sub_test c bid = (c', false) ->
    step {| cc_counter := c; cc_accepted := acc; cc_pending := pend |}
         {| cc_counter := c'; cc_accepted := acc; cc_pending := bid :: pend |}
| step_restore c acc pend1 bid pend2 :
    step {| cc_counter := c; cc_accepted := acc; cc_pending := pend1 ++ bid :: pend2 |}
         {| cc_counter := fetch_add c bid; cc_accepted := acc; cc_pending := pend1 ++ pend2 |}.

Definition init : state := {| cc_counter := budget; cc_accepted := 0; cc_pending := [] |}.

Definition inv (s : state) : Prop :=
  cc_counter s = budget - cc_accepted s - sum_by id (cc_pending s) /\
  0 <= cc_accepted s <= Z.max 0 (budget + max_bid - 1) /\
  Forall (fun b => 0 <= b <= max_bid) (cc_pending s) /\
  Z.of_nat (length (cc_pending s)) <= max_inflight.

Hypothesis max_bid_bound : 0 <= max_bid < 2 ^ 31.
Hypothesis inflight_bound : 0 <= max_inflight < 2 ^ 30.
Hypothesis budget_bound : - 2 ^ 61 <= budget <= 2 ^ 61.

Lemma pending_sum_bound (l : list Z) :
  Forall (fun b => 0 <= b <= max_bid) l ->
  0 <= sum_by id l <= max_bid * Z.of_nat (length l).
Proof.
  unfold sum_by. induction 1 as [|b l Hb Hl IH]; simpl; unfold id in *; nia.
Qed.

Lemma counter_in_range acc (pend : list Z) :
  0 <= acc <= Z.max 0 (budget + max_bid - 1) ->
  Forall (fun b => 0 <= b <= max_bid) pend -> Z.of_nat (length pend) <= max_inflight + 1 ->
  in_i64 (budget - acc - sum_by id pend).
Proof.
  intros Ha Hp Hl. pose proof (pending_sum_bound pend Hp).
  assert (max_bid * Z.of_nat (length pend) <= 2 ^ 31 * 2 ^ 30) by nia.
  unfold in_i64. lia.
Qed.

Lemma step_inv s s' : inv s -> step s s' -> inv s'.
Proof.
  intros (Hc & Ha & Hp & Hl) Hs; destruct Hs as [c acc pend bid c' Hb Hf|c acc pend bid c' Hb Hn Hf|c acc p1 bid p2];
    unfold inv, fetch_sub_test, fetch_add in *; simpl in *; simplify_eq.
  - zbool. pose proof (pending_sum_bound pend Hp).
    split_and!; try done; try lia.
    rewrite as_i64_id; [lia|]. replace (budget - acc - sum_by id pend - bid)
      with (budget - (acc + bid) - sum_by id pend) by lia. apply counter_in_range; auto; lia.
  - pose proof (counter_in_range acc (bid :: pend) Ha ltac:(by constructor) ltac:(simpl; lia)) as R.
    replace (budget - acc - sum_by id pend - bid) with (budget - acc - sum_by id (bid :: pend))
      by (unfold sum_by; simpl; unfold id; lia).
    rewrite as_i64_id by done. split_and!; auto; lia.
  - rewrite sum_by_app, sum_by_cons in *. rewrite length_app in *. simpl in *.
    apply Forall_app in Hp as [Hp1 [Hb Hp2]%Forall_cons].
    assert (Forall (fun b => 0 <= b <= max_bid) (p1 ++ p2)) as Hp by by apply Forall_app.
    pose proof (counter_in_range acc (p1 ++ p2) Ha Hp ltac:(rewrite length_app; lia)) as R.
    rewrite sum_by_app in R.
    rewrite sum_by_app.
    replace (budget - acc - (sum_by id p1 + (bid + sum_by id p2)) + bid)
      with (budget - acc - (sum_by id p1 + sum_by id p2)) by lia.
    rewrite as_i64_id by done. split_and!; auto; lia.
Qed.

Lemma reachable_inv s : rtc step init s -> inv s.
Proof.
  intros H. assert (inv init) as Hi by (unfold inv, init, sum_by; simpl; split_and!; auto; lia).
  induction H as [|s1 s2 s3 Hs _ IH]; [done|]. apply IH. by eapply step_inv.
Qed.
End Steps.
End Concurrent.

(** ** Properties *)

(** [check_and_reserve] on every branch: without an entry, or with an
    exhausted counter, the decision is [Exhausted] and the pacer is left exactly
    as it was (the compensating [fetch_add] undoes the [fetch_sub], wrap-around
    included); with a positive counter the decision is [HasBudget] and the bid
    has been deducted from that campaign only. *)
Theorem check_and_reserve_spec (p : Local.LocalBudgetPacer) (id bid : Z) (Hwf : Local.wf p) :
  Local.check_and_reserve p id bid =
  match Local.counters p !! id with
  | Some c => if 0 <? c
              then (HasBudget, {| Local.counters := <[id := as_i64 (c - bid)]> (Local.counters p) |})
              else (Exhausted, p)
  | None => (Exhausted, p)
  end.
Proof.
  unfold Local.check_and_reserve, Local.fetch_sub_test.
  destruct (Local.counters p !! id) as [c|] eqn:E; [|done].
  destruct (c <=? 0) eqn:Ec; simpl.
  - rewrite Local.fetch_sub_add by by apply (Hwf id). replace (0 <? c) with false by lia.
    rewrite insert_id by done. by destruct p.
  - replace (0 <? c) with true by lia. done.
Qed.

Lemma check_and_reserve_spec_witness :
  let p := {| Local.counters := {[1 := 50; 2 := -10]} |} in
  Local.wf p /\
  Local.check_and_reserve p 1 100 = (HasBudget, {| Local.counters := {[1 := -50; 2 := -10]} |}) /\
  Local.check_and_reserve p 2 100 = (Exhausted, p).
Proof.
  intros p. assert (Local.wf p) as Hwf.
  { intros i c. unfold p; simpl. rewrite lookup_insert. case_decide; [intros [= <-]; unfold in_i64; lia|].
    rewrite lookup_singleton. case_decide; intros [=]; subst; unfold in_i64; lia. }
  split; [done|]. split; rewrite (check_and_reserve_spec p _ _ Hwf); reflexivity.
Defined.

(** Overspend under concurrency: whatever the interleaving of the
    [fetch_sub]s and compensating [fetch_add]s of concurrent reservations on one
    campaign counter, the bids accepted against a budget never exceed it by a
    full bid. *)
Theorem overspend_bounded (max_bid max_inflight budget : Z) (s : Concurrent.state)
    (Hbid : 0 <= max_bid < 2 ^ 31) (Hinflight : 0 <= max_inflight < 2 ^ 30)
    (Hbudget : 0 < budget <= 2 ^ 61)
    (Hreach : rtc (Concurrent.step max_bid max_inflight) (Concurrent.init budget) s) :
  Concurrent.cc_accepted s < budget + Z.max 1 max_bid.
Proof.
  pose proof (Concurrent.reachable_inv max_bid max_inflight budget Hbid Hinflight ltac:(lia) s Hreach)
    as (_ & Ha & _). lia.
Qed.

Lemma overspend_bounded_witness :
  Concurrent.cc_accepted {| Concurrent.cc_counter := -50; Concurrent.cc_accepted := 100; Concurrent.cc_pending := [] |}
    < 50 + Z.max 1 100.
Proof.
  apply (overspend_bounded 100 10 50); [lia..|].
  eapply rtc_l; [apply (Concurrent.step_accept 100 10 50 0 [] 100 (-50)); [lia|reflexivity]|].
  eapply rtc_l; [apply (Concurrent.step_deny 100 10 (-50) 100 [] 7 (-57)); [lia|simpl; lia|reflexivity]|].
  eapply rtc_l; [apply (Concurrent.step_restore 100 10 (-57) 100 [] 7 [])|]. apply rtc_refl.
Defined.

(** Reserve then release is the identity: releasing a bid that was just
    reserved gives back the very pacer the reservation started from. *)
Theorem reserve_release_roundtrip (p p' : Local.LocalBudgetPacer) (id bid : Z) (Hwf : Local.wf p)
    (Hres : Local.check_and_reserve p id bid = (HasBudget, p')) :
  Local.release p' id bid = p.
Proof.
  unfold Local.check_and_reserve, Local.fetch_sub_test in Hres.
  destruct (Local.counters p !! id) as [c|] eqn:E; [|done]. case_hyp Hres; simplify_eq/=.
  unfold Local.release; simpl. simplify_map_eq. rewrite Local.fetch_sub_add by by apply (Hwf id).
  rewrite insert_insert_eq, insert_id by done. by destruct p.
Qed.

Lemma reserve_release_roundtrip_witness :
  let p := {| Local.counters := {[1 := 500]} |} in
  Local.release (Local.check_and_reserve p 1 300).2 1 300 = p.
Proof.
  intros p. apply (reserve_release_roundtrip p); [|reflexivity].
  intros i c. unfold p; simpl. rewrite lookup_singleton. case_decide; intros [=]; subst; unfold in_i64; lia.
Defined.
