(* ===== verification/Breaker.v ===== *)
(** * Circuit breaker

    [bidder-core/src/breaker/mod.rs].  The breaker is its configuration, the
    three atomic window counters and the lock-protected [Inner].  Each locked
    section is one function ([try_enter_half_open], [record_locked]), so an
    interleaving of requests is a sequence of such sections. *)
From S2P Require Import Prelude Floats.

Inductive BreakerState := Closed | Open | HalfOpen.

#[global] Instance BreakerState_eq_dec : EqDecision BreakerState.
Proof. solve_decision. Defined.

Record BreakerConfig := {
  bc_name : string;
  min_calls : Z;
  error_rate_threshold : f64;
  slow_call_ratio_threshold : f64;
  slow_call_duration : Duration;
  open_duration : Duration;
  window_size : Z;
}.

(** [BreakerConfig::redis] *)
Definition redis (name : string) : BreakerConfig := {|
  bc_name := name;
  min_calls := 20;
  error_rate_threshold := f64_lit 1 2;
  slow_call_ratio_threshold := f64_lit 1 2;
  slow_call_duration := from_millis 16;
  open_duration := from_secs 10;
  window_size := 100;
|}.

(** [BreakerConfig::kafka] *)
Definition kafka (name : string) : BreakerConfig := {|
  bc_name := name;
  min_calls := 10;
  error_rate_threshold := f64_lit 1 2;
  slow_call_ratio_threshold := f64_lit 8 10;
  slow_call_duration := from_millis 100;
  open_duration := from_secs 30;
  window_size := 100;
|}.

(** ** The tumbling window *)
Record Window := { calls : Z; errors : Z; slow_calls : Z }.

Definition Window_new : Window := {| calls := 0; errors := 0; slow_calls := 0 |}.

Definition Window_record (w : Window) (error slow : bool) : Window := {|
  calls := as_u64 (calls w + 1);
  errors := if error then as_u64 (errors w + 1) else errors w;
  slow_calls := if slow then as_u64 (slow_calls w + 1) else slow_calls w;
|}.

Definition Window_reset (w : Window) : Window := Window_new.

Definition Window_snapshot (w : Window) : Z * Z * Z := (calls w, errors w, slow_calls w).

(** ** The breaker *)
Record Inner := {
  state : BreakerState;
  opened_at : option Instant;
  half_open_probe_in_flight : bool;
}.

Record CircuitBreaker := { cfg : BreakerConfig; window : Window; inner : Inner }.

Definition CircuitBreaker_new (c : BreakerConfig) : CircuitBreaker := {|
  cfg := c;
  window := Window_new;
  inner := {| state := Closed; opened_at := None; half_open_probe_in_flight := false |};
|}.

(** [inner.opened_at.map(|t| t.elapsed()).unwrap_or_default()] *)
Definition open_elapsed (i : Inner) (now : Instant) : Duration :=
  match opened_at i with Some t => duration_since now t | None => 0 end.

(** The read-locked fast path of [allow_request]: [Some b] is an early return,
    [None] falls through to the write-locked section. *)
Definition allow_fast (cb : CircuitBreaker) (now : Instant) : option bool :=
  match state (inner cb) with
  | Closed => Some true
  | Open => if open_elapsed (inner cb) now <? open_duration (cfg cb) then Some false else None
  | HalfOpen => None
  end.

Definition try_enter_half_open (cb : CircuitBreaker) (now : Instant) : bool * CircuitBreaker :=
  let cb1 :=
    if decide (state (inner cb) = Open)
    then if open_duration (cfg cb) <=? open_elapsed (inner cb) now
         then {| cfg := cfg cb; window := Window_reset (window cb);
                 inner := {| state := HalfOpen; opened_at := opened_at (inner cb);
                             half_open_probe_in_flight := false |} |}
         else cb
    else cb in
  if decide (state (inner cb1) = HalfOpen) then
    if half_open_probe_in_flight (inner cb1) then (false, cb1)
    else (true, {| cfg := cfg cb1; window := window cb1;
                   inner := {| state := state (inner cb1); opened_at := opened_at (inner cb1);
                               half_open_probe_in_flight := true |} |})
  else (false, cb1).

(** [allow_request]: the clock is read once under each lock. *)
Definition allow_request (cb : CircuitBreaker) (now_read now_write : Instant) : bool * CircuitBreaker :=
  match allow_fast cb now_read with
  | Some b => (b, cb)
  | None => try_enter_half_open cb now_write
  end.

(** The threshold test of the closed state. *)
Definition trips (c : BreakerConfig) (calls errors slows : Z) : bool :=
  let error_rate := f64_div (f64_of_Z errors) (f64_of_Z calls) in
  let slow_rate := f64_div (f64_of_Z slows) (f64_of_Z calls) in
  fge error_rate (error_rate_threshold c) || fge slow_rate (slow_call_ratio_threshold c).

Definition set_inner (cb : CircuitBreaker) (w : Window) (i : Inner) : CircuitBreaker :=
  {| cfg := cfg cb; window := w; inner := i |}.

(** The write-locked section of [record_outcome], on the snapshot taken before
    the lock. *)
Definition record_locked (cb : CircuitBreaker) (snap : Z * Z * Z) (error slow : bool) (now : Instant)
  : CircuitBreaker :=
  let '(calls, errors, slows) := snap in
  let i := inner cb in
  match state i with
  | Closed =>
      let w := if window_size (cfg cb) <=? calls then Window_reset (window cb) else window cb in
      if (min_calls (cfg cb) <=? calls) && trips (cfg cb) calls errors slows
      then set_inner cb (Window_reset w)
             {| state := Open; opened_at := Some now;
                half_open_probe_in_flight := half_open_probe_in_flight i |}
      else set_inner cb w i
  | HalfOpen =>
      if error || slow
      then set_inner cb (Window_reset (window cb))
             {| state := Open; opened_at := Some now; half_open_probe_in_flight := false |}
      else set_inner cb (Window_reset (window cb))
             {| state := Closed; opened_at := opened_at i; half_open_probe_in_flight := false |}
  | Open => cb
  end.

(** [record_outcome]: count the call, snapshot, then decide under the lock. *)
Definition record_outcome (cb : CircuitBreaker) (error : bool) (duration : Duration) (now : Instant)
  : CircuitBreaker :=
  let slow := slow_call_duration (cfg cb) <=? duration in
  let w := Window_record (window cb) error slow in
  record_locked {| cfg := cfg cb; window := w; inner := inner cb |} (Window_snapshot w) error slow now.

(** [state()] and [is_closed_sync()]; [readable] is whether [try_read] got the
    lock. *)
Definition breaker_state (cb : CircuitBreaker) : BreakerState := state (inner cb).
Definition is_closed_sync (cb : CircuitBreaker) (readable : bool) : bool :=
  readable && bool_decide (state (inner cb) = Closed).

(** ** Window invariant *)

(** At most [n] calls are in the window, and no more errors or slow calls than
    calls. *)
Definition window_ok (n : Z) (w : Window) : Prop :=
  0 <= errors w <= calls w /\ 0 <= slow_calls w <= calls w /\ calls w <= n.

Lemma window_new_ok n : 0 <= n -> window_ok n Window_new.
Proof. unfold window_ok; simpl; lia. Qed.

Lemma window_record_ok n w error slow :
  window_ok n w -> n < u64_max -> window_ok (n + 1) (Window_record w error slow).
Proof.
  unfold window_ok, Window_record; simpl. intros (He & Hs & Hc) Hn.
  rewrite !as_u64_id by (unfold in_u64; lia). destruct error, slow; lia.
Qed.

#[export] Hint Resolve window_new_ok window_record_ok : bidder.

(** A closed breaker's window never reaches its size. *)
Definition breaker_ok (cb : CircuitBreaker) : Prop :=
  state (inner cb) = Closed -> window_ok (Z.max 0 (window_size (cfg cb) - 1)) (window cb).

Lemma record_outcome_cfg cb e d t : cfg (record_outcome cb e d t) = cfg cb.
Proof. unfold record_outcome, record_locked, set_inner. simpl. repeat case_goal; done. Qed.

Lemma allow_request_cfg cb t1 t2 : cfg (allow_request cb t1 t2).2 = cfg cb.
Proof. unfold allow_request, try_enter_half_open. repeat case_goal; simplify_eq/=; done. Qed.

Lemma record_outcome_ok cb e d t :
  0 < window_size (cfg cb) < u64_max -> breaker_ok cb -> breaker_ok (record_outcome cb e d t).
Proof.
  unfold breaker_ok. intros Hn Hok. rewrite record_outcome_cfg.
  unfold record_outcome, record_locked, set_inner; simpl.
  destruct (state (inner cb)) eqn:Est; simpl; [|by rewrite Est|].
  - specialize (Hok eq_refl).
    pose proof (window_record_ok _ (window cb) e (slow_call_duration (cfg cb) <=? d) Hok ltac:(lia)) as Hr.
    match goal with |- context [andb ?b ?c] => destruct (andb b c) end; simpl; [done|]. intros _.
    case_match; [apply window_new_ok; lia|]. destruct Hr as (H1 & H2 & H3).
    unfold window_ok; split_and!; try tauto; try lia. simpl in *. zlia.
  - destruct (e || _); simpl; [done|]. intros _. apply window_new_ok; lia.
Qed.

Lemma allow_request_ok cb t1 t2 : breaker_ok cb -> breaker_ok (allow_request cb t1 t2).2.
Proof.
  unfold breaker_ok. intros Hok. rewrite allow_request_cfg.
  unfold allow_request, try_enter_half_open.
  repeat (case_match; simplify_eq/=; try done).
Qed.

(** ** Threshold arithmetic of the Redis breaker

    The two thresholds are 0.5; on the window sizes the breaker can see the
    rounded division gives exactly the integer comparison. *)
Definition half_rate_table (n : nat) : bool :=
  forallb (fun c => forallb (fun e =>
    Bool.eqb (fge (f64_div (f64_of_Z (Z.of_nat e)) (f64_of_Z (Z.of_nat c))) (f64_lit 1 2))
             (Z.of_nat c <=? 2 * Z.of_nat e)) (seq 0 (S c))) (seq 1 n).

Lemma half_rate_table_ok : half_rate_table 100 = true.
Proof. vm_compute. reflexivity. Qed.

Lemma half_rate_table_sound n c e :
  half_rate_table n = true -> 1 <= c <= Z.of_nat n -> 0 <= e <= c ->
  fge (f64_div (f64_of_Z e) (f64_of_Z c)) (f64_lit 1 2) = (c <=? 2 * e).
Proof.
  unfold half_rate_table. intros H Hc He.
  rewrite forallb_forall in H. specialize (H (Z.to_nat c) ltac:(apply in_seq; lia)).
  rewrite forallb_forall in H. specialize (H (Z.to_nat e) ltac:(apply in_seq; lia)).
  rewrite !Z2Nat.id in H by lia. by apply Bool.eqb_prop in H.
Qed.

Lemma half_rate_exact c e :
  1 <= c <= 100 -> 0 <= e <= c ->
  fge (f64_div (f64_of_Z e) (f64_of_Z c)) (f64_lit 1 2) = (c <=? 2 * e).
Proof. intros Hc. apply (half_rate_table_sound 100); [apply half_rate_table_ok|lia]. Qed.

Lemma redis_trips name c e s :
  1 <= c <= 100 -> 0 <= e <= c -> 0 <= s <= c ->
  trips (redis name) c e s = (c <=? 2 * e) || (c <=? 2 * s).
Proof. intros. unfold trips. cbn [redis error_rate_threshold slow_call_ratio_threshold]. by rewrite !half_rate_exact. Qed.

(** ** Interleavings

    A request that falls through the fast path runs [try_enter_half_open] under
    the write lock, at a time of its own; the sections of several requests run
    one after the other in some order. *)
Definition enter_all (cb : CircuitBreaker) (times : list Instant) : CircuitBreaker * list bool :=
  fold_map (fun cb t => let '(b, cb') := try_enter_half_open cb t in (cb', b)) cb times.

Lemma enter_all_cons cb t ts :
  enter_all cb (t :: ts) =
  let '(b, cb') := try_enter_half_open cb t in
  let '(cb2, bs) := enter_all cb' ts in (cb2, b :: bs).
Proof. unfold enter_all; simpl. by destruct (try_enter_half_open cb t). Qed.

Definition grants (bs : list bool) : nat := length (filter (fun b => b = true) bs).

(** A closed breaker lets every request through and does not change. *)
Lemma allow_request_closed cb t1 t2 : state (inner cb) = Closed -> allow_request cb t1 t2 = (true, cb).
Proof. intros Hs. unfold allow_request, allow_fast. by rewrite Hs. Qed.

(** A half-open breaker whose probe is out refuses and does not change. *)
Definition probe_out (cb : CircuitBreaker) : Prop :=
  state (inner cb) = HalfOpen /\ half_open_probe_in_flight (inner cb) = true.

Lemma try_enter_probe_out cb t : probe_out cb -> try_enter_half_open cb t = (false, cb).
Proof. intros [Hs Hp]. unfold try_enter_half_open. rewrite Hs. simpl. by rewrite Hs, Hp. Qed.

Lemma try_enter_grants cb t : (try_enter_half_open cb t).1 = true -> probe_out (try_enter_half_open cb t).2.
Proof.
  unfold try_enter_half_open, probe_out. repeat (case_match; simplify_eq/=; try done).
Qed.

Lemma enter_all_probe_out cb ts :
  probe_out cb -> enter_all cb ts = (cb, replicate (length ts) false).
Proof.
  intros H. unfold enter_all. induction ts as [|t ts IH]; simpl; [done|].
  rewrite try_enter_probe_out by done. by rewrite IH.
Qed.

Lemma grants_replicate n : grants (replicate n false) = 0%nat.
Proof. unfold grants. induction n; simpl; [done|]. rewrite filter_cons. by case_decide. Qed.

Lemma allow_request_probe_out cb t1 t2 : probe_out cb -> allow_request cb t1 t2 = (false, cb).
Proof. intros H. unfold allow_request, allow_fast. destruct H as [Hs Hp]. rewrite Hs. by apply try_enter_probe_out. Qed.

(** Any run of the public operations. *)
Inductive op := Allow (now_read now_write : Instant) | Record (error : bool) (d : Duration) (now : Instant).

Definition run_op (cb : CircuitBreaker) (o : op) : CircuitBreaker :=
  match o with
  | Allow t1 t2 => (allow_request cb t1 t2).2
  | Record e d t => record_outcome cb e d t
  end.

Lemma run_op_cfg cb o : cfg (run_op cb o) = cfg cb.
Proof. destruct o; [apply allow_request_cfg|apply record_outcome_cfg]. Qed.

Lemma run_ops_ok c ops :
  0 < window_size c < u64_max ->
  cfg (foldl run_op (CircuitBreaker_new c) ops) = c /\ breaker_ok (foldl run_op (CircuitBreaker_new c) ops).
Proof.
  intros Hn. apply (foldl_inv (fun cb => cfg cb = c /\ breaker_ok cb)).
  { split; [done|]. intros _. simpl. apply window_new_ok. lia. }
  intros cb o _ [Hc Hok]. rewrite run_op_cfg. split; [done|].
  destruct o; simpl; [by apply allow_request_ok|]. apply record_outcome_ok; [by rewrite Hc|done].
Qed.

Lemma grants_cons_true l : grants (true :: l) = S (grants l).
Proof. unfold grants. by rewrite filter_cons_True. Qed.

Lemma grants_cons_false l : grants (false :: l) = grants l.
Proof. unfold grants. rewrite filter_cons_False; naive_solver. Qed.

(** The first request after [open_duration] claims the probe slot. *)
Lemma allow_request_open_elapsed cb t now1 now2 :
  state (inner cb) = Open -> opened_at (inner cb) = Some t ->
  open_duration (cfg cb) <= now1 - t -> now1 <= now2 -> 0 <= open_duration (cfg cb) ->
  exists cb1, allow_request cb now1 now2 = (true, cb1) /\ cfg cb1 = cfg cb /\ window cb1 = Window_new /\
    inner cb1 = {| state := HalfOpen; opened_at := Some t; half_open_probe_in_flight := true |}.
Proof.
  intros Hopen Hat H1 H2 Hpos.
  unfold allow_request, allow_fast, try_enter_half_open, open_elapsed, duration_since.
  rewrite Hopen, Hat. replace (Z.max 0 (now1 - t) <? open_duration (cfg cb)) with false by lia.
  destruct (decide (Open = Open)); [|done].
  replace (open_duration (cfg cb) <=? Z.max 0 (now2 - t)) with true by lia. simpl. eauto.
Qed.

(** ** Properties *)

(** Invariant of every run: starting from [CircuitBreaker::new] and after
    any sequence of [allow_request] and [record_outcome] calls, a closed
    breaker's window holds fewer than [window_size] calls and no more errors or
    slow calls than calls. *)
Theorem breaker_window_invariant (c : BreakerConfig) (ops : list op)
    (Hsize : 0 < window_size c < u64_max)
    (Hclosed : breaker_state (foldl run_op (CircuitBreaker_new c) ops) = Closed) :
  let w := window (foldl run_op (CircuitBreaker_new c) ops) in
  0 <= errors w <= calls w /\ 0 <= slow_calls w <= calls w /\ calls w < window_size c.
Proof.
  destruct (run_ops_ok c ops Hsize) as [Hc Hok]. specialize (Hok Hclosed).
  rewrite Hc in Hok. unfold window_ok in Hok. simpl. lia.
Qed.

Lemma breaker_window_invariant_witness :
  let ops := [Record true 1 0; Record false 1 0; Allow 5 6] in
  let w := window (foldl run_op (CircuitBreaker_new (redis "redis")) ops) in
  0 <= errors w <= calls w /\ 0 <= slow_calls w <= calls w /\ calls w < 100.
Proof.
  intros ops. apply (breaker_window_invariant (redis "redis") ops);
    [unfold u64_max; simpl; lia | reflexivity].
Defined.

(** When exactly the Redis breaker opens: a closed breaker with the Redis
    thresholds that records one more call opens iff at least 20 calls are in the
    window and at least half of them were errors, or at least half were slow;
    the rounded [f64] divisions of the code decide exactly these integer
    comparisons.  Opening stamps the time and empties the window. *)
Theorem redis_breaker_opens_iff (name : string) (slow_after : Duration) (w : Window)
    (opened : option Instant) (probe error : bool) (d : Duration) (now : Instant)
    (Hw : window_ok 99 w) :
  let c := {| bc_name := name; min_calls := min_calls (redis name);
              error_rate_threshold := error_rate_threshold (redis name);
              slow_call_ratio_threshold := slow_call_ratio_threshold (redis name);
              slow_call_duration := slow_after; open_duration := open_duration (redis name);
              window_size := window_size (redis name) |} in
  let cb := {| cfg := c; window := w;
               inner := {| state := Closed; opened_at := opened; half_open_probe_in_flight := probe |} |} in
  let n := calls w + 1 in
  let e := errors w + Z.b2z error in
  let s := slow_calls w + Z.b2z (slow_after <=? d) in
  let cb' := record_outcome cb error d now in
  let opens := (20 <=? n) && ((n <=? 2 * e) || (n <=? 2 * s)) in
  inner cb' = (if opens then {| state := Open; opened_at := Some now; half_open_probe_in_flight := probe |}
               else inner cb) /\
  window cb' = (if opens || (100 <=? n) then Window_new
                else {| calls := n; errors := e; slow_calls := s |}).
Proof.
  intros c cb n e s cb' opens. destruct Hw as (He & Hs & Hn).
  assert (Window_record w error (slow_after <=? d) = {| calls := n; errors := e; slow_calls := s |}) as Hrec.
  { unfold Window_record, n, e, s. rewrite !as_u64_id by (unfold in_u64, u64_max; lia).
    destruct error, (slow_after <=? d); simpl; f_equal; lia. }
  assert (0 <= e <= n /\ 0 <= s <= n) as [? ?] by (unfold e, s, n; destruct error, (slow_after <=? d); simpl; lia).
  unfold cb', record_outcome. subst cb. cbn [window cfg slow_call_duration c inner]. rewrite Hrec.
  unfold record_locked. cbn [Window_snapshot calls errors slow_calls state inner cfg min_calls window_size redis c].
  change (trips c n e s) with (trips (redis name) n e s). rewrite redis_trips by lia.
  fold opens. destruct opens; simpl; [done|]. split; [by destruct (100 <=? n)|]. by destruct (100 <=? n).
Qed.

Lemma redis_breaker_opens_iff_witness :
  let w := {| calls := 19; errors := 9; slow_calls := 0 |} in
  let cb := {| cfg := redis "redis"; window := w;
               inner := {| state := Closed; opened_at := None; half_open_probe_in_flight := false |} |} in
  inner (record_outcome cb true 1 7) = {| state := Open; opened_at := Some 7; half_open_probe_in_flight := false |} /\
  window (record_outcome cb true 1 7) = Window_new.
Proof.
  intros w cb. apply (redis_breaker_opens_iff "redis" (from_millis 16) w None false true 1 7).
  unfold window_ok; simpl; lia.
Defined.

(** At most one probe: however the write-locked sections of concurrent
    [allow_request] calls interleave, and whatever their clocks read, at most
    one of them is let through between two recorded outcomes; once one is, the
    breaker stays half-open with its probe out. *)
Theorem half_open_single_probe (cb : CircuitBreaker) (times : list Instant) :
  (grants (enter_all cb times).2 <= 1)%nat /\
  ((grants (enter_all cb times).2 = 1)%nat -> probe_out (enter_all cb times).1).
Proof.
  revert cb; induction times as [|t ts IH]; intros cb; [unfold grants; simpl; split; [lia|done]|].
  rewrite enter_all_cons. pose proof (try_enter_grants cb t) as Hg.
  destruct (try_enter_half_open cb t) as [b cb']; simpl in Hg. destruct b.
  - rewrite enter_all_probe_out by auto. cbn [fst snd].
    rewrite grants_cons_true, grants_replicate. split; [lia|auto].
  - specialize (IH cb'). destruct (enter_all cb' ts) as [cb2 bs]. cbn [fst snd] in *.
    by rewrite grants_cons_false.
Qed.

(** Recovery: once [open_duration] has elapsed, the next request is let
    through as the probe; a fast success then closes the breaker with an empty
    window, and a failed or slow probe reopens it for another [open_duration]. *)
Theorem open_breaker_recovers (cb : CircuitBreaker) (t : Instant) (now1 now2 now3 : Instant)
    (error : bool) (d : Duration)
    (Hopen : state (inner cb) = Open) (Hat : opened_at (inner cb) = Some t)
    (H1 : open_duration (cfg cb) <= now1 - t) (H2 : now1 <= now2) (Hpos : 0 <= open_duration (cfg cb)) :
  let '(allowed, cb1) := allow_request cb now1 now2 in
  let cb2 := record_outcome cb1 error d now3 in
  allowed = true /\ probe_out cb1 /\ window cb2 = Window_new /\
  (inner cb2 = if error || (slow_call_duration (cfg cb) <=? d)
               then {| state := Open; opened_at := Some now3; half_open_probe_in_flight := false |}
               else {| state := Closed; opened_at := Some t; half_open_probe_in_flight := false |}).
Proof.
  destruct (allow_request_open_elapsed cb t now1 now2 Hopen Hat H1 H2 Hpos) as [cb1 [-> Hi]].
  destruct Hi as (Hcfg & Hw & Hi). split; [done|]. split; [by unfold probe_out; rewrite Hi|].
  unfold record_outcome, record_locked, set_inner. rewrite Hi, Hcfg; simpl.
  destruct (error || _); simpl; done.
Qed.

Lemma open_breaker_recovers_witness :
  let cb := {| cfg := redis "redis"; window := Window_new;
               inner := {| state := Open; opened_at := Some 5; half_open_probe_in_flight := false |} |} in
  (allow_request cb 10000000005 10000000005).1 = true /\
  state (inner (record_outcome (allow_request cb 10000000005 10000000005).2 false 1 10000000009)) = Closed.
Proof.
  intros cb. pose proof (open_breaker_recovers cb 5 10000000005 10000000005 10000000009 false 1
    eq_refl eq_refl ltac:(vm_compute; congruence) ltac:(lia) ltac:(vm_compute; congruence)) as H.
  destruct (allow_request cb 10000000005 10000000005) as [a cb1] eqn:E.
  destruct H as (-> & _ & _ & Hi). split; [done|]. simpl. rewrite Hi. reflexivity.
Defined.

(** A claimed probe that is never recorded wedges the breaker: once the
    half-open slot is taken, no number of further [allow_request] calls, at any
    time, is ever let through or changes the breaker, until some caller records
    an outcome. *)
Theorem unrecorded_probe_blocks_forever (cb : CircuitBreaker) (times : list (Instant * Instant))
    (Hout : probe_out cb) :
  fold_map (fun cb '(t1, t2) => let '(b, cb') := allow_request cb t1 t2 in (cb', b)) cb times
  = (cb, replicate (length times) false).
Proof.
  induction times as [|[t1 t2] ts IH]; simpl; [done|].
  rewrite allow_request_probe_out by done. by rewrite IH.
Qed.

Lemma unrecorded_probe_blocks_forever_witness :
  let cb := {| cfg := redis "redis"; window := Window_new;
               inner := {| state := HalfOpen; opened_at := Some 5; half_open_probe_in_flight := true |} |} in
  (fold_map (fun cb '(t1, t2) => let '(b, cb') := allow_request cb t1 t2 in (cb', b)) cb
     [(6, 6); (10 ^ 15, 10 ^ 15)]).2 = [false; false].
Proof.
  intros cb. rewrite (unrecorded_probe_blocks_forever cb); [reflexivity|]. by split.
Defined.
