(* ===== verification/OpenRtb.v ===== *)
(** * The OpenRTB 2.6 object model

    [bidder-core/src/model/openrtb.rs]: the request and response structs, field
    for field, the numeric newtypes and their constants, [AdFormat] and the
    event types.  [u8]/[u32]/[i32]/[u64] fields are [Z], [f64] fields are IEEE
    doubles.  The JSON tree of the free-form [ext] fields ([serde_json::Value])
    is library code: a type parameter [Value], with the operations the bidder
    uses of it in the class [JsonValue].  The serde derives are not modelled. *)
From S2P Require Import Prelude Floats.

Set Implicit Arguments.
Set Maximal Implicit Insertion.

(** ** [serde_json::Value]

    The documented constructors and accessors the code calls: [Value::get] by
    key, [Value::as_str], the [json!] object of named members, the [From]
    conversions of the scalars the code stores, and [to_string]. *)
Class JsonValue (Value : Type) := {
  json_get : Value -> string -> option Value;
  json_as_str : Value -> option string;
  json_object : list (string * Value) -> Value;
  json_f32 : f32 -> Value;
  json_u32 : Z -> Value;
  json_str : string -> Value;
  json_to_string : Value -> string;
}.

(** ** Numeric newtypes *)

Record AuctionType := { auction_type : Z }.
Definition FIRST_PRICE : AuctionType := {| auction_type := 1 |}.
Definition SECOND_PRICE : AuctionType := {| auction_type := 2 |}.
Definition FIXED_PRICE : AuctionType := {| auction_type := 3 |}.

Record DeviceType := { device_type : Z }.
#[global] Instance DeviceType_eq_dec : EqDecision DeviceType.
Proof. solve_decision. Defined.
#[global] Program Instance DeviceType_countable : Countable DeviceType :=
  inj_countable' device_type Build_DeviceType _.
Next Obligation. by intros []. Qed.

Definition MOBILE : DeviceType := {| device_type := 1 |}.
Definition PC : DeviceType := {| device_type := 2 |}.
Definition TV : DeviceType := {| device_type := 3 |}.
Definition PHONE : DeviceType := {| device_type := 4 |}.
Definition TABLET : DeviceType := {| device_type := 5 |}.
Definition CONNECTED_DEVICE : DeviceType := {| device_type := 6 |}.
Definition SET_TOP_BOX : DeviceType := {| device_type := 7 |}.
Definition OOH : DeviceType := {| device_type := 8 |}.

Record NoBidReason := { nbr_code : Z }.
#[global] Instance NoBidReason_eq_dec : EqDecision NoBidReason.
Proof. solve_decision. Defined.

Definition UNKNOWN_ERROR : NoBidReason := {| nbr_code := 0 |}.
Definition TECHNICAL_ERROR : NoBidReason := {| nbr_code := 1 |}.
Definition INVALID_REQUEST : NoBidReason := {| nbr_code := 2 |}.
Definition KNOWN_WEB_SPIDER : NoBidReason := {| nbr_code := 3 |}.
Definition SUSPECTED_NON_HUMAN : NoBidReason := {| nbr_code := 4 |}.
Definition CLOUD_DATA_CENTER : NoBidReason := {| nbr_code := 5 |}.
Definition UNSUPPORTED_DEVICE : NoBidReason := {| nbr_code := 6 |}.
Definition BLOCKED_PUBLISHER : NoBidReason := {| nbr_code := 7 |}.
Definition UNMATCHED_USER : NoBidReason := {| nbr_code := 8 |}.
Definition DAILY_REACH_LIMIT : NoBidReason := {| nbr_code := 9 |}.
Definition BUSINESS_RULES : NoBidReason := {| nbr_code := 10 |}.
Definition NO_ELIGIBLE_BIDS : NoBidReason := {| nbr_code := 11 |}.
Definition BELOW_FLOOR : NoBidReason := {| nbr_code := 12 |}.
Definition REQUEST_BLOCKED_PRIVACY : NoBidReason := {| nbr_code := 13 |}.
Definition FREQUENCY_CAP : NoBidReason := {| nbr_code := 14 |}.
Definition BELOW_BID_FLOOR_PMP : NoBidReason := {| nbr_code := 15 |}.
Definition LOST_TO_HIGHER_BID : NoBidReason := {| nbr_code := 100 |}.
Definition LOST_TO_PMP_BID : NoBidReason := {| nbr_code := 101 |}.
Definition SEAT_BLOCKED : NoBidReason := {| nbr_code := 102 |}.
Definition PIPELINE_DEADLINE : NoBidReason := {| nbr_code := 103 |}.

(** ** Request objects *)

Record Format (Value : Type) := {
  fmt_w : option Z;
  fmt_h : option Z;
  fmt_wratio : option Z;
  fmt_hratio : option Z;
  fmt_wmin : option Z;
  fmt_ext : option Value;
}.

Record Banner (Value : Type) := {
  ban_format : list (Format Value);
  ban_w : option Z;
  ban_h : option Z;
  ban_wmax : option Z;
  ban_hmax : option Z;
  ban_wmin : option Z;
  ban_hmin : option Z;
  ban_btype : list Z;
  ban_battr : list Z;
  ban_pos : option Z;
  ban_mimes : list string;
  ban_topframe : option Z;
  ban_expdir : list Z;
  ban_api : list Z;
  ban_id : option string;
  ban_vcm : option Z;
  ban_ext : option Value;
}.

Record Video (Value : Type) := {
  vid_mimes : list string;
  vid_minduration : option Z;
  vid_maxduration : option Z;
  vid_protocols : list Z;
  vid_w : option Z;
  vid_h : option Z;
  vid_startdelay : option Z;
  vid_placement : option Z;
  vid_plcmt : option Z;
  vid_linearity : option Z;
  vid_skip : option Z;
  vid_skipmin : option Z;
  vid_skipafter : option Z;
  vid_sequence : option Z;
  vid_battr : list Z;
  vid_maxextended : option Z;
  vid_minbitrate : option Z;
  vid_maxbitrate : option Z;
  vid_boxingallowed : option Z;
  vid_playbackmethod : list Z;
  vid_playbackend : list Z;
  vid_delivery : list Z;
  vid_pos : option Z;
  vid_companionad : list (Banner Value);
  vid_api : list Z;
  vid_companiontype : list Z;
  vid_ext : option Value;
}.

Record Audio (Value : Type) := {
  aud_mimes : list string;
  aud_minduration : option Z;
  aud_maxduration : option Z;
  aud_protocols : list Z;
  aud_startdelay : option Z;
  aud_sequence : option Z;
  aud_battr : list Z;
  aud_maxextended : option Z;
  aud_minbitrate : option Z;
  aud_maxbitrate : option Z;
  aud_delivery : list Z;
  aud_companionad : list (Banner Value);
  aud_api : list Z;
  aud_companiontype : list Z;
  aud_maxseq : option Z;
  aud_feed : option Z;
  aud_stitched : option Z;
  aud_nvol : option Z;
  aud_ext : option Value;
}.

Record Native (Value : Type) := {
  nat_request : string;
  nat_ver : option string;
  nat_api : list Z;
  nat_battr : list Z;
  nat_ext : option Value;
}.

Record Deal (Value : Type) := {
  deal_id : string;
  deal_bidfloor : option f64;
  deal_bidfloorcur : option string;
  deal_at : option AuctionType;
  deal_wseat : list string;
  deal_wadomain : list string;
  deal_ext : option Value;
}.

Record Pmp (Value : Type) := {
  pmp_private_auction : Z;
  pmp_deals : list (Deal Value);
  pmp_ext : option Value;
}.

Record Imp (Value : Type) := {
  imp_id : string;
  imp_banner : option (Banner Value);
  imp_video : option (Video Value);
  imp_audio : option (Audio Value);
  imp_native : option (Native Value);
  imp_pmp : option (Pmp Value);
  imp_displaymanager : option string;
  imp_displaymanagerver : option string;
  imp_instl : Z;
  imp_tagid : option string;
  imp_bidfloor : option f64;
  imp_bidfloorcur : option string;
  imp_clickbrowser : Z;
  imp_secure : Z;
  imp_iframebuster : list string;
  imp_rwdd : option Z;
  imp_ssai : option Z;
  imp_exp : option Z;
  imp_ext : option Value;
}.

Record Publisher (Value : Type) := {
  pub_id : option string;
  pub_name : option string;
  pub_cat : list string;
  pub_domain : option string;
  pub_ext : option Value;
}.

Record Producer (Value : Type) := {
  prod_id : option string;
  prod_name : option string;
  prod_cat : list string;
  prod_domain : option string;
  prod_ext : option Value;
}.

Record Segment (Value : Type) := {
  seg_id : option string;
  seg_name : option string;
  seg_value : option string;
  seg_ext : option Value;
}.

Record Data (Value : Type) := {
  data_id : option string;
  data_name : option string;
  data_segment : list (Segment Value);
  data_ext : option Value;
}.

Record Content (Value : Type) := {
  con_id : option string;
  con_episode : option Z;
  con_title : option string;
  con_series : option string;
  con_season : option string;
  con_artist : option string;
  con_genre : option string;
  con_album : option string;
  con_isrc : option string;
  con_producer : option (Producer Value);
  con_url : option string;
  con_cat : list string;
  con_prodq : option Z;
  con_videoquality : option Z;
  con_context : option Z;
  con_contentrating : option string;
  con_userrating : option string;
  con_qagmediarating : option Z;
  con_keywords : option string;
  con_livestream : option Z;
  con_sourcerelationship : option Z;
  con_len : option Z;
  con_language : option string;
  con_embeddable : option Z;
  con_data : option (list (Data Value));
  con_ext : option Value;
}.

Record Site (Value : Type) := {
  site_id : option string;
  site_name : option string;
  site_domain : option string;
  site_cat : list string;
  site_sectioncat : list string;
  site_pagecat : list string;
  site_page : option string;
  site_ref : option string;
  site_search : option string;
  site_mobile : option Z;
  site_privacypolicy : option Z;
  site_publisher : option (Publisher Value);
  site_content : option (Content Value);
  site_keywords : option string;
  site_ext : option Value;
}.

Record App (Value : Type) := {
  app_id : option string;
  app_name : option string;
  app_bundle : option string;
  app_domain : option string;
  app_storeurl : option string;
  app_cat : list string;
  app_sectioncat : list string;
  app_pagecat : list string;
  app_ver : option string;
  app_privacypolicy : option Z;
  app_paid : option Z;
  app_publisher : option (Publisher Value);
  app_content : option (Content Value);
  app_keywords : option string;
  app_ext : option Value;
}.

Record Dooh (Value : Type) := {
  dooh_id : option string;
  dooh_name : option string;
  dooh_venuetype : list string;
  dooh_venuetypetax : option Z;
  dooh_publisher : option (Publisher Value);
  dooh_domain : option string;
  dooh_keywords : option string;
  dooh_content : option (Content Value);
  dooh_ext : option Value;
}.

Record Geo (Value : Type) := {
  geo_lat : option f64;
  geo_lon : option f64;
  geo_type : option Z;
  geo_accuracy : option Z;
  geo_lastfix : option Z;
  geo_ipservice : option Z;
  geo_country : option string;
  geo_region : option string;
  geo_regionfips104 : option string;
  geo_metro : option string;
  geo_city : option string;
  geo_zip : option string;
  geo_utcoffset : option Z;
  geo_ext : option Value;
}.

Record Device (Value : Type) := {
  dev_ua : option string;
  dev_geo : option (Geo Value);
  dev_dnt : option Z;
  dev_lmt : option Z;
  dev_ip : option string;
  dev_ipv6 : option string;
  dev_devicetype : option DeviceType;
  dev_make : option string;
  dev_model : option string;
  dev_os : option string;
  dev_osv : option string;
  dev_hwv : option string;
  dev_h : option Z;
  dev_w : option Z;
  dev_ppi : option Z;
  dev_pxratio : option f64;
  dev_js : option Z;
  dev_geofetch : option Z;
  dev_flashver : option string;
  dev_language : option string;
  dev_carrier : option string;
  dev_mccmnc : option string;
  dev_connectiontype : option Z;
  dev_ifa : option string;
  dev_didsha1 : option string;
  dev_didmd5 : option string;
  dev_dpidsha1 : option string;
  dev_dpidmd5 : option string;
  dev_macsha1 : option string;
  dev_macmd5 : option string;
  dev_ext : option Value;
}.

Record Uid (Value : Type) := {
  uid_id : string;
  uid_atype : option Z;
  uid_ext : option Value;
}.

Record Eid (Value : Type) := {
  eid_source : string;
  eid_uids : list (Uid Value);
  eid_ext : option Value;
}.

Record User (Value : Type) := {
  user_id : option string;
  user_buyeruid : option string;
  user_yob : option Z;
  user_gender : option string;
  user_keywords : option string;
  user_customdata : option string;
  user_geo : option (Geo Value);
  user_data : list (Data Value);
  user_eids : option (list (Eid Value));
  user_ext : option Value;
}.

Record Source (Value : Type) := {
  src_fd : option Z;
  src_tid : option string;
  src_pchain : option string;
  src_schain : option Value;
  src_ext : option Value;
}.

Record Regs (Value : Type) := {
  regs_coppa : option Z;
  regs_gdpr : option Z;
  regs_us_privacy : option string;
  regs_gpp : option string;
  regs_gpp_sid : list Z;
  regs_ext : option Value;
}.

Record BidRequest (Value : Type) := {
  br_id : string;
  br_imp : list (Imp Value);
  br_site : option (Site Value);
  br_app : option (App Value);
  br_dooh : option (Dooh Value);
  br_device : option (Device Value);
  br_user : option (User Value);
  br_at : option AuctionType;
  br_tmax : option Z;
  br_wseat : list string;
  br_bseat : list string;
  br_cur : option (list string);
  br_wlang : list string;
  br_bcat : list string;
  br_badv : list string;
  br_bapp : list string;
  br_source : option (Source Value);
  br_regs : option (Regs Value);
  br_test : Z;
  br_ext : option Value;
}.

(** ** Response objects *)

Record Bid (Value : Type) := {
  bid_id : string;
  bid_impid : string;
  bid_price : f64;
  bid_adid : option string;
  bid_nurl : option string;
  bid_burl : option string;
  bid_lurl : option string;
  bid_adm : option string;
  bid_adomain : option (list string);
  bid_bundle : option string;
  bid_iurl : option string;
  bid_cid : option string;
  bid_crid : option string;
  bid_tactic : option string;
  bid_cat : list string;
  bid_attr : list Z;
  bid_api : option Z;
  bid_protocol : option Z;
  bid_qagmediarating : option Z;
  bid_language : option string;
  bid_dealid : option string;
  bid_w : option Z;
  bid_h : option Z;
  bid_wratio : option Z;
  bid_hratio : option Z;
  bid_exp : option Z;
  bid_ext : option Value;
}.

Record SeatBid (Value : Type) := {
  sb_bid : list (Bid Value);
  sb_seat : option string;
  sb_group : Z;
  sb_ext : option Value;
}.

Record BidResponse (Value : Type) := {
  resp_id : string;
  resp_seatbid : list (SeatBid Value);
  resp_bidid : option string;
  resp_cur : option string;
  resp_customdata : option string;
  resp_nbr : option NoBidReason;
  resp_ext : option Value;
}.

(** [BidResponse::no_bid] *)
Definition no_bid {Value} (request_id : string) (reason : NoBidReason) : BidResponse Value := {|
  resp_id := request_id; resp_seatbid := []; resp_bidid := None; resp_cur := None;
  resp_customdata := None; resp_nbr := Some reason; resp_ext := None;
|}.

(** ** [AdFormat] *)

Module AdFormat.
Inductive t := Banner | Video | Audio | Native.

#[global] Instance t_eq_dec : EqDecision t.
Proof. solve_decision. Defined.

Definition code (f : t) : nat := match f with Banner => 0 | Video => 1 | Audio => 2 | Native => 3 end.
Definition decode (n : nat) : t := match n with 0 => Banner | 1 => Video | 2 => Audio | _ => Native end%nat.
#[global] Program Instance t_countable : Countable t := inj_countable' code decode _.
Next Obligation. by intros []. Qed.

Definition from_imp {Value} (imp : Imp Value) : option t :=
  if decide (is_Some (imp_banner imp)) then Some Banner
  else if decide (is_Some (imp_video imp)) then Some Video
  else if decide (is_Some (imp_audio imp)) then Some Audio
  else if decide (is_Some (imp_native imp)) then Some Native
  else None.
End AdFormat.

(** ** Events *)

Record BidEvent := {
  be_request_id : string;
  be_imp_id : string;
  be_campaign_id : string;
  be_bid_price : f64;
  be_timestamp_ms : Z;
}.

Record WinEvent := {
  we_request_id : string;
  we_imp_id : string;
  we_campaign_id : string;
  we_clearing_price : f64;
  we_timestamp_ms : Z;
}.

Record ImpressionEvent := {
  ie_request_id : string;
  ie_imp_id : string;
  ie_campaign_id : string;
  ie_timestamp_ms : Z;
}.

Record ClickEvent := {
  ce_request_id : string;
  ce_imp_id : string;
  ce_campaign_id : string;
  ce_timestamp_ms : Z;
}.

Record VideoQuartileEvent := {
  vqe_request_id : string;
  vqe_imp_id : string;
  vqe_campaign_id : string;
  vqe_quartile : Z;
  vqe_timestamp_ms : Z;
}.

Record ConversionEvent := {
  cve_request_id : string;
  cve_imp_id : string;
  cve_campaign_id : string;
  cve_conversion_type : string;
  cve_timestamp_ms : Z;
}.

Record ViewabilityEvent := {
  vwe_request_id : string;
  vwe_imp_id : string;
  vwe_campaign_id : string;
  vwe_viewable_fraction : f64;
  vwe_timestamp_ms : Z;
}.

Inductive AdEvent :=
| EvBid (e : BidEvent)
| EvWin (e : WinEvent)
| EvImpression (e : ImpressionEvent)
| EvClick (e : ClickEvent)
| EvVideoQuartile (e : VideoQuartileEvent)
| EvConversion (e : ConversionEvent)
| EvViewabilityMeasured (e : ViewabilityEvent).
