(* ===== verification/Bitmap.v ===== *)
(** * The [RoaringBitmap] interface

    The campaign indices are bitmaps of the [roaring] crate, which is library
    code: a class of the operations the bidder calls, with the crate's documented
    behaviour as laws over the finite set of [u32]s a bitmap stands for.  The
    instance at the end, on stdpp's [gset], shows that the laws can be met and
    lets concrete examples run. *)
From S2P Require Import Prelude.

Class Bitmap (B : Type) := {
  bm_new : B;
  bm_insert : Z -> B -> B;
  bm_or : B -> B -> B;
  bm_and : B -> B -> B;
  bm_sub : B -> B -> B;
  bm_is_empty : B -> bool;
  bm_iter : B -> list Z;
}.

(** [iter] yields the elements in ascending order. *)
Class BitmapLaws (B : Type) `{Bitmap B} := {
  bm_set : B -> gset Z;
  bm_set_new : bm_set bm_new = ∅;
  bm_set_insert x b : bm_set (bm_insert x b) = {[x]} ∪ bm_set b;
  bm_set_or a b : bm_set (bm_or a b) = bm_set a ∪ bm_set b;
  bm_set_and a b : bm_set (bm_and a b) = bm_set a ∩ bm_set b;
  bm_set_sub a b : bm_set (bm_sub a b) = bm_set a ∖ bm_set b;
  bm_is_empty_spec b : bm_is_empty b = true <-> bm_set b = ∅;
  bm_iter_sorted b : StronglySorted Z.lt (bm_iter b);
  bm_iter_set b : list_to_set (bm_iter b) = bm_set b;
}.

(** [extend]: every element of the other bitmap is inserted. *)
Definition bm_extend {B} `{Bitmap B} (a b : B) : B := foldl (fun acc x => bm_insert x acc) a (bm_iter b).

(** A bitmap of a list of values: [let mut bm = new(); for x in l { bm.insert(x) }]. *)
Definition bm_of_list {B} `{Bitmap B} (l : list Z) : B := foldl (fun acc x => bm_insert x acc) bm_new l.

Section Derived.
Context {B : Type} `{BitmapLaws B}.

Lemma bm_inserts_set (a : B) l :
  bm_set (foldl (fun acc x => bm_insert x acc) a l) = bm_set a ∪ list_to_set l.
Proof.
  revert a; induction l as [|x l IH]; intros a; simpl; [set_solver|].
  rewrite IH, bm_set_insert. set_solver.
Qed.

Lemma bm_set_extend (a b : B) : bm_set (bm_extend a b) = bm_set a ∪ bm_set b.
Proof. unfold bm_extend. by rewrite bm_inserts_set, bm_iter_set. Qed.

Lemma bm_set_of_list (l : list Z) : bm_set (bm_of_list (B := B) l) = list_to_set l.
Proof. unfold bm_of_list. rewrite bm_inserts_set, bm_set_new. set_solver. Qed.

Lemma elem_of_bm_iter (b : B) x : x ∈ bm_iter b <-> x ∈ bm_set b.
Proof. rewrite <- bm_iter_set. set_solver. Qed.

Lemma bm_iter_NoDup (b : B) : NoDup (bm_iter b).
Proof.
  pose proof (bm_iter_sorted b) as Hs. induction Hs as [|x l Hs IH Hx]; constructor; [|done].
  intros Hin. rewrite Forall_forall in Hx. specialize (Hx x Hin). lia.
Qed.

(** [for k in keys { if let Some(bm) = index.get(k) { union |= bm } }] *)
Lemma bm_union_fold {K} (get : K -> option B) (keys : list K) (acc : B) x :
  x ∈ bm_set (foldl (fun u k => match get k with Some bm => bm_or u bm | None => u end) acc keys) <->
  x ∈ bm_set acc \/ exists k b, k ∈ keys /\ get k = Some b /\ x ∈ bm_set b.
Proof.
  revert acc; induction keys as [|k keys IH]; intros acc; simpl.
  { split; [by left|]. intros [?|(? & ? & ?%elem_of_nil & _)]; done. }
  rewrite IH. destruct (get k) as [b|] eqn:E; rewrite ?bm_set_or; split.
  - intros [[Ha|Hb]%elem_of_union|(k' & b' & ? & ? & ?)]; [by left|right|right].
    + exists k, b. set_solver.
    + exists k', b'. set_solver.
  - intros [?|(k' & b' & [->|?]%elem_of_cons & ? & ?)]; [set_solver|simplify_eq; set_solver|].
    right. eauto.
  - intros [?|(k' & b' & ? & ? & ?)]; [by left|]. right. exists k', b'. set_solver.
  - intros [?|(k' & b' & [->|?]%elem_of_cons & ? & ?)]; [by left|congruence|]. right. eauto.
Qed.
End Derived.

#[export] Hint Rewrite @bm_set_new @bm_set_insert @bm_set_or @bm_set_and @bm_set_sub
  @bm_set_extend @bm_set_of_list @elem_of_bm_iter : bidder.

(** ** The instance on finite sets *)
#[global] Instance gset_bitmap : Bitmap (gset Z) := {|
  bm_new := ∅;
  bm_insert x b := {[x]} ∪ b;
  bm_or := union;
  bm_and := intersection;
  bm_sub := difference;
  bm_is_empty b := bool_decide (b = ∅);
  bm_iter b := merge_sort Z.le (elements b);
|}.

Lemma sorted_lt_of_le (l : list Z) : NoDup l -> StronglySorted Z.le l -> StronglySorted Z.lt l.
Proof.
  intros Hn Hs. induction Hs as [|x l Hs IH Hx]; constructor.
  - apply IH. by inversion Hn.
  - inversion Hn as [|? ? Hx' ?]; subst. rewrite Forall_forall in Hx |- *. intros y Hy.
    specialize (Hx y Hy). assert (x <> y) by congruence. lia.
Qed.

#[global] Instance gset_bitmap_laws : BitmapLaws (gset Z).
Proof.
  refine {| bm_set b := b |}; simpl; try done.
  - intros b. apply bool_decide_eq_true.
  - intros b. apply sorted_lt_of_le.
    + rewrite merge_sort_Permutation. apply NoDup_elements.
    + apply StronglySorted_merge_sort; [apply _|intros ? ?; lia].
  - intros b. apply set_eq. intros x. rewrite elem_of_list_to_set, merge_sort_Permutation. set_solver.
Defined.
