(* ===== verification/Catalog.v ===== *)
(** * The campaign catalog

    [bidder-core/src/catalog/types.rs], [catalog/campaign_catalog.rs] and
    [targeting/mod.rs]: campaign and creative records, the immutable catalog
    snapshot with its inverted bitmap indices, candidate retrieval by bitmap
    intersection, and the segment registry.  [candidates_for] is compared with
    [matches], the per-campaign targeting rule it is meant to compute. *)
From S2P Require Import Prelude Floats OpenRtb Bitmap.

(** ** [types.rs] *)

Notation CampaignId := Z (only parsing).
Notation SegmentId := Z (only parsing).
Notation CreativeId := Z (only parsing).

Inductive GeoKind := Country | Metro.
Record GeoKey := { gk_kind : GeoKind; gk_code : string }.
Inductive DeviceTargetType := Desktop | Mobile | Tablet | Ctv | Other.

#[global] Instance GeoKind_eq_dec : EqDecision GeoKind.
Proof. solve_decision. Defined.
#[global] Instance GeoKey_eq_dec : EqDecision GeoKey.
Proof. solve_decision. Defined.
#[global] Instance DeviceTargetType_eq_dec : EqDecision DeviceTargetType.
Proof. solve_decision. Defined.
#[global] Program Instance GeoKey_countable : Countable GeoKey :=
  inj_countable' (fun k => (match gk_kind k with Country => true | Metro => false end, gk_code k))
                 (fun '(b, c) => {| gk_kind := if b : bool then Country else Metro; gk_code := c |}) _.
Next Obligation. by intros [[] c]. Qed.

Definition device_code (d : DeviceTargetType) : nat :=
  match d with Desktop => 0 | Mobile => 1 | Tablet => 2 | Ctv => 3 | Other => 4 end.
Definition device_decode (n : nat) : DeviceTargetType :=
  match n with 0 => Desktop | 1 => Mobile | 2 => Tablet | 3 => Ctv | _ => Other end%nat.
#[global] Program Instance DeviceTargetType_countable : Countable DeviceTargetType :=
  inj_countable' device_code device_decode _.
Next Obligation. by intros []. Qed.

(** [DeviceTargetType::from_openrtb] *)
Definition from_openrtb (v : Z) : DeviceTargetType :=
  if decide (v ∈ [1; 4]) then Mobile
  else if decide (v = 2) then Desktop
  else if decide (v ∈ [3; 6; 7]) then Ctv
  else if decide (v = 5) then Tablet
  else Other.

Record Campaign := {
  c_id : CampaignId;
  c_advertiser_id : Z;
  c_bid_floor_cents : Z;
  c_daily_budget_cents : Z;
  c_hourly_budget_cents : Z;
  c_daily_cap_imps : Z;
  c_hourly_cap_imps : Z;
}.

Record Creative := {
  cr_id : CreativeId;
  cr_campaign_id : CampaignId;
  cr_ad_format : AdFormat.t;
  cr_click_url : string;
  cr_image_url : option string;
  cr_width : option Z;
  cr_height : option Z;
}.

(** ** [SegmentRegistry] *)

Record SegmentRegistry := { registry_inner : gmap string SegmentId }.
Definition registry_default : SegmentRegistry := {| registry_inner := ∅ |}.
Definition registry_insert (r : SegmentRegistry) (name : string) (id : SegmentId) : SegmentRegistry :=
  {| registry_inner := <[name := id]> (registry_inner r) |}.
Definition registry_resolve (r : SegmentRegistry) (names : list string) : list SegmentId :=
  omap (fun n => registry_inner r !! n) names.
Definition registry_len (r : SegmentRegistry) : nat := size (registry_inner r).

(** ** [CampaignCatalog] *)

Record CandidateRequest := {
  rq_segment_ids : list SegmentId;
  rq_geo_keys : option (list GeoKey);
  rq_device_type : option DeviceTargetType;
  rq_ad_format : option AdFormat.t;
}.

Record CampaignCatalog (B : Type) := {
  campaigns : gmap CampaignId Campaign;
  creatives : gmap CampaignId (list Creative);
  segment_to_campaigns : gmap SegmentId B;
  geo_to_campaigns : gmap GeoKey B;
  device_to_campaigns : gmap DeviceTargetType B;
  format_to_campaigns : gmap AdFormat.t B;
  daypart_active_now : B;
  all_campaigns : B;
  device_unrestricted : B;
  format_unrestricted : B;
}.
Arguments campaigns {B}.
Arguments creatives {B}.
Arguments segment_to_campaigns {B}.
Arguments geo_to_campaigns {B}.
Arguments device_to_campaigns {B}.
Arguments format_to_campaigns {B}.
Arguments daypart_active_now {B}.
Arguments all_campaigns {B}.
Arguments device_unrestricted {B}.
Arguments format_unrestricted {B}.

Section Catalog.
Context {B : Type} `{Bitmap B}.

(** [result = Some(match result { Some(mut r) => { r &= f; r } None => f })] *)
Definition narrow (result : option B) (f : B) : option B :=
  Some (match result with Some r => bm_and r f | None => f end).

(** The union of the index entries of a list of keys. *)
Definition union_of {K} `{Countable K} (index : gmap K B) (keys : list K) : B :=
  foldl (fun u k => match index !! k with Some bm => bm_or u bm | None => u end) bm_new keys.

(** [let mut eligible = unrestricted.clone(); if let Some(bm) = index.get(k) { eligible |= bm }] *)
Definition with_unrestricted {K} `{Countable K} (unrestricted : B) (index : gmap K B) (k : K) : B :=
  match index !! k with Some bm => bm_or unrestricted bm | None => unrestricted end.

(** The filters, in order: [None] means that no constraint was applied yet. *)
Definition filter_segments (self : CampaignCatalog B) (req : CandidateRequest) : option B :=
  match rq_segment_ids req with
  | [] => None
  | ids => Some (union_of (segment_to_campaigns self) ids)
  end.
Definition filter_geo (self : CampaignCatalog B) (req : CandidateRequest) (result : option B) : option B :=
  match rq_geo_keys req with
  | Some (k :: ks) => narrow result (union_of (geo_to_campaigns self) (k :: ks))
  | _ => result
  end.
Definition filter_device (self : CampaignCatalog B) (req : CandidateRequest) (result : option B) : option B :=
  match rq_device_type req with
  | Some d => narrow result (with_unrestricted (device_unrestricted self) (device_to_campaigns self) d)
  | None => result
  end.
Definition filter_format (self : CampaignCatalog B) (req : CandidateRequest) (result : option B) : option B :=
  match rq_ad_format req with
  | Some f => narrow result (with_unrestricted (format_unrestricted self) (format_to_campaigns self) f)
  | None => result
  end.
Definition filter_daypart (self : CampaignCatalog B) (result : option B) : option B :=
  if bm_is_empty (daypart_active_now self) then result
  else narrow result (daypart_active_now self).

Definition candidates_for (self : CampaignCatalog B) (req : CandidateRequest) : B :=
  if bm_is_empty (all_campaigns self) then bm_new
  else
    let result := filter_segments self req in
    let result := filter_geo self req result in
    let result := filter_device self req result in
    let result := filter_format self req result in
    let result := filter_daypart self result in
    match result with Some r => r | None => all_campaigns self end.

Definition campaign (self : CampaignCatalog B) (id : CampaignId) : option Campaign := campaigns self !! id.

Definition creatives_for (self : CampaignCatalog B) (id : CampaignId) : list Creative :=
  unwrap_or (creatives self !! id) [].

Definition catalog_len (self : CampaignCatalog B) : nat := size (campaigns self).

(** [budget_seeds]: the iteration order of the map is the order of the list. *)
Definition budget_seeds (self : CampaignCatalog B) : list (CampaignId * Z) :=
  (fun '(id, c) => (id, c_daily_budget_cents c)) <$> map_to_list (campaigns self).

(** The empty catalog ([Default]). *)
Definition catalog_default : CampaignCatalog B := {|
  campaigns := ∅; creatives := ∅; segment_to_campaigns := ∅; geo_to_campaigns := ∅;
  device_to_campaigns := ∅; format_to_campaigns := ∅; daypart_active_now := bm_new;
  all_campaigns := bm_new; device_unrestricted := bm_new; format_unrestricted := bm_new;
|}.
End Catalog.

(** ** What retrieval computes *)

Section Spec.
Context {B : Type} `{BitmapLaws B}.

(** A campaign id is in the index entry of [k]. *)
Definition indexed {K} `{Countable K} (index : gmap K B) (k : K) (id : CampaignId) : Prop :=
  exists b, index !! k = Some b /\ id ∈ bm_set b.

(** The targeting rule, one dimension per line. *)
Definition matches_segments (self : CampaignCatalog B) (req : CandidateRequest) (id : CampaignId) : Prop :=
  rq_segment_ids req = [] \/ exists s, s ∈ rq_segment_ids req /\ indexed (segment_to_campaigns self) s id.
Definition matches_geo (self : CampaignCatalog B) (req : CandidateRequest) (id : CampaignId) : Prop :=
  unwrap_or (rq_geo_keys req) [] = [] \/
  exists k, k ∈ unwrap_or (rq_geo_keys req) [] /\ indexed (geo_to_campaigns self) k id.
Definition matches_device (self : CampaignCatalog B) (req : CandidateRequest) (id : CampaignId) : Prop :=
  forall d, rq_device_type req = Some d ->
    id ∈ bm_set (device_unrestricted self) \/ indexed (device_to_campaigns self) d id.
Definition matches_format (self : CampaignCatalog B) (req : CandidateRequest) (id : CampaignId) : Prop :=
  forall f, rq_ad_format req = Some f ->
    id ∈ bm_set (format_unrestricted self) \/ indexed (format_to_campaigns self) f id.
Definition matches_daypart (self : CampaignCatalog B) (id : CampaignId) : Prop :=
  bm_set (daypart_active_now self) = ∅ \/ id ∈ bm_set (daypart_active_now self).

Definition matches (self : CampaignCatalog B) (req : CandidateRequest) (id : CampaignId) : Prop :=
  matches_segments self req id /\ matches_geo self req id /\ matches_device self req id /\
  matches_format self req id /\ matches_daypart self id.

(** Every index lists only known campaigns, and [all_campaigns] is exactly the
    domain of [campaigns]. *)
Definition catalog_wf (self : CampaignCatalog B) : Prop :=
  let all := bm_set (all_campaigns self) in
  all = dom (campaigns self) /\
  map_Forall (fun _ b => bm_set b ⊆ all) (segment_to_campaigns self) /\
  map_Forall (fun _ b => bm_set b ⊆ all) (geo_to_campaigns self) /\
  map_Forall (fun _ b => bm_set b ⊆ all) (device_to_campaigns self) /\
  map_Forall (fun _ b => bm_set b ⊆ all) (format_to_campaigns self) /\
  bm_set (daypart_active_now self) ⊆ all /\
  bm_set (device_unrestricted self) ⊆ all /\ bm_set (format_unrestricted self) ⊆ all.

Lemma elem_of_union_of {K} `{Countable K} (index : gmap K B) keys id :
  id ∈ bm_set (union_of index keys) <-> exists k, k ∈ keys /\ indexed index k id.
Proof.
  unfold union_of, indexed. rewrite (bm_union_fold (fun k => index !! k)), bm_set_new. set_solver.
Qed.

Lemma elem_of_with_unrestricted {K} `{Countable K} (u : B) (index : gmap K B) k id :
  id ∈ bm_set (with_unrestricted u index k) <-> id ∈ bm_set u \/ indexed index k id.
Proof.
  unfold with_unrestricted, indexed. destruct (index !! k) as [b|]; rewrite ?bm_set_or; [set_solver|].
  naive_solver.
Qed.

(** The accumulated constraint: [None] stands for the whole universe. *)
Definition accepts (r : option B) (id : CampaignId) : Prop :=
  match r with Some b => id ∈ bm_set b | None => True end.

Lemma accepts_narrow r f id : accepts (narrow r f) id <-> accepts r id /\ id ∈ bm_set f.
Proof. destruct r; simpl; rewrite ?bm_set_and; set_solver. Qed.

(** A constraint that only lists known campaigns. *)
Definition within (all : gset Z) (r : option B) : Prop := forall b, r = Some b -> bm_set b ⊆ all.

Lemma within_narrow all r f : bm_set f ⊆ all -> within all (narrow r f).
Proof. intros Hf b [= <-]. destruct r; rewrite ?bm_set_and; set_solver. Qed.

Lemma within_union_of {K} `{Countable K} all (index : gmap K B) keys :
  map_Forall (fun _ b => bm_set b ⊆ all) index -> bm_set (union_of index keys) ⊆ all.
Proof.
  intros Hi id. rewrite elem_of_union_of. intros (k & _ & b & Hk & Hb). by apply (Hi k b Hk).
Qed.

Lemma within_with_unrestricted {K} `{Countable K} all u (index : gmap K B) k :
  bm_set u ⊆ all -> map_Forall (fun _ b => bm_set b ⊆ all) index ->
  bm_set (with_unrestricted u index k) ⊆ all.
Proof.
  intros Hu Hi id. rewrite elem_of_with_unrestricted. intros [?|(b & Hk & Hb)]; [set_solver|].
  by apply (Hi k b Hk).
Qed.

(** One lemma per filter: what it accepts, and that it stays within [all]. *)
Lemma accepts_filter_segments self req id :
  accepts (filter_segments self req) id <-> matches_segments self req id.
Proof.
  unfold filter_segments, matches_segments. destruct (rq_segment_ids req) as [|s l]; simpl; [naive_solver|].
  rewrite elem_of_union_of. naive_solver.
Qed.

Lemma accepts_filter_geo self req r id :
  accepts (filter_geo self req r) id <-> accepts r id /\ matches_geo self req id.
Proof.
  unfold filter_geo, matches_geo. destruct (rq_geo_keys req) as [[|k ks]|]; cbn [unwrap_or]; [naive_solver| |naive_solver].
  rewrite accepts_narrow, elem_of_union_of. naive_solver.
Qed.

Lemma accepts_filter_device self req r id :
  accepts (filter_device self req r) id <-> accepts r id /\ matches_device self req id.
Proof.
  unfold filter_device, matches_device. destruct (rq_device_type req) as [d|]; [|naive_solver].
  rewrite accepts_narrow, elem_of_with_unrestricted. naive_solver.
Qed.

Lemma accepts_filter_format self req r id :
  accepts (filter_format self req r) id <-> accepts r id /\ matches_format self req id.
Proof.
  unfold filter_format, matches_format. destruct (rq_ad_format req) as [f|]; [|naive_solver].
  rewrite accepts_narrow, elem_of_with_unrestricted. naive_solver.
Qed.

Lemma accepts_filter_daypart self r id :
  accepts (filter_daypart self r) id <-> accepts r id /\ matches_daypart self id.
Proof.
  unfold filter_daypart, matches_daypart. destruct (bm_is_empty (daypart_active_now self)) eqn:E.
  - apply bm_is_empty_spec in E. naive_solver.
  - rewrite accepts_narrow. assert (bm_set (daypart_active_now self) <> ∅); [|naive_solver].
    intros Hd. apply bm_is_empty_spec in Hd. congruence.
Qed.

Lemma within_filters self req r :
  catalog_wf self -> within (bm_set (all_campaigns self)) r ->
  within (bm_set (all_campaigns self))
    (filter_daypart self (filter_format self req (filter_device self req (filter_geo self req r)))).
Proof.
  intros (_ & _ & Hg & Hd & Hf & Hday & Hdu & Hfu) Hr.
  unfold filter_daypart, filter_format, filter_device, filter_geo.
  repeat case_goal; try done; repeat apply within_narrow;
    eauto using within_union_of, within_with_unrestricted.
Qed.

Lemma within_filter_segments self req :
  catalog_wf self -> within (bm_set (all_campaigns self)) (filter_segments self req).
Proof.
  intros (_ & Hs & _) b. unfold filter_segments. destruct (rq_segment_ids req); [done|].
  intros [= <-]. by apply within_union_of.
Qed.

Lemma elem_of_candidates_for self req id : catalog_wf self ->
  id ∈ bm_set (candidates_for self req) <-> id ∈ bm_set (all_campaigns self) /\ matches self req id.
Proof.
  intros Hwf. unfold candidates_for. destruct (bm_is_empty (all_campaigns self)) eqn:E.
  { apply bm_is_empty_spec in E. rewrite bm_set_new, E. set_solver. }
  pose proof (within_filters self req _ Hwf (within_filter_segments self req Hwf)) as Hin.
  pose proof (accepts_filter_daypart self (filter_format self req (filter_device self req
    (filter_geo self req (filter_segments self req)))) id) as Hacc.
  rewrite accepts_filter_format, accepts_filter_device, accepts_filter_geo, accepts_filter_segments in Hacc.
  unfold matches. cbv zeta. destruct (filter_daypart _ _) as [r|]; simpl in Hacc; [|naive_solver].
  specialize (Hin r eq_refl). set_solver.
Qed.
End Spec.

(** ** Properties *)

(** Retrieval implements the targeting rule: on a well-formed catalog the
    bitmap [candidates_for] returns holds exactly the known campaigns that match
    the request in every dimension (segments, geo, device, format, daypart), a
    dimension the request leaves out restricting nothing.  The laziness of the
    universe and the early return on an empty catalog do not change the result. *)
Theorem candidates_for_matches {B} `{BitmapLaws B} (self : CampaignCatalog B) (req : CandidateRequest)
    (id : CampaignId) (Hwf : catalog_wf self) :
  id ∈ bm_iter (candidates_for self req) <->
  id ∈ dom (campaigns self) /\ matches self req id.
Proof.
  rewrite elem_of_bm_iter, elem_of_candidates_for by done. by destruct Hwf as [<- _].
Qed.

Definition sample_campaign (id : Z) : Campaign := {|
  c_id := id; c_advertiser_id := 7; c_bid_floor_cents := 100 * id; c_daily_budget_cents := 10000;
  c_hourly_budget_cents := 1000; c_daily_cap_imps := 10; c_hourly_cap_imps := 3 |}.

(** Campaigns 1, 2 and 3; 1 and 2 target segment 10; 1 and 3 only banners. *)
Definition sample_catalog : CampaignCatalog (gset Z) := {|
  campaigns := {[1 := sample_campaign 1; 2 := sample_campaign 2; 3 := sample_campaign 3]};
  creatives := ∅;
  segment_to_campaigns := {[10 := {[1; 2]}]};
  geo_to_campaigns := ∅;
  device_to_campaigns := ∅;
  format_to_campaigns := {[AdFormat.Banner := {[1; 3]}]};
  daypart_active_now := ∅;
  all_campaigns := {[1; 2; 3]};
  device_unrestricted := {[1; 2; 3]};
  format_unrestricted := {[2]};
|}.

Lemma sample_catalog_wf : catalog_wf sample_catalog.
Proof.
  unfold catalog_wf, sample_catalog; simpl.
  split_and!; try lazymatch goal with
    | |- map_Forall _ ∅ => apply map_Forall_empty
    | |- map_Forall _ _ => apply map_Forall_singleton
    end; vm_decide.
Defined.

Lemma candidates_for_matches_witness :
  let req := {| rq_segment_ids := [10]; rq_geo_keys := None; rq_device_type := Some Mobile;
                rq_ad_format := Some AdFormat.Video |} in
  matches sample_catalog req 2.
Proof.
  intros req. apply (candidates_for_matches sample_catalog req 2 sample_catalog_wf).
  vm_compute. left.
Defined.
