(* ===== verification/Loader.v ===== *)
(** * Building and refreshing the catalog

    [bidder-core/src/catalog/loader.rs]: the rows of the eight Postgres queries,
    [build], which turns them into a catalog snapshot and a segment registry,
    [start] and the background [refresh_loop].  Postgres itself is a parameter:
    the query texts are relations between the tables ([Db]) and the row lists a
    query may return, in any order SQL allows.  [build] is then shown to serve
    the targeting rule stated directly on the tables. *)
From S2P Require Import Prelude Floats OpenRtb Bitmap Catalog Pacing.

(** ** Rows *)

Record CampaignRow := {
  row_id : Z;
  row_advertiser_id : Z;
  row_bid_floor_cents : Z;
  row_daily_budget_cents : Z;
  row_hourly_budget_cents : Z;
  row_daily_cap_imps : Z;
  row_hourly_cap_imps : Z;
}.

Record CreativeRow := {
  crow_id : Z;
  crow_campaign_id : Z;
  crow_ad_format : string;
  crow_click_url : string;
  crow_image_url : option string;
  crow_width : option Z;
  crow_height : option Z;
}.

(** What the eight queries of one build return. *)
Record Rows := {
  campaigns_rows : list CampaignRow;
  creatives_rows : list CreativeRow;
  segments_rows : list (Z * string);
  seg_idx : list (Z * list Z);
  geo_idx : list (string * string * list Z);
  device_idx : list (string * list Z);
  format_idx : list (string * list Z);
  daypart_rows : list Z;
}.

(** ** Parsers and the clock *)

Definition parse_ad_format (s : string) : option AdFormat.t :=
  if decide (s ∈ ["BANNER"; "banner"]) then Some AdFormat.Banner
  else if decide (s ∈ ["VIDEO"; "video"]) then Some AdFormat.Video
  else if decide (s ∈ ["AUDIO"; "audio"]) then Some AdFormat.Audio
  else if decide (s ∈ ["NATIVE"; "native"]) then Some AdFormat.Native
  else None.

Definition parse_device_type (s : string) : option DeviceTargetType :=
  if decide (s ∈ ["DESKTOP"; "desktop"]) then Some Desktop
  else if decide (s ∈ ["MOBILE"; "mobile"]) then Some Mobile
  else if decide (s ∈ ["TABLET"; "tablet"]) then Some Tablet
  else if decide (s ∈ ["CTV"; "ctv"]) then Some Ctv
  else if decide (s ∈ ["OTHER"; "other"]) then Some Other
  else None.

(** [current_hour_of_week], from the Unix time in whole seconds. *)
Definition current_hour_of_week (secs : Z) : Z :=
  let day_of_week := (secs / 86400 + 3) mod 7 in
  let hour_of_day := (secs mod 86400) / 3600 in
  day_of_week * 24 + hour_of_day.

(** ** [build] *)
Section Build.
Context {B : Type} `{Bitmap B}.

Definition campaign_of_row (row : CampaignRow) : Campaign := {|
  c_id := as_u32 (row_id row);
  c_advertiser_id := as_u64 (row_advertiser_id row);
  c_bid_floor_cents := row_bid_floor_cents row;
  c_daily_budget_cents := row_daily_budget_cents row;
  c_hourly_budget_cents := row_hourly_budget_cents row;
  c_daily_cap_imps := as_u32 (Z.max (row_daily_cap_imps row) 0);
  c_hourly_cap_imps := as_u32 (Z.max (row_hourly_cap_imps row) 0);
|}.

Definition build_registry (rows : list (Z * string)) : SegmentRegistry :=
  foldl (fun reg '(id, name) => registry_insert reg name (as_u32 id)) registry_default rows.

Definition build_campaigns (rows : list CampaignRow) : gmap CampaignId Campaign * B :=
  foldl (fun '(m, all) row =>
           let id := as_u32 (row_id row) in
           (<[id := campaign_of_row row]> m, bm_insert id all))
        (∅, bm_new) rows.

Definition build_creatives (rows : list CreativeRow) : gmap CampaignId (list Creative) :=
  foldl (fun m row =>
           let cid := as_u32 (crow_campaign_id row) in
           match parse_ad_format (crow_ad_format row) with
           | None => m
           | Some format =>
               let creative := {|
                 cr_id := as_u32 (crow_id row); cr_campaign_id := cid; cr_ad_format := format;
                 cr_click_url := crow_click_url row; cr_image_url := crow_image_url row;
                 cr_width := crow_width row; cr_height := crow_height row |} in
               <[cid := unwrap_or (m !! cid) [] ++ [creative]]> m
           end)
        ∅ rows.

(** [for cid in campaign_ids { bm.insert(cid as u32) }] *)
Definition ids_bitmap (campaign_ids : list Z) : B := bm_of_list (as_u32 <$> campaign_ids).

Definition build_segment_index (rows : list (Z * list Z)) : gmap SegmentId B :=
  foldl (fun m row => <[as_u32 row.1 := ids_bitmap row.2]> m) ∅ rows.

Definition geo_key (kind_str code : string) : GeoKey :=
  {| gk_kind := if decide (kind_str = "country"%string) then Country else Metro; gk_code := code |}.

Definition build_geo_index (rows : list (string * string * list Z)) : gmap GeoKey B :=
  foldl (fun m row => <[geo_key row.1.1 row.1.2 := ids_bitmap row.2]> m) ∅ rows.

(** The device and format loops are the same code over two enums: the index and
    the set of campaigns that have at least one targeting row. *)
Definition build_enum_index {K} `{Countable K} (parse : string -> option K)
    (rows : list (string * list Z)) : gmap K B * B :=
  foldl (fun '(m, restricted) '(s, campaign_ids) =>
           match parse s with
           | None => (m, restricted)
           | Some k =>
               let bm := ids_bitmap campaign_ids in
               (<[k := bm_extend (unwrap_or (m !! k) bm_new) bm]> m,
                foldl (fun r cid => bm_insert (as_u32 cid) r) restricted campaign_ids)
           end)
        (∅, bm_new) rows.

Definition build (rows : Rows) : CampaignCatalog B * SegmentRegistry :=
  let registry := build_registry (segments_rows rows) in
  let cs := build_campaigns (campaigns_rows rows) in
  let device := build_enum_index parse_device_type (device_idx rows) in
  let format := build_enum_index parse_ad_format (format_idx rows) in
  ({| campaigns := cs.1;
      creatives := build_creatives (creatives_rows rows);
      segment_to_campaigns := build_segment_index (seg_idx rows);
      geo_to_campaigns := build_geo_index (geo_idx rows);
      device_to_campaigns := device.1;
      format_to_campaigns := format.1;
      daypart_active_now := ids_bitmap (daypart_rows rows);
      all_campaigns := cs.2;
      device_unrestricted := bm_sub cs.2 device.2;
      format_unrestricted := bm_sub cs.2 format.2 |}, registry).

(** ** [start] and [refresh_loop]

    One iteration of the loop, on the outcome of the eight joined queries.  The
    two [ArcSwap]s and the pacer are the shared state. *)
Context {P : Type} `{BudgetPacer P}.

Record Shared := {
  sh_catalog : CampaignCatalog B;
  sh_registry : SegmentRegistry;
  sh_pacer : P;
  consecutive_failures : Z;
}.

Definition start (queried : Result Rows string) (pacer : P) : Result Shared string :=
  match queried with
  | Err e => Err e
  | Ok rows =>
      let '(catalog, registry) := build rows in
      Ok {| sh_catalog := catalog; sh_registry := registry;
            sh_pacer := reload pacer (budget_seeds catalog); consecutive_failures := 0 |}
  end.

Definition refresh (s : Shared) (queried : Result Rows string) : Shared :=
  match queried with
  | Ok rows =>
      let '(catalog, registry) := build rows in
      {| sh_catalog := catalog; sh_registry := registry;
         sh_pacer := reload (sh_pacer s) (budget_seeds catalog); consecutive_failures := 0 |}
  | Err _ =>
      {| sh_catalog := sh_catalog s; sh_registry := sh_registry s; sh_pacer := sh_pacer s;
         consecutive_failures := as_u32 (consecutive_failures s + 1) |}
  end.
End Build.
Arguments Shared : clear implicits.

(** ** Postgres *)

Inductive campaign_status := active | paused | draft | archived.
Inductive segment_status := seg_active | seg_retired.

(** The tables of [migrations/], with the columns the queries read.  A
    [hours_active] mask is its list of bits, Monday 00:00 first. *)
Record Db := {
  db_campaign : list (campaign_status * CampaignRow);
  db_creative : list CreativeRow;
  db_segment : list (segment_status * Z * string);
  db_targeting_segment : list (Z * Z);
  db_targeting_geo : list (Z * (string * string));
  db_targeting_device : list (Z * string);
  db_targeting_format : list (Z * string);
  db_daypart : list (Z * list bool);
}.

Definition is_active (db : Db) (id : Z) : Prop :=
  exists row, (active, row) ∈ db_campaign db /\ row_id row = id.

(** [SELECT k, array_agg(campaign_id ORDER BY campaign_id) .. JOIN campaign ..
    WHERE status = 'active' GROUP BY k]: one row per key that has an active
    campaign, in any order, listing its active campaigns in ascending order. *)
Definition grouped {K} (db : Db) (pairs : list (Z * K)) (rows : list (K * list Z)) : Prop :=
  NoDup rows.*1 /\
  Forall (fun r => r.2 <> [] /\ StronglySorted Z.le r.2) rows /\
  forall k c, (exists l, (k, l) ∈ rows /\ c ∈ l) <-> (c, k) ∈ pairs /\ is_active db c.

Definition query_campaigns (db : Db) (rows : list CampaignRow) : Prop :=
  rows ≡ₚ omap (fun '(st, row) => match st with active => Some row | _ => None end) (db_campaign db).
Definition query_creatives (db : Db) (rows : list CreativeRow) : Prop :=
  forall row, row ∈ rows <-> row ∈ db_creative db /\ is_active db (crow_campaign_id row).
Definition query_segments (db : Db) (rows : list (Z * string)) : Prop :=
  rows ≡ₚ omap (fun '(st, id, name) => match st with seg_active => Some (id, name) | _ => None end) (db_segment db).
Definition query_segment_index (db : Db) (rows : list (Z * list Z)) : Prop :=
  grouped db (db_targeting_segment db) rows.
Definition query_geo_index (db : Db) (rows : list (string * string * list Z)) : Prop :=
  grouped db (db_targeting_geo db) rows.
Definition query_device_index (db : Db) (rows : list (string * list Z)) : Prop :=
  grouped db (db_targeting_device db) rows.
Definition query_format_index (db : Db) (rows : list (string * list Z)) : Prop :=
  grouped db (db_targeting_format db) rows.
(** [get_bit(hours_active, hour) = 1] *)
Definition query_daypart_active_now (db : Db) (hour : Z) (rows : list Z) : Prop :=
  forall c, c ∈ rows <-> is_active db c /\
    exists bits, (c, bits) ∈ db_daypart db /\ bits !! Z.to_nat hour = Some true.

(** The rows of one build at a given hour of the week. *)
Definition answers (db : Db) (hour : Z) (rows : Rows) : Prop :=
  query_campaigns db (campaigns_rows rows) /\ query_creatives db (creatives_rows rows) /\
  query_segments db (segments_rows rows) /\ query_segment_index db (seg_idx rows) /\
  query_geo_index db (geo_idx rows) /\ query_device_index db (device_idx rows) /\
  query_format_index db (format_idx rows) /\ query_daypart_active_now db hour (daypart_rows rows).

(** What the schema guarantees, and that the identity columns have not outgrown
    the 32-bit ids the bidder uses. *)
Record db_wf (db : Db) : Prop := {
  dbw_campaign_id st row : (st, row) ∈ db_campaign db -> in_u32 (row_id row);
  dbw_campaign_pk st1 st2 r1 r2 : (st1, r1) ∈ db_campaign db -> (st2, r2) ∈ db_campaign db ->
    row_id r1 = row_id r2 -> r1 = r2;
  dbw_segment_id c s : (c, s) ∈ db_targeting_segment db -> in_u32 s;
  dbw_geo_kind c k code : (c, (k, code)) ∈ db_targeting_geo db -> k ∈ ["country"; "metro"]%string;
  dbw_device c s : (c, s) ∈ db_targeting_device db -> is_Some (parse_device_type s);
  dbw_format c s : (c, s) ∈ db_targeting_format db -> is_Some (parse_ad_format s);
}.

(** ** The targeting rule on the tables *)
Definition db_matches (db : Db) (hour : Z) (req : CandidateRequest) (id : Z) : Prop :=
  is_active db id /\
  (rq_segment_ids req = [] \/ exists s, s ∈ rq_segment_ids req /\ (id, s) ∈ db_targeting_segment db) /\
  (unwrap_or (rq_geo_keys req) [] = [] \/
   exists kind code, geo_key kind code ∈ unwrap_or (rq_geo_keys req) [] /\
     (id, (kind, code)) ∈ db_targeting_geo db) /\
  (forall d, rq_device_type req = Some d ->
     (forall s, (id, s) ∉ db_targeting_device db) \/
     exists s, (id, s) ∈ db_targeting_device db /\ parse_device_type s = Some d) /\
  (forall f, rq_ad_format req = Some f ->
     (forall s, (id, s) ∉ db_targeting_format db) \/
     exists s, (id, s) ∈ db_targeting_format db /\ parse_ad_format s = Some f) /\
  let on_air c := is_active db c /\ exists bits, (c, bits) ∈ db_daypart db /\ bits !! Z.to_nat hour = Some true in
  ((forall c, ~ on_air c) \/ on_air id).

(** ** Lemmas *)
Section BuildLemmas.
Context {B : Type} `{BitmapLaws B}.

Lemma elem_of_ids_bitmap l id : id ∈ bm_set (ids_bitmap (B := B) l) <-> exists c, c ∈ l /\ id = as_u32 c.
Proof.
  unfold ids_bitmap. rewrite bm_set_of_list, elem_of_list_to_set, list_elem_of_fmap. naive_solver.
Qed.

(** A row list answers an index at key [k] and id [id]. *)
Lemma indexed_foldl {R K} `{Countable K} (key : R -> K) (ids : R -> list Z) rows k id :
  NoDup (key <$> rows) ->
  indexed (B := B) (foldl (fun m r => <[key r := ids_bitmap (ids r)]> m) ∅ rows) k id <->
  exists r c, r ∈ rows /\ key r = k /\ c ∈ ids r /\ id = as_u32 c.
Proof.
  intros Hnd. unfold indexed. setoid_rewrite (foldl_insert_lookup key (fun r => ids_bitmap (ids r)) rows k _ Hnd).
  split.
  - intros (b & (r & Hr & Hk & <-) & Hid). apply elem_of_ids_bitmap in Hid as (c & ? & ?). eauto 10.
  - intros (r & c & Hr & Hk & Hc & ->). exists (ids_bitmap (ids r)). split; [eauto|].
    apply elem_of_ids_bitmap. eauto.
Qed.

Lemma build_campaigns_spec rows :
  let cs := build_campaigns (B := B) rows in
  dom cs.1 = bm_set cs.2 /\ forall id, id ∈ bm_set cs.2 <-> exists row, row ∈ rows /\ id = as_u32 (row_id row).
Proof.
  unfold build_campaigns.
  assert (forall (m : gmap Z Campaign) (all : B), dom m = bm_set all ->
    let '(m', all') := foldl (fun '(m, all) row =>
      (<[as_u32 (row_id row) := campaign_of_row row]> m, bm_insert (as_u32 (row_id row)) all)) (m, all) rows in
    dom m' = bm_set all' /\
    forall id, id ∈ bm_set all' <-> id ∈ bm_set all \/ exists row, row ∈ rows /\ id = as_u32 (row_id row)) as Hgen.
  { induction rows as [|r rows IH]; intros m all Hd; simpl; [split; [done|set_solver]|].
    specialize (IH (<[as_u32 (row_id r) := campaign_of_row r]> m) (bm_insert (as_u32 (row_id r)) all)).
    rewrite dom_insert_L, bm_set_insert, Hd in IH. specialize (IH eq_refl).
    destruct (foldl _ _ rows) as [m' all']. destruct IH as [? IH]. split; [done|].
    intros id. rewrite IH. set_solver. }
  specialize (Hgen ∅ bm_new). rewrite dom_empty_L, bm_set_new in Hgen. specialize (Hgen eq_refl).
  destruct (foldl _ _ rows) as [m' all']. destruct Hgen as [? Hgen]. split; [done|].
  intros id. rewrite Hgen. set_solver.
Qed.

(** Every campaign and every creative comes from a row. *)
Lemma build_campaign_row rows id cm : (build_campaigns (B := B) rows).1 !! id = Some cm ->
  exists row, row ∈ rows /\ id = as_u32 (row_id row) /\ cm = campaign_of_row row.
Proof.
  unfold build_campaigns. revert id cm.
  apply (foldl_inv (fun mb : gmap Z Campaign * B => forall id cm, mb.1 !! id = Some cm ->
    exists row, row ∈ rows /\ id = as_u32 (row_id row) /\ cm = campaign_of_row row)); [done|].
  intros [m all] row Hrow IH id cm. cbn [fst] in *. intros [[<- <-]|[_ Hm]]%lookup_insert_Some; [eauto|by apply IH].
Qed.

Lemma build_creative_row rows cid cr : cr ∈ unwrap_or (build_creatives rows !! cid) [] ->
  exists row, row ∈ rows /\ cid = as_u32 (crow_campaign_id row) /\ cr_id cr = as_u32 (crow_id row) /\
    parse_ad_format (crow_ad_format row) = Some (cr_ad_format cr).
Proof.
  unfold build_creatives. revert cid cr.
  apply (foldl_inv (fun m : gmap Z (list Creative) => forall cid cr, cr ∈ unwrap_or (m !! cid) [] ->
    exists row, row ∈ rows /\ cid = as_u32 (crow_campaign_id row) /\ cr_id cr = as_u32 (crow_id row) /\
      parse_ad_format (crow_ad_format row) = Some (cr_ad_format cr))); [by intros cid cr; rewrite lookup_empty; intros ?%elem_of_nil|].
  intros m row Hrow IH cid cr. destruct (parse_ad_format (crow_ad_format row)) as [f|] eqn:Ef; [|by apply IH].
  destruct (decide (as_u32 (crow_campaign_id row) = cid)) as [<-|Hne].
  - rewrite lookup_insert_eq. cbn [unwrap_or]. intros [Hin| ->%list_elem_of_singleton]%elem_of_app; [by apply IH|]. eauto 6.
  - rewrite lookup_insert_ne by done. by apply IH.
Qed.

(** One row of a device or format loop. *)
Definition enum_step {K} `{Countable K} (parse : string -> option K) (acc : gmap K B * B)
    (row : string * list Z) : gmap K B * B :=
  match parse row.1 with
  | None => acc
  | Some k =>
      (<[k := bm_extend (unwrap_or (acc.1 !! k) bm_new) (ids_bitmap row.2)]> acc.1,
       foldl (fun r cid => bm_insert (as_u32 cid) r) acc.2 row.2)
  end.

Lemma build_enum_index_steps {K} `{Countable K} (parse : string -> option K) rows :
  build_enum_index (B := B) parse rows = foldl (enum_step parse) (∅, bm_new) rows.
Proof.
  unfold build_enum_index. generalize (∅ : gmap K B, bm_new : B) as acc.
  induction rows as [|[s l] rows IH]; intros [m r]; simpl; [done|]. rewrite IH.
  unfold enum_step; simpl. by destruct (parse s).
Qed.

Lemma inserts_u32_set (r : B) l id :
  id ∈ bm_set (foldl (fun r cid => bm_insert (as_u32 cid) r) r l) <->
  id ∈ bm_set r \/ exists c, c ∈ l /\ id = as_u32 c.
Proof.
  revert r; induction l as [|c l IH]; intros r; simpl; [set_solver|].
  rewrite IH, bm_set_insert. set_solver.
Qed.

Lemma indexed_insert {K} `{Countable K} (m : gmap K B) k b k' id :
  indexed (<[k := b]> m) k' id <-> (k' = k /\ id ∈ bm_set b) \/ (k' <> k /\ indexed m k' id).
Proof.
  unfold indexed. destruct (decide (k' = k)) as [->|Hne].
  - rewrite lookup_insert_eq. naive_solver.
  - rewrite lookup_insert_ne by done. naive_solver.
Qed.

Lemma enum_step_indexed {K} `{Countable K} (parse : string -> option K) acc s l k id :
  indexed (enum_step parse acc (s, l)).1 k id <->
  indexed acc.1 k id \/ (parse s = Some k /\ exists c, c ∈ l /\ id = as_u32 c).
Proof.
  unfold enum_step; simpl. destruct (parse s) as [k'|]; simpl; [|naive_solver].
  rewrite indexed_insert, bm_set_extend, elem_of_union, elem_of_ids_bitmap.
  unfold indexed. destruct (decide (k = k')) as [->|Hne]; [|naive_solver].
  destruct (acc.1 !! k') as [b|]; simpl; rewrite ?bm_set_new; set_solver.
Qed.

Lemma enum_step_restricted {K} `{Countable K} (parse : string -> option K) acc s l id :
  id ∈ bm_set (enum_step parse acc (s, l)).2 <->
  id ∈ bm_set acc.2 \/ (is_Some (parse s) /\ exists c, c ∈ l /\ id = as_u32 c).
Proof.
  unfold enum_step; simpl. destruct (parse s) as [k'|]; simpl.
  - rewrite inserts_u32_set. naive_solver.
  - split; [auto|]. intros [?|[[? [=]] _]]; done.
Qed.

Lemma build_enum_index_spec {K} `{Countable K} (parse : string -> option K) rows :
  let mr := build_enum_index (B := B) parse rows in
  (forall k id, indexed mr.1 k id <->
     exists s l c, (s, l) ∈ rows /\ parse s = Some k /\ c ∈ l /\ id = as_u32 c) /\
  (forall id, id ∈ bm_set mr.2 <->
     exists s l c, (s, l) ∈ rows /\ is_Some (parse s) /\ c ∈ l /\ id = as_u32 c).
Proof.
  cbv zeta. rewrite build_enum_index_steps.
  assert (forall acc : gmap K B * B,
    (forall k id, indexed (foldl (enum_step parse) acc rows).1 k id <->
       indexed acc.1 k id \/ exists s l c, (s, l) ∈ rows /\ parse s = Some k /\ c ∈ l /\ id = as_u32 c) /\
    (forall id, id ∈ bm_set (foldl (enum_step parse) acc rows).2 <->
       id ∈ bm_set acc.2 \/ exists s l c, (s, l) ∈ rows /\ is_Some (parse s) /\ c ∈ l /\ id = as_u32 c)) as Hgen.
  { induction rows as [|[s l] rows IH]; intros acc; cbn [foldl]; [set_solver|].
    destruct (IH (enum_step parse acc (s, l))) as [IH1 IH2]. split.
    - intros k id. rewrite IH1, enum_step_indexed. setoid_rewrite elem_of_cons. naive_solver.
    - intros id. rewrite IH2, enum_step_restricted. setoid_rewrite elem_of_cons. naive_solver. }
  destruct (Hgen (∅, bm_new)) as [Hi Hr]. split.
  - intros k id. rewrite Hi. unfold indexed; simpl. setoid_rewrite lookup_empty. naive_solver.
  - intros id. rewrite Hr; simpl. rewrite bm_set_new. set_solver.
Qed.

(** *** A build that answers a well-formed database *)
Section Answered.
Context (db : Db) (hour : Z) (rows : Rows) (Hdb : db_wf db) (Hans : answers db hour rows).

Lemma active_u32 c : is_active db c -> as_u32 c = c.
Proof. intros (row & Hrow & <-). by apply as_u32_id, (dbw_campaign_id db Hdb active). Qed.

Lemma all_active id : id ∈ bm_set (all_campaigns (build (B := B) rows).1) <-> is_active db id.
Proof.
  destruct Hans as (Hc & _). destruct (build_campaigns_spec (campaigns_rows rows)) as [_ Hall].
  simpl. rewrite Hall. setoid_rewrite Hc. unfold is_active. split.
  - intros (row & Hrow & ->). apply list_elem_of_omap in Hrow as ([st r] & Hin & Hst).
    destruct st; simplify_eq. exists row. split; [done|]. symmetry.
    by apply as_u32_id, (dbw_campaign_id db Hdb active).
  - intros (row & Hrow & <-). exists row. split; [apply list_elem_of_omap; by exists (active, row)|].
    symmetry. by apply as_u32_id, (dbw_campaign_id db Hdb active).
Qed.

(** The ids a grouped row list holds, after the cast to [u32]. *)
Lemma grouped_ids {K} (pairs : list (Z * K)) (grows : list (K * list Z)) (k : K) id :
  grouped db pairs grows ->
  (exists l c, (k, l) ∈ grows /\ c ∈ l /\ id = as_u32 c) <-> (id, k) ∈ pairs /\ is_active db id.
Proof.
  intros (_ & _ & Hg). split.
  - intros (l & c & Hl & Hc & ->). destruct (proj1 (Hg k c)) as [? Hact]; [eauto|].
    by rewrite active_u32.
  - intros [Hp Hact]. destruct (proj2 (Hg k id)) as (l & ? & ?); [done|].
    exists l, id. by rewrite active_u32.
Qed.

(** An index built with one insertion per grouped row, under a key encoding that
    is injective on the keys of the table. *)
Lemma grouped_indexed {K K'} `{Countable K'} (key : K -> K') (pairs : list (Z * K)) grows k' id :
  grouped db pairs grows ->
  (forall c1 k1 c2 k2, (c1, k1) ∈ pairs -> (c2, k2) ∈ pairs -> key k1 = key k2 -> k1 = k2) ->
  indexed (B := B) (foldl (fun m r => <[key r.1 := ids_bitmap r.2]> m) ∅ grows) k' id <->
  exists k, key k = k' /\ (id, k) ∈ pairs /\ is_active db id.
Proof.
  intros Hg Hinj. rewrite (indexed_foldl (fun r => key r.1) snd).
  - setoid_rewrite <- (grouped_ids pairs grows _ id Hg). split.
    + intros ([k l] & c & ? & ? & ?). exists k. eauto 10.
    + intros (k & ? & l & c & ? & ?). exists (k, l), c. tauto.
  - destruct Hg as (Hnd & Hne & Hiff).
    replace ((fun r => key r.1) <$> grows) with (key <$> grows.*1) by by rewrite <- list_fmap_compose.
    apply NoDup_fmap_2_strong; [|done].
    assert (forall k, k ∈ grows.*1 -> exists c, (c, k) ∈ pairs) as Hpair.
    { intros k ([k0 l] & -> & Hin)%list_elem_of_fmap. simpl. rewrite Forall_forall in Hne.
      destruct (Hne _ Hin) as [Hl _]. destruct l as [|c l]; [done|]. exists c.
      apply (Hiff k0 c). exists (c :: l). set_solver. }
    intros k1 k2 [c1 ?]%Hpair [c2 ?]%Hpair. eauto.
Qed.

Lemma segment_indexed s id :
  indexed (segment_to_campaigns (build (B := B) rows).1) s id <->
  (id, s) ∈ db_targeting_segment db /\ is_active db id.
Proof.
  destruct Hans as (_ & _ & _ & Hg & _). pose proof (dbw_segment_id db Hdb) as Hs.
  simpl. unfold build_segment_index. rewrite (grouped_indexed as_u32 _ _ s id Hg).
  - split.
    + intros (k & <- & Hin & ?). by rewrite as_u32_id by eauto.
    + intros [Hin ?]. exists s. by rewrite as_u32_id by eauto.
  - intros c1 k1 c2 k2 H1%Hs H2%Hs. by rewrite !as_u32_id.
Qed.

Lemma geo_indexed k id :
  indexed (geo_to_campaigns (build (B := B) rows).1) k id <->
  exists kind code, geo_key kind code = k /\ (id, (kind, code)) ∈ db_targeting_geo db /\ is_active db id.
Proof.
  destruct Hans as (_ & _ & _ & _ & Hg & _). pose proof (dbw_geo_kind db Hdb) as Hk.
  simpl. unfold build_geo_index. rewrite (grouped_indexed (fun p => geo_key p.1 p.2) _ _ k id Hg).
  - split; [intros ([kind code] & ?); eauto|]. intros (kind & code & ?). by exists (kind, code).
  - intros c1 [k1 d1] c2 [k2 d2] H1%Hk H2%Hk. unfold geo_key; simpl. intros [= Heq ->].
    rewrite !elem_of_cons, elem_of_nil in H1, H2. repeat case_decide; naive_solver.
Qed.

Lemma enum_indexed {K} `{Countable K} (parse : string -> option K) pairs grows k id :
  grouped db pairs grows ->
  indexed (build_enum_index (B := B) parse grows).1 k id <->
  exists s, parse s = Some k /\ (id, s) ∈ pairs /\ is_active db id.
Proof.
  intros Hg. destruct (build_enum_index_spec parse grows) as [-> _].
  setoid_rewrite <- (grouped_ids pairs grows _ id Hg). naive_solver.
Qed.

Lemma enum_restricted {K} `{Countable K} (parse : string -> option K) pairs grows id :
  grouped db pairs grows ->
  id ∈ bm_set (build_enum_index (B := B) parse grows).2 <->
  exists s, is_Some (parse s) /\ (id, s) ∈ pairs /\ is_active db id.
Proof.
  intros Hg. destruct (build_enum_index_spec parse grows) as [_ ->].
  setoid_rewrite <- (grouped_ids pairs grows _ id Hg). naive_solver.
Qed.

Lemma daypart_on_air id :
  id ∈ bm_set (daypart_active_now (build (B := B) rows).1) <->
  is_active db id /\ exists bits, (id, bits) ∈ db_daypart db /\ bits !! Z.to_nat hour = Some true.
Proof.
  destruct Hans as (_ & _ & _ & _ & _ & _ & _ & Hd). simpl. rewrite elem_of_ids_bitmap.
  unfold query_daypart_active_now in Hd. split.
  - intros (c & Hc & ->). pose proof (proj1 (Hd c) Hc) as [Hact ?]. by rewrite active_u32.
  - intros Hid. exists id. split; [by apply Hd|]. by rewrite active_u32 by apply Hid.
Qed.

Lemma build_wf : catalog_wf (build (B := B) rows).1.
Proof.
  pose proof Hans as (_ & _ & _ & Hseg & Hgeo & Hdev & Hfmt & _).
  assert (forall K `{Countable K} (m : gmap K B), (forall k id, indexed m k id -> is_active db id) ->
    map_Forall (fun _ b => bm_set b ⊆ bm_set (all_campaigns (build (B := B) rows).1)) m) as Hix.
  { intros K ? ? m Hm k b Hk id Hid. apply all_active. eapply Hm. by exists b. }
  split_and!.
  - symmetry. apply (build_campaigns_spec (campaigns_rows rows)).
  - apply Hix. intros k id. rewrite segment_indexed. tauto.
  - apply Hix. intros k id. rewrite geo_indexed. naive_solver.
  - apply Hix. intros k id Hi. apply (enum_indexed _ _ _ _ _ Hdev) in Hi. naive_solver.
  - apply Hix. intros k id Hi. apply (enum_indexed _ _ _ _ _ Hfmt) in Hi. naive_solver.
  - intros id. rewrite daypart_on_air, all_active. tauto.
  - simpl. rewrite bm_set_sub. set_solver.
  - simpl. rewrite bm_set_sub. set_solver.
Qed.

(** A campaign without rows in a device or format table is unrestricted. *)
Lemma unrestricted_spec {K} `{Countable K} (parse : string -> option K) pairs grows id k :
  grouped db pairs grows -> (forall c s, (c, s) ∈ pairs -> is_Some (parse s)) -> is_active db id ->
  (id ∈ bm_set (bm_sub (build_campaigns (campaigns_rows rows)).2 (build_enum_index (B := B) parse grows).2) \/
   indexed (build_enum_index (B := B) parse grows).1 k id) <->
  ((forall s, (id, s) ∉ pairs) \/ exists s, (id, s) ∈ pairs /\ parse s = Some k).
Proof.
  intros Hg Hparse Hact. rewrite bm_set_sub, elem_of_difference.
  rewrite (enum_restricted parse pairs grows id Hg), (enum_indexed parse pairs grows k id Hg).
  change (build_campaigns (campaigns_rows rows)).2 with (all_campaigns (build (B := B) rows).1).
  rewrite all_active. split.
  - intros [[_ Hn]|(s & ? & ? & _)]; [left|right; eauto]. intros s Hs. apply Hn. eauto.
  - intros [Hn|(s & ? & ?)]; [left|right; eauto]. split; [done|]. intros (s & _ & Hs & _). by eapply Hn.
Qed.

Lemma build_matches req id : is_active db id ->
  matches (build (B := B) rows).1 req id <-> db_matches db hour req id.
Proof.
  intros Hact. pose proof Hans as (_ & _ & _ & _ & _ & Hdev & Hfmt & _).
  unfold matches, db_matches, matches_segments, matches_geo, matches_device, matches_format, matches_daypart.
  setoid_rewrite segment_indexed. setoid_rewrite geo_indexed. setoid_rewrite daypart_on_air.
  simpl. setoid_rewrite (unrestricted_spec _ _ _ id _ Hdev (dbw_device db Hdb) Hact).
  setoid_rewrite (unrestricted_spec _ _ _ id _ Hfmt (dbw_format db Hdb) Hact).
  assert (bm_set (ids_bitmap (B := B) (daypart_rows rows)) = ∅ <->
    forall c, ~ (is_active db c /\ exists bits, (c, bits) ∈ db_daypart db /\ bits !! Z.to_nat hour = Some true)) as ->.
  { rewrite set_eq. setoid_rewrite <- daypart_on_air. simpl. set_solver. }
  naive_solver.
Qed.

(** The campaigns and creatives of the built catalog are those of the tables. *)
Lemma build_campaign_active cid cm : campaign (build (B := B) rows).1 cid = Some cm ->
  exists row, (active, row) ∈ db_campaign db /\ row_id row = cid /\ cm = campaign_of_row row.
Proof.
  destruct Hans as (Hc & _). intros (row & Hrow & -> & ->)%build_campaign_row. rewrite Hc in Hrow.
  apply list_elem_of_omap in Hrow as ([st r] & Hin & Hst). destruct st; simplify_eq. exists row. split_and!; [done| |done].
  symmetry. by apply as_u32_id, (dbw_campaign_id db Hdb active).
Qed.

Lemma build_creative_active cid cr : cr ∈ creatives_for (build (B := B) rows).1 cid ->
  exists row, row ∈ db_creative db /\ crow_campaign_id row = cid /\ cr_id cr = as_u32 (crow_id row) /\
    parse_ad_format (crow_ad_format row) = Some (cr_ad_format cr).
Proof.
  destruct Hans as (_ & Hc & _). intros (row & Hrow & -> & Hid & Hf)%build_creative_row.
  apply Hc in Hrow as [Hrow Hact]. exists row. by rewrite active_u32.
Qed.
End Answered.
End BuildLemmas.

(** The budget a reload leaves for a campaign of the seed list. *)
Lemma last_budget_seed (l : list (Z * Campaign)) id c :
  NoDup l.*1 -> (id, c) ∈ l ->
  Local.last_budget id ((fun '(id, c) => (id, c_daily_budget_cents c)) <$> l) = Some (c_daily_budget_cents c).
Proof.
  unfold Local.last_budget. induction l as [|[i x] l IH] using rev_ind; [by intros _ ?%elem_of_nil|].
  rewrite fmap_app, NoDup_app, elem_of_app, fmap_app, foldl_app. intros (Hnd & Hdis & _) Hin. simpl.
  destruct (i =? id) eqn:E; zbool.
  - destruct Hin as [Hin|Hin]; [|set_solver]. exfalso. apply (Hdis id).
    + apply list_elem_of_fmap. by exists (id, c).
    + subst; simpl; set_solver.
  - apply IH; [done|]. destruct Hin as [?|[= -> ->]%list_elem_of_singleton]; done.
Qed.

(** ** A query engine

    One way of answering the queries, showing that [answers] can hold for every
    database and giving concrete runs. *)
Definition active_b (db : Db) (id : Z) : bool :=
  existsb (fun '(st, row) => match st with active => row_id row =? id | _ => false end) (db_campaign db).

Lemma active_b_spec db id : active_b db id = true <-> is_active db id.
Proof.
  unfold active_b, is_active. rewrite existsb_exists. setoid_rewrite <- list_elem_of_In. split.
  - intros ([st row] & Hin & Hb). destruct st; try done. exists row. split; [done|]. by apply Z.eqb_eq.
  - intros (row & Hin & <-). exists (active, row). split; [done|]. apply Z.eqb_refl.
Qed.

Definition live {K} (db : Db) (pairs : list (Z * K)) : list (Z * K) :=
  filter (fun p => active_b db p.1 = true) pairs.
Definition group_rows {K} `{EqDecision K} (db : Db) (pairs : list (Z * K)) : list (K * list Z) :=
  (fun k => (k, merge_sort Z.le (filter (fun p => p.2 = k) (live db pairs)).*1))
  <$> remove_dups (live db pairs).*2.

Lemma elem_of_live {K} db (pairs : list (Z * K)) c k :
  (c, k) ∈ live db pairs <-> (c, k) ∈ pairs /\ is_active db c.
Proof. unfold live. rewrite list_elem_of_filter, active_b_spec. simpl. tauto. Qed.

Lemma elem_of_group {K} `{EqDecision K} (l : list (Z * K)) c k :
  c ∈ merge_sort Z.le (filter (fun p => p.2 = k) l).*1 <-> (c, k) ∈ l.
Proof.
  rewrite merge_sort_Permutation, list_elem_of_fmap. setoid_rewrite list_elem_of_filter. split.
  - intros ([c' k'] & -> & <- & ?). done.
  - intros. by exists (c, k).
Qed.

Lemma group_rows_grouped {K} `{EqDecision K} db (pairs : list (Z * K)) :
  grouped db pairs (group_rows db pairs).
Proof.
  unfold grouped, group_rows. split_and!.
  - rewrite <- list_fmap_compose. change (fst ∘ _) with (fun k : K => k).
    rewrite list_fmap_id. apply NoDup_remove_dups.
  - apply Forall_fmap, Forall_forall. intros k Hk. apply elem_of_remove_dups, list_elem_of_fmap in Hk.
    destruct Hk as ([c k'] & -> & Hin). simpl. split.
    + intros Hnil. apply (elem_of_nil (A := Z) c). rewrite <- Hnil. by apply elem_of_group.
    + apply StronglySorted_merge_sort; [apply _|intros ? ?; lia].
  - intros k c. rewrite <- elem_of_live. split.
    + intros (l & Hl & Hc). apply list_elem_of_fmap in Hl as (k' & [= -> ->] & _). by apply elem_of_group in Hc.
    + intros Hin. exists (merge_sort Z.le (filter (fun p => p.2 = k) (live db pairs)).*1).
      rewrite elem_of_group. split; [|done]. apply list_elem_of_fmap. exists k. split; [done|].
      apply elem_of_remove_dups, list_elem_of_fmap. by exists (c, k).
Qed.

Definition run_queries (db : Db) (hour : Z) : Rows := {|
  campaigns_rows := omap (fun '(st, row) => match st with active => Some row | _ => None end) (db_campaign db);
  creatives_rows := filter (fun row => active_b db (crow_campaign_id row) = true) (db_creative db);
  segments_rows := omap (fun '(st, id, name) => match st with seg_active => Some (id, name) | _ => None end)
                     (db_segment db);
  seg_idx := group_rows db (db_targeting_segment db);
  geo_idx := group_rows db (db_targeting_geo db);
  device_idx := group_rows db (db_targeting_device db);
  format_idx := group_rows db (db_targeting_format db);
  daypart_rows := (filter (fun p => p.2 !! Z.to_nat hour = Some true) (live db (db_daypart db))).*1;
|}.

Lemma run_queries_answers db hour : answers db hour (run_queries db hour).
Proof.
  unfold answers, query_campaigns, query_segments, query_segment_index, query_geo_index,
    query_device_index, query_format_index.
  split_and!; try apply group_rows_grouped; simpl; try done.
  - intros row. rewrite list_elem_of_filter, active_b_spec. tauto.
  - intros c. rewrite list_elem_of_fmap. setoid_rewrite list_elem_of_filter. split.
    + intros ([c' bits] & -> & Hb & Hin). apply elem_of_live in Hin as [? ?]. eauto.
    + intros (Hact & bits & Hin & Hb). exists (c, bits). rewrite elem_of_live. done.
Qed.

(** ** Properties *)

(** [C32] The catalog serves exactly what the tables say: for every well-formed
    database and every answer Postgres may give to the eight queries, retrieval
    on the catalog [build] produces returns a campaign iff it is active and its
    targeting rows match the request in every dimension, the casts to [u32], the
    inverted indices and the complemented "unrestricted" bitmaps included. *)
Theorem build_serves_tables {B} `{BitmapLaws B} (db : Db) (hour : Z) (rows : Rows)
    (req : CandidateRequest) (id : Z) (Hdb : db_wf db) (Hans : answers db hour rows) :
  id ∈ bm_iter (candidates_for (build (B := B) rows).1 req) <-> db_matches db hour req id.
Proof.
  rewrite elem_of_bm_iter, elem_of_candidates_for by by eapply build_wf.
  rewrite all_active by done. split.
  - intros [Hact Hm]. by apply (build_matches db hour rows Hdb Hans req id Hact).
  - intros Hm. pose proof Hm as [Hact _]. split; [done|]. by apply (build_matches db hour rows Hdb Hans).
Qed.

Definition sample_row (id : Z) : CampaignRow := {|
  row_id := id; row_advertiser_id := 7; row_bid_floor_cents := 150; row_daily_budget_cents := 10000;
  row_hourly_budget_cents := 1000; row_daily_cap_imps := 10; row_hourly_cap_imps := -1 |}.

Definition sample_db : Db := {|
  db_campaign := [(active, sample_row 1); (paused, sample_row 2); (active, sample_row 3)];
  db_creative := [{| crow_id := 900; crow_campaign_id := 1; crow_ad_format := "BANNER"; crow_click_url := "u";
                     crow_image_url := None; crow_width := Some 300; crow_height := Some 250 |}];
  db_segment := [(seg_active, 10, "sports-fans")];
  db_targeting_segment := [(1, 10); (2, 10); (3, 10)];
  db_targeting_geo := [(1, ("country", "USA")); (3, ("metro", "501"))];
  db_targeting_device := [(3, "MOBILE")];
  db_targeting_format := [(1, "BANNER")];
  db_daypart := [];
|}.

Lemma sample_db_wf : db_wf sample_db.
Proof.
  split; simpl; intros *; repeat setoid_rewrite elem_of_cons; repeat setoid_rewrite elem_of_nil.
  - intros [[= -> ->]|[[= -> ->]|[[= -> ->]|[]]]]; unfold in_u32, u32_max; simpl; lia.
  - intros [[= -> ->]|[[= -> ->]|[[= -> ->]|[]]]] [[= -> ->]|[[= -> ->]|[[= -> ->]|[]]]]; done.
  - intros [[= -> ->]|[[= -> ->]|[[= -> ->]|[]]]]; unfold in_u32, u32_max; lia.
  - naive_solver.
  - intros [[= -> ->]|[]]. by eexists.
  - intros [[= -> ->]|[]]. by eexists.
Defined.

Lemma build_serves_tables_witness :
  let req := {| rq_segment_ids := [10]; rq_geo_keys := Some [geo_key "country" "USA"];
                rq_device_type := Some Desktop; rq_ad_format := Some AdFormat.Banner |} in
  db_matches sample_db 0 req 1 /\ ~ db_matches sample_db 0 req 3.
Proof.
  intros req. pose proof (build_serves_tables (B := gset Z) sample_db 0 (run_queries sample_db 0) req) as Hs.
  split; rewrite <- Hs by (apply sample_db_wf || apply run_queries_answers); vm_decide.
Defined.

(** Refreshing: after any sequence of background rebuilds, the catalog and
    the registry served are those of the last successful one, the failure count
    is the number of failures since then, and a failed rebuild leaves catalog,
    registry and budgets untouched. *)
Theorem refresh_serves_last_success {B P} `{Bitmap B} `{BudgetPacer P} (s : Shared B P)
    (before after : list (Result Rows string)) (rows : Rows)
    (Hfail : Forall (fun r => is_ok r = false) after) :
  let s1 := foldl refresh s before in
  let s2 := foldl refresh (refresh s1 (Ok rows)) after in
  sh_catalog s2 = (build rows).1 /\ sh_registry s2 = (build rows).2 /\
  sh_pacer s2 = reload (sh_pacer s1) (budget_seeds (build rows).1) /\
  consecutive_failures s2 = as_u32 (Z.of_nat (length after)).
Proof.
  intros s1. cbv zeta. generalize s1; clear s1; intros s1.
  induction after as [|r after IH] using rev_ind; [by split_and!|].
  apply Forall_app in Hfail as [Hfail Hr]. apply Forall_cons in Hr as [Hr _].
  specialize (IH Hfail) as (Hc & Hreg & Hp & Hn). rewrite foldl_snoc.
  destruct r as [rows'|e]; [done|]. simpl in *. split_and!; try done.
  rewrite Hn, length_app. unfold as_u32. rewrite Zplus_mod_idemp_l. f_equal. simpl. lia.
Qed.

Lemma refresh_serves_last_success_witness :
  let s := {| sh_catalog := catalog_default (B := gset Z); sh_registry := registry_default;
              sh_pacer := Local.new; consecutive_failures := 3 |} in
  let s' := foldl refresh (refresh s (Ok (run_queries sample_db 0))) [Err "timeout"; Err "timeout"] in
  consecutive_failures s' = 2 /\ registry_resolve (sh_registry s') ["gamers"; "sports-fans"] = [10].
Proof.
  intros s. pose proof (refresh_serves_last_success s [] [Err "timeout"%string; Err "timeout"%string]
    (run_queries sample_db 0) ltac:(by repeat constructor)) as (_ & Hr & _ & Hn).
  simpl in Hr, Hn. split; [exact Hn|]. simpl. reflexivity.
Defined.

(** Every refresh forgets the spend: whatever the pacer holds, after a
    successful rebuild the remaining budget of each campaign of the new catalog
    is its full daily budget again. *)
Theorem refresh_restores_daily_budget {B} `{Bitmap B} (s : Shared B Local.LocalBudgetPacer)
    (rows : Rows) (id : CampaignId) (c : Campaign)
    (Hc : campaigns (build (B := B) rows).1 !! id = Some c) :
  remaining (sh_pacer (refresh s (Ok rows))) id = Some (c_daily_budget_cents c).
Proof.
  change (Local.counters (Local.reload (sh_pacer s) (budget_seeds (build (B := B) rows).1)) !! id
          = Some (c_daily_budget_cents c)). rewrite Local.reload_remaining.
  unfold budget_seeds. rewrite (last_budget_seed _ id c); [done|apply NoDup_fst_map_to_list|by apply elem_of_map_to_list].
Qed.

Lemma refresh_restores_daily_budget_witness :
  let s := {| sh_catalog := catalog_default (B := gset Z); sh_registry := registry_default;
              sh_pacer := {| Local.counters := {[1 := -40; 3 := 12]} |}; consecutive_failures := 0 |} in
  remaining (sh_pacer (refresh s (Ok (run_queries sample_db 0)))) 1 = Some 10000.
Proof.
  intros s. apply (refresh_restores_daily_budget s (run_queries sample_db 0) 1 (campaign_of_row (sample_row 1))).
  vm_compute. reflexivity.
Defined.

(** The hour of the week is a valid bit index of the 168-bit daypart mask,
    and counts hours since Monday 1970-01-05 00:00 UTC modulo a week. *)
Theorem hour_of_week_spec (secs : Z) (Hsecs : 0 <= secs) :
  0 <= current_hour_of_week secs < 168 /\
  current_hour_of_week secs = (secs / 3600 - 96) mod 168.
Proof.
  unfold current_hour_of_week.
  pose proof (Z.div_mod secs 86400 ltac:(lia)). pose proof (Z.mod_pos_bound secs 86400 ltac:(lia)).
  set (d := secs / 86400) in *. set (r := secs mod 86400) in *.
  assert (secs / 3600 = 24 * d + r / 3600) as Hh.
  { replace secs with (r + 24 * d * 3600) by lia. rewrite Z.div_add by lia. lia. }
  pose proof (Z.div_mod r 3600 ltac:(lia)). pose proof (Z.mod_pos_bound r 3600 ltac:(lia)).
  pose proof (Z.div_mod (d + 3) 7 ltac:(lia)). pose proof (Z.mod_pos_bound (d + 3) 7 ltac:(lia)).
  split; [lia|]. rewrite Hh. apply (Z.mod_unique_pos _ _ ((d + 3) / 7 - 1)); lia.
Qed.

Lemma hour_of_week_spec_witness : 0 <= current_hour_of_week 345600 < 168 /\ current_hour_of_week 345600 = 0.
Proof. split; [apply (hour_of_week_spec 345600); lia|]. rewrite (proj2 (hour_of_week_spec 345600 ltac:(lia))). reflexivity. Defined.
