(* ===== verification/Externals.v ===== *)
(** * Library and service interfaces

    The parts of the environment the bidder calls and whose code is elsewhere:
    the concurrent maps and caches of [dashmap] and [moka], the bounded channel
    of [tokio::sync::mpsc], and the counters of a Redis server.  Each is a class
    of the operations used, a class of the documented behaviour relied on, and
    an instance that shows the laws can be met. *)
From S2P Require Import Prelude.

(** ** Keyed caches ([DashMap], [moka::Cache])

    [kv_entries] is one iteration over the map.  A cache may drop an entry on
    its own (capacity, expiry): that is [kv_del], which the models apply as a
    step of the environment. *)
Class KVCache (C K V : Type) := {
  kv_empty : C;
  kv_get : C -> K -> option V;
  kv_put : C -> K -> V -> C;
  kv_del : C -> K -> C;
  kv_entries : C -> list (K * V);
}.

Class KVCacheLaws (C K V : Type) `{KVCache C K V} := {
  kv_get_empty k : kv_get kv_empty k = None;
  kv_get_put_same c k v : kv_get (kv_put c k v) k = Some v;
  kv_get_put_other c k k' v : k <> k' -> kv_get (kv_put c k v) k' = kv_get c k';
  kv_get_del_same c k : kv_get (kv_del c k) k = None;
  kv_get_del_other c k k' : k <> k' -> kv_get (kv_del c k) k' = kv_get c k';
  kv_entries_get c k v : (k, v) ∈ kv_entries c <-> kv_get c k = Some v;
  kv_entries_NoDup c : NoDup (kv_entries c).*1;
}.

#[global] Instance gmap_cache {K V} `{Countable K} : KVCache (gmap K V) K V := {|
  kv_empty := ∅;
  kv_get c k := c !! k;
  kv_put c k v := <[k := v]> c;
  kv_del c k := delete k c;
  kv_entries c := map_to_list c;
|}.

#[global] Instance gmap_cache_laws {K V} `{Countable K} : KVCacheLaws (gmap K V) K V.
Proof.
  split; simpl; intros.
  - apply lookup_empty.
  - apply lookup_insert_eq.
  - by apply lookup_insert_ne.
  - apply lookup_delete_eq.
  - by apply lookup_delete_ne.
  - apply elem_of_map_to_list.
  - apply NoDup_fst_map_to_list.
Defined.

(** ** The bounded channel ([tokio::sync::mpsc]) *)
Class Mpsc (Ch A : Type) := {
  chan_new : nat -> Ch;
  chan_try_send : Ch -> A -> option Ch;
  chan_try_recv : Ch -> option (A * Ch);
  chan_items : Ch -> list A;
  chan_capacity : Ch -> nat;
}.

(** [try_send] fails exactly when the queue is full; messages leave in the order
    they were accepted. *)
Class MpscLaws (Ch A : Type) `{Mpsc Ch A} := {
  chan_new_items n : chan_items (chan_new n) = [];
  chan_new_capacity n : chan_capacity (chan_new n) = n;
  chan_send_full c a : chan_try_send c a = None <-> (chan_capacity c <= length (chan_items c))%nat;
  chan_send_items c a c' : chan_try_send c a = Some c' ->
    chan_items c' = chan_items c ++ [a] /\ chan_capacity c' = chan_capacity c;
  chan_recv_empty c : chan_try_recv c = None <-> chan_items c = [];
  chan_recv_items c a c' : chan_try_recv c = Some (a, c') ->
    chan_items c = a :: chan_items c' /\ chan_capacity c' = chan_capacity c;
}.

#[global] Instance list_chan {A} : Mpsc (nat * list A) A := {|
  chan_new n := (n, []);
  chan_try_send c a := if decide (c.1 <= length c.2)%nat then None else Some (c.1, c.2 ++ [a]);
  chan_try_recv c := match c.2 with [] => None | a :: l => Some (a, (c.1, l)) end;
  chan_items c := c.2;
  chan_capacity c := c.1;
|}.

#[global] Instance list_chan_laws {A} : MpscLaws (nat * list A) A.
Proof.
  split; simpl; try done.
  - intros c a. case_decide; naive_solver.
  - intros c a c'. case_decide; naive_solver.
  - intros [n [|]]; naive_solver.
  - intros [n [|]]; naive_solver.
Defined.

(** [let ok = tx.try_send(a).is_ok()] *)
Definition chan_push {Ch A} `{Mpsc Ch A} (c : Ch) (a : A) : bool * Ch :=
  match chan_try_send c a with Some c' => (true, c') | None => (false, c) end.

Lemma chan_push_items {Ch A} `{MpscLaws Ch A} c a :
  chan_items (chan_push c a).2 = chan_items c ++ (if (chan_push c a).1 then [a] else []) /\
  chan_capacity (chan_push c a).2 = chan_capacity c /\
  ((chan_push c a).1 = true <-> (length (chan_items c) < chan_capacity c)%nat).
Proof.
  unfold chan_push. destruct (chan_try_send c a) as [c'|] eqn:E; simpl.
  - destruct (chan_send_items c a c' E) as [-> ->]. split_and!; [done..|]. split; [|done].
    intros _. destruct (decide (chan_capacity c <= length (chan_items c))%nat) as [Hc|]; [|lia].
    apply (chan_send_full c a) in Hc. congruence.
  - rewrite app_nil_r. split_and!; [done..|]. apply chan_send_full in E. split; [done|lia].
Qed.

(** ** Redis counters

    [GET]/[MGET], [INCR] and [EXPIRE] on integer keys, each run at a time of the
    server's clock.  A key is its stored value with the time it expires at, if
    any: from then on it reads as absent, and [INCR] starts it afresh, without an
    expiry. *)
Class Redis (R : Type) := {
  redis_entry : R -> string -> option (Z * option Instant);
  redis_incr : R -> Instant -> string -> Z * R;
  redis_expire : R -> Instant -> string -> Z -> R;
}.

Definition unexpired (now : Instant) (expires : option Instant) : bool :=
  match expires with Some t => now <? t | None => true end.
Definition redis_get {R} `{Redis R} (r : R) (now : Instant) (k : string) : option Z :=
  match redis_entry r k with
  | Some (v, expires) => if unexpired now expires then Some v else None
  | None => None
  end.

Class RedisLaws (R : Type) `{Redis R} := {
  redis_incr_value r now k : (redis_incr r now k).1 = unwrap_or (redis_get r now k) 0 + 1;
  redis_incr_entry r now k k' :
    redis_entry (redis_incr r now k).2 k' =
    if decide (k = k')
    then Some (match redis_get r now k with Some v => (v + 1, redis_entry r k ≫= snd) | None => (1, None) end)
    else redis_entry r k';
  redis_expire_entry r now k s k' :
    redis_entry (redis_expire r now k s) k' =
    if decide (k = k') then (v ← redis_get r now k; Some (v, Some (now + from_secs s))) else redis_entry r k';
}.

(** [MGET]: one value per key, in the order of the keys. *)
Definition redis_mget {R} `{Redis R} (r : R) (now : Instant) (keys : list string) : list (option Z) :=
  redis_get r now <$> keys.

(** One map; a key is removed when it is touched after its expiry. *)
Definition map_live (r : gmap string (Z * option Instant)) (now : Instant) (k : string) : option (Z * option Instant) :=
  match r !! k with Some (v, e) => if unexpired now e then Some (v, e) else None | None => None end.
#[global] Instance map_redis : Redis (gmap string (Z * option Instant)) := {|
  redis_entry r k := r !! k;
  redis_incr r now k :=
    match map_live r now k with
    | Some (v, e) => (v + 1, <[k := (v + 1, e)]> r)
    | None => (1, <[k := (1, None)]> r)
    end;
  redis_expire r now k s :=
    match map_live r now k with
    | Some (v, _) => <[k := (v, Some (now + from_secs s))]> r
    | None => delete k r
    end;
|}.

#[global] Instance map_redis_laws : RedisLaws (gmap string (Z * option Instant)).
Proof.
  split; unfold redis_get; cbn [redis_entry redis_incr redis_expire map_redis]; intros; unfold map_live;
    destruct (_ !! k) as [[v e]|] eqn:E; try destruct (unexpired now e); cbn; try done;
    case_decide; subst; by simplify_map_eq.
Defined.
