(* ===== verification/Model.v ===== *)
(** * Per-request state

    [bidder-core/src/model/candidate.rs], [model/context.rs] and [clock.rs]:
    candidates and winners, the [BidContext] the pipeline threads through its
    stages, and the calendar helpers.  Clock readings are arguments. *)
From S2P Require Import Prelude Floats OpenRtb Catalog.

(** ** [candidate.rs] *)

Record AdCandidate := {
  ac_campaign_id : CampaignId;
  ac_creative_id : CreativeId;
  ac_bid_price_cents : Z;
  ac_score : f32;
  ac_daily_cap_imps : Z;
  ac_hourly_cap_imps : Z;
}.

Definition with_score (c : AdCandidate) (s : f32) : AdCandidate := {|
  ac_campaign_id := ac_campaign_id c; ac_creative_id := ac_creative_id c;
  ac_bid_price_cents := ac_bid_price_cents c; ac_score := s;
  ac_daily_cap_imps := ac_daily_cap_imps c; ac_hourly_cap_imps := ac_hourly_cap_imps c;
|}.

Record ImpWinner := {
  iw_imp_id : string;
  iw_campaign_id : CampaignId;
  iw_creative_id : CreativeId;
  iw_bid_price_cents : Z;
  iw_score : f32;
}.

(** ** [context.rs] *)

Inductive PipelineOutcome := Pending | NoBid (reason : NoBidReason) | OutcomeBid.
#[global] Instance PipelineOutcome_eq_dec : EqDecision PipelineOutcome.
Proof. solve_decision. Defined.

Record BidContext (Value B : Type) := {
  request : BidRequest Value;
  started_at : Instant;
  outcome : PipelineOutcome;
  segment_ids : list SegmentId;
  catalog : option (CampaignCatalog B);
  candidates : list (list AdCandidate);
  winners : list ImpWinner;
  freq_cap_results : list (nat * Z * bool);
  bid_response : option (BidResponse Value);
}.
Arguments request {Value B}.
Arguments started_at {Value B}.
Arguments outcome {Value B}.
Arguments segment_ids {Value B}.
Arguments catalog {Value B}.
Arguments candidates {Value B}.
Arguments winners {Value B}.
Arguments freq_cap_results {Value B}.
Arguments bid_response {Value B}.
Arguments Build_BidContext {Value B}.

Section Context_.
Context {Value B : Type}.
Notation Ctx := (BidContext Value B).

(** [vec![Vec::new(); imp_count.max(1)]] *)
Definition BidContext_new (req : BidRequest Value) (now : Instant) : Ctx := {|
  request := req; started_at := now; outcome := Pending; segment_ids := []; catalog := None;
  candidates := replicate (Nat.max (length (br_imp req)) 1) []; winners := [];
  freq_cap_results := []; bid_response := None;
|}.

(** [elapsed_ms]: a float product, truncated. *)
Definition elapsed_ms_of (d : Duration) : Z := f_to_u64 (f64_mul (as_secs_f64 d) (f64_of_Z 1000)).
Definition elapsed_ms (ctx : Ctx) (now : Instant) : Z := elapsed_ms_of (duration_since now (started_at ctx)).

(** Assignments to one field. *)
Definition set_outcome (c : Ctx) (x : PipelineOutcome) : Ctx :=
  Build_BidContext (request c) (started_at c) x (segment_ids c) (catalog c) (candidates c) (winners c)
    (freq_cap_results c) (bid_response c).
Definition set_segment_ids (c : Ctx) (x : list SegmentId) : Ctx :=
  Build_BidContext (request c) (started_at c) (outcome c) x (catalog c) (candidates c) (winners c)
    (freq_cap_results c) (bid_response c).
Definition set_catalog (c : Ctx) (x : option (CampaignCatalog B)) : Ctx :=
  Build_BidContext (request c) (started_at c) (outcome c) (segment_ids c) x (candidates c) (winners c)
    (freq_cap_results c) (bid_response c).
Definition set_candidates (c : Ctx) (x : list (list AdCandidate)) : Ctx :=
  Build_BidContext (request c) (started_at c) (outcome c) (segment_ids c) (catalog c) x (winners c)
    (freq_cap_results c) (bid_response c).
Definition set_winners (c : Ctx) (x : list ImpWinner) : Ctx :=
  Build_BidContext (request c) (started_at c) (outcome c) (segment_ids c) (catalog c) (candidates c) x
    (freq_cap_results c) (bid_response c).
Definition set_freq_cap_results (c : Ctx) (x : list (nat * Z * bool)) : Ctx :=
  Build_BidContext (request c) (started_at c) (outcome c) (segment_ids c) (catalog c) (candidates c)
    (winners c) x (bid_response c).
Definition set_bid_response (c : Ctx) (x : option (BidResponse Value)) : Ctx :=
  Build_BidContext (request c) (started_at c) (outcome c) (segment_ids c) (catalog c) (candidates c)
    (winners c) (freq_cap_results c) x.

(** [ctx.request.user.as_ref().and_then(|u| u.id.as_deref())] *)
Definition ctx_user_id (c : Ctx) : option string := u ← br_user (request c); user_id u.

(** [ctx.request.device.as_ref().and_then(|d| d.devicetype)] *)
Definition ctx_devicetype (c : Ctx) : option DeviceType := d ← br_device (request c); dev_devicetype d.
End Context_.

(** ** [clock.rs] *)

Definition current_hour_of_day (secs : Z) : Z := as_u8 ((secs mod 86400) / 3600).
Definition current_day_of_week_utc (secs : Z) : Z := as_u8 ((secs / 86400 + 3) mod 7).
Definition is_weekend_utc (secs : Z) : bool :=
  (current_day_of_week_utc secs =? 5) || (current_day_of_week_utc secs =? 6).
Definition day_and_hour_from_unix (secs : Z) : Z * Z :=
  (current_day_of_week_utc secs, current_hour_of_day secs).

(** ** [notice.rs] *)

Record WinNoticeRequest := {
  wn_request_id : string;
  wn_imp_id : string;
  wn_campaign_id : Z;
  wn_creative_id : Z;
  wn_clearing_price_micros : Z;
  wn_user_id : string;
  wn_exchange_id : string;
}.

Class NoticeUrlBuilder (N : Type) := { build_notice_url : N -> WinNoticeRequest -> option string }.

Inductive NoNoticeUrl := no_notice_url.
#[global] Instance no_notice_builder : NoticeUrlBuilder NoNoticeUrl := {| build_notice_url _ _ := None |}.
