(* ===== verification/Hedge.v ===== *)
(** * Hedged Redis reads

    [bidder-core/src/hedge.rs] and [hedge_feedback.rs]: the adaptive token
    bucket, the race of an original call against a hedge, and the loop that
    feeds the load-shed rate and the latency estimate back.  [hedged_call] is a
    function of the times at which the two attempts would complete and of the
    time at which the caller drops the future; [Interleaved] gives the bucket's
    atomic operations one by one. *)
From S2P Require Import Prelude Floats Breaker.

(** ** The token bucket *)

Record HedgeBudget := { tokens : Z; nominal : Z; effective_cap : Z }.

Definition HedgeBudget_new (capacity : Z) : HedgeBudget :=
  {| tokens := capacity; nominal := capacity; effective_cap := capacity |}.

Definition set_tokens (b : HedgeBudget) (t : Z) : HedgeBudget :=
  {| tokens := t; nominal := nominal b; effective_cap := effective_cap b |}.

(** The compare-and-exchange loop leaves when it decrements the value it last
    read, or when it reads zero. *)
Definition try_consume (b : HedgeBudget) : bool * HedgeBudget :=
  if tokens b =? 0 then (false, b) else (true, set_tokens b (tokens b - 1)).

Definition restore (b : HedgeBudget) : HedgeBudget :=
  let new := as_u64 (tokens b + 1) in
  let cap := effective_cap b in
  set_tokens b (if cap <? new then Z.min new cap else new).

Definition shed_capacity (nominal : Z) (rate : f64) : Z :=
  if fgt rate (f64_lit 5 100) then 0
  else if fgt rate (f64_lit 1 100) then f_to_u64 (f64_mul (f64_of_Z nominal) (f64_lit 2 10))
  else nominal.

Definition set_load_shed_rate (b : HedgeBudget) (rate : f64) : HedgeBudget :=
  let effective := shed_capacity (nominal b) rate in
  {| tokens := Z.min (tokens b) effective; nominal := nominal b; effective_cap := effective |}.

(** ** [hedged_call] *)

(** An attempt of the operation: how long after its start it completes ([None]:
    never) and with what. *)
Record Attempt (T : Type) := { latency : option Duration; value : T }.
Arguments latency {T}.
Arguments value {T}.

(** [a] happens no later than [b], where [None] is never. *)
Definition by_time (a b : option Duration) : bool :=
  match a, b with
  | Some a, Some b => a <=? b
  | Some _, None => true
  | None, _ => false
  end.

Record HedgeRun (T : Type) := { hr_result : option T; hr_calls : nat; hr_budget : HedgeBudget }.
Arguments hr_result {T}.
Arguments hr_calls {T}.
Arguments hr_budget {T}.
Arguments Build_HedgeRun {T}.

(** [drop_at] is the time at which the caller's own timeout drops the future;
    [closed] is what [is_closed_sync] answers at the trigger; [prefer_first]
    resolves a tie of the unbiased race. *)
Definition hedged_call {T} (first second : Attempt T) (trigger : Duration) (closed prefer_first : bool)
    (drop_at : option Duration) (budget : HedgeBudget) : HedgeRun T :=
  if by_time (latency first) (Some trigger) && by_time (latency first) drop_at
  then Build_HedgeRun (Some (value first)) 1 budget
  else if negb (by_time (Some trigger) drop_at) then Build_HedgeRun None 1 budget
  else
    let '(allowed, budget') := if closed then try_consume budget else (false, budget) in
    if negb allowed then
      Build_HedgeRun (if by_time (latency first) drop_at then Some (value first) else None) 1 budget'
    else
      let second_at := (fun d => trigger + d) <$> latency second in
      let first_wins :=
        by_time (latency first) second_at && (prefer_first || negb (by_time second_at (latency first))) in
      let '(done_at, result) :=
        if first_wins then (latency first, value first) else (second_at, value second) in
      if by_time done_at drop_at
      then Build_HedgeRun (Some result) 2 (restore budget')
      else Build_HedgeRun None 2 budget'.

(** ** [RedisHedgeState] and the feedback loop *)

Record RedisHedgeState := { hs_budget : HedgeBudget; p95_ms : Z }.
Definition RedisHedgeState_new (nominal_budget_tokens : Z) : RedisHedgeState :=
  {| hs_budget := HedgeBudget_new nominal_budget_tokens; p95_ms := 0 |}.
Definition update_p95 (h : RedisHedgeState) (ms : Z) : RedisHedgeState :=
  {| hs_budget := hs_budget h; p95_ms := ms |}.
Definition hedge_trigger (h : RedisHedgeState) : Duration := from_millis (Z.max (p95_ms h) 8).

Record LoadShedTracker := { requests_total : Z; shed_total : Z }.
Definition record_request (t : LoadShedTracker) : LoadShedTracker :=
  {| requests_total := as_u64 (requests_total t + 1); shed_total := shed_total t |}.
Definition record_shed (t : LoadShedTracker) : LoadShedTracker :=
  {| requests_total := requests_total t; shed_total := as_u64 (shed_total t + 1) |}.
Definition shed_snapshot (t : LoadShedTracker) : Z * Z := (requests_total t, shed_total t).

Record RedisLatencyTracker := { lat_count : Z; lat_sum_us : Z }.
Definition record_latency (t : RedisLatencyTracker) (dur : Duration) : RedisLatencyTracker :=
  {| lat_count := as_u64 (lat_count t + 1); lat_sum_us := as_u64 (lat_sum_us t + as_u64 (as_micros dur)) |}.
Definition drain_latency (t : RedisLatencyTracker) : (Z * Z) * RedisLatencyTracker :=
  ((lat_count t, lat_sum_us t), {| lat_count := 0; lat_sum_us := 0 |}).

(** The loop's own variables and the state it shares. *)
Record Feedback := {
  fb_hedge : RedisHedgeState;
  fb_load_shed : LoadShedTracker;
  fb_latency : RedisLatencyTracker;
  fb_prev_total : Z;
  fb_prev_shed : Z;
}.

(** [mean * 1.7 / 1000], rounded up to whole milliseconds. *)
Definition p95_estimate (count sum_us : Z) : Z :=
  let mean_us := f64_div (f64_of_Z sum_us) (f64_of_Z count) in
  f_to_u64 (f64_ceil (f64_div (f64_mul mean_us (f64_lit 17 10)) (f64_of_Z 1000))).

(** One tick of [spawn_feedback_loop]: the shed rate it computes and the state
    after it.  The drift gauge and its log lines are left out. *)
Definition feedback_tick (f : Feedback) : f64 * Feedback :=
  let '(cur_total, cur_shed) := shed_snapshot (fb_load_shed f) in
  let delta_total := usaturating_sub cur_total (fb_prev_total f) in
  let delta_shed := usaturating_sub cur_shed (fb_prev_shed f) in
  let shed_rate := if 0 <? delta_total then f64_div (f64_of_Z delta_shed) (f64_of_Z delta_total)
                   else f64_of_Z 0 in
  let hedge := {| hs_budget := set_load_shed_rate (hs_budget (fb_hedge f)) shed_rate;
                  p95_ms := p95_ms (fb_hedge f) |} in
  let '((count, sum_us), latency) := drain_latency (fb_latency f) in
  let hedge := if 0 <? count then update_p95 hedge (p95_estimate count sum_us) else hedge in
  (shed_rate, {| fb_hedge := hedge; fb_load_shed := fb_load_shed f; fb_latency := latency;
                 fb_prev_total := cur_total; fb_prev_shed := cur_shed |}).

(** ** Interleaved use of the bucket

    The atomic operations as steps: a hedge consumes a token, a finished hedge
    adds it back and later clamps it to the capacity it reads, and the feedback
    loop stores a capacity and later clamps the tokens to it.  [outstanding]
    counts the hedges that consumed a token and have not added it back. *)
Module Interleaved.

Record state := { bucket : HedgeBudget; outstanding : Z }.

Inductive step : state -> state -> Prop :=
| step_consume b b' n : try_consume b = (true, b') ->
    step {| bucket := b; outstanding := n |} {| bucket := b'; outstanding := n + 1 |}
| step_add b n : 0 < n ->
    step {| bucket := b; outstanding := n |}
         {| bucket := set_tokens b (as_u64 (tokens b + 1)); outstanding := n - 1 |}
| step_clamp b n cap : 0 <= cap ->
    step {| bucket := b; outstanding := n |}
         {| bucket := set_tokens b (Z.min (tokens b) cap); outstanding := n |}
| step_store_cap b n rate :
    step {| bucket := b; outstanding := n |}
         {| bucket := {| tokens := tokens b; nominal := nominal b;
                         effective_cap := shed_capacity (nominal b) rate |}; outstanding := n |}
| step_cancelled b n : 0 < n ->
    (* a dropped hedge forgets its token *)
    step {| bucket := b; outstanding := n |} {| bucket := b; outstanding := n - 1 |}.

Definition capacity (s : state) : Z := tokens (bucket s) + outstanding s.
Definition inv (c : Z) (s : state) : Prop :=
  0 <= tokens (bucket s) /\ 0 <= outstanding s /\ capacity s <= c.

Lemma step_inv_capacity c s s' : c <= u64_max -> inv c s -> step s s' -> inv (capacity s) s'.
Proof.
  unfold inv, capacity. intros Hc (Ht & Ho & Hcap) Hs. destruct Hs as [b b' n E|b n Hn|b n cap Hcap'|b n rate|b n Hn];
    simpl in *; try lia.
  - unfold try_consume in E. destruct (tokens b =? 0) eqn:E0; [done|]. injection E as <-. simpl. zlia.
  - rewrite as_u64_id by (unfold in_u64; lia). lia.
Qed.

Lemma reachable_capacity c s s' : c <= u64_max -> inv c s -> rtc step s s' -> inv (capacity s) s'.
Proof.
  intros Hc Hi Hr. induction Hr as [s|s s1 s2 Hs Hr IH].
  - unfold inv in *. lia.
  - pose proof (step_inv_capacity c s s1 Hc Hi Hs) as H1.
    assert (capacity s <= u64_max) by (unfold inv in Hi; lia).
    assert (capacity s1 <= capacity s) by (unfold inv in H1; lia).
    destruct (IH ltac:(unfold inv in *; lia)) as (? & ? & ?). unfold inv. lia.
Qed.
End Interleaved.

(** ** Lemmas *)

Lemma restore_after_consume b b' :
  0 <= tokens b <= effective_cap b -> effective_cap b <= u64_max ->
  try_consume b = (true, b') -> restore b' = b.
Proof.
  unfold try_consume, restore, set_tokens. intros Hb Hc. destruct (tokens b =? 0); [done|]. intros [= <-]. simpl.
  rewrite as_u64_id by (unfold in_u64; lia). replace (tokens b - 1 + 1) with (tokens b) by lia.
  replace (effective_cap b <? tokens b) with false by lia. by destruct b.
Qed.

Lemma by_time_trans a b c : by_time a b = true -> by_time b c = true -> by_time a c = true.
Proof. destruct a, b, c; simpl; try done. intros. zlia. Qed.

Lemma by_time_total a b : by_time a b = false -> by_time b a = true \/ (a = None /\ b = None).
Proof. destruct a, b; simpl; auto. intros. left. zlia. Qed.

Ltac time_cases :=
  repeat match goal with
  | |- context [by_time ?a ?b] => let E := fresh "E" in destruct (by_time a b) eqn:E; simpl
  end.

(** Whether the trigger fires a hedge. *)
Definition fires {T} (first : Attempt T) (trigger : Duration) (closed : bool) (drop_at : option Duration)
    (b : HedgeBudget) : bool :=
  negb (by_time (latency first) (Some trigger) && by_time (latency first) drop_at) &&
  by_time (Some trigger) drop_at && closed && negb (tokens b =? 0).

(** Without a hedge the call is the original call under the caller's timeout. *)
Lemma hedged_call_plain {T} (first second : Attempt T) trigger closed prefer drop_at b :
  fires first trigger closed drop_at b = false ->
  hedged_call first second trigger closed prefer drop_at b =
  Build_HedgeRun (if by_time (latency first) drop_at then Some (value first) else None) 1 b.
Proof.
  unfold fires, hedged_call, try_consume.
  destruct (by_time (latency first) (Some trigger)) eqn:E1, (by_time (latency first) drop_at) eqn:E2,
    (by_time (Some trigger) drop_at) eqn:E3; simpl; try done;
    try (pose proof (by_time_trans _ _ _ E1 E3); congruence);
    try (destruct closed, (tokens b =? 0); done).
  destruct (by_time_total _ _ E1) as [E4|[_ [=]]]. pose proof (by_time_trans _ _ _ E4 E2). congruence.
Qed.

(** With a hedge it is the race of the two. *)
Lemma hedged_call_race {T} (first second : Attempt T) trigger closed prefer drop_at b :
  fires first trigger closed drop_at b = true ->
  0 <= tokens b <= effective_cap b -> effective_cap b <= u64_max ->
  let second_at := (fun d => trigger + d) <$> latency second in
  let r := hedged_call first second trigger closed prefer drop_at b in
  hr_calls r = 2%nat /\
  (hr_result r = Some (value first) /\ by_time (latency first) drop_at = true /\ hr_budget r = b \/
   hr_result r = Some (value second) /\ by_time second_at drop_at = true /\ hr_budget r = b \/
   hr_result r = None /\ by_time (latency first) drop_at = false /\ by_time second_at drop_at = false /\
     hr_budget r = set_tokens b (tokens b - 1)).
Proof.
  unfold fires. intros Hf Hb Hc. cbv zeta. unfold hedged_call.
  apply andb_true_iff in Hf as [Hf Ht]. apply andb_true_iff in Hf as [Hf ->].
  apply andb_true_iff in Hf as [Hf E3]. apply negb_true_iff in Hf, Ht. rewrite Hf, E3. simpl.
  pose proof (restore_after_consume b (set_tokens b (tokens b - 1)) Hb Hc) as Hr.
  unfold try_consume in *. rewrite Ht in *. specialize (Hr eq_refl). simpl.
  set (second_at := (fun d => trigger + d) <$> latency second).
  destruct (by_time (latency first) second_at) eqn:E1, (by_time second_at (latency first)) eqn:E2, prefer;
    simpl; time_cases; split; try done;
    repeat match goal with
    | H : by_time ?a ?b = true, H' : by_time ?b ?c = true |- _ =>
        lazymatch goal with
        | _ : by_time a c = true |- _ => fail
        | _ => pose proof (by_time_trans _ _ _ H H')
        end
    end; try congruence; auto 6.
  all: destruct (by_time_total _ _ E1) as [?|[E4 E5]]; [congruence|]; rewrite E4 in *; simpl in *; done.
Qed.

(** An original call that completes before the caller's timeout is answered. *)
Lemma hedged_call_returns {T} (first second : Attempt T) trigger closed prefer drop_at b :
  by_time (latency first) drop_at = true ->
  hr_result (hedged_call first second trigger closed prefer drop_at b) ∈ [Some (value first); Some (value second)].
Proof.
  intros Hf. unfold hedged_call. rewrite Hf, andb_true_r.
  destruct (by_time (latency first) (Some trigger)) eqn:E1; [set_solver|].
  assert (by_time (Some trigger) drop_at = true) as ->.
  { destruct (by_time_total _ _ E1) as [E2|[_ [=]]]. by eapply by_time_trans. }
  cbn [negb]. destruct (if closed then _ else _) as [[] b']; cbn [negb]; [|simpl; set_solver].
  set (second_at := (fun d => trigger + d) <$> latency second).
  destruct (by_time (latency first) second_at) eqn:E2, (by_time second_at (latency first)) eqn:E3; simpl.
  - destruct prefer; simpl; [rewrite Hf|rewrite (by_time_trans _ _ _ E3 Hf)]; simpl; set_solver.
  - rewrite orb_true_r, Hf. simpl. set_solver.
  - rewrite (by_time_trans _ _ _ E3 Hf). simpl. set_solver.
  - destruct (by_time_total _ _ E2) as [?|[E4 _]]; [congruence|]. rewrite E4 in Hf. done.
Qed.

(** ** Properties *)

(** A hedged call issues at most two calls, the second only after the
    trigger, with the breaker closed and a token in the bucket; its result is
    that of an attempt that completed before the caller's timeout; a call that
    returns leaves the bucket as it found it, and one that the caller drops
    during the race loses its token for good. *)
Theorem hedged_call_spec {T} (first second : Attempt T) (trigger : Duration) (closed prefer : bool)
    (drop_at : option Duration) (b : HedgeBudget)
    (Hb : 0 <= tokens b <= effective_cap b) (Hc : effective_cap b <= u64_max) :
  let second_at := (fun d => trigger + d) <$> latency second in
  let r := hedged_call first second trigger closed prefer drop_at b in
  let fired := fires first trigger closed drop_at b in
  hr_calls r = (if fired then 2 else 1)%nat /\
  (is_Some (hr_result r) <->
     by_time (latency first) drop_at = true \/ (fired = true /\ by_time second_at drop_at = true)) /\
  hr_result r ∈ [Some (value first); Some (value second); None] /\
  hr_budget r = (if fired && bool_decide (hr_result r = None) then set_tokens b (tokens b - 1) else b).
Proof.
  cbv zeta. destruct (fires first trigger closed drop_at b) eqn:Ef.
  - destruct (hedged_call_race first second trigger closed prefer drop_at b Ef Hb Hc) as [Hn Hr].
    destruct Hr as [(Hr & Ht & Hbud)|[(Hr & Ht & Hbud)|(Hr & Ht1 & Ht2 & Hbud)]];
      rewrite Hn, Hr, Hbud; (split_and!; [done| |set_solver|by case_bool_decide]); split; try done; auto.
    intros [?|[_ ?]]; congruence.
  - rewrite hedged_call_plain by done. simpl. time_cases; split_and!; try done; try set_solver; try naive_solver.
Qed.

(** A 4 ms hedge of a hung call: the hedge answers at 12 ms; a caller that gives
    up at 10 ms, as the frequency-cap read does, loses the token. *)
Lemma hedged_call_spec_witness :
  let hung := {| latency := None; value := 0 |} in
  let hedge := {| latency := Some (from_millis 4); value := 1 |} in
  let b := HedgeBudget_new 5 in
  hr_budget (hedged_call hung hedge (from_millis 8) true true None b) = b /\
  hr_budget (hedged_call hung hedge (from_millis 8) true true (Some (from_millis 10)) b) = set_tokens b 4.
Proof.
  intros hung hedge b. split.
  - destruct (hedged_call_spec hung hedge (from_millis 8) true true None b ltac:(simpl; lia)
      ltac:(unfold u64_max; simpl; lia)) as (_ & _ & _ & ->). reflexivity.
  - destruct (hedged_call_spec hung hedge (from_millis 8) true true (Some (from_millis 10)) b ltac:(simpl; lia)
      ltac:(unfold u64_max; simpl; lia)) as (_ & _ & _ & ->). reflexivity.
Defined.

(** However hedges, completions, dropped calls and feedback ticks
    interleave, at most [capacity] hedges are outstanding: the tokens in the
    bucket plus those in use never exceed the capacity it was created with. *)
Theorem outstanding_hedges_bounded (capacity : Z) (s : Interleaved.state)
    (Hcap : 0 <= capacity <= u64_max)
    (Hreach : rtc Interleaved.step
                {| Interleaved.bucket := HedgeBudget_new capacity; Interleaved.outstanding := 0 |} s) :
  0 <= tokens (Interleaved.bucket s) /\ 0 <= Interleaved.outstanding s /\
  tokens (Interleaved.bucket s) + Interleaved.outstanding s <= capacity.
Proof.
  apply (Interleaved.reachable_capacity capacity) in Hreach as (? & ? & Hc); [|lia|].
  - unfold Interleaved.capacity in Hc; simpl in Hc. lia.
  - unfold Interleaved.inv, Interleaved.capacity; simpl; lia.
Qed.

Lemma outstanding_hedges_bounded_witness :
  0 <= 1 /\ 0 <= 1 /\ 1 + 1 <= 2.
Proof.
  apply (outstanding_hedges_bounded 2
    {| Interleaved.bucket := set_tokens (HedgeBudget_new 2) 1; Interleaved.outstanding := 1 |});
    [unfold u64_max; lia|].
  eapply rtc_l; [apply (Interleaved.step_consume _ (set_tokens (HedgeBudget_new 2) 1)); reflexivity|].
  apply rtc_refl.
Defined.

(** [C33] Load shedding switches hedging off for good: after a feedback tick that
    reports a shed rate above 5 % while no hedge is in flight, no later sequence
    of operations, ticks with a healthy rate included, ever lets a hedge through
    again; the capacity is restored but the tokens are not. *)
Theorem shed_disables_hedging_forever (b : HedgeBudget) (rate : f64) (s : Interleaved.state)
    (Hb : 0 <= tokens b) (Hrate : fgt rate (f64_lit 5 100) = true)
    (Hreach : rtc Interleaved.step
                {| Interleaved.bucket := set_load_shed_rate b rate; Interleaved.outstanding := 0 |} s) :
  (try_consume (Interleaved.bucket s)).1 = false.
Proof.
  assert (tokens (set_load_shed_rate b rate) = 0) as H0.
  { unfold set_load_shed_rate, shed_capacity. rewrite Hrate. simpl. lia. }
  apply (Interleaved.reachable_capacity 0) in Hreach as (? & ? & Hc);
    unfold Interleaved.inv, Interleaved.capacity, u64_max in *; cbn [Interleaved.bucket Interleaved.outstanding] in *;
    [|lia..].
  unfold try_consume. replace (tokens (Interleaved.bucket s) =? 0) with true by lia. done.
Qed.

Lemma shed_disables_hedging_forever_witness :
  let b := set_load_shed_rate (HedgeBudget_new 100) (f64_lit 6 100) in
  let b' := set_load_shed_rate b (f64_of_Z 0) in
  effective_cap b' = 100 /\ (try_consume b').1 = false.
Proof.
  intros b b'. split; [reflexivity|].
  apply (shed_disables_hedging_forever (HedgeBudget_new 100) (f64_lit 6 100)
    {| Interleaved.bucket := b'; Interleaved.outstanding := 0 |}); [simpl; lia|reflexivity|].
  eapply rtc_l; [apply (Interleaved.step_store_cap b 0 (f64_of_Z 0))|].
  eapply rtc_l; [apply (Interleaved.step_clamp _ 0 100); lia|]. apply rtc_refl.
Defined.
