(* ===== verification/Frequency.v ===== *)
(** * Frequency capping

    [bidder-core/src/frequency/] (the [FrequencyCapper] trait, the in-process
    capper, the impression recorder), [bidder-server/src/freq_cap.rs] (the Redis
    capper and the impression workers) and the write-behind drain of
    [bidder-server/src/main.rs].  What Redis answers for which keys, clocks and call
    latencies are inputs of each check, the times of the workers' scripts inputs of
    each write; the breaker, the hedge bucket and the latency tracker
    are the state the Redis call sites share. *)
From S2P Require Import Prelude Floats OpenRtb Bitmap Catalog Model Externals Breaker Hedge.

(** ** [frequency/mod.rs] *)

Inductive CapWindow := Hour | Day | Week.
#[global] Instance CapWindow_eq_dec : EqDecision CapWindow.
Proof. solve_decision. Defined.

Definition suffix (w : CapWindow) : string :=
  match w with Hour => "h" | Day => "d" | Week => "w" end.

Record CapResult := {
  cp_campaign_id : Z;
  cp_capped : bool;
  cp_day_count : option Z;
  cp_hour_count : option Z;
}.

Inductive FreqCapOutcome :=
| Checked (results : list CapResult)
| SkippedTimeout
| SkippedNoUser.

(** The trait.  [S] is the capper with everything it shares, [E] what the
    environment does during one check. *)
Class FrequencyCapper (S E : Type) := {
  fc_check : S -> string -> list AdCandidate -> Z -> Z -> E -> FreqCapOutcome * S;
}.

(** What its clients rely on: a completed check answers for the candidates it
    was given, one result each, in order. *)
Class FrequencyCapperLaws (S E : Type) `{FrequencyCapper S E} := {
  fc_aligned s user cands dt hour env rs s' :
    fc_check s user cands dt hour env = (Checked rs, s') ->
    cp_campaign_id <$> rs = ac_campaign_id <$> cands;
}.

(** The verdict both cappers compute from a pair of counters. *)
Definition over_cap (c : AdCandidate) (day hour : Z) : bool :=
  (ac_daily_cap_imps c <=? day) || (ac_hourly_cap_imps c <=? hour).

(** ** The Redis capper *)
Module RedisCapper.

(** [format!("v1:fc:{{u:{user_id}}}:{dim}:{dim_val}:{suffix}")] *)
Definition fc_key (user_id dim : string) (dim_val : Z) (window : CapWindow) : string :=
  "v1:fc:{u:" +:+ user_id +:+ "}:" +:+ dim +:+ ":" +:+ pretty dim_val +:+ ":" +:+ suffix window.

(** The state of the Redis dependency: shared by every call site. *)
Record Shared := {
  rs_breaker : CircuitBreaker;
  rs_hedge : HedgeBudget;
  rs_latency : option RedisLatencyTracker;
  rs_timeout_ms : Z;
}.

(** One call: the clock readings of the breaker's two locks, whether its lock
    could be read at the trigger, how Redis answers each of the two attempts for
    the keys it is sent, the tie-break of their race, the measured duration and
    the clock when the outcome is recorded. *)
Record Env := {
  ev_now_read : Instant;
  ev_now_write : Instant;
  ev_readable : bool;
  ev_first : list string -> Attempt (Result (list (option Z)) string);
  ev_second : list string -> Attempt (Result (list (option Z)) string);
  ev_prefer_first : bool;
  ev_elapsed : Duration;
  ev_now_record : Instant;
}.

Definition cap_keys (user_id : string) (cands : list AdCandidate) : list string :=
  cands ≫= fun c => [fc_key user_id "c" (ac_campaign_id c) Day; fc_key user_id "c" (ac_campaign_id c) Hour].

(** [values.get(i).copied().flatten().unwrap_or(0)] *)
Definition value_at (values : list (option Z)) (i : nat) : Z := unwrap_or (mjoin (values !! i)) 0.

Definition cap_results (cands : list AdCandidate) (values : list (option Z)) : list CapResult :=
  imap (fun i c =>
          let day_count := value_at values (i * 2) in
          let hour_count := value_at values (i * 2 + 1) in
          {| cp_campaign_id := ac_campaign_id c; cp_capped := over_cap c day_count hour_count;
             cp_day_count := Some day_count; cp_hour_count := Some hour_count |}) cands.

Definition check (s : Shared) (user_id : string) (cands : list AdCandidate) (_ _ : Z) (env : Env)
  : FreqCapOutcome * Shared :=
  match cands with
  | [] => (Checked [], s)
  | _ =>
      let '(allowed, breaker) := allow_request (rs_breaker s) (ev_now_read env) (ev_now_write env) in
      if negb allowed then
        (SkippedTimeout, {| rs_breaker := breaker; rs_hedge := rs_hedge s; rs_latency := rs_latency s;
                            rs_timeout_ms := rs_timeout_ms s |})
      else
        let keys := cap_keys user_id cands in
        let run := hedged_call (ev_first env keys) (ev_second env keys) (from_millis 8)
                     (is_closed_sync breaker (ev_readable env)) (ev_prefer_first env)
                     (Some (from_millis (rs_timeout_ms s))) (rs_hedge s) in
        let finish error := {|
          rs_breaker := record_outcome breaker error (ev_elapsed env) (ev_now_record env);
          rs_hedge := hr_budget run;
          rs_latency := (fun t => record_latency t (ev_elapsed env)) <$> rs_latency s;
          rs_timeout_ms := rs_timeout_ms s |} in
        match hr_result run with
        | None => (SkippedTimeout, finish true)
        | Some (Err _) => (SkippedTimeout, finish true)
        | Some (Ok values) => (Checked (cap_results cands values), finish false)
        end
  end.

#[global] Instance redis_capper : FrequencyCapper Shared Env := {| fc_check := check |}.

Lemma cap_results_ids cands values : cp_campaign_id <$> cap_results cands values = ac_campaign_id <$> cands.
Proof. unfold cap_results. rewrite fmap_imap, <- (imap_const ac_campaign_id). by apply imap_ext. Qed.

#[global] Instance redis_capper_laws : FrequencyCapperLaws Shared Env.
Proof.
  split. simpl. unfold check. intros s user cands dt hour env rs s' Hc.
  destruct cands as [|c cands]; [by simplify_eq|].
  destruct (allow_request _ _ _) as [[] cb]; simpl in Hc; [|done].
  destruct (hr_result _) as [[values|e]|]; simplify_eq. apply cap_results_ids.
Defined.

(** *** Impression workers

    [write_impression_counters]: the Lua script on the hour key, then on the day
    key ([INCR], and [EXPIRE] when the counter was just created).  Redis runs a
    script as one step, at one time of its clock. *)
Section Workers.
Context {R : Type} `{Redis R}.

Definition incr_with_ttl (r : R) (now : Instant) (key : string) (ttl : Z) : R :=
  let '(current, r') := redis_incr r now key in
  if current =? 1 then redis_expire r' now key ttl else r'.

Record ImpressionEvent := {
  im_user_id : string;
  im_campaign_id : Z;
  im_creative_id : Z;
  im_device_type : Z;
  im_hour_of_day : Z;
}.

Definition impression_key (e : ImpressionEvent) (window_suffix : string) : string :=
  "v1:fc:{u:" +:+ im_user_id e +:+ "}:c:" +:+ pretty (im_campaign_id e) +:+ ":" +:+ window_suffix.

(** [hour_at] and [day_at]: when the two [EVAL]s run on the server, [None] for one
    that fails. *)
Definition write_impression_counters (r : R) (e : ImpressionEvent) (hour_at day_at : option Instant) : R :=
  foldl (fun r '(ttl, window_suffix, at_) =>
           match at_ with
           | Some now => incr_with_ttl r now (impression_key e window_suffix) ttl
           | None => r
           end)
        r [(3600, "h"%string, hour_at); (86400, "d"%string, day_at)].
End Workers.
End RedisCapper.

(** ** [ImpressionRecorder] *)
Section Recorder.
Context {Ch : Type} `{Mpsc Ch RedisCapper.ImpressionEvent}.

Definition ImpressionRecorder_new : Ch := chan_new (Z.to_nat 65536).
Definition try_record (tx : Ch) (e : RedisCapper.ImpressionEvent) : bool * Ch := chan_push tx e.
End Recorder.

(** ** The in-process capper *)
Module InProcess.

Record WriteBehindOp := { wb_user_id : string; wb_campaign_id : Z; wb_window : CapWindow }.

Record InProcessConfig := { cap_capacity : Z; write_buffer_size : Z; flush_interval : Duration }.
Definition InProcessConfig_default : InProcessConfig :=
  {| cap_capacity := 500000; write_buffer_size := 65536; flush_interval := from_secs 1 |}.

(** [AtomicCounter] *)
Definition incr (c : Z) : Z := as_i64 (c + 1).

(** [S], [E]: the wrapped capper and its environment; [M]: the cache of users;
    [U]: a user's counters, campaign to (day, hour); [Ch]: the write-behind
    channel.  The breaker is shared with the wrapped capper, which is why it is
    reached through it. *)
Section InProcess_.
Context {S E : Type} `{FrequencyCapper S E}.
Context (breaker_of : S -> CircuitBreaker) (set_breaker : S -> CircuitBreaker -> S).
Context {U : Type} `{KVCache U Z (Z * Z)}.
Context {M : Type} `{KVCache M string U}.
Context {Ch : Type} `{Mpsc Ch WriteBehindOp}.

Record InProcessFrequencyCapper := {
  ip_fallback : S;
  ip_counters : M;
  ip_write_tx : Ch;
}.

Definition new (fallback : S) (cfg : InProcessConfig) : InProcessFrequencyCapper :=
  {| ip_fallback := fallback; ip_counters := kv_empty;
     ip_write_tx := chan_new (Z.to_nat (write_buffer_size cfg)) |}.

Definition op (user_id : string) (campaign_id : Z) (w : CapWindow) : WriteBehindOp :=
  {| wb_user_id := user_id; wb_campaign_id := campaign_id; wb_window := w |}.

(** [counters.get_with_by_ref(user_id, new)] *)
Definition user_map (s : InProcessFrequencyCapper) (user_id : string) : U :=
  unwrap_or (kv_get (ip_counters s) user_id) kv_empty.

Definition record_impression (s : InProcessFrequencyCapper) (user_id : string) (campaign_id : Z)
  : bool * InProcessFrequencyCapper :=
  let um := user_map s user_id in
  let '(day, hour) := unwrap_or (kv_get um campaign_id) (0, 0) in
  let um := kv_put um campaign_id (incr day, incr hour) in
  let '(day_ok, tx) := chan_push (ip_write_tx s) (op user_id campaign_id Day) in
  let '(hour_ok, tx) := chan_push tx (op user_id campaign_id Hour) in
  (day_ok && hour_ok,
   {| ip_fallback := ip_fallback s; ip_counters := kv_put (ip_counters s) user_id um; ip_write_tx := tx |}).

Definition lookup (s : InProcessFrequencyCapper) (user_id : string) (campaign_id : Z) : option (Z * Z) :=
  um ← kv_get (ip_counters s) user_id; kv_get um campaign_id.

Definition warm_cache (s : InProcessFrequencyCapper) (user_id : string) (campaign_id day hour : Z)
  : InProcessFrequencyCapper :=
  let um := user_map s user_id in
  let '(d, h) := unwrap_or (kv_get um campaign_id) (day, hour) in
  let um := kv_put um campaign_id (if d <? day then day else d, if h <? hour then hour else h) in
  {| ip_fallback := ip_fallback s; ip_counters := kv_put (ip_counters s) user_id um;
     ip_write_tx := ip_write_tx s |}.

(** moka drops a user: the eviction listener runs on the removed entry. *)
Definition evict (s : InProcessFrequencyCapper) (user_id : string) : InProcessFrequencyCapper :=
  match kv_get (ip_counters s) user_id with
  | None => s
  | Some um =>
      {| ip_fallback := ip_fallback s; ip_counters := kv_del (ip_counters s) user_id;
         ip_write_tx :=
           foldl (fun tx '(campaign_id, _) =>
                    (chan_push (chan_push tx (op user_id campaign_id Day)).2 (op user_id campaign_id Hour)).2)
                 (ip_write_tx s) (kv_entries um) |}
  end.

(** What one check sees: the clocks of its own [allow_request], and the
    environment of the wrapped capper. *)
Record Env := { iev_now_read : Instant; iev_now_write : Instant; iev_fallback : E }.

(** The first pass: a verdict for the warm candidates, a placeholder for the
    cold ones. *)
Definition first_pass (s : InProcessFrequencyCapper) (user_id : string) (c : AdCandidate) : CapResult :=
  match lookup s user_id (ac_campaign_id c) with
  | Some (day, hour) =>
      {| cp_campaign_id := ac_campaign_id c; cp_capped := over_cap c day hour;
         cp_day_count := Some day; cp_hour_count := Some hour |}
  | None =>
      {| cp_campaign_id := ac_campaign_id c; cp_capped := false; cp_day_count := None; cp_hour_count := None |}
  end.

Definition is_cold (s : InProcessFrequencyCapper) (user_id : string) (c : AdCandidate) : Prop :=
  lookup s user_id (ac_campaign_id c) = None.

(** [results.iter_mut().find(|r| r.campaign_id == fb.campaign_id)], overwritten *)
Fixpoint patch (results : list CapResult) (fb : CapResult) : list CapResult :=
  match results with
  | [] => []
  | r :: rs =>
      if cp_campaign_id r =? cp_campaign_id fb then
        {| cp_campaign_id := cp_campaign_id r; cp_capped := cp_capped fb;
           cp_day_count := cp_day_count fb; cp_hour_count := cp_hour_count fb |} :: rs
      else r :: patch rs fb
  end.

Definition warm_from (s : InProcessFrequencyCapper) (user_id : string) (fb : CapResult)
  : InProcessFrequencyCapper :=
  match cp_day_count fb, cp_hour_count fb with
  | Some day, Some hour => warm_cache s user_id (cp_campaign_id fb) day hour
  | _, _ => s
  end.

Definition check (s : InProcessFrequencyCapper) (user_id : string) (cands : list AdCandidate)
    (device_type_val hour_of_day : Z) (env : Env) : FreqCapOutcome * InProcessFrequencyCapper :=
  let '(allowed, breaker) := allow_request (breaker_of (ip_fallback s)) (iev_now_read env) (iev_now_write env) in
  let s := {| ip_fallback := set_breaker (ip_fallback s) breaker; ip_counters := ip_counters s;
              ip_write_tx := ip_write_tx s |} in
  if negb allowed then (SkippedTimeout, s)
  else
    let results := first_pass s user_id <$> cands in
    let cold := filter (is_cold s user_id) cands in
    match cold with
    | [] => (Checked results, s)
    | _ =>
        let '(out, fallback) := fc_check (ip_fallback s) user_id cold device_type_val hour_of_day (iev_fallback env) in
        let s := {| ip_fallback := fallback; ip_counters := ip_counters s; ip_write_tx := ip_write_tx s |} in
        match out with
        | Checked fallback_results =>
            (Checked (foldl patch results fallback_results),
             foldl (fun s fb => warm_from s user_id fb) s fallback_results)
        | _ => (Checked results, s)
        end
    end.

#[export] Instance in_process_capper : FrequencyCapper InProcessFrequencyCapper Env := {| fc_check := check |}.
End InProcess_.
Arguments InProcessFrequencyCapper : clear implicits.
Arguments Env : clear implicits.
End InProcess.

(** ** The write-behind drain

    [in_process_write_behind_drain]: each [Day] operation becomes one impression
    event for the recorder, the others are skipped. *)
Section Drain.
Context {Ch : Type} `{Mpsc Ch RedisCapper.ImpressionEvent}.

Definition drain_op (recorder : Ch) (o : InProcess.WriteBehindOp) : Ch :=
  if decide (InProcess.wb_window o <> Day) then recorder
  else (try_record recorder {|
          RedisCapper.im_user_id := InProcess.wb_user_id o;
          RedisCapper.im_campaign_id := InProcess.wb_campaign_id o;
          RedisCapper.im_creative_id := 0; RedisCapper.im_device_type := 0;
          RedisCapper.im_hour_of_day := 0 |}).2.

Definition in_process_write_behind_drain (ops : list InProcess.WriteBehindOp) (recorder : Ch) : Ch :=
  foldl drain_op recorder ops.
End Drain.

(** ** Lemmas: keys and counters *)
Section Keys.
Import RedisCapper.

Definition colon : Ascii.ascii := Ascii.ascii_of_nat 58.

Lemma fc_key_shape u c w :
  fc_key u "c" c w = (("v1:fc:{u:" +:+ u +:+ "}:c") +:+ String colon (pretty c)) +:+ String colon (suffix w).
Proof.
  unfold fc_key. by rewrite !string_app_assoc.
Qed.

Lemma suffix_no_colon w : has_char colon (suffix w) = false.
Proof. by destruct w. Qed.

Lemma fc_key_inj u u' c c' w w' : fc_key u "c" c w = fc_key u' "c" c' w' -> u = u' /\ c = c' /\ w = w'.
Proof.
  rewrite !fc_key_shape. intros Heq.
  apply split_last_sep in Heq as [Heq Hw]; [|apply suffix_no_colon..].
  apply split_last_sep in Heq as [Heq Hc]; [|by apply pretty_Z_has_char..].
  apply string_app_inj_l in Heq.
  assert (u = u') as ->.
  { change ("}:c"%string) with (String (Ascii.ascii_of_nat 125) ":c") in Heq.
    by apply split_last_sep in Heq as [? _]. }
  split_and!; [done|by apply (inj pretty) in Hc|]. by destruct w, w'.
Qed.

Lemma impression_key_fc_key e w : impression_key e (suffix w) = fc_key (im_user_id e) "c" (im_campaign_id e) w.
Proof. done. Qed.

Context {R : Type} `{RedisLaws R}.

Lemma incr_with_ttl_entry (r : R) now k ttl k' :
  redis_entry (incr_with_ttl r now k ttl) k' =
  if decide (k = k')
  then Some (match redis_get r now k with
             | Some v => (v + 1, if v + 1 =? 1 then Some (now + from_secs ttl) else redis_entry r k ≫= snd)
             | None => (1, Some (now + from_secs ttl))
             end)
  else redis_entry r k'.
Proof.
  unfold incr_with_ttl. pose proof (redis_incr_entry r now k) as He. pose proof (redis_incr_value r now k) as Hv.
  destruct (redis_incr r now k) as [n r']. cbn [fst snd] in *. subst n.
  assert (redis_get r' now k = Some (unwrap_or (redis_get r now k) 0 + 1)) as Hg.
  { unfold redis_get at 1. rewrite He, decide_True by done. unfold redis_get.
    destruct (redis_entry r k) as [[v e]|]; [destruct (unexpired now e) eqn:Eu; cbn; [by rewrite Eu|done]|done]. }
  destruct (_ =? 1) eqn:E1; rewrite ?redis_expire_entry, ?Hg, He;
    (destruct (decide (k = k')) as [<-|]; [|done]); destruct (redis_get r now k) as [v|]; cbn in *; by rewrite ?E1.
Qed.

(** The windows in which a counter with expiry counts: an impression opens one
    unless it falls into the one open; [window_after] is the last one, with its
    count, after impressions at some times. *)
Definition count_impression (ttl : Duration) (w : option (Instant * Z)) (t : Instant) : option (Instant * Z) :=
  match w with
  | Some (opened, n) => if t <? opened + ttl then Some (opened, n + 1) else Some (t, 1)
  | None => Some (t, 1)
  end.
Definition window_after (ttl : Duration) (times : list Instant) : option (Instant * Z) :=
  foldl (count_impression ttl) None times.
(** The impressions of the window open at [now], if one is. *)
Definition counted (ttl : Duration) (times : list Instant) (now : Instant) : Z :=
  match window_after ttl times with
  | Some (opened, n) => if now <? opened + ttl then n else 0
  | None => 0
  end.

(** A run of the workers: the events with the times of their scripts; the times at
    which a window's script ran for a user and a campaign. *)
Notation Writes := (list (ImpressionEvent * option Instant * option Instant)).
Definition write_all (r : R) (es : Writes) : R :=
  foldl (fun r '(e, hour_at, day_at) => write_impression_counters r e hour_at day_at) r es.
Definition written (u : string) (c : Z) (w : CapWindow) (es : Writes) : list Instant :=
  omap (fun '(e, hour_at, day_at) =>
          if decide (im_user_id e = u /\ im_campaign_id e = c)
          then match w with Hour => hour_at | Day => day_at | Week => None end else None) es.
Definition window_secs (w : CapWindow) : Z := match w with Hour => 3600 | _ => 86400 end.

(** What a counter written at some times looks like. *)
Definition counter_entry (ttl : Z) (times : list Instant) : option (Z * option Instant) :=
  '(opened, n) ← window_after (from_secs ttl) times; Some (n, Some (opened + from_secs ttl)).

Lemma window_after_pos ttl times opened n : window_after ttl times = Some (opened, n) -> 0 < n.
Proof.
  unfold window_after. revert opened n. induction times as [|t times IH] using rev_ind; [done|]. intros opened n.
  rewrite foldl_snoc. destruct (foldl _ None times) as [[o m]|]; cbn; [|by intros [= _ <-]].
  destruct (t <? o + ttl); intros [= _ <-]; [|done]. specialize (IH _ _ eq_refl). lia.
Qed.

Lemma incr_with_ttl_counter (r : R) now k ttl times k' : redis_entry r k = counter_entry ttl times ->
  redis_entry (incr_with_ttl r now k ttl) k' =
  if decide (k = k') then counter_entry ttl (times ++ [now]) else redis_entry r k'.
Proof.
  intros He. rewrite incr_with_ttl_entry. unfold redis_get. rewrite He. case_decide; [|done].
  unfold counter_entry, window_after at 3. rewrite foldl_snoc. change (foldl _ None times) with (window_after (from_secs ttl) times).
  destruct (window_after (from_secs ttl) times) as [[opened n]|] eqn:E; [|done]. apply window_after_pos in E. cbn.
  destruct (now <? opened + from_secs ttl); [|done]. cbn. by rewrite (proj2 (Z.eqb_neq (n + 1) 1)) by lia.
Qed.

Lemma write_all_snoc (r : R) es e hour_at day_at :
  write_all r (es ++ [(e, hour_at, day_at)]) = write_impression_counters (write_all r es) e hour_at day_at.
Proof. unfold write_all. by rewrite foldl_snoc. Qed.

Lemma written_snoc u c w es e hour_at day_at :
  written u c w (es ++ [(e, hour_at, day_at)]) = written u c w es ++ written u c w [(e, hour_at, day_at)].
Proof. apply omap_app. Qed.

(** One script for one event. *)
Lemma script_entry (r : R) e w at_ u c w' es : w <> Week -> w' <> Week ->
  (forall u c w, w <> Week -> redis_entry r (fc_key u "c" c w) = counter_entry (window_secs w) (es u c w)) ->
  redis_entry (match at_ with Some now => incr_with_ttl r now (impression_key e (suffix w)) (window_secs w) | None => r end)
    (fc_key u "c" c w') =
  counter_entry (window_secs w') (es u c w' ++
    if decide (im_user_id e = u /\ im_campaign_id e = c /\ w = w') then option_list at_ else []).
Proof.
  intros Hw Hw' Hr. destruct at_ as [now|]; [|rewrite Hr by done; case_decide; by rewrite app_nil_r].
  rewrite impression_key_fc_key, (incr_with_ttl_counter _ _ _ _ (es (im_user_id e) (im_campaign_id e) w)) by by apply Hr.
  destruct (decide (im_user_id e = u /\ im_campaign_id e = c /\ w = w')) as [(<- & <- & <-)|Hn].
  - by rewrite decide_True.
  - rewrite decide_False; [by rewrite app_nil_r; apply Hr|]. intros (? & ? & ?)%fc_key_inj. naive_solver.
Qed.

Lemma write_all_entry (r0 : R) (es : Writes) u c w : (forall u c w, redis_entry r0 (fc_key u "c" c w) = None) -> w <> Week ->
  redis_entry (write_all r0 es) (fc_key u "c" c w) = counter_entry (window_secs w) (written u c w es).
Proof.
  intros Hnew. revert u c w. induction es as [|[[e hour_at] day_at] es IH] using rev_ind; intros u c w Hw; [apply Hnew|].
  rewrite write_all_snoc, written_snoc.
  pose proof (fun u c w' (Hw' : w' <> Week) => script_entry (write_all r0 es) e Hour hour_at u c w' (fun u c w => written u c w es)
    ltac:(done) Hw' IH) as Hhour.
  set (r1 := match hour_at with Some now => incr_with_ttl (write_all r0 es) now (impression_key e (suffix Hour)) (window_secs Hour)
             | None => write_all r0 es end) in *.
  change (write_impression_counters (write_all r0 es) e hour_at day_at) with
    (match day_at with Some now => incr_with_ttl r1 now (impression_key e (suffix Day)) (window_secs Day) | None => r1 end).
  rewrite (script_entry _ e Day day_at u c w _ ltac:(done) Hw Hhour).
  f_equal. rewrite <- app_assoc. f_equal. unfold written. cbn [omap list_omap].
  destruct w; [| |done]; (destruct (decide (im_user_id e = u /\ im_campaign_id e = c)) as [[? ?]|Hn];
    [|by rewrite !decide_False by naive_solver]).
  - rewrite decide_True, decide_False by naive_solver. rewrite app_nil_r. by destruct hour_at.
  - rewrite decide_False, decide_True by naive_solver. by destruct day_at.
Qed.

Lemma write_all_get (r0 : R) (es : Writes) u c w now : (forall u c w, redis_entry r0 (fc_key u "c" c w) = None) -> w <> Week ->
  unwrap_or (redis_get (write_all r0 es) now (fc_key u "c" c w)) 0 = counted (from_secs (window_secs w)) (written u c w es) now.
Proof.
  intros Hnew Hw. unfold redis_get, counted. rewrite write_all_entry by done. unfold counter_entry.
  destruct (window_after _ _) as [[opened n]|]; [cbn|done]. by destruct (now <? _).
Qed.

(** The MGET answers sit at the positions [cap_results] reads. *)
Lemma cap_keys_at u cands i c : cands !! i = Some c ->
  cap_keys u cands !! (i * 2)%nat = Some (fc_key u "c" (ac_campaign_id c) Day) /\
  cap_keys u cands !! (i * 2 + 1)%nat = Some (fc_key u "c" (ac_campaign_id c) Hour).
Proof.
  unfold cap_keys. revert i; induction cands as [|c' cands IH]; intros [|i]; simpl; try done.
  - intros [= ->]. done.
  - intros Hc. destruct (IH i Hc) as [H1 H2]. done.
Qed.

Lemma value_at_mget (r : R) now keys i k :
  keys !! i = Some k -> value_at (redis_mget r now keys) i = unwrap_or (redis_get r now k) 0.
Proof. intros Hk. unfold value_at, redis_mget. rewrite list_lookup_fmap, Hk. done. Qed.

Lemma cap_results_mget (r : R) now u cands i c : cands !! i = Some c ->
  let count w := unwrap_or (redis_get r now (fc_key u "c" (ac_campaign_id c) w)) 0 in
  cap_results cands (redis_mget r now (cap_keys u cands)) !! i =
  Some {| cp_campaign_id := ac_campaign_id c; cp_capped := over_cap c (count Day) (count Hour);
          cp_day_count := Some (count Day); cp_hour_count := Some (count Hour) |}.
Proof.
  intros Hc. cbv zeta. unfold cap_results. rewrite list_lookup_imap, Hc. simpl.
  destruct (cap_keys_at u cands i c Hc) as [Hd Hh].
  by rewrite (value_at_mget r _ _ _ _ Hd), (value_at_mget r _ _ _ _ Hh).
Qed.
End Keys.

(** ** Lemmas: the in-process capper *)
Section InProcessLemmas.
Import InProcess.

(** [patch] under distinct campaign ids is a map. *)
Definition overwrite (fb r : CapResult) : CapResult :=
  if cp_campaign_id r =? cp_campaign_id fb then
    {| cp_campaign_id := cp_campaign_id r; cp_capped := cp_capped fb;
       cp_day_count := cp_day_count fb; cp_hour_count := cp_hour_count fb |}
  else r.

Lemma overwrite_id fb r : cp_campaign_id (overwrite fb r) = cp_campaign_id r.
Proof. unfold overwrite. by destruct (_ =? _). Qed.

Lemma patch_ids rs fb : cp_campaign_id <$> patch rs fb = cp_campaign_id <$> rs.
Proof.
  induction rs as [|r rs IH]; [done|]. cbn [patch].
  destruct (_ =? _); rewrite !fmap_cons; [done|]. by rewrite IH.
Qed.

Lemma patch_fmap rs fb : NoDup (cp_campaign_id <$> rs) -> patch rs fb = overwrite fb <$> rs.
Proof.
  induction rs as [|r rs IH]; [done|]. cbn [patch]. rewrite !fmap_cons. intros [Hr Hnd]%NoDup_cons.
  unfold overwrite at 1. destruct (cp_campaign_id r =? cp_campaign_id fb) eqn:E; [|by rewrite IH].
  f_equal. zbool. transitivity (id <$> rs); [by rewrite list_fmap_id|]. apply list_fmap_ext. intros i r' Hr'.
  unfold overwrite. destruct (cp_campaign_id r' =? cp_campaign_id fb) eqn:E'; [|done]. zbool.
  exfalso. apply Hr. rewrite E, <- E'. apply list_elem_of_fmap. exists r'. split; [done|].
  by apply list_elem_of_lookup_2 in Hr'.
Qed.

Lemma foldl_patch_ids fbs rs : cp_campaign_id <$> foldl patch rs fbs = cp_campaign_id <$> rs.
Proof. revert rs; induction fbs as [|fb fbs IH]; intros rs; simpl; [done|]. by rewrite IH, patch_ids. Qed.

Lemma foldl_patch_fmap fbs rs : NoDup (cp_campaign_id <$> rs) ->
  foldl patch rs fbs = (fun r => foldl (fun r fb => overwrite fb r) r fbs) <$> rs.
Proof.
  revert rs; induction fbs as [|fb fbs IH]; intros rs Hnd; cbn [foldl]; [by rewrite list_fmap_id|].
  rewrite IH by by rewrite patch_ids. rewrite patch_fmap by done. by rewrite <- list_fmap_compose.
Qed.

Lemma foldl_overwrite_other fbs r : cp_campaign_id r ∉ cp_campaign_id <$> fbs ->
  foldl (fun r fb => overwrite fb r) r fbs = r.
Proof.
  induction fbs as [|fb fbs IH]; cbn [foldl]; [done|]. rewrite fmap_cons. intros Hn.
  assert (overwrite fb r = r) as ->.
  { unfold overwrite. destruct (_ =? _) eqn:E; [|done]. zbool. set_solver. }
  apply IH. set_solver.
Qed.

Lemma foldl_overwrite_hit fbs r fb : NoDup (cp_campaign_id <$> fbs) -> fb ∈ fbs ->
  cp_campaign_id fb = cp_campaign_id r -> foldl (fun r fb => overwrite fb r) r fbs = fb.
Proof.
  revert r; induction fbs as [|fb' fbs IH]; intros r; cbn [foldl]; [by intros _ ?%elem_of_nil|].
  rewrite fmap_cons. intros [Hn Hnd]%NoDup_cons [->|Hin]%elem_of_cons Hid.
  - assert (overwrite fb' r = fb') as ->.
    { unfold overwrite. rewrite Hid, Z.eqb_refl. destruct fb'; simpl in *. by subst. }
    by apply foldl_overwrite_other.
  - rewrite IH; try done. by rewrite overwrite_id.
Qed.

Context {S E : Type} `{FrequencyCapperLaws S E}.
Context (breaker_of : S -> CircuitBreaker) (set_breaker : S -> CircuitBreaker -> S).
Context {U : Type} `{KVCacheLaws U Z (Z * Z)}.
Context {M : Type} `{KVCacheLaws M string U}.
Context {Ch : Type} `{MpscLaws Ch WriteBehindOp}.
Notation Capper := (InProcessFrequencyCapper S M Ch).

Definition no_verdict (c : AdCandidate) : CapResult :=
  {| cp_campaign_id := ac_campaign_id c; cp_capped := false; cp_day_count := None; cp_hour_count := None |}.

(** The verdict of a completed check for one candidate. *)
Definition verdict (s : Capper) (user : string) (out : FreqCapOutcome) (c : AdCandidate) : CapResult :=
  match lookup s user (ac_campaign_id c) with
  | Some (day, hour) =>
      {| cp_campaign_id := ac_campaign_id c; cp_capped := over_cap c day hour;
         cp_day_count := Some day; cp_hour_count := Some hour |}
  | None =>
      match out with
      | Checked fbs => unwrap_or (find_first (fun r => cp_campaign_id r =? ac_campaign_id c) fbs) (no_verdict c)
      | _ => no_verdict c
      end
  end.

Lemma first_pass_id (s : Capper) user c : cp_campaign_id (first_pass s user c) = ac_campaign_id c.
Proof. unfold first_pass. by destruct (lookup _ _ _) as [[d h]|]. Qed.

Lemma first_pass_ids (s : Capper) user (cands : list AdCandidate) :
  cp_campaign_id <$> (first_pass s user <$> cands) = ac_campaign_id <$> cands.
Proof. rewrite <- list_fmap_compose. apply list_fmap_ext. intros. apply first_pass_id. Qed.

(** Patching the first pass with aligned fallback results gives the verdicts. *)
Lemma patched_verdicts (s : Capper) user cands fbs :
  NoDup (ac_campaign_id <$> cands) ->
  cp_campaign_id <$> fbs = ac_campaign_id <$> filter (is_cold s user) cands ->
  foldl patch (first_pass s user <$> cands) fbs = verdict s user (Checked fbs) <$> cands.
Proof.
  intros Hnd Hal. rewrite foldl_patch_fmap by by rewrite first_pass_ids.
  rewrite <- list_fmap_compose. apply list_fmap_ext. intros i c Hi. apply list_elem_of_lookup_2 in Hi.
  simpl. unfold verdict. destruct (lookup s user (ac_campaign_id c)) as [[d h]|] eqn:El.
  - rewrite foldl_overwrite_other; [unfold first_pass; by rewrite El|].
    rewrite first_pass_id, Hal. intros (c' & Hc & Hin)%list_elem_of_fmap.
    apply list_elem_of_filter in Hin as [Hcold _]. unfold is_cold in Hcold. rewrite <- Hc in Hcold. congruence.
  - assert (ac_campaign_id c ∈ cp_campaign_id <$> fbs) as (fb & Hid & Hin)%list_elem_of_fmap.
    { rewrite Hal. apply list_elem_of_fmap. exists c. split; [done|]. by apply list_elem_of_filter. }
    destruct (find_first_is_Some (fun r => cp_campaign_id r =? ac_campaign_id c) fbs fb Hin) as [fb' Hf]; [lia|].
    rewrite Hf. apply find_first_Some in Hf as [Hin' Heq]. simpl.
    apply foldl_overwrite_hit; [|done|rewrite first_pass_id; zlia].
    rewrite Hal. by apply NoDup_fmap_filter.
Qed.

Lemma lookup_put_user (s : Capper) (user user' : string) (um : U) c (f : S) (tx : Ch) :
  lookup {| ip_fallback := f; ip_counters := kv_put (ip_counters s) user um; ip_write_tx := tx |} user' c =
  if decide (user = user') then kv_get um c else lookup s user' c.
Proof.
  unfold lookup; simpl. case_decide; subst.
  - by rewrite kv_get_put_same.
  - by rewrite kv_get_put_other.
Qed.

Lemma user_map_get (s : Capper) user c : kv_get (user_map s user) c = lookup s user c.
Proof.
  unfold user_map, lookup. destruct (kv_get (ip_counters s) user); simpl; [done|]. apply kv_get_empty.
Qed.

(** The listener queues one pair of operations per campaign of the user. *)
Lemma evict_items (s : Capper) user um :
  kv_get (ip_counters s) user = Some um ->
  (length (chan_items (ip_write_tx s)) + 2 * length (kv_entries um) <= chan_capacity (ip_write_tx s))%nat ->
  chan_items (ip_write_tx (evict s user)) =
  chan_items (ip_write_tx s) ++ ((kv_entries um).*1 ≫= fun c => [op user c Day; op user c Hour]).
Proof.
  intros Hum. unfold evict. rewrite Hum. simpl. generalize (ip_write_tx s) as tx.
  induction (kv_entries um) as [|[c p] l IH]; intros tx Hlen; simpl in *; [by rewrite app_nil_r|].
  destruct (chan_push_items tx (op user c Day)) as (Hi1 & Hc1 & Hb1).
  set (tx1 := (chan_push tx (op user c Day)).2) in *.
  destruct (chan_push_items tx1 (op user c Hour)) as (Hi2 & Hc2 & Hb2).
  rewrite (proj2 Hb1) in Hi1 by lia. rewrite Hi1, Hc1, length_app in Hb2. simpl in Hb2.
  rewrite (proj2 Hb2) in Hi2 by lia. rewrite Hi1 in Hi2. rewrite IH.
  - rewrite Hi2, <- !app_assoc. done.
  - rewrite Hi2, Hc2, Hc1, !length_app. simpl. lia.
Qed.
End InProcessLemmas.

(** The verdicts of a completed check. *)
Lemma check_verdicts {S E U M Ch} `{FrequencyCapperLaws S E} `{KVCacheLaws U Z (Z * Z)}
    `{KVCacheLaws M string U} `{MpscLaws Ch InProcess.WriteBehindOp}
    (breaker_of : S -> CircuitBreaker) (set_breaker : S -> CircuitBreaker -> S)
    (s s' : InProcess.InProcessFrequencyCapper S M Ch) (user : string) (cands : list AdCandidate)
    (dt hour : Z) (env : InProcess.Env E) (rs : list CapResult)
    (Hnd : NoDup (ac_campaign_id <$> cands))
    (Hchk : InProcess.check breaker_of set_breaker s user cands dt hour env = (Checked rs, s')) :
  let cb := (allow_request (breaker_of (InProcess.ip_fallback s))
               (InProcess.iev_now_read env) (InProcess.iev_now_write env)).2 in
  let cold := filter (InProcess.is_cold s user) cands in
  let out := (fc_check (set_breaker (InProcess.ip_fallback s) cb) user cold dt hour (InProcess.iev_fallback env)).1 in
  rs = verdict s user out <$> cands.
Proof.
  cbv zeta. unfold InProcess.check in Hchk. destruct (allow_request _ _ _) as [[] cb]; cbn [negb snd] in *; [|done].
  set (s1 := {| InProcess.ip_fallback := set_breaker (InProcess.ip_fallback s) cb; InProcess.ip_counters := _;
                InProcess.ip_write_tx := _ |}) in *.
  change (filter (InProcess.is_cold s1 user) cands) with (filter (InProcess.is_cold s user) cands) in Hchk.
  change (InProcess.first_pass s1 user <$> cands) with (InProcess.first_pass s user <$> cands) in Hchk.
  assert (forall c, c ∈ cands -> c ∉ filter (InProcess.is_cold s user) cands ->
    forall out, InProcess.first_pass s user c = verdict s user out c) as Hwarm.
  { intros c Hc Hn out. unfold InProcess.first_pass, verdict. destruct (InProcess.lookup _ _ _) as [[d h]|] eqn:El; [done|].
    exfalso. apply Hn. by apply list_elem_of_filter. }
  destruct (filter (InProcess.is_cold s user) cands) as [|c0 cold] eqn:Ec.
  - injection Hchk as <- _. apply list_fmap_ext. intros i c Hi. apply Hwarm; [by apply list_elem_of_lookup_2 in Hi|].
    set_solver.
  - rewrite <- Ec in *. cbn [InProcess.ip_fallback s1] in Hchk.
    destruct (fc_check _ user _ dt hour _) as [out fb] eqn:Ef. cbn [fst]. destruct out as [fbs| |].
    + injection Hchk as <- _. apply patched_verdicts; [done|]. by eapply fc_aligned.
    + injection Hchk as <- _. apply list_fmap_ext. intros i c _.
      unfold InProcess.first_pass, verdict. by destruct (InProcess.lookup _ _ _) as [[]|].
    + injection Hchk as <- _. apply list_fmap_ext. intros i c _.
      unfold InProcess.first_pass, verdict. by destruct (InProcess.lookup _ _ _) as [[]|].
Qed.

(** A check of the Redis capper while the probe slot is taken changes nothing. *)
Lemma redis_check_probe_out s user cands dt hour env :
  cands <> [] -> probe_out (RedisCapper.rs_breaker s) ->
  RedisCapper.check s user cands dt hour env = (SkippedTimeout, s).
Proof.
  intros Hc Hp. unfold RedisCapper.check. destruct cands as [|c cands]; [done|].
  rewrite allow_request_probe_out by done. simpl. by destruct s.
Qed.

(** The in-process capper over the Redis capper, sharing its breaker. *)
Definition share_breaker (s : RedisCapper.Shared) (cb : CircuitBreaker) : RedisCapper.Shared :=
  {| RedisCapper.rs_breaker := cb; RedisCapper.rs_hedge := RedisCapper.rs_hedge s;
     RedisCapper.rs_latency := RedisCapper.rs_latency s; RedisCapper.rs_timeout_ms := RedisCapper.rs_timeout_ms s |}.

Section OverRedis.
Import InProcess.
Context {U : Type} `{KVCache U Z (Z * Z)} {M : Type} `{KVCache M string U} {Ch : Type} `{Mpsc Ch WriteBehindOp}.
Notation Capper := (InProcessFrequencyCapper RedisCapper.Shared M Ch).

Definition check_over_redis (s : Capper) (user : string) (cands : list AdCandidate) (dt hour : Z)
    (env : InProcess.Env RedisCapper.Env) : FreqCapOutcome * Capper :=
  InProcess.check RedisCapper.rs_breaker share_breaker s user cands dt hour env.

Lemma check_over_redis_probe_out (s : Capper) user cands dt hour env :
  probe_out (RedisCapper.rs_breaker (ip_fallback s)) ->
  check_over_redis s user cands dt hour env = (SkippedTimeout, s).
Proof.
  intros Hp. unfold check_over_redis, InProcess.check. rewrite allow_request_probe_out by done. simpl.
  by destruct s as [[] ? ?].
Qed.

(** A check that claims the probe leaves it claimed: the fallback call it makes
    is refused by the breaker it shares. *)
Lemma check_over_redis_claims (s : Capper) user cands dt hour env cb :
  allow_request (RedisCapper.rs_breaker (ip_fallback s)) (iev_now_read env) (iev_now_write env) = (true, cb) ->
  probe_out cb ->
  RedisCapper.rs_breaker (ip_fallback (check_over_redis s user cands dt hour env).2) = cb.
Proof.
  intros Ha Hp. unfold check_over_redis, InProcess.check. rewrite Ha. cbn [negb].
  destruct (filter _ cands) as [|c cold] eqn:Ec; [done|]. cbn [fc_check RedisCapper.redis_capper].
  rewrite redis_check_probe_out; done.
Qed.
End OverRedis.

(** Draining one pair of operations per campaign records one event per campaign. *)
Lemma drain_pairs {Rc V} `{MpscLaws Rc RedisCapper.ImpressionEvent} (user : string) (l : list (Z * V)) (recorder : Rc) :
  (length (chan_items recorder) + length l <= chan_capacity recorder)%nat ->
  exists es,
    chan_items (in_process_write_behind_drain
      (l.*1 ≫= fun c => [InProcess.op user c Day; InProcess.op user c Hour]) recorder) = chan_items recorder ++ es /\
    RedisCapper.im_campaign_id <$> es = l.*1 /\ Forall (fun e => RedisCapper.im_user_id e = user) es.
Proof.
  revert recorder; induction l as [|[c p] l IH]; intros recorder Hrec; simpl in Hrec.
  { exists []. by rewrite app_nil_r. }
  set (e0 := {| RedisCapper.im_user_id := user; RedisCapper.im_campaign_id := c; RedisCapper.im_creative_id := 0;
                RedisCapper.im_device_type := 0; RedisCapper.im_hour_of_day := 0 |}).
  destruct (chan_push_items recorder e0) as (Hi & Hc & Hb). rewrite (proj2 Hb) in Hi by lia.
  destruct (IH (chan_push recorder e0).2) as (es & Hes & Hids & Hus).
  { rewrite Hi, Hc, length_app. simpl. lia. }
  exists (e0 :: es). split_and!.
  - etransitivity; [exact Hes|]. rewrite Hi, <- app_assoc. done.
  - rewrite !fmap_cons, Hids. done.
  - by constructor.
Qed.

(** ** Properties *)


Definition sample_candidate (id : Z) : AdCandidate := {|
  ac_campaign_id := id; ac_creative_id := 1; ac_bid_price_cents := 100; ac_score := f32_of_Z 0;
  ac_daily_cap_imps := 10; ac_hourly_cap_imps := 2 |}.

Definition sample_shared : RedisCapper.Shared := {|
  RedisCapper.rs_breaker := CircuitBreaker_new (redis "redis"); RedisCapper.rs_hedge := HedgeBudget_new 10;
  RedisCapper.rs_latency := None; RedisCapper.rs_timeout_ms := 10 |}.

Definition sample_impression (user : string) (c : Z) : RedisCapper.ImpressionEvent := {|
  RedisCapper.im_user_id := user; RedisCapper.im_campaign_id := c; RedisCapper.im_creative_id := 1;
  RedisCapper.im_device_type := 2; RedisCapper.im_hour_of_day := 12 |}.

Definition sample_env (a : Attempt (Result (list (option Z)) string)) : RedisCapper.Env := {|
  RedisCapper.ev_now_read := 0; RedisCapper.ev_now_write := 0; RedisCapper.ev_readable := true;
  RedisCapper.ev_first _ := a; RedisCapper.ev_second _ := a; RedisCapper.ev_prefer_first := true;
  RedisCapper.ev_elapsed := from_millis 1; RedisCapper.ev_now_record := from_millis 1 |}.

(** Redis answers every read from a store, at a time. *)
Definition reading_env (r : gmap string (Z * option Instant)) (now : Instant) : RedisCapper.Env :=
  let answer keys := {| latency := Some (from_millis 1); value := Ok (redis_mget r now keys) |} in {|
  RedisCapper.ev_now_read := 0; RedisCapper.ev_now_write := 0; RedisCapper.ev_readable := true;
  RedisCapper.ev_first := answer; RedisCapper.ev_second := answer; RedisCapper.ev_prefer_first := true;
  RedisCapper.ev_elapsed := from_millis 1; RedisCapper.ev_now_record := from_millis 1 |}.


(** The in-process capper answers for each candidate it is asked about, in
    order: from its own counters when the pair is cached, otherwise with the
    verdict of the wrapped capper, and with "not capped" when the wrapped capper
    could not answer. *)
Theorem in_process_verdicts {S E U M Ch} `{FrequencyCapperLaws S E} `{KVCacheLaws U Z (Z * Z)}
    `{KVCacheLaws M string U} `{MpscLaws Ch InProcess.WriteBehindOp}
    (breaker_of : S -> CircuitBreaker) (set_breaker : S -> CircuitBreaker -> S)
    (s s' : InProcess.InProcessFrequencyCapper S M Ch) (user : string) (cands : list AdCandidate)
    (dt hour : Z) (env : InProcess.Env E) (rs : list CapResult)
    (Hnd : NoDup (ac_campaign_id <$> cands))
    (Hchk : InProcess.check breaker_of set_breaker s user cands dt hour env = (Checked rs, s')) :
  let cb := (allow_request (breaker_of (InProcess.ip_fallback s))
               (InProcess.iev_now_read env) (InProcess.iev_now_write env)).2 in
  let cold := filter (InProcess.is_cold s user) cands in
  let out := (fc_check (set_breaker (InProcess.ip_fallback s) cb) user cold dt hour (InProcess.iev_fallback env)).1 in
  rs = verdict s user out <$> cands.
Proof. by eapply check_verdicts. Qed.

Definition sample_in_process : InProcess.InProcessFrequencyCapper RedisCapper.Shared
    (gmap string (gmap Z (Z * Z))) (nat * list InProcess.WriteBehindOp) := {|
  InProcess.ip_fallback := sample_shared;
  InProcess.ip_counters := {[ "alice" := {[ 7 := (2, 2) ]} ]};
  InProcess.ip_write_tx := (100%nat, []) |}.

Lemma in_process_verdicts_witness :
  let cands := [sample_candidate 7; sample_candidate 8] in
  let env := {| InProcess.iev_now_read := 0; InProcess.iev_now_write := 0;
                InProcess.iev_fallback := sample_env {| latency := Some 1; value := Ok [Some 0; Some 0] |} |} in
  exists rs, (check_over_redis sample_in_process "alice" cands 2 12 env).1 = Checked rs /\
             cp_capped <$> rs = [true; false].
Proof.
  intros cands env.
  assert (exists rs s', check_over_redis sample_in_process "alice" cands 2 12 env = (Checked rs, s'))
    as (rs & s' & Hc) by (do 2 eexists; vm_compute; reflexivity).
  exists rs. split; [by rewrite Hc|].
  rewrite (in_process_verdicts RedisCapper.rs_breaker share_breaker sample_in_process s' "alice" cands 2 12 env rs);
    [vm_compute; reflexivity| |exact Hc].
  apply NoDup_ListNoDup. repeat constructor; simpl; lia.
Defined.

(** A check of the in-process capper is never the recovery probe it claims:
    when the shared breaker is open and due, the first check takes the half-open
    slot, its Redis fallback is refused by the same breaker, nothing records an
    outcome, and every later check of this capper is skipped, for ever. *)
Theorem in_process_probe_wedges {U M Ch} `{KVCache U Z (Z * Z)} `{KVCache M string U}
    `{Mpsc Ch InProcess.WriteBehindOp} (s : InProcess.InProcessFrequencyCapper RedisCapper.Shared M Ch)
    (user : string) (cands : list AdCandidate) (dt hour : Z) (env : InProcess.Env RedisCapper.Env) (t : Instant)
    (later : list (string * list AdCandidate * InProcess.Env RedisCapper.Env))
    (Hopen : state (inner (RedisCapper.rs_breaker (InProcess.ip_fallback s))) = Open)
    (Hat : opened_at (inner (RedisCapper.rs_breaker (InProcess.ip_fallback s))) = Some t)
    (Hpos : 0 <= open_duration (cfg (RedisCapper.rs_breaker (InProcess.ip_fallback s))))
    (Hdue : open_duration (cfg (RedisCapper.rs_breaker (InProcess.ip_fallback s))) <= InProcess.iev_now_read env - t)
    (Hclock : InProcess.iev_now_read env <= InProcess.iev_now_write env) :
  let s1 := (check_over_redis s user cands dt hour env).2 in
  fold_map (fun s '(u, cs, e) => let '(out, s') := check_over_redis s u cs dt hour e in (s', out)) s1 later
  = (s1, replicate (length later) SkippedTimeout).
Proof.
  intros s1.
  destruct (allow_request_open_elapsed _ _ _ _ Hopen Hat Hdue Hclock Hpos) as (cb & Ha & _ & _ & Hi).
  assert (probe_out cb) as Hp by (unfold probe_out; by rewrite Hi).
  assert (RedisCapper.rs_breaker (InProcess.ip_fallback s1) = cb) as Hs1 by by apply check_over_redis_claims.
  clearbody s1. induction later as [|[[u cs] e] later IH]; simpl; [done|].
  rewrite check_over_redis_probe_out by by rewrite Hs1. by rewrite IH.
Qed.

Lemma in_process_probe_wedges_witness :
  let cb := {| cfg := redis "redis"; window := Window_new;
               inner := {| state := Open; opened_at := Some 0; half_open_probe_in_flight := false |} |} in
  let s := {| InProcess.ip_fallback := share_breaker sample_shared cb;
              InProcess.ip_counters := (∅ : gmap string (gmap Z (Z * Z)));
              InProcess.ip_write_tx := (100%nat, []) : nat * list InProcess.WriteBehindOp |} in
  let env t := {| InProcess.iev_now_read := t; InProcess.iev_now_write := t;
                  InProcess.iev_fallback := sample_env {| latency := Some 1; value := Ok [Some 0; Some 0] |} |} in
  let cands := [sample_candidate 7] in
  let s1 := (check_over_redis s "alice" cands 2 12 (env (from_secs 60))).2 in
  (fold_map (fun s '(u, cs, e) => let '(out, s') := check_over_redis s u cs 2 12 e in (s', out)) s1
     [("bob"%string, cands, env (from_secs 3600)); ("carol"%string, cands, env (from_secs 86400))]).2
  = [SkippedTimeout; SkippedTimeout].
Proof.
  intros cb s env cands s1.
  unfold s1. rewrite (in_process_probe_wedges s "alice" cands 2 12 (env (from_secs 60)) 0);
    [reflexivity|reflexivity|reflexivity|vm_compute; congruence..].
Defined.

(** [C7] An eviction is booked as impressions: when moka drops a user (one hour
    after the entry was created, or under pressure) and the queues have room, the
    drain forwards one impression event for each campaign in the user's map,
    whatever the counters say, so a campaign that was only looked up gains an
    impression in Redis and one with several unflushed impressions gains one. *)
Theorem eviction_books_one_impression_per_campaign {S U M Ch Rc}
    `{KVCacheLaws U Z (Z * Z)} `{KVCacheLaws M string U}
    `{MpscLaws Ch InProcess.WriteBehindOp} `{MpscLaws Rc RedisCapper.ImpressionEvent}
    (s : InProcess.InProcessFrequencyCapper S M Ch) (user : string) (um : U) (recorder : Rc)
    (Hum : kv_get (InProcess.ip_counters s) user = Some um)
    (Hqueue : chan_items (InProcess.ip_write_tx s) = [])
    (Hroom : (2 * length (kv_entries um) <= chan_capacity (InProcess.ip_write_tx s))%nat)
    (Hrec : (length (chan_items recorder) + length (kv_entries um) <= chan_capacity recorder)%nat) :
  let s1 := InProcess.evict s user in
  let recorder1 := in_process_write_behind_drain (chan_items (InProcess.ip_write_tx s1)) recorder in
  kv_get (InProcess.ip_counters s1) user = None /\
  exists es, chan_items recorder1 = chan_items recorder ++ es /\
    RedisCapper.im_campaign_id <$> es = (kv_entries um).*1 /\
    Forall (fun e => RedisCapper.im_user_id e = user) es.
Proof.
  cbv zeta. split.
  { unfold InProcess.evict. rewrite Hum. simpl. apply kv_get_del_same. }
  rewrite (evict_items s user um) by (done || rewrite Hqueue; simpl; lia).
  rewrite Hqueue. by apply drain_pairs.
Qed.

Lemma eviction_books_one_impression_per_campaign_witness :
  let recorder : nat * list RedisCapper.ImpressionEvent := (100%nat, []) in
  let s1 := InProcess.evict sample_in_process "alice" in
  exists es, chan_items (in_process_write_behind_drain (chan_items (InProcess.ip_write_tx s1)) recorder) = es /\
             RedisCapper.im_campaign_id <$> es = [7].
Proof.
  intros recorder s1.
  destruct (eviction_books_one_impression_per_campaign sample_in_process "alice" {[ 7 := (2, 2) ]} recorder)
    as (_ & es & Hes & Hids & _); [reflexivity|reflexivity|vm_decide|vm_decide|].
  exists es. split; [exact Hes|]. rewrite Hids. reflexivity.
Defined.

(** Recording an impression raises exactly the counters of its pair by one
    in both windows, leaves every other pair as it was, queues the two
    write-behind operations when there is room for them and reports whether both
    were queued. *)
Theorem record_impression_spec {S U M Ch} `{KVCacheLaws U Z (Z * Z)} `{KVCacheLaws M string U}
    `{MpscLaws Ch InProcess.WriteBehindOp}
    (s : InProcess.InProcessFrequencyCapper S M Ch) (user : string) (c : Z) :
  let '(ok, s') := InProcess.record_impression s user c in
  (forall user' c', InProcess.lookup s' user' c' =
     if decide (user' = user /\ c' = c)
     then Some (let '(d, h) := unwrap_or (InProcess.lookup s user c) (0, 0) in (InProcess.incr d, InProcess.incr h))
     else InProcess.lookup s user' c') /\
  (ok = true <-> (length (chan_items (InProcess.ip_write_tx s)) + 2 <= chan_capacity (InProcess.ip_write_tx s))%nat) /\
  (ok = true -> chan_items (InProcess.ip_write_tx s') =
     chan_items (InProcess.ip_write_tx s) ++ [InProcess.op user c Day; InProcess.op user c Hour]).
Proof.
  unfold InProcess.record_impression. rewrite user_map_get.
  destruct (unwrap_or (InProcess.lookup s user c) (0, 0)) as [d h] eqn:El.
  destruct (chan_push_items (InProcess.ip_write_tx s) (InProcess.op user c Day)) as (Hi1 & Hc1 & Hb1).
  destruct (chan_push _ _) as [ok1 tx1]; simpl in *.
  destruct (chan_push_items tx1 (InProcess.op user c Hour)) as (Hi2 & Hc2 & Hb2).
  destruct (chan_push _ _) as [ok2 tx2]; simpl in *. split; [|split].
  - intros user' c'. rewrite lookup_put_user. destruct (decide (user = user')) as [<-|Hu].
    + destruct (decide (c' = c)) as [->|Hc].
      * rewrite decide_True by done. by rewrite kv_get_put_same.
      * rewrite decide_False by tauto. rewrite kv_get_put_other by done. apply user_map_get.
    + rewrite decide_False; [done|]. intros [-> _]. done.
  - rewrite Hi1, Hc1 in Hb2. rewrite andb_true_iff, Hb1, Hb2, length_app. destruct ok1; simpl; [lia|].
    split; [|intros ?; assert (false = true) by (apply Hb1; lia); done]. intros [? ?]. assert (false = true) by (by apply Hb1). done.
  - intros [-> ->]%andb_true_iff. rewrite Hi2, Hi1, <- app_assoc. done.
Qed.

Lemma record_impression_spec_witness :
  InProcess.lookup (InProcess.record_impression sample_in_process "alice" 7).2 "alice" 7 = Some (3, 3).
Proof.
  pose proof (record_impression_spec sample_in_process "alice" 7) as Hr.
  destruct (InProcess.record_impression sample_in_process "alice" 7) as [ok s'].
  destruct Hr as (Hl & _). simpl. rewrite Hl. reflexivity.
Defined.
