(* ===== verification/Counters.v ===== *)
(** * Concurrent counters of the in-process capper

    [InProcessFrequencyCapper] of [bidder-core/src/frequency/in_process.rs] with any
    number of its operations under way at once: recording an impression, warming a
    pair after a Redis read, looking a pair up, and moka dropping a user.  The
    objects are shared by address, as the [Arc]s share them: the cache holds a map
    per user, a map holds two counters per campaign, and a thread that fetched a map
    or a counter keeps using it whatever the cache does.  Each operation of the
    cache, of a map and of an atomic counter is a step; [DashMap]'s shards are locked
    as its documentation says: a thread that holds a reference into a shard keeps
    writers out, and everyone out if it may write. *)
From S2P Require Import Prelude Externals Frequency.

(** ** Threads *)

(** [record_impression], [warm_cache], [lookup], and the removal of a user with the
    eviction listener's run. *)
Inductive Op :=
| RecordImpression (user_id : string) (campaign_id : Z)
| WarmCache (user_id : string) (campaign_id day hour : Z)
| Lookup (user_id : string) (campaign_id : Z)
| Evict (user_id : string).

(** What a thread holds: the address of the user's map [m], of the day counter [d]
    and of the hour counter [h], and the guard of a shard in the phases [wlock] and
    [rlock] name. *)
Inductive Phase :=
| Start                                         (** at [self.counters] *)
| HasMap (m : nat)                              (** at [entry], or [get], of the map *)
| IncrDay (m d h : nat)                         (** [record_impression], from here *)
| IncrHour (m d h : nat)
| SendDay (m d h : nat)
| SendHour (m d h : nat) (day_ok : bool)
| Recorded (m d h : nat) (ok : bool)
| LoadDay (m d h : nat)                         (** [warm_cache], from here *)
| StoreDay (m d h : nat)
| LoadHour (m d h : nat)
| StoreHour (m d h : nat)
| Warmed (m d h : nat)
| ReadDay (m d h : nat)                         (** [lookup], from here *)
| ReadHour (m d h : nat) (day : Z)
| Found (found : option (Z * Z))
| Removed (m : nat)                             (** the eviction listener, from here *)
| FlushDay (m k : nat) (todo : list Z)          (** the campaigns of shard [k] still to visit *)
| FlushHour (m k : nat) (c : Z) (todo : list Z)
| Evicted.

(** [th_day_raced], [th_hour_raced]: the increment was made while another thread was
    between the load and the store of [warm_cache] on the same counter.  Nothing reads
    the two marks. *)
Record Thread := { th_op : Op; th_phase : Phase; th_day_raced : bool; th_hour_raced : bool }.
#[global] Instance Op_eq_dec : EqDecision Op.
Proof. solve_decision. Defined.
#[global] Instance Phase_eq_dec : EqDecision Phase.
Proof. solve_decision. Defined.
#[global] Instance Thread_eq_dec : EqDecision Thread.
Proof. solve_decision. Defined.
Definition goto (t : Thread) (ph : Phase) : Thread :=
  {| th_op := th_op t; th_phase := ph; th_day_raced := th_day_raced t; th_hour_raced := th_hour_raced t |}.
Definition spawned (o : Op) : Thread :=
  {| th_op := o; th_phase := Start; th_day_raced := false; th_hour_raced := false |}.

Definition campaign (o : Op) : Z :=
  match o with RecordImpression _ c | WarmCache _ c _ _ | Lookup _ c => c | Evict _ => 0 end.
Definition user_of (o : Op) : string :=
  match o with RecordImpression u _ | WarmCache u _ _ _ | Lookup u _ | Evict u => u end.

Definition finished (t : Thread) : bool :=
  match th_phase t with Recorded _ _ _ _ | Warmed _ _ _ | Found _ | Evicted => true | _ => false end.

(** The counter a thread is about to store into, and the value. *)
Definition storing (t : Thread) : option (nat * Z) :=
  match th_phase t, th_op t with
  | StoreDay _ d _, WarmCache _ _ day _ => Some (d, day)
  | StoreHour _ _ h, WarmCache _ _ _ hour => Some (h, hour)
  | _, _ => None
  end.
Definition window_open (ts : list Thread) (a : nat) : bool :=
  existsb (fun t => bool_decide (fst <$> storing t = Some a)) ts.

Section Counters.
Context {M : Type} `{KVCache M string nat}.
Context {U : Type} `{KVCache U Z (nat * nat)}.
Context {Ch : Type} `{Mpsc Ch InProcess.WriteBehindOp}.
(** The shards of a [DashMap] and the one a campaign is in. *)
Context (shards : nat) (shard : Z -> nat).

(** ** Shared objects *)

Record Store := {
  st_users : M;             (** [counters] *)
  st_maps : list U;         (** every [UserCapMap] made, by address *)
  st_counters : list Z;     (** every [AtomicCounter] made, by address *)
  st_tx : Ch;
}.
Definition set_users (s : Store) (v : M) : Store :=
  {| st_users := v; st_maps := st_maps s; st_counters := st_counters s; st_tx := st_tx s |}.
Definition set_maps (s : Store) (v : list U) : Store :=
  {| st_users := st_users s; st_maps := v; st_counters := st_counters s; st_tx := st_tx s |}.
Definition set_counters (s : Store) (v : list Z) : Store :=
  {| st_users := st_users s; st_maps := st_maps s; st_counters := v; st_tx := st_tx s |}.
Definition set_tx (s : Store) (v : Ch) : Store :=
  {| st_users := st_users s; st_maps := st_maps s; st_counters := st_counters s; st_tx := v |}.

Definition map_at (s : Store) (m : nat) : U := unwrap_or (st_maps s !! m) kv_empty.
Definition value_of (s : Store) (a : nat) : Z := unwrap_or (st_counters s !! a) 0.
Definition put_counter (s : Store) (a : nat) (v : Z) : Store := set_counters s (<[a := v]> (st_counters s)).

(** [counters.get_with_by_ref(user_id, || Arc::new(DashMap::new()))] *)
Definition get_map (s : Store) (user_id : string) : nat * Store :=
  match kv_get (st_users s) user_id with
  | Some m => (m, s)
  | None =>
      let m := length (st_maps s) in
      (m, set_maps (set_users s (kv_put (st_users s) user_id m)) (st_maps s ++ [kv_empty]))
  end.

(** [user_map.entry(campaign_id).or_insert_with(..)], with what a new pair starts at. *)
Definition get_pair (s : Store) (m : nat) (c day hour : Z) : nat * nat * Store :=
  match kv_get (map_at s m) c with
  | Some (d, h) => (d, h, s)
  | None =>
      let d := length (st_counters s) in
      (d, S d, set_counters (set_maps s (<[m := kv_put (map_at s m) c (d, S d)]> (st_maps s)))
                 (st_counters s ++ [day; hour]))
  end.

Definition push (s : Store) (o : InProcess.WriteBehindOp) : bool * Store :=
  let '(ok, tx) := chan_push (st_tx s) o in (ok, set_tx s tx).

(** ** Guards *)

(** The shard a thread may write; the shard it holds a reference into. *)
Definition wlock (t : Thread) : option (nat * nat) :=
  match th_phase t with
  | LoadDay m _ _ | StoreDay m _ _ | LoadHour m _ _ | StoreHour m _ _ => Some (m, shard (campaign (th_op t)))
  | _ => None
  end.
Definition rlock (t : Thread) : option (nat * nat) :=
  match th_phase t with
  | ReadDay m _ _ | ReadHour m _ _ _ => Some (m, shard (campaign (th_op t)))
  | FlushDay m k _ | FlushHour m k _ _ => Some (m, k)
  | _ => None
  end.

Definition readable (ts : list Thread) (m k : nat) : bool :=
  forallb (fun t => bool_decide (wlock t <> Some (m, k))) ts.
Definition writable (ts : list Thread) (m k : nat) : bool :=
  readable ts m k && forallb (fun t => bool_decide (rlock t <> Some (m, k))) ts.

(** ** Steps *)

(** The campaigns of a shard, in the order of an iteration. *)
Definition shard_keys (s : Store) (m k : nat) : list Z :=
  filter (fun c => shard c = k) (kv_entries (map_at s m)).*1.

(** The next step of a thread among the others [ts]; it stays where it is while a
    shard it needs is held. *)
Definition advance (ts : list Thread) (t : Thread) (s : Store) : Thread * Store :=
  let u := user_of (th_op t) in
  let c := campaign (th_op t) in
  match th_phase t, th_op t with
  | Start, (RecordImpression _ _ | WarmCache _ _ _ _) => let '(m, s) := get_map s u in (goto t (HasMap m), s)
  | Start, Lookup _ _ =>
      match kv_get (st_users s) u with Some m => (goto t (HasMap m), s) | None => (goto t (Found None), s) end
  | Start, Evict _ =>
      match kv_get (st_users s) u with
      | Some m => (goto t (Removed m), set_users s (kv_del (st_users s) u))
      | None => (goto t Evicted, s)
      end
  | HasMap m, RecordImpression _ _ =>
      if writable ts m (shard c) then let '(d, h, s) := get_pair s m c 0 0 in (goto t (IncrDay m d h), s) else (t, s)
  | HasMap m, WarmCache _ _ day hour =>
      if writable ts m (shard c) then let '(d, h, s) := get_pair s m c day hour in (goto t (LoadDay m d h), s) else (t, s)
  | HasMap m, Lookup _ _ =>
      if readable ts m (shard c) then
        match kv_get (map_at s m) c with Some (d, h) => (goto t (ReadDay m d h), s) | None => (goto t (Found None), s) end
      else (t, s)
  | IncrDay m d h, _ =>
      ({| th_op := th_op t; th_phase := IncrHour m d h; th_day_raced := window_open ts d; th_hour_raced := th_hour_raced t |},
       put_counter s d (InProcess.incr (value_of s d)))
  | IncrHour m d h, _ =>
      ({| th_op := th_op t; th_phase := SendDay m d h; th_day_raced := th_day_raced t; th_hour_raced := window_open ts h |},
       put_counter s h (InProcess.incr (value_of s h)))
  | SendDay m d h, _ => let '(ok, s) := push s (InProcess.op u c Day) in (goto t (SendHour m d h ok), s)
  | SendHour m d h day_ok, _ =>
      let '(ok, s) := push s (InProcess.op u c Hour) in (goto t (Recorded m d h (day_ok && ok)), s)
  | LoadDay m d h, WarmCache _ _ day _ =>
      (goto t (if value_of s d <? day then StoreDay m d h else LoadHour m d h), s)
  | StoreDay m d h, WarmCache _ _ day _ => (goto t (LoadHour m d h), put_counter s d day)
  | LoadHour m d h, WarmCache _ _ _ hour =>
      (goto t (if value_of s h <? hour then StoreHour m d h else Warmed m d h), s)
  | StoreHour m d h, WarmCache _ _ _ hour => (goto t (Warmed m d h), put_counter s h hour)
  | ReadDay m d h, _ => (goto t (ReadHour m d h (value_of s d)), s)
  | ReadHour m d h day, _ => (goto t (Found (Some (day, value_of s h))), s)
  | Removed m, _ =>
      if decide (shards = 0)%nat then (goto t Evicted, s)
      else if readable ts m 0 then (goto t (FlushDay m 0 (shard_keys s m 0)), s) else (t, s)
  | FlushDay m k (c :: todo), _ => (goto t (FlushHour m k c todo), (push s (InProcess.op u c Day)).2)
  | FlushHour m k c todo, _ => (goto t (FlushDay m k todo), (push s (InProcess.op u c Hour)).2)
  | FlushDay m k [], _ =>
      if decide (shards <= S k)%nat then (goto t Evicted, s)
      else if readable ts m (S k) then (goto t (FlushDay m (S k) (shard_keys s m (S k))), s) else (t, s)
  | _, _ => (t, s)
  end.

Record Sys := { sy_store : Store; sy_threads : list Thread }.

(** [Receive]: the drain task takes an operation off the queue. *)
Inductive Action := Spawn (o : Op) | Advance (j : nat) | Receive.

Definition step (y : Sys) (a : Action) : Sys :=
  match a with
  | Spawn o => {| sy_store := sy_store y; sy_threads := sy_threads y ++ [spawned o] |}
  | Advance j =>
      match sy_threads y !! j with
      | Some t => let '(t, s) := advance (sy_threads y) t (sy_store y) in
                  {| sy_store := s; sy_threads := <[j := t]> (sy_threads y) |}
      | None => y
      end
  | Receive =>
      match chan_try_recv (st_tx (sy_store y)) with
      | Some (_, tx) => {| sy_store := set_tx (sy_store y) tx; sy_threads := sy_threads y |}
      | None => y
      end
  end.
Definition run : Sys -> list Action -> Sys := foldl step.

Definition boot (buffer : nat) : Sys := {|
  sy_store := {| st_users := kv_empty; st_maps := []; st_counters := []; st_tx := chan_new buffer |};
  sy_threads := [] |}.

(** ** What a thread has contributed *)

(** The pair of counters a thread is at. *)
Definition pair_of (ph : Phase) : option (nat * nat * nat) :=
  match ph with
  | IncrDay m d h | IncrHour m d h | SendDay m d h | SendHour m d h _ | Recorded m d h _
  | LoadDay m d h | StoreDay m d h | LoadHour m d h | StoreHour m d h | Warmed m d h
  | ReadDay m d h | ReadHour m d h _ => Some (m, d, h)
  | _ => None
  end.
Definition map_of (ph : Phase) : option nat :=
  match ph with
  | HasMap m | Removed m | FlushDay m _ _ | FlushHour m _ _ _ => Some m
  | _ => (fun '(m, _, _) => m) <$> pair_of ph
  end.

Definition one (b : bool) (a a' : nat) : Z := if b && bool_decide (a = a') then 1 else 0.
(** Its increments of counter [a], all of them or those not [raced]. *)
Definition counts (day hour : bool) (t : Thread) (a : nat) : Z :=
  match th_phase t with
  | IncrHour _ d _ => one day d a
  | SendDay _ d h | SendHour _ d h _ | Recorded _ d h _ => one day d a + one hour h a
  | _ => 0
  end.
Definition counted (t : Thread) (a : nat) : Z := counts true true t a.
Definition unraced (t : Thread) (a : nat) : Z := counts (negb (th_day_raced t)) (negb (th_hour_raced t)) t a.

(** What [warm_cache] has seen to be in the counters. *)
Definition settled (t : Thread) : list (nat * Z) :=
  match th_phase t, th_op t with
  | (LoadHour _ d _ | StoreHour _ d _), WarmCache _ _ day _ => [(d, day)]
  | Warmed _ d h, WarmCache _ _ day hour => [(d, day); (h, hour)]
  | _, _ => []
  end.
End Counters.
Arguments Store : clear implicits.
Arguments Sys : clear implicits.

(** ** Invariants *)
Section Invariants.
Context {M : Type} `{KVCacheLaws M string nat}.
Context {U : Type} `{KVCacheLaws U Z (nat * nat)}.
Context {Ch : Type} `{MpscLaws Ch InProcess.WriteBehindOp}.
Context (shards : nat) (shard : Z -> nat).
Implicit Types (s : Store M U Ch) (y : Sys M U Ch) (t : Thread) (ts : list Thread).

(** The pair a map holds for a campaign. *)
Definition holds s (m : nat) (c : Z) (d h : nat) : Prop := kv_get (map_at s m) c = Some (d, h).

(** Counters are made in pairs, and no two campaigns of any maps share one; a map has
    one user. *)
Record store_ok s : Prop := {
  so_even : Nat.Even (length (st_counters s));
  so_pair m c d h : holds s m c d h -> Nat.Even d /\ h = S d /\ (h < length (st_counters s))%nat;
  so_apart m c d h m' c' h' : holds s m c d h -> holds s m' c' d h' -> m = m' /\ c = c';
  so_users u m : kv_get (st_users s) u = Some m -> (m < length (st_maps s))%nat;
  so_owner u u' m : kv_get (st_users s) u = Some m -> kv_get (st_users s) u' = Some m -> u = u';
}.

(** The phases an operation goes through. *)
Definition phase_fits (o : Op) (ph : Phase) : Prop :=
  match ph, o with
  | Start, _ => True
  | HasMap _, Evict _ => False
  | HasMap _, _ => True
  | (IncrDay _ _ _ | IncrHour _ _ _ | SendDay _ _ _ | SendHour _ _ _ _ | Recorded _ _ _ _), RecordImpression _ _ => True
  | (LoadDay _ _ _ | StoreDay _ _ _ | LoadHour _ _ _ | StoreHour _ _ _ | Warmed _ _ _), WarmCache _ _ _ _ => True
  | (ReadDay _ _ _ | ReadHour _ _ _ _ | Found _), Lookup _ _ => True
  | (Removed _ | FlushDay _ _ _ | FlushHour _ _ _ _ | Evicted), Evict _ => True
  | _, _ => False
  end.

Record thread_ok s t : Prop := {
  to_fits : phase_fits (th_op t) (th_phase t);
  to_map m : map_of (th_phase t) = Some m -> (m < length (st_maps s))%nat;
  to_pair m d h : pair_of (th_phase t) = Some (m, d, h) -> holds s m (campaign (th_op t)) d h;
}.

(** Objects are never taken away. *)
Record grows s s' : Prop := {
  gr_maps : (length (st_maps s) <= length (st_maps s'))%nat;
  gr_pairs m c d h : holds s m c d h -> holds s' m c d h;
}.

Lemma grows_refl s : grows s s.
Proof. done. Qed.
Lemma thread_ok_grows s s' t : grows s s' -> thread_ok s t -> thread_ok s' t.
Proof. intros [Hm Hp] [Hf Hmap Hpair]. split; [done| |by eauto]. intros m Hs. apply Hmap in Hs. lia. Qed.

(** Maps and the users' table do not change when a counter or the queue does. *)
Lemma same_objects s s' : st_users s' = st_users s -> st_maps s' = st_maps s ->
  length (st_counters s') = length (st_counters s) -> store_ok s -> grows s s' /\ store_ok s'.
Proof.
  intros Hu Hm Hc [He Hp Ha Hus Ho]. assert (forall m, map_at s' m = map_at s m) as Hat by (unfold map_at; by rewrite Hm).
  split; [split; [by rewrite Hm|unfold holds; intros; by rewrite Hat]|].
  split; unfold holds in *; rewrite ?Hu, ?Hm, ?Hc; try done; intros *; rewrite ?Hat; eauto.
Qed.

Lemma put_counter_ok s a v : store_ok s -> grows s (put_counter s a v) /\ store_ok (put_counter s a v).
Proof. apply same_objects; [done..|]. apply length_insert. Qed.
Lemma push_ok s o : store_ok s -> grows s (push s o).2 /\ store_ok (push s o).2.
Proof. unfold push. destruct (chan_push _ _). by apply same_objects. Qed.
Lemma remove_ok s u : store_ok s ->
  grows s (set_users s (kv_del (st_users s) u)) /\ store_ok (set_users s (kv_del (st_users s) u)).
Proof.
  intros [He Hp Ha Hus Ho].
  assert (forall u' m, kv_get (kv_del (st_users s) u) u' = Some m -> kv_get (st_users s) u' = Some m) as Hd.
  { intros u' m. destruct (decide (u = u')) as [<-|]; [by rewrite kv_get_del_same|by rewrite kv_get_del_other]. }
  split; [done|]. split; cbn; eauto.
Qed.

Lemma map_at_app s (l : list U) m : (m < length (st_maps s))%nat -> map_at (set_maps s (st_maps s ++ l)) m = map_at s m.
Proof. intros Hm. unfold map_at. cbn. by rewrite lookup_app_l. Qed.

Lemma map_at_out s m : (length (st_maps s) <= m)%nat -> map_at s m = kv_empty.
Proof. intros Hm. unfold map_at. by rewrite lookup_ge_None_2. Qed.

Lemma map_at_fresh s m : map_at (set_maps s (st_maps s ++ [kv_empty])) m = map_at s m.
Proof.
  destruct (decide (m < length (st_maps s))%nat) as [Hm|Hm]; [by apply map_at_app|].
  rewrite (map_at_out s) by lia. unfold map_at. cbn. rewrite lookup_app_r by lia.
  by destruct (m - length (st_maps s))%nat as [|[]].
Qed.

Lemma get_map_ok s u : store_ok s -> let '(m, s') := get_map s u in
  grows s s' /\ store_ok s' /\ (m < length (st_maps s'))%nat /\ kv_get (st_users s') u = Some m /\
  (forall u', u' <> u -> kv_get (st_users s') u' = kv_get (st_users s) u') /\
  (forall m', map_at s' m' = map_at s m') /\ st_counters s' = st_counters s /\ st_tx s' = st_tx s /\
  (kv_get (st_users s) u = None /\ map_at s m = kv_empty \/ kv_get (st_users s) u = Some m).
Proof.
  intros Hok. pose proof Hok as [He Hp Ha Hus Ho]. unfold get_map. destruct (kv_get (st_users s) u) as [m|] eqn:Eu.
  { split_and!; auto using grows_refl. by apply (Hus u). }
  set (s1 := set_users s _).
  assert (forall m', map_at (set_maps s1 (st_maps s ++ [kv_empty])) m' = map_at s m') as Hat by apply (map_at_fresh s1).
  assert (forall u' m, kv_get (kv_put (st_users s) u (length (st_maps s))) u' = Some m ->
            u' = u /\ m = length (st_maps s) \/ u' <> u /\ kv_get (st_users s) u' = Some m) as Hput.
  { intros u' m. destruct (decide (u = u')) as [<-|]; [rewrite kv_get_put_same; naive_solver|].
    rewrite kv_get_put_other by done. auto. }
  split_and!; try done.
  - split; [cbn; rewrite length_app; cbn; lia|]. unfold holds. intros *. by rewrite Hat.
  - split; unfold holds in *; try done; try (intros *; rewrite ?Hat; eauto; fail).
    + intros u' m. cbn. rewrite length_app. cbn. intros [[_ ->]|[_ Hu]]%Hput; [lia|]. apply Hus in Hu. lia.
    + intros u1 u2 m. cbn. intros [[-> ->]|[_ Hg1]]%Hput [[-> ?]|[_ Hg2]]%Hput; try done; eauto.
      * apply Hus in Hg2. lia.
      * subst. apply Hus in Hg1. lia.
  - cbn. rewrite length_app. cbn. lia.
  - cbn. by rewrite kv_get_put_same.
  - intros u' Hne. cbn. by rewrite kv_get_put_other.
  - left. split; [done|]. by apply map_at_out.
Qed.

Lemma value_of_out s a : (length (st_counters s) <= a)%nat -> value_of s a = 0.
Proof. intros Ha. unfold value_of. by rewrite lookup_ge_None_2. Qed.

(** A new pair starts at [x], [z]; no counter that exists changes. *)
Lemma get_pair_ok s m c x z : store_ok s -> (m < length (st_maps s))%nat -> let '(d, h, s') := get_pair s m c x z in
  grows s s' /\ store_ok s' /\ holds s' m c d h /\ st_users s' = st_users s /\ st_tx s' = st_tx s /\
  (forall m' c', (m', c') <> (m, c) -> kv_get (map_at s' m') c' = kv_get (map_at s m') c') /\
  (forall a, value_of s' a = value_of s a \/ (length (st_counters s) <= a)%nat /\ (value_of s' a = x \/ value_of s' a = z)) /\
  (s' = s \/ kv_get (map_at s m) c = None /\ value_of s' d = x /\ value_of s' h = z /\
     forall a, (a < length (st_counters s))%nat -> value_of s' a = value_of s a).
Proof.
  intros Hok Hm. pose proof Hok as [He Hp Ha Hus Ho]. unfold get_pair.
  destruct (kv_get (map_at s m) c) as [[d h]|] eqn:Eg; [split_and!; auto using grows_refl|].
  set (n := length (st_counters s)). set (s' := set_counters _ _).
  assert (forall m' c', kv_get (map_at s' m') c' = if decide ((m', c') = (m, c)) then Some (n, S n) else kv_get (map_at s m') c') as Hget.
  { intros m' c'. unfold s', map_at. cbn. destruct (decide (m = m')) as [<-|Hne].
    - rewrite list_lookup_insert_eq by done. cbn. destruct (decide (c = c')) as [<-|Hc].
      + rewrite kv_get_put_same. by rewrite decide_True.
      + rewrite kv_get_put_other by done. rewrite decide_False by congruence. done.
    - rewrite list_lookup_insert_ne by done. rewrite decide_False by congruence. done. }
  assert (forall a, value_of s' a = if decide (a < n)%nat then value_of s a else if decide (a = n) then x
            else if decide (a = S n) then z else 0) as Hval.
  { intros a. unfold value_of, s', n. cbn. case_decide as Hl; [by rewrite lookup_app_l|].
    rewrite lookup_app_r by lia. repeat case_decide; subst.
    - by rewrite Nat.sub_diag.
    - by replace (S _ - _)%nat with 1%nat by lia.
    - rewrite lookup_ge_None_2; [done|]. cbn. lia. }
  assert (forall m' c' d h, holds s' m' c' d h ->
            (m', c') = (m, c) /\ d = n /\ h = S n \/ (m', c') <> (m, c) /\ holds s m' c' d h) as Hh.
  { intros m' c' d h. unfold holds. rewrite Hget. case_decide; [intros [= <- <-]; auto|auto]. }
  split_and!; try done.
  - split; [unfold s'; cbn; by rewrite length_insert|]. unfold holds. intros m' c' d h Hg. rewrite Hget. case_decide; congruence.
  - assert (length (st_counters s') = S (S n)) as Hlen by (unfold s'; cbn; rewrite length_app; cbn; lia).
    split; rewrite ?Hlen; try done.
    + destruct He as [k Hk]. exists (S k). fold n in Hk. lia.
    + intros m' c' d h [(_ & -> & ->)|[_ Hs]]%Hh; [split_and!; [exact He|done|lia]|].
      apply Hp in Hs as (? & ? & Hl). fold n in Hl. split_and!; [done..|lia].
    + intros m1 c1 d1 h1 m2 c2 h2 [([= -> ->] & -> & _)|[_ Hg1]]%Hh [([= -> ->] & Hd & _)|[_ Hg2]]%Hh; try done; eauto.
      * apply Hp in Hg2 as (_ & ? & Hl). fold n in Hl. lia.
      * apply Hp in Hg1 as (_ & ? & Hl). fold n in Hl. lia.
    + intros u m'. unfold s'. cbn. rewrite length_insert. apply Hus.
  - unfold holds. rewrite Hget. by rewrite decide_True.
  - intros m' c' Hne. rewrite Hget. by rewrite decide_False.
  - intros a. rewrite Hval. fold n. destruct (decide (a < n)%nat); [by left|]. case_decide; [right; split; [lia|by left]|].
    case_decide; [right; split; [lia|by right]|]. left. by rewrite value_of_out by (fold n; lia).
  - right. split_and!; [done| | |]; intros; rewrite Hval; repeat case_decide; try done; lia.
Qed.

(** ** One step *)

Definition incremented t : option nat :=
  match th_phase t with IncrDay _ d _ => Some d | IncrHour _ _ h => Some h | _ => None end.
(** What a new pair of the operation starts at. *)
Definition initial (o : Op) : Z * Z :=
  match o with WarmCache _ _ day hour => (day, hour) | _ => (0, 0) end.
(** The counters a thread has guarded. *)
Definition guarding t (a : nat) : Prop :=
  exists m d h, wlock shard t = Some (m, shard (campaign (th_op t))) /\ pair_of (th_phase t) = Some (m, d, h) /\ (a = d \/ a = h).

Record advanced ts t s t' s' : Prop := {
  ad_grows : grows s s';
  ad_store : store_ok s';
  ad_thread : thread_ok s' t';
  ad_op : th_op t' = th_op t;
  ad_wlock m k : wlock shard t' = Some (m, k) -> wlock shard t = Some (m, k) \/ writable shard ts m k = true;
  ad_rlock m k : rlock shard t' = Some (m, k) -> rlock shard t = Some (m, k) \/ readable shard ts m k = true;
  ad_counted a : counted t' a = counted t a + match incremented t with Some b => one true b a | None => 0 end;
  ad_unraced a : unraced t' a = unraced t a + match incremented t with Some b => one (negb (window_open ts b)) b a | None => 0 end;
  ad_value a :
    incremented t = Some a /\ value_of s' a = InProcess.incr (value_of s a) \/
    (exists v, storing t = Some (a, v) /\ value_of s' a = v) \/
    incremented t <> Some a /\ (forall v, storing t <> Some (a, v)) /\
      (value_of s' a = value_of s a \/
       (length (st_counters s) <= a)%nat /\ (value_of s' a = (initial (th_op t)).1 \/ value_of s' a = (initial (th_op t)).2));
  ad_storing a v : storing t' = Some (a, v) -> value_of s' a < v;
  ad_settled a v : (a, v) ∈ settled t' -> (a, v) ∈ settled t \/ v <= value_of s' a /\ guarding t a;
}.

(** The counters of a pair exist and are two. *)
Lemma holds_counters s m c d h : store_ok s -> holds s m c d h ->
  (d < length (st_counters s))%nat /\ (h < length (st_counters s))%nat /\ d <> h.
Proof. intros Hok Hh. apply (so_pair _ Hok) in Hh as (_ & -> & Hl). split_and!; lia. Qed.

Lemma value_put s a v b : (a < length (st_counters s))%nat ->
  value_of (put_counter s a v) b = if decide (a = b) then v else value_of s b.
Proof.
  intros Ha. unfold value_of, put_counter. cbn. case_decide as Hab; [subst; by rewrite list_lookup_insert_eq|].
  by rewrite list_lookup_insert_ne.
Qed.

Lemma value_push s o a : value_of (push s o).2 a = value_of s a.
Proof. unfold push. by destruct (chan_push _ _). Qed.

(** A step that moves a thread on and leaves the counters alone. *)
Lemma advanced_quiet ts t s ph s' : grows s s' -> store_ok s' -> thread_ok s' (goto t ph) ->
  (forall m k, wlock shard (goto t ph) = Some (m, k) -> wlock shard t = Some (m, k) \/ writable shard ts m k = true) ->
  (forall m k, rlock shard (goto t ph) = Some (m, k) -> rlock shard t = Some (m, k) \/ readable shard ts m k = true) ->
  (forall day hour a, counts day hour (goto t ph) a = counts day hour t a) ->
  incremented t = None -> storing t = None ->
  (forall a, value_of s' a = value_of s a \/
     (length (st_counters s) <= a)%nat /\ (value_of s' a = (initial (th_op t)).1 \/ value_of s' a = (initial (th_op t)).2)) ->
  (forall a v, storing (goto t ph) = Some (a, v) -> value_of s' a < v) ->
  (forall a v, (a, v) ∈ settled (goto t ph) -> (a, v) ∈ settled t \/ v <= value_of s' a /\ guarding t a) ->
  advanced ts t s (goto t ph) s'.
Proof.
  intros Hg Hs Ht Hw Hr Hc Hi Hst Hv Hsg Hse. split; try done.
  - intros a. unfold counted. rewrite Hc, Hi. lia.
  - intros a. unfold unraced. cbn. rewrite Hc, Hi. lia.
  - intros a. right. right. rewrite Hi, Hst. by split_and!.
Qed.

Lemma advanced_stay ts t s : store_ok s -> thread_ok s t -> storing t = None -> incremented t = None -> advanced ts t s t s.
Proof.
  intros Hs Ht Hst Hi. assert (goto t (th_phase t) = t) as He by by destruct t.
  pose proof (advanced_quiet ts t s (th_phase t) s) as Hq. rewrite He in Hq. apply Hq; auto using grows_refl.
  rewrite Hst. done.
Qed.

(** The proof obligations of [advanced_quiet], once the phase is known. *)
#[local] Ltac quiet :=
  apply advanced_quiet; cbn;
    [try (done || apply grows_refl)|try done|split; cbn; try done|intros; simplify_eq; auto|intros; simplify_eq; auto
    |intros; unfold one; rewrite ?andb_true_l; try lia; try done|done|done|auto
    |intros; simplify_eq; auto|intros ?? Hset; first [by left|rewrite ?elem_of_cons, ?elem_of_nil in Hset; try done; auto]].

Lemma advance_start ts t s : store_ok s -> thread_ok s t -> th_phase t = Start ->
  let '(t', s') := advance shards shard ts t s in advanced ts t s t' s'.
Proof.
  intros Hok Ht Hph. unfold advance. destruct t as [o ph rd rh]. cbn in *. subst ph.
  pose proof (get_map_ok s (user_of o) Hok) as Hmap.
  assert (forall s', st_counters s' = st_counters s -> forall a, value_of s' a = value_of s a) as Hval
    by (unfold value_of; by intros ? ->).
  destruct o; cbn in *.
  1,2: destruct (get_map s user_id) as [m s'] eqn:Eg; destruct Hmap as (Hg & Hs' & Hm & _ & _ & _ & Hc & _); quiet;
    naive_solver.
  all: destruct (kv_get (st_users s) user_id) as [m|] eqn:Eu; quiet; try (by apply remove_ok);
    try (intros; simplify_eq; by apply (so_users _ Hok user_id)).
Qed.

Lemma advance_entry ts t s m : store_ok s -> thread_ok s t -> th_phase t = HasMap m ->
  let '(t', s') := advance shards shard ts t s in advanced ts t s t' s'.
Proof.
  intros Hok Ht Hph. pose proof (to_map _ _ Ht m) as Hm. pose proof (to_fits _ _ Ht) as Hf. rewrite Hph in Hm, Hf.
  specialize (Hm eq_refl). unfold advance. rewrite Hph. destruct t as [o ph rd rh]. cbn in *. subst ph.
  destruct o; cbn in *; try done.
  3: { destruct (readable _ _ _ _) eqn:Er; [|by apply advanced_stay].
    destruct (kv_get (map_at s m) campaign_id) as [[d h]|] eqn:Eg; quiet; intros; simplify_eq; auto. }
  all: destruct (writable _ _ _ _) eqn:Ew; [|by apply advanced_stay].
  - pose proof (get_pair_ok s m campaign_id 0 0 Hok Hm) as Hg. destruct (get_pair s m campaign_id 0 0) as [[d h] s'].
    destruct Hg as (Hg & Hs' & Hh & _ & _ & _ & Hv & _). pose proof (gr_maps _ _ Hg). quiet; intros; simplify_eq; try done; lia.
  - pose proof (get_pair_ok s m campaign_id day hour Hok Hm) as Hg. destruct (get_pair s m campaign_id day hour) as [[d h] s'].
    destruct Hg as (Hg & Hs' & Hh & _ & _ & _ & Hv & _). pose proof (gr_maps _ _ Hg). quiet; intros; simplify_eq; try done; auto; lia.
Qed.

(** Moving on with one counter set. *)
Lemma put_effect s s' t a v : (a < length (st_counters s))%nat ->
  s' = put_counter s a v ->
  (incremented t = Some a /\ v = InProcess.incr (value_of s a)) \/ (incremented t = None /\ storing t = Some (a, v)) ->
  forall b, incremented t = Some b /\ value_of s' b = InProcess.incr (value_of s b) \/
    (exists w, storing t = Some (b, w) /\ value_of s' b = w) \/
    incremented t <> Some b /\ (forall w, storing t <> Some (b, w)) /\
      (value_of s' b = value_of s b \/
       (length (st_counters s) <= b)%nat /\ (value_of s' b = (initial (th_op t)).1 \/ value_of s' b = (initial (th_op t)).2)).
Proof.
  intros Ha -> Ht b. rewrite value_put by done. case_decide as Hab; [subst b; naive_solver|].
  destruct Ht as [[Hi _]|[Hi Hst]].
  - right. right. rewrite Hi. split_and!; [congruence| |by left]. unfold storing, incremented in *. by destruct (th_phase t).
  - right. right. rewrite Hi, Hst. split_and!; [done|congruence|by left].
Qed.

Lemma advance_record ts t s u c : store_ok s -> thread_ok s t -> th_op t = RecordImpression u c ->
  th_phase t <> Start -> (forall m, th_phase t <> HasMap m) ->
  let '(t', s') := advance shards shard ts t s in advanced ts t s t' s'.
Proof.
  intros Hok Ht Ho Hns Hnm. pose proof Ht as [Hf Hm Hp]. unfold advance. destruct t as [o ph rd rh]. cbn in *. subst o.
  destruct ph; try done; cbn in *; try (by destruct (Hnm m)); try (by apply advanced_stay);
    pose proof (Hp _ _ _ eq_refl) as Hh; pose proof (holds_counters _ _ _ _ _ Hok Hh) as (Hd & Hh' & Hne).
  - split; try done; try (by apply put_counter_ok).
    + apply (put_effect s _ _ d (InProcess.incr (value_of s d))); auto.
    + cbn. intros a v Hs. by rewrite elem_of_nil in Hs.
  - split; try done; try (by apply put_counter_ok).
    + apply (put_effect s _ _ h (InProcess.incr (value_of s h))); auto.
    + cbn. intros a v Hs. by rewrite elem_of_nil in Hs.
  - pose proof (push_ok s (InProcess.op u c Day) Hok) as [Hg Hs']. pose proof (value_push s (InProcess.op u c Day)) as Hv.
    destruct (push s _) as [ok s']. cbn in *. pose proof (gr_maps _ _ Hg). quiet; intros; simplify_eq; auto.
    + specialize (Hm _ eq_refl). lia.
    + by apply Hg.
  - pose proof (push_ok s (InProcess.op u c Hour) Hok) as [Hg Hs']. pose proof (value_push s (InProcess.op u c Hour)) as Hv.
    destruct (push s _) as [ok s']. cbn in *. pose proof (gr_maps _ _ Hg). quiet; intros; simplify_eq; auto.
    + specialize (Hm _ eq_refl). lia.
    + by apply Hg.
Qed.

Lemma advance_warm ts t s u c day hour : store_ok s -> thread_ok s t -> th_op t = WarmCache u c day hour ->
  th_phase t <> Start -> (forall m, th_phase t <> HasMap m) ->
  let '(t', s') := advance shards shard ts t s in advanced ts t s t' s'.
Proof.
  intros Hok Ht Ho Hns Hnm. pose proof Ht as [Hf Hm Hp]. unfold advance. destruct t as [o ph rd rh]. cbn in *. subst o.
  destruct ph; try done; cbn in *; try (by destruct (Hnm m)); try (by apply advanced_stay);
    pose proof (Hp _ _ _ eq_refl) as Hh; pose proof (holds_counters _ _ _ _ _ Hok Hh) as (Hd & Hh' & Hne).
  - destruct (value_of s d <? day) eqn:El; quiet; intros; simplify_eq; auto; try lia.
    destruct Hset as [[= -> ->]|[]]. right. split; [lia|]. exists m, d, h. auto.
  - split; try done; try (by apply put_counter_ok); try (intros ?? Hl; by left).
    + apply (put_effect s _ _ d day); auto.
    + cbn. intros a v Hset. rewrite elem_of_cons, elem_of_nil in Hset. destruct Hset as [[= -> ->]|[]]. right.
      rewrite value_put, decide_True by done. split; [lia|]. exists m, d, h. auto.
  - destruct (value_of s h <? hour) eqn:El; quiet; intros; simplify_eq; auto; try lia.
    destruct Hset as [[= -> ->]|[[= -> ->]|[]]]; [left; by apply list_elem_of_here|].
    right. split; [lia|]. exists m, d, h. auto.
  - split; try done; try (by apply put_counter_ok).
    + apply (put_effect s _ _ h hour); auto.
    + cbn. intros a v Hset. rewrite !elem_of_cons, elem_of_nil in Hset. destruct Hset as [[= -> ->]|[[= -> ->]|[]]].
      * left. by apply list_elem_of_here.
      * right. rewrite value_put, decide_True by done. split; [lia|]. exists m, d, h. auto.
Qed.

Lemma advance_lookup ts t s u c : store_ok s -> thread_ok s t -> th_op t = Lookup u c ->
  th_phase t <> Start -> (forall m, th_phase t <> HasMap m) ->
  let '(t', s') := advance shards shard ts t s in advanced ts t s t' s'.
Proof.
  intros Hok Ht Ho Hns Hnm. pose proof Ht as [Hf Hm Hp]. unfold advance. destruct t as [o ph rd rh]. cbn in *. subst o.
  destruct ph; try done; cbn in *; try (by destruct (Hnm m)); try (by apply advanced_stay); quiet.
Qed.

Lemma advance_evict ts t s u : store_ok s -> thread_ok s t -> th_op t = Evict u -> th_phase t <> Start ->
  let '(t', s') := advance shards shard ts t s in advanced ts t s t' s'.
Proof.
  intros Hok Ht Ho Hns. pose proof Ht as [Hf Hm Hp]. unfold advance. destruct t as [o ph rd rh]. cbn in *. subst o.
  assert (forall p, let s' := (push s p).2 in grows s s' /\ store_ok s' /\ (length (st_maps s) <= length (st_maps s'))%nat) as Hpush.
  { intros p. destruct (push_ok s p Hok) as [Hg Hs']. split_and!; [done..|apply Hg]. }
  destruct ph; try done; cbn in *; try (by apply advanced_stay).
  - case_decide; [quiet|]. destruct (readable _ _ _ _) eqn:Er; [|by apply advanced_stay]. quiet.
  - destruct todo as [|c todo].
    + case_decide; [quiet|]. destruct (readable _ _ _ _) eqn:Er; [|by apply advanced_stay]. quiet.
    + destruct (Hpush (InProcess.op u c Day)) as (Hg & Hs' & Hl). quiet; try (left; apply value_push). intros ? [= <-].
      specialize (Hm _ eq_refl). lia.
  - destruct (Hpush (InProcess.op u c Hour)) as (Hg & Hs' & Hl). quiet; try (left; apply value_push). intros ? [= <-].
    specialize (Hm _ eq_refl). lia.
Qed.

Lemma thread_advance_ok ts t s : store_ok s -> thread_ok s t ->
  let '(t', s') := advance shards shard ts t s in advanced ts t s t' s'.
Proof.
  intros Hok Ht. destruct (th_phase t) eqn:Ep; try (by apply advance_start); try (by apply (advance_entry _ _ _ m));
    destruct (th_op t) eqn:Eo; pose proof (to_fits _ _ Ht) as Hf; rewrite Ep, Eo in Hf; try done;
    first [by eapply advance_record; rewrite ?Ep | by eapply advance_warm; rewrite ?Ep
          | by eapply advance_lookup; rewrite ?Ep | by eapply advance_evict; rewrite ?Ep].
Qed.

(** ** The invariant of a schedule *)

Lemma guarding_storing s t a v : thread_ok s t -> storing t = Some (a, v) -> guarding t a.
Proof.
  unfold storing, guarding, wlock. intros _. destruct (th_phase t); try done; destruct (th_op t); try done;
    intros [= <- <-]; cbn; eauto 10.
Qed.

(** A counter has one guard. *)
Lemma guard_unique s t1 t2 a : store_ok s -> thread_ok s t1 -> thread_ok s t2 -> guarding t1 a -> guarding t2 a ->
  wlock shard t1 = wlock shard t2.
Proof.
  intros Hok Ht1 Ht2 (m1 & d1 & h1 & -> & Hp1 & Ha1) (m2 & d2 & h2 & -> & Hp2 & Ha2).
  apply (to_pair _ _ Ht1) in Hp1. apply (to_pair _ _ Ht2) in Hp2.
  pose proof (so_pair _ Hok _ _ _ _ Hp1) as ([k1 He1] & Hh1 & _). pose proof (so_pair _ Hok _ _ _ _ Hp2) as ([k2 He2] & Hh2 & _).
  assert (d1 = d2) as <- by lia. by destruct (so_apart _ Hok _ _ _ _ _ _ _ Hp1 Hp2) as [-> ->].
Qed.

Lemma readable_spec ts m k : readable shard ts m k = true <-> forall t, t ∈ ts -> wlock shard t <> Some (m, k).
Proof.
  unfold readable. rewrite forallb_forall. setoid_rewrite bool_decide_eq_true. setoid_rewrite list_elem_of_In. done.
Qed.
Lemma writable_spec ts m k : writable shard ts m k = true <->
  forall t, t ∈ ts -> wlock shard t <> Some (m, k) /\ rlock shard t <> Some (m, k).
Proof.
  unfold writable. rewrite andb_true_iff, readable_spec, forallb_forall. setoid_rewrite bool_decide_eq_true.
  setoid_rewrite <- list_elem_of_In. split; [intros [Hr Hw] t Ht; split; auto|intros Hb; split; intros t Ht; by apply Hb].
Qed.
Lemma window_open_spec ts a : window_open ts a = true <-> exists t v, t ∈ ts /\ storing t = Some (a, v).
Proof.
  unfold window_open. rewrite existsb_exists. setoid_rewrite bool_decide_eq_true. setoid_rewrite <- list_elem_of_In. split.
  - intros (t & Ht & Hs). destruct (storing t) as [[a' v]|] eqn:Es; simplify_eq/=. eauto.
  - intros (t & v & Ht & Hs). exists t. by rewrite Hs.
Qed.

Lemma one_range b a a' : 0 <= one b a a' <= 1.
Proof. unfold one. destruct (_ && _); lia. Qed.
Lemma one_other b a a' : a <> a' -> one b a a' = 0.
Proof. intros Hne. unfold one. by rewrite bool_decide_false, andb_false_r. Qed.
Lemma one_same b a : one b a a = if b then 1 else 0.
Proof. unfold one. by rewrite bool_decide_true, andb_true_r. Qed.

Lemma counts_range day hour t a : 0 <= counts day hour t a <= 2.
Proof.
  unfold counts. destruct (th_phase t); try lia; repeat match goal with |- context [one ?b ?x ?z] => pose proof (one_range b x z);
    generalize dependent (one b x z); intros end; lia.
Qed.

Definition within (b : Z) (o : Op) : Prop := 0 <= (initial o).1 <= b /\ 0 <= (initial o).2 <= b.

Lemma storing_within b t a v : within b (th_op t) -> storing t = Some (a, v) -> v <= b.
Proof. unfold within, storing. destruct (th_phase t); try done; destruct (th_op t); cbn; try done; intros; simplify_eq; lia. Qed.

#[local] Notation total f y a := (sum_by (fun t => f t a) (sy_threads y)).

Record sys_ok (b : Z) y : Prop := {
  sk_store : store_ok (sy_store y);
  sk_threads t : t ∈ sy_threads y -> thread_ok (sy_store y) t;
  sk_within t : t ∈ sy_threads y -> within b (th_op t);
  sk_guards i j t t' g : i <> j -> sy_threads y !! i = Some t -> sy_threads y !! j = Some t' ->
    wlock shard t = Some g -> wlock shard t' <> Some g /\ rlock shard t' <> Some g;
  sk_value a : total unraced y a <= value_of (sy_store y) a <= b + total counted y a;
  sk_settled t a v : t ∈ sy_threads y -> (a, v) ∈ settled t -> v <= value_of (sy_store y) a;
  sk_storing t a v : t ∈ sy_threads y -> storing t = Some (a, v) ->
    total unraced y a <= v /\ forall t' v', t' ∈ sy_threads y -> (a, v') ∈ settled t' -> v' <= v;
}.

Lemma sum_unraced_nonneg y a : 0 <= total unraced y a.
Proof. apply sum_by_nonneg. intros t _. apply counts_range. Qed.
Lemma sum_counted_range ts a : 0 <= sum_by (fun t => counted t a) ts <= 2 * Z.of_nat (length ts).
Proof.
  induction ts as [|t ts IH]; [cbn; lia|]. rewrite sum_by_cons. cbn [length]. pose proof (counts_range true true t a). unfold counted at 1 3. lia.
Qed.

(** A thread's step, in a state where no count is at its limit. *)
Section Step.
Context (b : Z) (y : Sys M U Ch) (j : nat) (t t' : Thread) (s' : Store M U Ch).
Context (Hy : sys_ok b y) (Hj : sy_threads y !! j = Some t) (Hroom : b + 2 * Z.of_nat (length (sy_threads y)) < 2 ^ 63 - 1).
Context (Hadv : advanced (sy_threads y) t (sy_store y) t' s').

Let y' : Sys M U Ch := {| sy_store := s'; sy_threads := <[j := t']> (sy_threads y) |}.

Lemma step_in : t ∈ sy_threads y.
Proof. by eapply list_elem_of_lookup_2. Qed.

Lemma step_others t1 : t1 ∈ sy_threads y' -> t1 = t' \/ exists i, i <> j /\ sy_threads y !! i = Some t1.
Proof.
  intros [i Hi]%list_elem_of_lookup. cbn in Hi. destruct (decide (i = j)) as [->|Hne].
  - rewrite list_lookup_insert_eq in Hi by by eapply lookup_lt_Some. left. congruence.
  - rewrite list_lookup_insert_ne in Hi by done. eauto.
Qed.

Lemma step_counted a : total counted y' a = total counted y a + match incremented t with Some b => one true b a | None => 0 end.
Proof. change (sy_threads y') with (<[j := t']> (sy_threads y)). rewrite (sum_by_insert _ _ _ _ _ Hj), (ad_counted _ _ _ _ _ Hadv). lia. Qed.
Lemma step_unraced a : total unraced y' a = total unraced y a +
  match incremented t with Some b => one (negb (window_open (sy_threads y) b)) b a | None => 0 end.
Proof. change (sy_threads y') with (<[j := t']> (sy_threads y)). rewrite (sum_by_insert _ _ _ _ _ Hj), (ad_unraced _ _ _ _ _ Hadv). lia. Qed.

Lemma step_incr a : InProcess.incr (value_of (sy_store y) a) = value_of (sy_store y) a + 1.
Proof.
  unfold InProcess.incr. apply as_i64_id. pose proof (sk_value _ _ Hy a) as Hv. pose proof (sum_unraced_nonneg y a).
  pose proof (sum_counted_range (sy_threads y) a). unfold in_i64. lia.
Qed.

Lemma storing_not_incremented a v : storing t = Some (a, v) -> incremented t = None.
Proof. unfold storing, incremented. by destruct (th_phase t). Qed.

Lemma step_value a : total unraced y' a <= value_of s' a <= b + total counted y' a.
Proof.
  rewrite step_counted, step_unraced. pose proof (sk_value _ _ Hy a) as Hv. 
  pose proof (sum_unraced_nonneg y a). pose proof (sum_counted_range (sy_threads y) a) as Hc.
  destruct (ad_value _ _ _ _ _ Hadv a) as [[Hi ->]|[(v & Hst & ->)|(Hi & _ & Hs)]].
  - rewrite step_incr, Hi, !one_same. destruct (window_open _ _); cbn; lia.
  - rewrite (storing_not_incremented _ _ Hst). destruct (sk_storing _ _ Hy _ _ _ step_in Hst).
    pose proof (storing_within _ _ _ _ (sk_within _ _ Hy _ step_in) Hst). lia.
  - assert (match incremented t with Some b => one true b a | None => 0 end = 0 /\
            match incremented t with Some b => one (negb (window_open (sy_threads y) b)) b a | None => 0 end = 0) as [-> ->].
    { destruct (incremented t) as [a'|]; [|done]. split; apply one_other; congruence. }
    destruct Hs as [->|(Ha & Hs)]; [lia|]. rewrite value_of_out in Hv by done.
    destruct (sk_within _ _ Hy _ step_in), Hs as [->| ->]; lia.
Qed.

Lemma step_settled t1 a v : t1 ∈ sy_threads y' -> (a, v) ∈ settled t1 -> v <= value_of s' a.
Proof.
  intros Hin Hset. assert (v <= value_of s' a \/ exists t2, t2 ∈ sy_threads y /\ (a, v) ∈ settled t2) as [|(t2 & Hin2 & Hset2)]; [|done|].
  { destruct (step_others _ Hin) as [->|(i & _ & Hi)]; [|right; exists t1; split; [by eapply list_elem_of_lookup_2|done]].
    destruct (ad_settled _ _ _ _ _ Hadv _ _ Hset) as [?|[? _]]; [right; exists t; auto using step_in|by left]. }
  pose proof (sk_settled _ _ Hy _ _ _ Hin2 Hset2) as Hle.
  destruct (ad_value _ _ _ _ _ Hadv a) as [[Hi ->]|[(v' & Hst & ->)|(Hi & _ & Hs)]].
  - rewrite step_incr. lia.
  - destruct (sk_storing _ _ Hy _ _ _ step_in Hst) as [_ Hall]. by eapply Hall.
  - destruct Hs as [->|(Ha & Hs)]; [lia|]. rewrite value_of_out in Hle by done.
    destruct (sk_within _ _ Hy _ step_in), Hs as [->| ->]; lia.
Qed.

Lemma step_storing t1 a v : t1 ∈ sy_threads y' -> storing t1 = Some (a, v) ->
  total unraced y' a <= v /\ forall t2 v', t2 ∈ sy_threads y' -> (a, v') ∈ settled t2 -> v' <= v.
Proof.
  intros Hin Hst. destruct (step_others _ Hin) as [->|(i & Hne & Hi)].
  { apply (ad_storing _ _ _ _ _ Hadv) in Hst. pose proof (step_value a). split; [lia|].
    intros t2 v' Hin2 Hset. pose proof (step_settled _ _ _ Hin2 Hset). lia. }
  assert (t1 ∈ sy_threads y) as Hin1 by by eapply list_elem_of_lookup_2.
  destruct (sk_storing _ _ Hy _ _ _ Hin1 Hst) as [Hu Hall]. split.
  - rewrite step_unraced. destruct (incremented t) as [a'|]; [|lia]. destruct (decide (a' = a)) as [->|]; [|rewrite one_other by done; lia].
    assert (window_open (sy_threads y) a = true) as -> by (apply window_open_spec; eauto). rewrite one_same. cbn. lia.
  - intros t2 v' Hin2 Hset. destruct (step_others _ Hin2) as [->|(i2 & _ & Hi2)]; [|eapply Hall, Hset; by eapply list_elem_of_lookup_2].
    destruct (ad_settled _ _ _ _ _ Hadv _ _ Hset) as [Hold|[_ Hg]]; [by eapply Hall, Hold; apply step_in|].
    pose proof (sk_threads _ _ Hy _ Hin1) as Ht1.
    pose proof (guard_unique _ _ _ _ (sk_store _ _ Hy) (sk_threads _ _ Hy _ step_in) Ht1 Hg (guarding_storing _ _ _ _ Ht1 Hst)) as Heq.
    destruct Hg as (m & d & h & Hw & _). destruct (sk_guards _ _ Hy j i _ _ _ (not_eq_sym Hne) Hj Hi Hw) as [Hno _]. congruence.
Qed.

Lemma step_guards i1 i2 t1 t2 g : i1 <> i2 -> sy_threads y' !! i1 = Some t1 -> sy_threads y' !! i2 = Some t2 ->
  wlock shard t1 = Some g -> wlock shard t2 <> Some g /\ rlock shard t2 <> Some g.
Proof.
  cbn. intros Hne Hi1 Hi2 Hw. destruct g as [m k]. pose proof (lookup_lt_Some _ _ _ Hj) as Hl.
  destruct (decide (i1 = j)) as [->|Hn1]; [rewrite list_lookup_insert_eq in Hi1 by done; simplify_eq|rewrite list_lookup_insert_ne in Hi1 by done];
    (destruct (decide (i2 = j)) as [->|Hn2]; [rewrite list_lookup_insert_eq in Hi2 by done; simplify_eq|rewrite list_lookup_insert_ne in Hi2 by done]).
  - destruct (ad_wlock _ _ _ _ _ Hadv _ _ Hw) as [Hw'|Hw']; [by apply (sk_guards _ _ Hy j i2 t)|].
    rewrite writable_spec in Hw'. apply Hw'. by eapply list_elem_of_lookup_2.
  - assert (t1 ∈ sy_threads y) as Hin by by eapply list_elem_of_lookup_2.
    destruct (sk_guards _ _ Hy i1 j _ _ _ Hn1 Hi1 Hj Hw) as [Hnw Hnr]. split.
    + intros [?|Hw']%(ad_wlock _ _ _ _ _ Hadv); [done|]. rewrite writable_spec in Hw'. by destruct (Hw' _ Hin).
    + intros [?|Hr']%(ad_rlock _ _ _ _ _ Hadv); [done|]. rewrite readable_spec in Hr'. by destruct (Hr' _ Hin).
  - by apply (sk_guards _ _ Hy i1 i2 t1).
Qed.

Lemma step_sys_ok : sys_ok b y'.
Proof.
  split; [apply Hadv| | |apply step_guards|apply step_value|apply step_settled|apply step_storing].
  - intros t1 [->|(i & _ & Hi)]%step_others; [apply Hadv|]. eapply thread_ok_grows; [apply Hadv|].
    apply (sk_threads _ _ Hy). by eapply list_elem_of_lookup_2.
  - intros t1 [->|(i & _ & Hi)]%step_others; [rewrite (ad_op _ _ _ _ _ Hadv)|]; apply (sk_within _ _ Hy);
      [apply step_in|by eapply list_elem_of_lookup_2].
Qed.
End Step.

(** What a schedule starts. *)
Definition spawns (b : Z) (a : Action) : Prop := match a with Spawn o => within b o | _ => True end.

Lemma sys_ok_store b y s' : st_users s' = st_users (sy_store y) -> st_maps s' = st_maps (sy_store y) ->
  st_counters s' = st_counters (sy_store y) -> sys_ok b y -> sys_ok b {| sy_store := s'; sy_threads := sy_threads y |}.
Proof.
  intros Hu Hm Hc Hy. destruct (same_objects (sy_store y) s' Hu Hm) as [Hg Hs']; [by rewrite Hc|apply Hy|].
  assert (forall a, value_of s' a = value_of (sy_store y) a) as Hv by (intros; unfold value_of; by rewrite Hc).
  split; cbn; try setoid_rewrite Hv; try apply Hy; try done.
  intros t Ht. eapply thread_ok_grows, Hy; done.
Qed.

Lemma sys_ok_spawn b y o : within b o -> sys_ok b y ->
  sys_ok b {| sy_store := sy_store y; sy_threads := sy_threads y ++ [spawned o] |}.
Proof.
  intros Ho Hy. assert (forall f : Thread -> nat -> Z, (forall a, f (spawned o) a = 0) -> forall a,
    sum_by (fun t => f t a) (sy_threads y ++ [spawned o]) = total f y a) as Hsum.
  { intros f Hf a. rewrite sum_by_app. cbn. rewrite Hf. lia. }
  assert (forall t, t ∈ sy_threads y ++ [spawned o] -> t ∈ sy_threads y \/ t = spawned o) as Hin.
  { intros t. rewrite elem_of_app, list_elem_of_singleton. done. }
  split; cbn [sy_store sy_threads]; try apply Hy.
  - intros t [Ht| ->]%Hin; [by apply Hy|]. by split.
  - intros t [Ht| ->]%Hin; [by apply Hy|done].
  - intros i j t t' g Hne [Hi|[_ Hi]]%lookup_app_Some [Hj|[_ Hj]]%lookup_app_Some Hw.
    + by apply (sk_guards _ _ Hy i j t).
    + apply list_lookup_singleton_Some in Hj as [_ <-]. done.
    + apply list_lookup_singleton_Some in Hi as [_ <-]. done.
    + apply list_lookup_singleton_Some in Hi as [_ <-]. done.
  - intros a. rewrite !Hsum by done. apply Hy.
  - intros t a v [Ht| ->]%Hin Hset; [by apply (sk_settled _ _ Hy t)|]. by apply elem_of_nil in Hset.
  - intros t a v [Ht| ->]%Hin Hst; [|done]. rewrite Hsum by done. destruct (sk_storing _ _ Hy t a v Ht Hst) as [Hu Hall].
    split; [done|]. intros t2 v' [Ht2| ->]%Hin Hset; [by eapply Hall|]. by apply elem_of_nil in Hset.
Qed.

Lemma counter_step_ok b y a : spawns b a -> b + 2 * Z.of_nat (length (sy_threads y)) < 2 ^ 63 - 1 -> sys_ok b y ->
  sys_ok b (step shards shard y a).
Proof.
  intros Ha Hl Hy. destruct a as [o|j|]; cbn [step].
  - by apply sys_ok_spawn.
  - destruct (sy_threads y !! j) as [t|] eqn:Ej; [|done].
    assert (t ∈ sy_threads y) as Hin by by eapply list_elem_of_lookup_2.
    pose proof (thread_advance_ok (sy_threads y) t (sy_store y) (sk_store _ _ Hy) (sk_threads _ _ Hy _ Hin)) as Hadv.
    destruct (advance _ _ _ t _) as [t' s']. by eapply step_sys_ok.
  - destruct (chan_try_recv _) as [[o tx]|]; [|done]. by apply sys_ok_store.
Qed.

Lemma length_step y a : (length (sy_threads (step shards shard y a)) <= S (length (sy_threads y)))%nat.
Proof.
  destruct a as [o|j|]; cbn [step].
  - cbn. rewrite length_app. cbn. lia.
  - destruct (sy_threads y !! j) as [t|]; [|lia]. destruct (advance _ _ _ t _). cbn. rewrite length_insert. lia.
  - destruct (chan_try_recv _) as [[o tx]|]; cbn; lia.
Qed.

Lemma boot_ok b n : 0 <= b -> sys_ok b (boot n).
Proof.
  intros Hb. assert (forall m, map_at (sy_store (boot (M:=M) (U:=U) (Ch:=Ch) n)) m = kv_empty) as Hm by by intros [].
  split; cbn; try (intros ? Hi; by apply elem_of_nil in Hi); try (intros ??? Hi; by apply elem_of_nil in Hi); try done.
  - split; unfold holds; try (intros *; rewrite ?Hm, ?kv_get_empty; done).
    + by exists 0%nat.
    + intros u m. cbn. by rewrite kv_get_empty.
    + intros u u' m. cbn. by rewrite kv_get_empty.
  - intros a. rewrite value_of_out by (cbn; lia). lia.
Qed.

Lemma counter_schedule_ok b acts y : Forall (spawns b) acts ->
  b + 2 * Z.of_nat (length (sy_threads y) + length acts) < 2 ^ 63 - 1 -> sys_ok b y -> sys_ok b (run shards shard y acts).
Proof.
  revert y. induction acts as [|a acts IH]; intros y Hall Hl Hy; [done|]. inversion_clear Hall as [|? ? Ha Hrest].
  cbn [length] in Hl. cbn. apply IH; [done| |].
  - pose proof (length_step y a). lia.
  - apply counter_step_ok; [done|lia|done].
Qed.

(** ** Progress *)

Definition moves y y' : Prop := exists j, y' = step shards shard y (Advance j) /\ y' <> y.

Definition all_finished y : bool := forallb finished (sy_threads y).

(** A thread that is neither finished nor kept out of a shard moves. *)
Lemma advance_stuck ts t s : phase_fits (th_op t) (th_phase t) -> (advance shards shard ts t s).1 = t -> finished t = false ->
  (exists m, th_phase t = HasMap m /\ writable shard ts m (shard (campaign (th_op t))) = false) \/
  (exists m, th_phase t = Removed m /\ readable shard ts m 0 = false) \/
  (exists m k, th_phase t = FlushDay m k [] /\ readable shard ts m (S k) = false).
Proof.
  intros Hf Hst Hfin. apply (f_equal th_phase) in Hst. unfold advance, finished in *.
  destruct t as [o ph rd rh]. cbn in *. destruct ph; destruct o; try done; cbn in *.
  1,2: destruct (get_map _ _); done.
  1,2: by destruct (kv_get _ _).
  1,2: destruct (writable _ _ _ _) eqn:Ew; [destruct (get_pair _ _ _ _ _) as [[??]?]; done|eauto].
  1: destruct (readable _ _ _ _) eqn:Er; [by destruct (kv_get _ _) as [[]|]|].
  all: try (destruct (push _ _); done); try (by destruct (_ <? _)).
  - left. exists m. split; [done|]. unfold writable. by rewrite Er.
  - case_decide; [done|]. destruct (readable _ _ _ _) eqn:Er; [done|]. eauto.
  - destruct todo; [|done]. case_decide; [done|]. destruct (readable _ _ _ _) eqn:Er; [|eauto 10]. cbn in Hst. simplify_eq. lia.
Qed.

Definition fitting y : Prop := Forall (fun t => phase_fits (th_op t) (th_phase t)) (sy_threads y).

Lemma advance_fits ts t s : phase_fits (th_op t) (th_phase t) ->
  let '(t', _) := advance shards shard ts t s in phase_fits (th_op t') (th_phase t').
Proof.
  intros Hf. unfold advance. destruct t as [o ph rd rh]. cbn in *. destruct ph; destruct o; try done; cbn in *.
  1,2: by destruct (get_map _ _).
  1,2: by destruct (kv_get _ _).
  1,2: destruct (writable _ _ _ _); [by destruct (get_pair _ _ _ _ _) as [[]]|done].
  1: destruct (readable _ _ _ _); [by destruct (kv_get _ _) as [[]|]|done].
  all: try (destruct (push _ _); done); try (by destruct (_ <? _)).
  - case_decide; [done|]. by destruct (readable _ _ _ _).
  - destruct todo; [|done]. case_decide; [done|]. by destruct (readable _ _ _ _).
Qed.

Lemma step_fits y a : fitting y -> fitting (step shards shard y a).
Proof.
  intros Hy. unfold fitting in *. destruct a as [o|j|]; cbn [step].
  - apply Forall_app_2; [done|]. by repeat constructor.
  - destruct (sy_threads y !! j) as [t|] eqn:Ej; [|done].
    pose proof (advance_fits (sy_threads y) t (sy_store y) (Forall_lookup_1 _ _ _ _ Hy Ej)) as Hadv.
    destruct (advance _ _ _ t _) as [t' s']. by apply Forall_insert.
  - destruct (chan_try_recv _) as [[o tx]|]; done.
Qed.

(** Holders of guards are not in anyone's way for ever. *)
Lemma thread_moves y j t : sy_threads y !! j = Some t -> (advance shards shard (sy_threads y) t (sy_store y)).1 <> t ->
  exists y', moves y y'.
Proof.
  intros Ej Hne. exists (step shards shard y (Advance j)), j. split; [done|]. cbn [step]. rewrite Ej.
  destruct (advance _ _ _ t _) as [t' s']. cbn in Hne. intros Heq. apply (f_equal (fun y => sy_threads y !! j)) in Heq. cbn in Heq.
  rewrite list_lookup_insert_eq in Heq by by eapply lookup_lt_Some. congruence.
Qed.

Lemma progress y : fitting y -> all_finished y = true \/ exists y', moves y y'.
Proof.
  intros Hfit. set (ts := sy_threads y). pose (moving t := (advance shards shard ts t (sy_store y)).1 <> t).
  destruct (decide (Exists moving ts)) as [Hm|Hm].
  { right. apply Exists_exists in Hm as (t & [j Ej]%list_elem_of_lookup & Hm). by eapply thread_moves. }
  left. assert (forall t, t ∈ ts -> finished t = false ->
    (exists m, th_phase t = HasMap m /\ writable shard ts m (shard (campaign (th_op t))) = false) \/
    (exists m, th_phase t = Removed m /\ readable shard ts m 0 = false) \/
    (exists m k, th_phase t = FlushDay m k [] /\ readable shard ts m (S k) = false)) as Hstuck.
  { intros t Ht Hfin. apply (advance_stuck ts t (sy_store y)); [|destruct (decide (moving t)) as [Hmv|]; [|by apply dec_stable]|done].
    - by eapply (Forall_forall (fun t => phase_fits (th_op t) (th_phase t)) ts).
    - exfalso. apply Hm, Exists_exists. eauto. }
  assert (forall m k, readable shard ts m k = true) as Hr.
  { intros m k. apply readable_spec. intros t Ht Hw. unfold wlock in Hw.
    destruct (Hstuck t Ht) as [(?&Hp&_)|[(?&Hp&_)|(?&?&Hp&_)]]; [unfold finished; by destruct (th_phase t)|..]; by rewrite Hp in Hw. }
  assert (forall m k, writable shard ts m k = true) as Hw.
  { intros m k. apply writable_spec. intros t Ht. split; [by apply readable_spec with (ts := ts)|]. intros Hrl. unfold rlock in Hrl.
    destruct (Hstuck t Ht) as [(?&Hp&_)|[(?&Hp&_)|(?&?&Hp&Hno)]]; [unfold finished; by destruct (th_phase t)|..];
      [by rewrite Hp in Hrl|by rewrite Hp in Hrl|by rewrite Hr in Hno]. }
  apply forallb_forall. intros t Ht%list_elem_of_In. destruct (finished t) eqn:Ef; [done|].
  destruct (Hstuck t Ht Ef) as [(?&_&Hno)|[(?&_&Hno)|(?&?&_&Hno)]]; by rewrite ?Hr, ?Hw in Hno.
Qed.

(** ** Termination *)

(** Threads that have yet to ask for a map, for a pair. *)
Definition asking (t : Thread) : nat := match th_phase t with Start => 1 | _ => 0 end.
Definition entering (t : Thread) : nat := match th_phase t with HasMap _ => 1 | _ => 0 end.

(** The entries of the shards from [k] on. *)
Definition entries_from s (m k : nat) : nat :=
  length (filter (fun c => (k <= shard c)%nat) (kv_entries (map_at s m)).*1).

(** The steps a thread has left once it has its pair, or its map to visit. *)
Definition left_over s (t : Thread) : nat :=
  match th_phase t with
  | IncrDay _ _ _ | LoadDay _ _ _ => 4
  | IncrHour _ _ _ | StoreDay _ _ _ => 3
  | SendDay _ _ _ | LoadHour _ _ _ | ReadDay _ _ _ => 2
  | SendHour _ _ _ _ | StoreHour _ _ _ | ReadHour _ _ _ _ => 1
  | Removed m => 2 + shards + 2 * entries_from s m 0
  | FlushDay m k todo => 1 + 2 * length todo + (shards - k) + 2 * entries_from s m (S k)
  | FlushHour m k _ todo => 2 + 2 * length todo + (shards - k) + 2 * entries_from s m (S k)
  | Start | HasMap _ | Recorded _ _ _ _ | Warmed _ _ _ | Found _ | Evicted => 0
  end.

Lemma entries_split s m k : entries_from s m k = (length (shard_keys shard s m k) + entries_from s m (S k))%nat.
Proof.
  unfold entries_from, shard_keys. induction (kv_entries (map_at s m)).*1 as [|c l IH]; [done|].
  rewrite !filter_cons. repeat case_decide; cbn; lia.
Qed.

(** A step is no step at all, or gets its thread nearer to its end. *)
Lemma advance_decreases ts t s : let '(t', s') := advance shards shard ts t s in
  t' = t /\ s' = s \/ (asking t' < asking t)%nat \/
  asking t' = asking t /\ ((entering t' < entering t)%nat \/
    entering t' = entering t /\ st_maps s' = st_maps s /\ (left_over s' t' < left_over s t)%nat).
Proof.
  unfold advance. destruct t as [o ph rd rh]. cbn. destruct ph; cbn; auto.
  - destruct o; cbn; [destruct (get_map _ _)..| |]; try (destruct (kv_get _ _)); cbn; auto with lia.
  - destruct o; cbn; auto; [destruct (writable _ _ _ _)..|destruct (readable _ _ _ _)]; auto;
      try (destruct (get_pair _ _ _ _ _) as [[d h] s']); try (destruct (kv_get _ _) as [[d h]|]); cbn; auto with lia.
  - do 2 right. repeat split; auto with lia.
  - do 2 right. repeat split; auto with lia.
  - unfold push. destruct (chan_push _ _). do 2 right. repeat split; auto with lia.
  - unfold push. destruct (chan_push _ _). do 2 right. repeat split; auto with lia.
  - destruct o; auto. do 2 right. split; [by case_match|]. right. split_and!; [by case_match|done|].
    destruct (_ <? day); cbn; lia.
  - destruct o; auto. do 2 right. repeat split; auto with lia.
  - destruct o; auto. do 2 right. split; [by case_match|]. right. split_and!; [by case_match|done|].
    destruct (_ <? hour); cbn; lia.
  - destruct o; auto. do 2 right. repeat split; auto with lia.
  - do 2 right. repeat split; auto with lia.
  - do 2 right. repeat split; auto with lia.
  - case_decide; [do 2 right; repeat split; right; split_and!; try done; cbn; lia|].
    destruct (readable _ _ _ _); [|auto]. do 2 right. split; [done|]. right. split_and!; [done..|]. cbn.
    rewrite (entries_split s m 0). lia.
  - destruct todo as [|c todo].
    + case_decide; [do 2 right; repeat split; right; split_and!; try done; cbn; lia|].
      destruct (readable _ _ _ _); [|auto]. do 2 right. split; [done|]. right. split_and!; [done..|]. cbn [left_over goto th_phase length].
      rewrite (entries_split s m (S k)). lia.
    + do 2 right. split; [done|]. right. unfold push. destruct (chan_push _ _). split_and!; [done..|]. unfold left_over, entries_from, map_at. cbn. lia.
  - do 2 right. split; [done|]. right. unfold push. destruct (chan_push _ _). split_and!; [done..|]. unfold left_over, entries_from, map_at. cbn. lia.
Qed.

Definition tally (f : Thread -> nat) y : nat := Z.to_nat (sum_by (fun t => Z.of_nat (f t)) (sy_threads y)).

Lemma tally_insert (f g : Thread -> nat) ts j t t' : ts !! j = Some t -> (forall t1, g t1 = f t1) ->
  (Z.to_nat (sum_by (fun t => Z.of_nat (g t)) (<[j := t']> ts)) + f t =
   Z.to_nat (sum_by (fun t => Z.of_nat (f t)) ts) + f t')%nat.
Proof.
  intros Hj Hg. rewrite (sum_by_insert _ _ _ _ _ Hj). rewrite !Hg.
  assert (sum_by (fun t => Z.of_nat (g t)) ts = sum_by (fun t => Z.of_nat (f t)) ts) as ->
    by (clear Hj; induction ts as [|t1 ts IH]; rewrite ?sum_by_cons, ?IH, ?Hg; done).
  assert (Z.of_nat (f t) <= sum_by (fun t => Z.of_nat (f t)) ts).
  { rewrite <- (take_drop_middle ts j t Hj), sum_by_app, sum_by_cons.
    assert (forall l, 0 <= sum_by (fun t => Z.of_nat (f t)) l) as Hn by (intros l; apply sum_by_nonneg; intros; lia).
    pose proof (Hn (take j ts)). pose proof (Hn (drop (S j) ts)). lia. }
  lia.
Qed.

Lemma moves_ends y : Acc (flip moves) y.
Proof.
  apply (lex3_acc moves (tally asking) (tally entering) (fun y => tally (left_over (sy_store y)) y)). clear y.
  intros y y' (j & -> & Hne). cbn [step] in *. destruct (sy_threads y !! j) as [t|] eqn:Ej; [|done].
  pose proof (advance_decreases (sy_threads y) t (sy_store y)) as Hd. destruct (advance _ _ _ t _) as [t' s'].
  unfold tally. cbn [sy_threads sy_store].
  pose proof (tally_insert asking asking _ _ _ t' Ej (fun _ => eq_refl)) as Ha.
  pose proof (tally_insert entering entering _ _ _ t' Ej (fun _ => eq_refl)) as He.
  destruct Hd as [[-> ->]|[?|(? & [?|(? & Hm & ?)])]]; [|lia..|].
  - destruct Hne. rewrite list_insert_id by done. by destruct y.
  - assert (forall t1, left_over s' t1 = left_over (sy_store y) t1) as Hl.
    { intros t1. unfold left_over, entries_from, map_at. by rewrite Hm. }
    pose proof (tally_insert _ _ _ _ _ t' Ej Hl) as Hw. rewrite Hl in *. lia.
Qed.

Lemma moves_fits y y' : moves y y' -> fitting y -> fitting y'.
Proof. intros (j & -> & _). apply step_fits. Qed.

Lemma run_fits acts y : fitting y -> fitting (run shards shard y acts).
Proof. intros Hy. unfold run. apply foldl_inv; auto using step_fits. Qed.
End Invariants.

(** ** One operation alone *)
Section Alone.
Context {M : Type} `{KVCacheLaws M string nat}.
Context {U : Type} `{KVCacheLaws U Z (nat * nat)}.
Context {Ch : Type} `{MpscLaws Ch InProcess.WriteBehindOp}.
Context (shards : nat) (shard : Z -> nat).
Implicit Types (s : Store M U Ch) (t : Thread) (ts : list Thread).

(** The counts of a user's campaign, through the cache. *)
Definition visible s (u : string) (c : Z) : option (Z * Z) :=
  m ← kv_get (st_users s) u; '(d, h) ← kv_get (map_at s m) c; Some (value_of s d, value_of s h).

(** The user's map and the campaign's pair, fetched or made. *)
Definition fetch s (u : string) (c x z : Z) : nat * nat * nat * Store M U Ch :=
  let '(m, s) := get_map s u in let '(d, h, s) := get_pair s m c x z in (m, d, h, s).

Lemma fetch_visible s u c x z : store_ok s -> let '(m, d, h, s') := fetch s u c x z in
  store_ok s' /\ kv_get (st_users s') u = Some m /\ holds s' m c d h /\ st_tx s' = st_tx s /\
  (value_of s' d, value_of s' h) = unwrap_or (visible s u c) (x, z) /\
  (forall u' c', (u', c') <> (u, c) -> visible s' u' c' = visible s u' c').
Proof.
  intros Hok. unfold fetch. pose proof (get_map_ok s u Hok) as Hm. destruct (get_map s u) as [m s1].
  destruct Hm as (_ & Hok1 & Hl & Hu & Hu' & Hat & Hc & Htx & Hnew).
  pose proof (get_pair_ok s1 m c x z Hok1 Hl) as Hp. destruct (get_pair s1 m c x z) as [[d h] s2].
  destruct Hp as (_ & Hok2 & Hh & Hus & Htx2 & Hat2 & Hval2 & Hval).
  assert (forall a, value_of s1 a = value_of s a) as Hv1 by (unfold value_of; by rewrite Hc).
  assert (forall m' c', kv_get (map_at s1 m') c' = kv_get (map_at s m') c') as Hat1 by (intros; by rewrite Hat).
  split_and!; [done|by rewrite Hus|done|congruence| |].
  - assert (visible s u c = '(d, h) ← kv_get (map_at s m) c; Some (value_of s d, value_of s h)) as ->.
    { unfold visible. destruct Hnew as [[-> ->]| ->]; [by rewrite kv_get_empty|done]. }
    destruct Hval as [->|(Hnone & -> & -> & _)].
    + unfold holds in Hh. rewrite Hat in Hh. rewrite Hh. cbn. by rewrite !Hv1.
    + rewrite Hat in Hnone. by rewrite Hnone.
  - intros u' c' Hne. assert (forall m', (m', c') <> (m, c) ->
      ('(d, h) ← kv_get (map_at s2 m') c'; Some (value_of s2 d, value_of s2 h)) =
      ('(d, h) ← kv_get (map_at s m') c'; Some (value_of s d, value_of s h))) as Hsame.
    { intros m' Hne'. rewrite Hat2 by done. rewrite Hat. destruct (kv_get (map_at s m') c') as [[d' h']|] eqn:Eg; [cbn|done].
      assert (holds s1 m' c' d' h') as Hh1 by (unfold holds; by rewrite Hat).
      destruct (holds_counters _ _ _ _ _ Hok1 Hh1) as (? & ? & _).
      rewrite <- !Hv1. destruct (Hval2 d') as [->|[? _]], (Hval2 h') as [->|[? _]]; done || lia. }
    unfold visible. rewrite Hus. destruct (decide (u' = u)) as [->|Hnu].
    + rewrite Hu. assert (c' <> c) by congruence. cbn. rewrite Hsame by congruence.
      destruct Hnew as [[-> ->]| ->]; [by rewrite kv_get_empty|done].
    + rewrite Hu' by done. destruct (kv_get (st_users s) u') as [m'|] eqn:Eu'; [cbn|done]. apply Hsame. intros [= -> ->].
      apply Hnu, (so_owner _ Hok1 _ _ m); [by rewrite Hu'|done].
Qed.

(** Setting the counters of a pair a user's map holds. *)
Lemma put_visible s u m c d h x z : store_ok s -> kv_get (st_users s) u = Some m -> holds s m c d h ->
  let s' := put_counter (put_counter s d x) h z in
  visible s' u c = Some (x, z) /\ forall u' c', (u', c') <> (u, c) -> visible s' u' c' = visible s u' c'.
Proof.
  intros Hok Hu Hh s'. destruct (holds_counters _ _ _ _ _ Hok Hh) as (Hd & Hl & Hne).
  assert (forall a, value_of s' a = if decide (h = a) then z else if decide (d = a) then x else value_of s a) as Hv.
  { intros a. unfold s'. rewrite value_put by (unfold put_counter; cbn; by rewrite length_insert). by rewrite value_put. }
  split.
  - unfold visible. change (st_users s') with (st_users s). rewrite Hu. cbn. change (map_at s' m) with (map_at s m).
    unfold holds in Hh. rewrite Hh. cbn. rewrite !Hv. repeat case_decide; congruence.
  - intros u' c' Hn. unfold visible. change (st_users s') with (st_users s).
    destruct (kv_get (st_users s) u') as [m'|] eqn:Eu; [cbn|done]. change (map_at s' m') with (map_at s m').
    destruct (kv_get (map_at s m') c') as [[d' h']|] eqn:Eg; [cbn|done].
    pose proof (so_pair _ Hok _ _ _ _ Hh) as ([k Hk] & -> & _). pose proof (so_pair _ Hok _ _ _ _ Eg) as ([k' Hk'] & -> & _).
    assert (d <> d').
    { intros <-. destruct (so_apart _ Hok _ _ _ _ _ _ _ Hh Eg) as [<- <-]. by rewrite (so_owner _ Hok _ _ _ Hu Eu) in Hn. }
    rewrite !Hv. repeat case_decide; lia || done.
Qed.

Lemma put_id s a : put_counter s a (value_of s a) = s.
Proof.
  unfold put_counter, set_counters, value_of. destruct s as [us ms cs tx]. cbn. f_equal.
  destruct (cs !! a) as [v|] eqn:Ea; [by apply list_insert_id|]. apply lookup_ge_None_1 in Ea. cbn. by rewrite list_insert_ge.
Qed.

Lemma quiet_shards ts t m k : Forall (fun t => finished t = true) ts -> wlock shard t = None -> rlock shard t = None ->
  readable shard (ts ++ [t]) m k = true /\ writable shard (ts ++ [t]) m k = true.
Proof.
  intros Hts Hw Hr. assert (forall t', t' ∈ ts ++ [t] -> wlock shard t' = None /\ rlock shard t' = None) as Hall.
  { intros t' [Ht| ->%list_elem_of_singleton]%elem_of_app; [|done]. rewrite Forall_forall in Hts. specialize (Hts _ Ht).
    unfold finished, wlock, rlock in *. by destruct (th_phase t'). }
  split; [apply readable_spec|apply writable_spec]; intros t' Ht; destruct (Hall _ Ht) as [Hw' Hr']; by rewrite ?Hw', ?Hr'.
Qed.

(** A thread that runs while the others have ended. *)
Fixpoint alone (n : nat) ts t s : Thread * Store M U Ch :=
  match n with
  | 0%nat => (t, s)
  | S n => let '(t, s) := advance shards shard (ts ++ [t]) t s in alone n ts t s
  end.

Lemma run_alone n ts t s : run shards shard {| sy_store := s; sy_threads := ts ++ [t] |} (replicate n (Advance (length ts))) =
  let '(t, s) := alone n ts t s in {| sy_store := s; sy_threads := ts ++ [t] |}.
Proof.
  revert t s. induction n as [|n IH]; intros t s; [done|]. cbn. rewrite list_lookup_middle by done.
  destruct (advance _ _ _ t s) as [t' s']. rewrite insert_app_r_alt, Nat.sub_diag by lia. cbn. apply IH.
Qed.

(** The store shows what the capper [q] of the sequential model holds. *)
Definition shows {S U' M'} `{KVCache U' Z (Z * Z)} `{KVCache M' string U'} s
    (q : InProcess.InProcessFrequencyCapper S M' Ch) : Prop :=
  (forall u c, visible s u c = InProcess.lookup q u c) /\ st_tx s = InProcess.ip_write_tx q.

Lemma push_shows s o : visible (push s o).2 = visible s /\ (push s o).1 = (chan_push (st_tx s) o).1 /\
  st_tx (push s o).2 = (chan_push (st_tx s) o).2.
Proof. unfold push. by destruct (chan_push _ _). Qed.

Lemma alone_step n ts t s r : advance shards shard (ts ++ [t]) t s = r -> alone (S n) ts t s = alone n ts r.1 r.2.
Proof. cbn. intros ->. by destruct r. Qed.

(** To the pair. *)
Lemma alone_fetch n ts o s : Forall (fun t => finished t = true) ts ->
  match o with RecordImpression _ _ | WarmCache _ _ _ _ => True | _ => False end ->
  let '(m, d, h, s') := fetch s (user_of o) (campaign o) (initial o).1 (initial o).2 in
  alone (S (S n)) ts (spawned o) s =
  alone n ts (goto (spawned o) match o with RecordImpression _ _ => IncrDay m d h | _ => LoadDay m d h end) s'.
Proof.
  intros Hts Ho. unfold fetch. destruct (get_map s (user_of o)) as [m s1] eqn:Em.
  destruct (get_pair s1 m (campaign o) (initial o).1 (initial o).2) as [[d h] s2] eqn:Ep.
  destruct (quiet_shards ts (goto (spawned o) (HasMap m)) m (shard (campaign o)) Hts eq_refl eq_refl) as [_ Hq].
  rewrite (alone_step _ _ _ _ (goto (spawned o) (HasMap m), s1)) by (destruct o; try done; unfold advance; cbn in *; by rewrite Em).
  cbn [fst snd]. set (ph := match o with RecordImpression _ _ => _ | _ => _ end).
  rewrite (alone_step _ _ _ _ (goto (spawned o) ph, s2)); [done|]. unfold ph. destruct o; try done; unfold advance; cbn in *; by rewrite Hq, Ep.
Qed.

Lemma alone_record ts u c s : Forall (fun t => finished t = true) ts -> store_ok s ->
  let '(t, s') := alone 6 ts (spawned (RecordImpression u c)) s in
  let '(d0, h0) := unwrap_or (visible s u c) (0, 0) in
  let '(day_ok, tx) := chan_push (st_tx s) (InProcess.op u c Day) in
  let '(hour_ok, tx) := chan_push tx (InProcess.op u c Hour) in
  (exists m d h, th_phase t = Recorded m d h (day_ok && hour_ok)) /\ st_tx s' = tx /\
  visible s' u c = Some (InProcess.incr d0, InProcess.incr h0) /\
  (forall u' c', (u', c') <> (u, c) -> visible s' u' c' = visible s u' c').
Proof.
  intros Hts Hok. pose proof (fetch_visible s u c 0 0 Hok) as Hf.
  pose proof (alone_fetch 4 ts (RecordImpression u c) s Hts I) as Hrun. cbn [user_of campaign initial fst snd] in Hrun.
  destruct (fetch s u c 0 0) as [[[m d] h] s1]. rewrite Hrun. clear Hrun.
  destruct Hf as (Hok1 & Hu & Hh & Htx & Hval & Hrest). destruct (holds_counters _ _ _ _ _ Hok1 Hh) as (Hd & Hl & Hne).
  cbn. rewrite <- Hval, <- Htx.
  assert (value_of (put_counter s1 d (InProcess.incr (value_of s1 d))) h = value_of s1 h) as -> by (by rewrite value_put, decide_False).
  pose proof (put_visible s1 u m c d h (InProcess.incr (value_of s1 d)) (InProcess.incr (value_of s1 h)) Hok1 Hu Hh) as [Hv Hv'].
  set (s2 := put_counter _ h _) in *. change (st_tx s1) with (st_tx s2). clearbody s2.
  unfold push. destruct (chan_push (st_tx s2) _) as [day_ok tx]. cbn.
  unfold push. cbn. destruct (chan_push tx _) as [hour_ok tx']. cbn. split_and!; [by eauto|done|exact Hv|].
  intros u' c' Hn. etransitivity; [by apply Hv'|by apply Hrest].
Qed.

Lemma alone_warm ts u c day hour s : Forall (fun t => finished t = true) ts -> store_ok s ->
  let '(t, s') := alone 6 ts (spawned (WarmCache u c day hour)) s in
  let '(d0, h0) := unwrap_or (visible s u c) (day, hour) in
  (exists m d h, th_phase t = Warmed m d h) /\ st_tx s' = st_tx s /\
  visible s' u c = Some (if d0 <? day then day else d0, if h0 <? hour then hour else h0) /\
  (forall u' c', (u', c') <> (u, c) -> visible s' u' c' = visible s u' c').
Proof.
  intros Hts Hok. pose proof (fetch_visible s u c day hour Hok) as Hf.
  pose proof (alone_fetch 4 ts (WarmCache u c day hour) s Hts I) as Hrun. cbn [user_of campaign initial fst snd] in Hrun.
  destruct (fetch s u c day hour) as [[[m d] h] s1]. rewrite Hrun. clear Hrun.
  destruct Hf as (Hok1 & Hu & Hh & Htx & Hval & Hrest). destruct (holds_counters _ _ _ _ _ Hok1 Hh) as (Hd & Hl & Hne).
  rewrite <- Hval, <- Htx.
  set (x := if value_of s1 d <? day then day else value_of s1 d). set (z := if value_of s1 h <? hour then hour else value_of s1 h).
  assert (exists t, alone 4 ts (goto (spawned (WarmCache u c day hour)) (LoadDay m d h)) s1 =
            (t, put_counter (put_counter s1 d x) h z) /\ th_phase t = Warmed m d h) as (t & -> & Hph).
  { unfold x, z. cbn. destruct (value_of s1 d <? day); cbn; rewrite ?value_put, ?decide_False by done;
      destruct (value_of s1 h <? hour); cbn; eexists; split; try done; f_equal; rewrite ?put_id; try done.
    rewrite <- (put_id (put_counter s1 d day) h) at 1. by rewrite value_put, decide_False. }
  pose proof (put_visible s1 u m c d h x z Hok1 Hu Hh) as [Hv Hv']. split_and!; [eauto|done|exact Hv|].
  intros u' c' Hn. rewrite Hv' by done. by apply Hrest.
Qed.

Lemma alone_lookup ts u c s : Forall (fun t => finished t = true) ts ->
  let '(t, s') := alone 6 ts (spawned (Lookup u c)) s in th_phase t = Found (visible s u c) /\ s' = s.
Proof.
  intros Hts. unfold visible. destruct (kv_get (st_users s) u) as [m|] eqn:Eu; cbn; rewrite Eu; [|done].
  destruct (quiet_shards ts (goto (spawned (Lookup u c)) (HasMap m)) m (shard c) Hts eq_refl eq_refl) as [Hq _].
  cbn. cbn in Hq. rewrite Hq. destruct (kv_get (map_at s m) c) as [[d h]|] eqn:Eg; cbn; done.
Qed.

(** A state after an operation, against the sequential one. *)
Lemma shows_after {S U' M'} `{KVCacheLaws U' Z (Z * Z)} `{KVCacheLaws M' string U'} s s'
    (q : InProcess.InProcessFrequencyCapper S M' Ch) (u : string) (c : Z) (p : Z * Z) (tx : Ch) :
  shows s q -> st_tx s' = tx -> visible s' u c = Some p ->
  (forall u' c', (u', c') <> (u, c) -> visible s' u' c' = visible s u' c') ->
  shows s' {| InProcess.ip_fallback := InProcess.ip_fallback q;
              InProcess.ip_counters := kv_put (InProcess.ip_counters q) u (kv_put (InProcess.user_map q u) c p);
              InProcess.ip_write_tx := tx |}.
Proof.
  intros [Hs _] Htx Hv Hrest. split; [|done]. intros u' c'. rewrite lookup_put_user.
  destruct (decide ((u', c') = (u, c))) as [[= -> ->]|Hne]; [by rewrite decide_True, kv_get_put_same|].
  rewrite Hrest, Hs by done. case_decide as Hu; [subst u'|done]. by rewrite kv_get_put_other, user_map_get by congruence.
Qed.
End Alone.

(** ** Exactness without warming *)
Section Quiet.
Context {M : Type} `{KVCacheLaws M string nat}.
Context {U : Type} `{KVCacheLaws U Z (nat * nat)}.
Context {Ch : Type} `{MpscLaws Ch InProcess.WriteBehindOp}.
Context (shards : nat) (shard : Z -> nat).

Definition warms (o : Op) : bool := match o with WarmCache _ _ _ _ => true | _ => false end.
Definition quiet_thread (t : Thread) : Prop := warms (th_op t) = false /\ th_day_raced t = false /\ th_hour_raced t = false.

Lemma quiet_window ts a : Forall quiet_thread ts -> window_open ts a = false.
Proof.
  intros Hq. apply not_true_iff_false. intros (t & v & Ht & Hs)%window_open_spec. rewrite Forall_forall in Hq.
  destruct (Hq _ Ht) as (Hw & _). unfold storing in Hs. destruct (th_phase t), (th_op t); done.
Qed.

Lemma advance_marks ts t (s : Store M U Ch) : Forall quiet_thread ts -> quiet_thread t -> quiet_thread (advance shards shard ts t s).1.
Proof.
  intros Hts (Hw & Hd & Hh). unfold advance. destruct (th_phase t) eqn:Ep, (th_op t) eqn:Eo; try done;
    repeat match goal with
    | |- context [get_map ?s ?u] => destruct (get_map s u)
    | |- context [get_pair ?s ?m ?c ?x ?z] => destruct (get_pair s m c x z) as [[??]?]
    | |- context [push ?s ?o] => destruct (push s o)
    | |- context [kv_get ?m ?k] => destruct (kv_get m k) as [[]|]
    | |- context [if ?b then _ else _] => destruct b
    | |- context [match ?l with [] => _ | _ :: _ => _ end] => destruct l
    end; unfold quiet_thread; cbn; rewrite ?Eo, ?quiet_window; cbn; auto.
Qed.

Lemma quiet_run acts y : Forall (fun a => match a with Spawn o => warms o = false | _ => True end) acts ->
  Forall quiet_thread (sy_threads y) -> Forall quiet_thread (sy_threads (run shards shard y acts)).
Proof.
  revert y. induction acts as [|a acts IH]; intros y Hall Hy; [done|]. inversion_clear Hall as [|? ? Ha Hrest]. apply IH; [done|].
  destruct a as [o|j|]; cbn [step].
  - cbn. apply Forall_app_2; [done|]. by repeat constructor.
  - destruct (sy_threads y !! j) as [t|] eqn:Ej; [|done].
    pose proof (advance_marks (sy_threads y) t (sy_store y) Hy (Forall_lookup_1 _ _ _ _ Hy Ej)) as Hq.
    destruct (advance _ _ _ t _) as [t' s']. by apply Forall_insert.
  - by destruct (chan_try_recv _) as [[]|].
Qed.
End Quiet.

(** ** Theorems *)

(** [C29] However recordings, warm-ups, lookups, evictions and queue receipts
    interleave, a counter of the in-process capper holds at most a bound on the Redis
    counts read plus the impressions recorded in it, never less than what a finished
    warm-up has seen in it or put there, and never less than the impressions recorded
    in it outside the window between the load and the store of a warm-up of the same
    counter; without warm-ups it holds exactly the impressions recorded in it. *)
Theorem concurrent_counts_bounded {M U Ch} `{KVCacheLaws M string nat} `{KVCacheLaws U Z (nat * nat)}
    `{MpscLaws Ch InProcess.WriteBehindOp} (shards : nat) (shard : Z -> nat) (buffer : nat) (b : Z) (acts : list Action)
    (Hb : 0 <= b) (Hacts : Forall (spawns b) acts) (Hlen : b + 2 * Z.of_nat (length acts) < 2 ^ 63 - 1) :
  let y := run shards shard (boot (M:=M) (U:=U) (Ch:=Ch) buffer) acts in
  forall a, let v := value_of (sy_store y) a in
  let recorded := sum_by (fun t => counted t a) (sy_threads y) in
  sum_by (fun t => unraced t a) (sy_threads y) <= v <= b + recorded /\
  (forall t w, t ∈ sy_threads y -> (a, w) ∈ settled t -> w <= v) /\
  (Forall (fun a => match a with Spawn o => warms o = false | _ => True end) acts -> v = recorded).
Proof.
  intros y a v recorded.
  assert (sys_ok shard b y) as Hy by (apply counter_schedule_ok; [done|cbn; lia|by apply boot_ok]).
  split_and!; [apply Hy|apply Hy|intros ?; by apply (sk_settled _ _ _ Hy t)|].
  intros Hq. assert (Forall (spawns 0) acts) as Hacts0.
  { eapply Forall_impl; [exact Hq|]. intros [o| |]; cbn; try done. by destruct o. }
  assert (sys_ok shard 0 y) as Hy0 by (apply counter_schedule_ok; [done|cbn; lia|by apply boot_ok]).
  destruct (sk_value _ _ _ Hy0 a) as [Hlo Hhi]. fold v recorded in Hlo, Hhi.
  assert (sum_by (fun t => unraced t a) (sy_threads y) = recorded) as Heq; [|lia].
  assert (Forall quiet_thread (sy_threads y)) as Hts by by apply quiet_run. unfold recorded. clear -Hts.
  induction Hts as [|t ts (_ & Hd & Hh) _ IH]; [done|]. rewrite !sum_by_cons, IH. unfold unraced, counted. by rewrite Hd, Hh.
Qed.

#[global] Instance spawns_dec b a : Decision (spawns b a).
Proof. unfold spawns, within. destruct a; apply _. Defined.

(** Four shards; maps and the channel of the instances. *)
Notation Users := (gmap string nat).
Notation Pairs := (gmap Z (nat * nat)).
Notation Queue := (nat * list InProcess.WriteBehindOp)%type.
Definition shard4 (c : Z) : nat := Z.to_nat (c mod 4).
Definition sample_run (acts : list Action) : Sys Users Pairs Queue := run 4 shard4 (boot 100) acts.
Definition turns (n : nat) (js : list nat) : list Action := concat (replicate n (Advance <$> js)).

(** Two impressions recorded while a warm-up of the same pair, with one impression
    read from Redis, is about to store. *)
Definition overwriting : list Action :=
  [Spawn (RecordImpression "alice" 7); Spawn (RecordImpression "alice" 7); Spawn (WarmCache "alice" 7 1 1)] ++
  turns 2 [0; 1; 2]%nat ++ [Advance 2] ++ turns 1 [0; 1]%nat ++ turns 6 [2; 0; 1]%nat.

Lemma concurrent_counts_bounded_witness :
  value_of (sy_store (sample_run overwriting)) 0 <= 1 + 2 /\ 1 <= value_of (sy_store (sample_run overwriting)) 0.
Proof.
  destruct (concurrent_counts_bounded (M:=Users) (U:=Pairs) (Ch:=Queue) 4 shard4 100 1 overwriting) with (a := 0%nat)
    as ((_ & Hhi) & Hset & _); [lia|vm_decide|vm_decide|].
  split; [exact Hhi|]. eapply (Hset {| th_op := WarmCache "alice" 7 1 1; th_phase := Warmed 0 0 1; th_day_raced := false; th_hour_raced := false |});
    vm_decide.
Defined.

(** A warm-up does undo a higher counter that a concurrent recording wrote: both
    recordings report success, the day counter they had raised to 2 goes back to 1,
    and a campaign with a daily cap of 2 is not seen as capped by the next lookup. *)
Theorem warming_undoes_recordings :
  let before := sample_run (take 12 overwriting) in
  let y := sample_run (overwriting ++ Spawn (Lookup "alice" 7) :: turns 4 [3]%nat) in
  value_of (sy_store before) 0 = 2 /\
  th_phase <$> sy_threads y =
    [Recorded 0 0 1 true; Recorded 0 0 1 true; Warmed 0 0 1; Found (Some (1, 2))].
Proof. vm_compute. done. Qed.

(** An impression recorded while moka drops its user goes to a map nobody reads: the
    recording reports success and the next lookup finds nothing. *)
Theorem eviction_hides_recording :
  let y := sample_run ([Spawn (RecordImpression "alice" 7); Advance 0; Spawn (Evict "alice")] ++ turns 6 [1]%nat ++
                       turns 6 [0]%nat ++ Spawn (Lookup "alice" 7) :: turns 4 [2]%nat) in
  th_phase <$> sy_threads y = [Recorded 0 0 1 true; Evicted; Found None] /\ st_counters (sy_store y) = [1; 1].
Proof. vm_compute. done. Qed.

(** [C30] The operations of the in-process capper never block one another for ever: in
    every reachable state some unfinished thread can take a step unless all have
    finished, and there is no endless run of steps, whatever the scheduler picks and
    however many campaigns an eviction has to flush. *)
Theorem operations_finish {M U Ch} `{KVCacheLaws M string nat} `{KVCacheLaws U Z (nat * nat)}
    `{MpscLaws Ch InProcess.WriteBehindOp} (shards : nat) (shard : Z -> nat) (buffer : nat) (acts : list Action) :
  let y := run shards shard (boot (M:=M) (U:=U) (Ch:=Ch) buffer) acts in
  Acc (flip (moves shards shard)) y /\
  forall y', rtc (moves shards shard) y y' -> all_finished y' = true \/ exists y'', moves shards shard y' y''.
Proof.
  intros y. split; [apply moves_ends|]. intros y' Hy'. apply progress.
  assert (fitting y) as Hf by (apply run_fits; by constructor).
  induction Hy' as [|y1 y2 y3 Hm _ IH]; [done|]. apply IH. by eapply moves_fits.
Qed.

Lemma operations_finish_witness : all_finished (sample_run overwriting) = true \/
  exists y, moves 4 shard4 (sample_run overwriting) y.
Proof.
  destruct (operations_finish (M:=Users) (U:=Pairs) (Ch:=Queue) 4 shard4 100 overwriting) as [_ Hp]. exact (Hp _ (rtc_refl _ _)).
Defined.

(** While no other operation is under way, recording, warming and looking up do to
    what the cache shows and to the queue what the sequential model says. *)
Theorem alone_is_atomic {S M U M' U' Ch} `{KVCacheLaws M string nat} `{KVCacheLaws U Z (nat * nat)}
    `{KVCacheLaws M' string U'} `{KVCacheLaws U' Z (Z * Z)} `{MpscLaws Ch InProcess.WriteBehindOp}
    (shards : nat) (shard : Z -> nat) (ts : list Thread) (s : Store M U Ch) (q : InProcess.InProcessFrequencyCapper S M' Ch)
    (Hts : Forall (fun t => finished t = true) ts) (Hok : store_ok s) (Hq : shows s q) (u : string) (c : Z) :
  let after o := run shards shard {| sy_store := s; sy_threads := ts |} (Spawn o :: replicate 6 (Advance (length ts))) in
  let ends o (ph : Phase -> Prop) q' :=
    exists t, sy_threads (after o) = ts ++ [t] /\ ph (th_phase t) /\ shows (sy_store (after o)) q' in
  ends (RecordImpression u c) (fun ph => exists m d h, ph = Recorded m d h (InProcess.record_impression q u c).1)
    (InProcess.record_impression q u c).2 /\
  (forall day hour, ends (WarmCache u c day hour) (fun ph => exists m d h, ph = Warmed m d h) (InProcess.warm_cache q u c day hour)) /\
  ends (Lookup u c) (fun ph => ph = Found (InProcess.lookup q u c)) q.
Proof.
  intros after ends.
  assert (forall o, after o = let '(t, s) := alone shards shard 6 ts (spawned o) s in {| sy_store := s; sy_threads := ts ++ [t] |})
    as Hrun by (intros o; apply run_alone).
  pose proof Hq as [Hs Htx]. unfold ends. split_and!.
  - rewrite Hrun. pose proof (alone_record shards shard ts u c s Hts Hok) as Ha. unfold InProcess.record_impression.
    rewrite user_map_get, <- Hs, <- Htx. destruct (alone _ _ _ _ _ _) as [t s'].
    destruct (unwrap_or (visible s u c) (0, 0)) as [d0 h0]. destruct (chan_push (st_tx s) _) as [day_ok tx].
    destruct (chan_push tx _) as [hour_ok tx']. destruct Ha as (Hph & Htx' & Hv & Hrest). exists t.
    split_and!; [done|exact Hph|]. by eapply shows_after.
  - intros day hour. rewrite Hrun. pose proof (alone_warm shards shard ts u c day hour s Hts Hok) as Ha. unfold InProcess.warm_cache.
    rewrite user_map_get, <- Hs, <- Htx. destruct (alone _ _ _ _ _ _) as [t s'].
    destruct (unwrap_or (visible s u c) (day, hour)) as [d0 h0]. destruct Ha as (Hph & Htx' & Hv & Hrest). exists t.
    split_and!; [done|exact Hph|]. by eapply shows_after.
  - rewrite Hrun. pose proof (alone_lookup shards shard ts u c s Hts) as Ha. rewrite <- Hs.
    destruct (alone _ _ _ _ _ _) as [t s']. destruct Ha as [Hph ->]. by exists t.
Qed.
