(* ===== verification/Scoring.v ===== *)
(** * Candidate scoring

    [bidder-core/src/scoring/]: the [Scorer] trait with its four
    implementations.  [f32] arithmetic is IEEE single precision; the ONNX
    sessions and the natural logarithm of the platform are parameters.
    [sort_by] is a stable sort; the comparator of the cascade is a total preorder
    on scores that are numbers, and only there does Rust fix its result. *)
From S2P Require Import Prelude Floats OpenRtb Bitmap Catalog Model.

(** ** The trait *)

Record ScoringContext := {
  sc_segment_ids : list SegmentId;
  sc_device_type : option DeviceTargetType;
  sc_ad_format : option AdFormat.t;
  sc_hour_of_day : Z;
  sc_is_weekend : bool;
  sc_user_id : string;
  sc_is_top_market : bool;
}.

(** [score_all] mutates the batch and possibly the scorer. *)
Class Scorer (S : Type) := {
  score_all : S -> list AdCandidate -> ScoringContext -> list AdCandidate * S;
}.

(** A candidate with its score erased: everything scoring must leave alone. *)
Definition unscored (c : AdCandidate) : AdCandidate := with_score c (S754_zero false).

(** What the pipeline relies on: scoring changes nothing but scores, and neither
    drops nor reorders candidates. *)
Class ScorerLaws (S : Type) `{Scorer S} := {
  score_all_unscored s l ctx : unscored <$> (score_all s l ctx).1 = unscored <$> l;
}.

Lemma with_score_unscored c s : unscored (with_score c s) = unscored c.
Proof. done. Qed.

Lemma unscored_fmap (f : AdCandidate -> f32) (l : list AdCandidate) :
  unscored <$> ((fun c => with_score c (f c)) <$> l) = unscored <$> l.
Proof. rewrite <- list_fmap_compose. by apply list_fmap_ext. Qed.

(** ** [FeatureWeightedScorer] *)

Record FeatureWeightedScorer := {
  weight_price : f32;
  weight_segment_overlap : f32;
  max_bid_price_cents : f32;
}.

Definition FeatureWeightedScorer_default : FeatureWeightedScorer := {|
  weight_price := f32_lit 4 10; weight_segment_overlap := f32_lit 6 10;
  max_bid_price_cents := f32_of_Z 1000 |}.

Definition feature_weighted_score (s : FeatureWeightedScorer) (ctx : ScoringContext) (c : AdCandidate) : f32 :=
  let n_segments := f32_of_Z (Z.of_nat (length (sc_segment_ids ctx))) in
  let norm_price := fmin (f32_div (f32_of_Z (ac_bid_price_cents c)) (max_bid_price_cents s)) (f32_of_Z 1) in
  let overlap_ratio :=
    if fgt n_segments (f32_of_Z 0)
    then fmin (f32_div (f32_of_Z (ac_campaign_id c mod 10)) (f32_of_Z 10)) (f32_of_Z 1)
    else f32_lit 5 10 in
  f32_add (f32_mul (weight_price s) norm_price) (f32_mul (weight_segment_overlap s) overlap_ratio).

#[global] Instance feature_weighted_scorer : Scorer FeatureWeightedScorer := {|
  score_all s l ctx := ((fun c => with_score c (feature_weighted_score s ctx c)) <$> l, s) |}.

#[global] Instance feature_weighted_laws : ScorerLaws FeatureWeightedScorer.
Proof. split. intros. apply unscored_fmap. Defined.

(** ** [ABTestScorer] *)

Definition FNV_OFFSET : Z := 0xcbf29ce484222325.
Definition FNV_PRIME : Z := 0x100000001b3.

Definition byte_of (c : Ascii.ascii) : Z := Z.of_nat (Ascii.nat_of_ascii c).
Fixpoint bytes (s : string) : list Z :=
  match s with EmptyString => [] | String c s => byte_of c :: bytes s end.

Definition fnv_step (h b : Z) : Z := as_u64 (Z.lxor h b * FNV_PRIME).

Definition fnv1a (seed user_id : string) : Z :=
  let h := foldl fnv_step FNV_OFFSET (bytes seed) in
  let h := fnv_step h 124 in
  foldl fnv_step h (bytes user_id).

Inductive Arm := Control | Treatment.

Record ABTestScorer (S1 S2 : Type) := {
  ab_control : S1;
  ab_treatment : S2;
  treatment_share : f32;
  hash_seed : string;
}.
Arguments ab_control {S1 S2}.
Arguments ab_treatment {S1 S2}.
Arguments treatment_share {S1 S2}.
Arguments hash_seed {S1 S2}.
Arguments Build_ABTestScorer {S1 S2}.

Definition pick_arm {S1 S2} (s : ABTestScorer S1 S2) (user_id : string) : Arm :=
  if decide (user_id = ""%string) then Control
  else if fle (treatment_share s) (f32_of_Z 0) then Control
  else if fge (treatment_share s) (f32_of_Z 1) then Treatment
  else
    let h := fnv1a (hash_seed s) user_id in
    let bucket := f32_div (f32_of_Z (h mod 10000)) (f32_of_Z 10000) in
    if flt bucket (treatment_share s) then Treatment else Control.

Definition ab_score_all {S1 S2} (run_control : list AdCandidate -> ScoringContext -> list AdCandidate * S1)
    (run_treatment : list AdCandidate -> ScoringContext -> list AdCandidate * S2)
    (s : ABTestScorer S1 S2) (l : list AdCandidate) (ctx : ScoringContext) : list AdCandidate * ABTestScorer S1 S2 :=
  match pick_arm s (sc_user_id ctx) with
  | Control => let '(l', c) := run_control l ctx in
               (l', Build_ABTestScorer c (ab_treatment s) (treatment_share s) (hash_seed s))
  | Treatment => let '(l', t) := run_treatment l ctx in
                 (l', Build_ABTestScorer (ab_control s) t (treatment_share s) (hash_seed s))
  end.
Arguments ab_score_all {S1 S2} _ _ s l ctx /.

#[global] Instance ab_test_scorer {S1 S2} `{Scorer S1} `{Scorer S2} : Scorer (ABTestScorer S1 S2) := {|
  score_all s := ab_score_all (score_all (ab_control s)) (score_all (ab_treatment s)) s |}.

Lemma ab_unscored {S1 S2} run1 run2 (s : ABTestScorer S1 S2) l ctx :
  (forall l ctx, unscored <$> (run1 l ctx).1 = unscored <$> l) ->
  (forall l ctx, unscored <$> (run2 l ctx).1 = unscored <$> l) ->
  unscored <$> (ab_score_all run1 run2 s l ctx).1 = unscored <$> l.
Proof.
  intros H1 H2. simpl. destruct (pick_arm s (sc_user_id ctx)).
  - specialize (H1 l ctx). by destruct (run1 l ctx).
  - specialize (H2 l ctx). by destruct (run2 l ctx).
Qed.

#[global] Instance ab_test_laws {S1 S2} `{ScorerLaws S1} `{ScorerLaws S2} : ScorerLaws (ABTestScorer S1 S2).
Proof. split. intros s l ctx. apply ab_unscored; intros; apply score_all_unscored. Defined.

(** ** [CascadeScorer] *)

(** [sort_by]: stable; an element moves in front of those it is strictly less than. *)
Fixpoint insert_sorted {A} (cmp : A -> A -> comparison) (a : A) (l : list A) : list A :=
  match l with
  | [] => [a]
  | b :: l' => match cmp a b with Gt => b :: insert_sorted cmp a l' | _ => a :: l end
  end.
Definition sort_by {A} (cmp : A -> A -> comparison) (l : list A) : list A := foldr (insert_sorted cmp) [] l.

(** [a.partial_cmp(b).unwrap_or(Equal)] *)
Definition cmp_or_equal (a b : f32) : comparison := unwrap_or (fcmp a b) Eq.

Record CascadeScorer (S1 S2 : Type) := {
  stage1 : S1;
  stage2 : S2;
  top_k : nat;
  threshold : f32;
}.
Arguments stage1 {S1 S2}.
Arguments stage2 {S1 S2}.
Arguments top_k {S1 S2}.
Arguments threshold {S1 S2}.
Arguments Build_CascadeScorer {S1 S2}.

Definition key (c : AdCandidate) : Z * Z := (ac_campaign_id c, ac_creative_id c).

(** The keys that advance: best stage-1 scores first, at or above the threshold,
    at most [top_k] of them. *)
Definition advance_keys (top_k : nat) (threshold : f32) (l : list AdCandidate) : list (Z * Z) :=
  let indexed := (fun c => (key c, ac_score c)) <$> l in
  let sorted := sort_by (fun a b => cmp_or_equal b.2 a.2) indexed in
  let keys := (filter (fun p => fge p.2 threshold = true) sorted).*1 in
  if (Nat.ltb 0 top_k && Nat.ltb top_k (length keys))%nat then take top_k keys else keys.

(** The batch of stage 2 and the writeback by key. *)
Definition stage2_batch (keys : list (Z * Z)) (l : list AdCandidate) : list AdCandidate :=
  filter (fun c => key c ∈ keys) l.

Definition write_back (scores : gmap (Z * Z) f32) (c : AdCandidate) : AdCandidate :=
  match scores !! key c with Some s => with_score c s | None => c end.

(** [stage2_batch.iter().map(..).collect::<HashMap<_, _>>()]: a later entry for
    the same key replaces an earlier one. *)
Definition score_map (l : list AdCandidate) : gmap (Z * Z) f32 :=
  foldl (fun m c => <[key c := ac_score c]> m) ∅ l.

Definition cascade_score_all {S1 S2} (run1 : list AdCandidate -> ScoringContext -> list AdCandidate * S1)
    (run2 : list AdCandidate -> ScoringContext -> list AdCandidate * S2)
    (s : CascadeScorer S1 S2) (l : list AdCandidate) (ctx : ScoringContext) : list AdCandidate * CascadeScorer S1 S2 :=
  match l with
  | [] => (l, s)
  | _ =>
      let '(l1, s1) := run1 l ctx in
      let keys := advance_keys (top_k s) (threshold s) l1 in
      match keys with
      | [] => (l1, Build_CascadeScorer s1 (stage2 s) (top_k s) (threshold s))
      | _ =>
          let '(l2, s2) := run2 (stage2_batch keys l1) ctx in
          (write_back (score_map l2) <$> l1, Build_CascadeScorer s1 s2 (top_k s) (threshold s))
      end
  end.
Arguments cascade_score_all {S1 S2} _ _ s l ctx /.

#[global] Instance cascade_scorer {S1 S2} `{Scorer S1} `{Scorer S2} : Scorer (CascadeScorer S1 S2) := {|
  score_all s := cascade_score_all (score_all (stage1 s)) (score_all (stage2 s)) s |}.

Lemma write_back_unscored m c : unscored (write_back m c) = unscored c.
Proof. unfold write_back. by destruct (m !! key c). Qed.

(** The cascade keeps the laws whatever its second stage does to its batch. *)
Lemma cascade_unscored {S1 S2} run1 run2 (s : CascadeScorer S1 S2) l ctx :
  (forall l ctx, unscored <$> (run1 l ctx).1 = unscored <$> l) ->
  unscored <$> (cascade_score_all run1 run2 s l ctx).1 = unscored <$> l.
Proof.
  intros H1. simpl. destruct l as [|c l]; [done|].
  specialize (H1 (c :: l) ctx). destruct (run1 (c :: l) ctx) as [l1 s1]. cbn [fst] in H1.
  destruct (advance_keys _ _ l1); [done|]. destruct (run2 _ ctx) as [l2 s2]. cbn [fst].
  rewrite <- H1, <- list_fmap_compose. apply list_fmap_ext. intros i x _. apply write_back_unscored.
Qed.

#[global] Instance cascade_laws {S1 S2} `{ScorerLaws S1} `{Scorer S2} : ScorerLaws (CascadeScorer S1 S2).
Proof. split. intros s l ctx. apply cascade_unscored. intros; apply score_all_unscored. Defined.

(** ** [ScoringFeatures] *)

Definition FEATURE_COUNT : nat := 13.
Definition BID_PRICE_MAX_CENTS : f32 := f32_of_Z 1000.

Record ScoringFeatures := {
  bid_price_norm : f32;
  segment_overlap_ratio : f32;
  segment_count_log1p : f32;
  device_desktop : f32;
  device_mobile : f32;
  device_tablet : f32;
  device_ctv : f32;
  hour_of_day_norm : f32;
  is_weekend : f32;
  geo_top_market : f32;
  format_banner : f32;
  format_video : f32;
  format_native : f32;
}.

(** [if b { 1.0 } else { 0.0 }] *)
Definition flag (b : bool) : f32 := f32_of_Z (Z.b2z b).

Section Features.
(** [f32::ln], as the platform computes it. *)
Context (ln : f32 -> f32).

Definition extract (c : AdCandidate) (ctx : ScoringContext) : ScoringFeatures :=
  let n_segments := length (sc_segment_ids ctx) in
  let device d := flag (bool_decide (sc_device_type ctx = Some d)) in
  let format f := flag (bool_decide (sc_ad_format ctx = Some f)) in
  {| bid_price_norm :=
       fclamp (f32_of_Z 0) (f32_of_Z 1) (f32_div (f32_of_Z (ac_bid_price_cents c)) BID_PRICE_MAX_CENTS);
     segment_overlap_ratio :=
       if Nat.eqb n_segments 0 then f32_of_Z 0
       else f32_div (f32_of_Z (ac_campaign_id c mod 10)) (f32_of_Z 10);
     segment_count_log1p := ln (f32_add (f32_of_Z (Z.of_nat n_segments)) (f32_of_Z 1));
     device_desktop := device Desktop; device_mobile := device Mobile;
     device_tablet := device Tablet; device_ctv := device Ctv;
     hour_of_day_norm := f32_div (f32_of_Z (Z.min (sc_hour_of_day ctx) 23)) (f32_of_Z 23);
     is_weekend := flag (sc_is_weekend ctx);
     geo_top_market := flag (sc_is_top_market ctx);
     format_banner := format AdFormat.Banner; format_video := format AdFormat.Video;
     format_native := format AdFormat.Native |}.

(** [pack_into] a zeroed row of [FEATURE_COUNT] cells. *)
Definition pack (f : ScoringFeatures) : list f32 :=
  [bid_price_norm f; segment_overlap_ratio f; segment_count_log1p f; device_desktop f; device_mobile f;
   device_tablet f; device_ctv f; hour_of_day_norm f; is_weekend f; geo_top_market f;
   format_banner f; format_video f; format_native f].

(** ** [MLScorer] *)

Record MLScorerConfig := {
  model_path : string;
  parity_path : option string;
  input_tensor_name : string;
  output_tensor_name : string;
  pool_size : nat;
  max_batch : nat;
  batch_pad_to : nat;
}.

Definition validate (cfg : MLScorerConfig) : Result unit string :=
  if Nat.eqb (pool_size cfg) 0 then Err "MLScorerConfig.pool_size must be >= 1"%string
  else if Nat.eqb (max_batch cfg) 0 then Err "MLScorerConfig.max_batch must be >= 1"%string
  else if Nat.eqb (batch_pad_to cfg) 0 then Err "MLScorerConfig.batch_pad_to must be >= 1"%string
  else Ok tt.

(** An ONNX session: a batch of rows to the output tensor's data, or an error. *)
Definition Session : Type := list (list f32) -> Result (list f32) string.

(** The pool and round-robin index of the current snapshot.  The watcher replaces it
    at any time: [ml_stores] is what it stores before each load of the snapshot to
    come, if anything. *)
Record MLScorer (F : Type) := {
  ml_cfg : MLScorerConfig;
  ml_sessions : list Session;
  ml_next : Z;
  ml_fallback : option F;
  ml_stores : list (option (list Session));
}.
#[global] Arguments ml_cfg {F}.
#[global] Arguments ml_sessions {F}.
#[global] Arguments ml_next {F}.
#[global] Arguments ml_fallback {F}.
#[global] Arguments ml_stores {F}.
#[global] Arguments Build_MLScorer {F}.

(** [self.snapshot.load()] *)
Definition load_snapshot {F} (s : MLScorer F) : MLScorer F :=
  match ml_stores s with
  | [] => s
  | None :: stores => Build_MLScorer (ml_cfg s) (ml_sessions s) (ml_next s) (ml_fallback s) stores
  | Some pool :: stores => Build_MLScorer (ml_cfg s) pool 0 (ml_fallback s) stores
  end.

(** [pick]: round robin; the pool is not empty for a validated configuration. *)
Definition pick {F} (s : MLScorer F) : option Session * MLScorer F :=
  (ml_sessions s !! Z.to_nat (ml_next s mod Z.of_nat (length (ml_sessions s))),
   Build_MLScorer (ml_cfg s) (ml_sessions s) (as_u64 (ml_next s + 1)) (ml_fallback s) (ml_stores s)).

(** [n.div_ceil(pad) * pad] *)
Definition padded (n pad : nat) : nat := ((n + pad - 1) / pad * pad)%nat.

Definition batch_rows (cfg : MLScorerConfig) (l : list AdCandidate) (ctx : ScoringContext) : list (list f32) :=
  ((fun c => pack (extract c ctx)) <$> l) ++
  replicate (padded (length l) (batch_pad_to cfg) - length l) (replicate FEATURE_COUNT (f32_of_Z 0)).

Definition score_batch {F} (s : MLScorer F) (l : list AdCandidate) (ctx : ScoringContext)
  : Result (list AdCandidate) string * MLScorer F :=
  match l with
  | [] => (Ok [], s)
  | _ =>
      let '(session, s') := pick (load_snapshot s) in
      match session with
      | None => (Err "empty pool"%string, s')
      | Some run =>
          match run (batch_rows (ml_cfg s) l ctx) with
          | Err e => (Err e, s')
          | Ok data => if Nat.ltb (length data) (length l) then (Err "short output"%string, s')
                       else (Ok (zip_with with_score l data), s')
          end
      end
  end.

(** The chunk loop: the scored candidates, or the error of the first chunk that
    failed.  [fuel] bounds the number of chunks. *)
Fixpoint score_chunks {F} (fuel : nat) (s : MLScorer F) (l : list AdCandidate) (ctx : ScoringContext)
  : Result (list AdCandidate) string * MLScorer F :=
  match l, fuel with
  | [], _ => (Ok [], s)
  | _, O => (Err "fuel"%string, s)
  | _, S fuel =>
      let chunk := take (max_batch (ml_cfg s)) l in
      match score_batch s chunk ctx with
      | (Err e, s') => (Err e, s')
      | (Ok chunk', s') =>
          match score_chunks fuel s' (drop (max_batch (ml_cfg s)) l) ctx with
          | (Err e, s'') => (Err e, s'')
          | (Ok rest, s'') => (Ok (chunk' ++ rest), s'')
          end
      end
  end.

Definition reset_scores (l : list AdCandidate) : list AdCandidate :=
  (fun c => with_score c (f32_of_Z 0)) <$> l.

(** On any chunk failure every score is wiped and the whole batch goes to the
    fallback, if there is one. *)
Definition ml_score_all {F} `{Scorer F} (s : MLScorer F) (l : list AdCandidate) (ctx : ScoringContext)
  : list AdCandidate * MLScorer F :=
  match score_chunks (length l) s l ctx with
  | (Ok l', s') => (l', s')
  | (Err _, s') =>
      match ml_fallback s' with
      | None => (reset_scores l, s')
      | Some f => let '(l', f') := score_all f (reset_scores l) ctx in
                  (l', Build_MLScorer (ml_cfg s') (ml_sessions s') (ml_next s') (Some f') (ml_stores s'))
      end
  end.

Definition ml_scorer {F} `{Scorer F} : Scorer (MLScorer F) := {| score_all := ml_score_all |}.
End Features.

(** ** Lemmas: sorting *)
Section Sort.
Context {A : Type} (cmp : A -> A -> comparison) (P : A -> Prop).
Hypothesis cmp_flip : forall a b, P a -> P b -> cmp a b = Gt -> cmp b a <> Gt.
Hypothesis cmp_le_trans : forall a b c, P a -> P b -> P c -> cmp a b <> Gt -> cmp b c <> Gt -> cmp a c <> Gt.

Lemma insert_sorted_perm a l : insert_sorted cmp a l ≡ₚ a :: l.
Proof.
  induction l as [|b l IH]; simpl; [done|]. destruct (cmp a b); try done.
  rewrite IH. apply Permutation_swap.
Qed.

Lemma sort_by_perm l : sort_by cmp l ≡ₚ l.
Proof. induction l as [|a l IH]; simpl; [done|]. by rewrite insert_sorted_perm, IH. Qed.

Lemma insert_sorted_sorted a l : P a -> Forall P l ->
  StronglySorted (fun x y => cmp x y <> Gt) l -> StronglySorted (fun x y => cmp x y <> Gt) (insert_sorted cmp a l).
Proof.
  intros Ha Hl Hs. induction Hs as [|b l Hs IH Hb]; simpl; [by repeat constructor|].
  apply Forall_cons in Hl as [Hpb Hl]. destruct (cmp a b) eqn:E.
  3: { constructor; [auto|]. rewrite insert_sorted_perm. constructor; [by apply cmp_flip|done]. }
  all: constructor; [by constructor|]; constructor; [congruence|].
  all: rewrite Forall_forall in Hb, Hl |- *; intros x Hx; eapply (cmp_le_trans a b x); auto; congruence.
Qed.

Lemma sort_by_sorted l : Forall P l -> StronglySorted (fun x y => cmp x y <> Gt) (sort_by cmp l).
Proof.
  induction l as [|a l IH]; simpl; [constructor|]. intros [Ha Hl]%Forall_cons.
  apply insert_sorted_sorted; [done|by rewrite sort_by_perm|auto].
Qed.
End Sort.

(** Scores that are numbers are totally preordered. *)
Lemma cmp_or_equal_flip a b : is_nan a = false -> is_nan b = false ->
  cmp_or_equal a b = Gt -> cmp_or_equal b a <> Gt.
Proof.
  unfold cmp_or_equal. intros Ha Hb. rewrite (fcmp_antisym a b). destruct (fcmp_some a b Ha Hb) as [c ->].
  simpl. intros ->. done.
Qed.

Lemma cmp_or_equal_le a b : cmp_or_equal a b <> Gt <-> fcmp a b <> Some Gt.
Proof. unfold cmp_or_equal. destruct (fcmp a b) as [[]|]; simpl; split; congruence. Qed.

Lemma cmp_or_equal_trans a b c : is_nan a = false -> is_nan b = false -> is_nan c = false ->
  cmp_or_equal a b <> Gt -> cmp_or_equal b c <> Gt -> cmp_or_equal a c <> Gt.
Proof. rewrite !cmp_or_equal_le. apply fcmp_trans. Qed.

(** ** Lemmas: the cascade *)
Section CascadeLemmas.
Context (k : nat) (th : f32) (l : list AdCandidate).
Hypothesis Hkeys : NoDup (key <$> l).
Hypothesis Hnum : Forall (fun c => is_nan (ac_score c) = false) l.

Definition ranked : list (Z * Z * f32) :=
  filter (fun p => fge p.2 th = true)
    (sort_by (fun a b => cmp_or_equal b.2 a.2) ((fun c => (key c, ac_score c)) <$> l)).

Lemma elem_of_ranked kc s :
  (kc, s) ∈ ranked <-> fge s th = true /\ exists c, c ∈ l /\ key c = kc /\ ac_score c = s.
Proof.
  unfold ranked. rewrite list_elem_of_filter, sort_by_perm, list_elem_of_fmap. simpl. naive_solver.
Qed.

Lemma ranked_sorted : StronglySorted (fun a b => cmp_or_equal b.2 a.2 <> Gt) ranked.
Proof.
  unfold ranked. apply StronglySorted_filter.
  apply (sort_by_sorted _ (fun p : Z * Z * f32 => is_nan p.2 = false)).
  - intros a b Ha Hb Hgt. apply (cmp_or_equal_flip b.2 a.2 Hb Ha Hgt).
  - intros a b c Ha Hb Hc H1 H2. apply (cmp_or_equal_trans c.2 b.2 a.2 Hc Hb Ha H2 H1).
  - rewrite Forall_fmap. exact Hnum.
Qed.

Lemma ranked_keys_NoDup : NoDup ranked.*1.
Proof.
  unfold ranked. apply NoDup_fmap_filter. rewrite sort_by_perm, <- list_fmap_compose. exact Hkeys.
Qed.

(** The candidates at or above the threshold. *)
Definition eligible : list AdCandidate := filter (fun c => fge (ac_score c) th = true) l.

Lemma length_ranked : length ranked = length eligible.
Proof.
  unfold ranked, eligible. clear. rewrite sort_by_perm. induction l as [|c l' IH]; [done|]. rewrite fmap_cons, !filter_cons. cbn [snd].
  case_decide; cbn [length]; [f_equal|]; exact IH.
Qed.

Lemma advance_keys_take :
  advance_keys k th l = (take (if Nat.eqb k 0 then length ranked else Nat.min k (length ranked)) ranked).*1.
Proof.
  unfold advance_keys. fold ranked. rewrite length_fmap. destruct (Nat.eqb_spec k 0) as [->|Hk].
  { cbn [Nat.ltb Nat.leb andb]. by rewrite take_ge. }
  rewrite (proj2 (Nat.ltb_lt 0 k)) by lia. cbn [andb]. destruct (Nat.ltb_spec k (length ranked)).
  - rewrite Nat.min_l by lia. by rewrite fmap_take.
  - by rewrite Nat.min_r, take_ge by lia.
Qed.

Lemma key_score c kc s : c ∈ l -> (kc, s) ∈ ranked -> key c = kc -> s = ac_score c.
Proof.
  intros Hc (_ & c' & Hc' & Hk & <-)%elem_of_ranked <-.
  assert (c = c') as ->; [|done].
  apply list_elem_of_lookup in Hc as [i Hi]. apply list_elem_of_lookup in Hc' as [j Hj].
  assert (i = j) as ->; [|congruence].
  apply (NoDup_lookup (key <$> l) i j (key c)); [done|rewrite list_lookup_fmap, Hi; done|].
  rewrite list_lookup_fmap, Hj. simpl. by rewrite Hk.
Qed.

Lemma elem_of_advance_keys n c : c ∈ l -> key c ∈ (take n ranked).*1 -> (key c, ac_score c) ∈ take n ranked.
Proof.
  intros Hc ([kc s] & Hk & Hin)%list_elem_of_fmap. simpl in Hk. subst.
  assert ((key c, s) ∈ ranked) as Hr by (apply elem_of_take in Hin as (i & Hi & _); by eapply list_elem_of_lookup_2).
  by rewrite <- (key_score c (key c) s).
Qed.

Lemma stage2_batch_length n : length (stage2_batch (take n ranked).*1 l) = Nat.min n (length ranked).
Proof.
  rewrite <- length_take, <- (length_fmap fst (take n ranked)), <- (length_fmap key (stage2_batch _ l)). apply Permutation_length.
  apply NoDup_Permutation.
  - by apply NoDup_fmap_filter.
  - rewrite fmap_take. eapply sublist_NoDup; [apply ranked_keys_NoDup|apply sublist_take].
  - intros x. split.
    + intros (c & -> & Hc)%list_elem_of_fmap. by apply list_elem_of_filter in Hc as [? _].
    + intros Hx. pose proof Hx as ([kc s] & -> & Hin)%list_elem_of_fmap.
      assert ((kc, s) ∈ ranked) as (_ & c & Hc & <- & _)%elem_of_ranked
        by (apply elem_of_take in Hin as (i & Hi & _); by eapply list_elem_of_lookup_2).
      cbn [fst] in *. apply list_elem_of_fmap_2, list_elem_of_filter. by split.
Qed.

Lemma stage2_batch_eligible n : stage2_batch (take n ranked).*1 l `sublist_of` eligible.
Proof.
  replace (stage2_batch _ l) with (filter (fun c => key c ∈ (take n ranked).*1) eligible); [apply sublist_filter|].
  unfold eligible, stage2_batch. rewrite list_filter_filter. apply filter_ext_in. intros c Hc. split; [tauto|]. intros Hk.
  split; [done|]. apply elem_of_advance_keys in Hk; [|done].
  apply elem_of_take in Hk as (i & Hi & _). by apply list_elem_of_lookup_2, elem_of_ranked in Hi as [? _].
Qed.

(** A candidate left behind scores no better than one that advances. *)
Lemma left_behind_le n c c' :
  c ∈ l -> c' ∈ l -> key c ∈ (take n ranked).*1 -> key c' ∉ (take n ranked).*1 ->
  fge (ac_score c') th = true -> cmp_or_equal (ac_score c') (ac_score c) <> Gt.
Proof.
  intros Hc Hc' Hin Hout Hth. pose proof ranked_sorted as Hs. rewrite <- (take_drop n ranked) in Hs.
  apply (StronglySorted_app_1_elem_of _ _ _ (key c, ac_score c) (key c', ac_score c')) in Hs; [done| |].
  - by apply elem_of_advance_keys.
  - assert ((key c', ac_score c') ∈ ranked) as Hr by (apply elem_of_ranked; eauto).
    rewrite <- (take_drop n ranked), elem_of_app in Hr. destruct Hr as [Hr|Hr]; [|done].
    exfalso. apply Hout, list_elem_of_fmap. by exists (key c', ac_score c').
Qed.
End CascadeLemmas.

Lemma score_map_keys l kc s : score_map l !! kc = Some s -> kc ∈ key <$> l.
Proof.
  unfold score_map. induction l as [|c l IH] using rev_ind; [simpl; by rewrite lookup_empty|].
  rewrite foldl_snoc, fmap_app, elem_of_app. destruct (decide (key c = kc)) as [<-|Hne].
  - intros _. right. rewrite fmap_cons. set_solver.
  - rewrite lookup_insert_ne by done. auto.
Qed.

Lemma score_map_lookup l c : NoDup (key <$> l) -> c ∈ l -> score_map l !! key c = Some (ac_score c).
Proof.
  unfold score_map. induction l as [|c' l IH] using rev_ind; [by intros _ ?%elem_of_nil|].
  rewrite foldl_snoc, fmap_app. intros (Hn & Hd & _)%NoDup_app [Hc|Hc]%elem_of_app.
  - rewrite lookup_insert_ne; [auto|]. intros E. apply (Hd (key c)); [by apply list_elem_of_fmap_2|]. rewrite <- E. set_solver.
  - apply list_elem_of_singleton in Hc as ->. apply lookup_insert_eq.
Qed.

Lemma key_unscored c : key (unscored c) = key c.
Proof. done. Qed.

Lemma keys_of_unscored (l1 l2 : list AdCandidate) : unscored <$> l1 = unscored <$> l2 -> key <$> l1 = key <$> l2.
Proof.
  intros Heq. assert (forall l : list AdCandidate, key <$> l = key <$> (unscored <$> l)) as Hk.
  { intros l. rewrite <- list_fmap_compose. by apply list_fmap_ext. }
  by rewrite (Hk l1), (Hk l2), Heq.
Qed.

(** ** Lemmas: batched inference *)

(** The pool that serves the [k]-th load to come. *)
Definition pool_at {F} (s : MLScorer F) (k : nat) : list Session :=
  foldl (fun pool store => unwrap_or store pool) (ml_sessions s) (take (S k) (ml_stores s)).

(** A session that scores row by row and rejects a batch with a bad row. *)
Definition row_wise (good : list f32 -> bool) (f : list f32 -> f32) (e : string) (run : Session) : Prop :=
  forall rows, run rows = if forallb good rows then Ok (f <$> rows) else Err e.

Section MLLemmas.
Context (ln : f32 -> f32) {F : Type} (e : string).
Implicit Types (good : list f32 -> bool) (f : list f32 -> f32) (s : MLScorer F) (l : list AdCandidate) (ctx : ScoringContext).

Definition good_candidate good ctx (c : AdCandidate) : bool := good (pack (extract ln c ctx)).
Definition model_score f ctx (c : AdCandidate) : AdCandidate := with_score c (f (pack (extract ln c ctx))).
Definition zero_row_ok good : Prop := good (replicate FEATURE_COUNT (f32_of_Z 0)) = true.

Lemma batch_rows_good good cfg l ctx : zero_row_ok good ->
  forallb good (batch_rows ln cfg l ctx) = forallb (good_candidate good ctx) l.
Proof.
  intros Hzero. unfold batch_rows. rewrite forallb_app. rewrite (proj2 (forallb_forall good (replicate _ _))).
  - rewrite andb_true_r. induction l as [|c l IH]; [done|]. rewrite fmap_cons. cbn [forallb]. by rewrite IH.
  - intros row Hrow%list_elem_of_In. apply elem_of_replicate in Hrow as [-> _]. done.
Qed.

Lemma zip_scores f l (rest : list f32) ctx :
  zip_with with_score l ((f <$> ((fun c => pack (extract ln c ctx)) <$> l)) ++ rest) = model_score f ctx <$> l.
Proof. induction l as [|c l IH]; simpl; [done|]. unfold model_score at 1. f_equal. exact IH. Qed.

(** A pool that is not empty and whose sessions run one row-wise model. *)
Definition pool_ok good f (pool : list Session) : Prop := pool <> [] /\ Forall (row_wise good f e) pool.

Lemma pick_ok good f s : pool_ok good f (ml_sessions s) -> exists run, (pick s).1 = Some run /\ row_wise good f e run.
Proof.
  intros [Hne Hall]. unfold pick. simpl.
  assert (Z.to_nat (ml_next s mod Z.of_nat (length (ml_sessions s))) < length (ml_sessions s))%nat as Hlt.
  { assert (length (ml_sessions s) <> 0%nat) by (by destruct (ml_sessions s)).
    pose proof (Z.mod_pos_bound (ml_next s) (Z.of_nat (length (ml_sessions s)))). lia. }
  apply lookup_lt_is_Some_2 in Hlt as [run Hrun]. exists run. split; [done|].
  rewrite Forall_forall in Hall. apply Hall. by eapply list_elem_of_lookup_2.
Qed.

(** A load uses up one step of the watcher. *)
Lemma load_snapshot_spec s :
  ml_sessions (load_snapshot s) = pool_at s 0 /\ (forall k, pool_at (load_snapshot s) k = pool_at s (S k)) /\
  ml_cfg (load_snapshot s) = ml_cfg s /\ ml_fallback (load_snapshot s) = ml_fallback s.
Proof. unfold load_snapshot, pool_at. by destruct s as [? ? ? ? [|[pool|] stores]]. Qed.

Lemma score_batch_ok good f s l ctx : zero_row_ok good -> pool_ok good f (pool_at s 0) -> l <> [] ->
  (score_batch ln s l ctx).1 = (if forallb (good_candidate good ctx) l then Ok (model_score f ctx <$> l) else Err e) /\
  (forall k, pool_at (score_batch ln s l ctx).2 k = pool_at s (S k)) /\
  ml_cfg (score_batch ln s l ctx).2 = ml_cfg s /\ ml_fallback (score_batch ln s l ctx).2 = ml_fallback s.
Proof.
  intros Hzero Hp Hl. destruct (load_snapshot_spec s) as (Hpool & Hnext & Hcfg & Hfb). rewrite <- Hpool in Hp.
  destruct (pick_ok good f (load_snapshot s) Hp) as (run & Hpick & Hrun).
  assert (score_batch ln s l ctx = (if forallb (good_candidate good ctx) l then Ok (model_score f ctx <$> l) else Err e,
    (pick (load_snapshot s)).2)) as ->; [|cbn; split_and!; [done|exact Hnext|done..]].
  unfold score_batch. destruct l as [|c l]; [done|]. set (l0 := c :: l) in *.
  destruct (pick (load_snapshot s)) as [session s']. cbn [fst] in Hpick. subst session.
  rewrite Hrun, batch_rows_good by done. destruct (forallb (good_candidate good ctx) l0); [|done].
  unfold batch_rows. rewrite fmap_app.
  replace (Nat.ltb _ _) with false; [simpl; by rewrite zip_scores|].
  symmetry. apply Nat.ltb_ge. rewrite length_app, !length_fmap. lia.
Qed.

Lemma score_chunks_step fuel s l ctx : l <> [] ->
  score_chunks ln (S fuel) s l ctx =
  match score_batch ln s (take (max_batch (ml_cfg s)) l) ctx with
  | (Err e, s') => (Err e, s')
  | (Ok chunk', s') =>
      match score_chunks ln fuel s' (drop (max_batch (ml_cfg s)) l) ctx with
      | (Err e, s'') => (Err e, s'')
      | (Ok rest, s'') => (Ok (chunk' ++ rest), s'')
      end
  end.
Proof. by destruct l. Qed.

(** The model that serves each candidate: the one of its chunk's load. *)
Definition all_good (mb : nat) (good : nat -> list f32 -> bool) ctx l : bool :=
  forallb (fun b => b) (imap (fun i c => good_candidate (good (i / mb)%nat) ctx c) l).
Definition scored_by_chunk (mb : nat) (f : nat -> list f32 -> f32) ctx l : list AdCandidate :=
  imap (fun i c => model_score (f (i / mb)%nat) ctx c) l.

Lemma all_good_iff mb (good : nat -> list f32 -> bool) ctx l :
  all_good mb good ctx l = true <-> forall i c, l !! i = Some c -> good_candidate (good (i / mb)%nat) ctx c = true.
Proof.
  unfold all_good. rewrite forallb_forall. split.
  - intros Hall i c Hc. apply Hall, list_elem_of_In, list_elem_of_lookup. exists i. by rewrite list_lookup_imap, Hc.
  - intros Hall b (i & Hi)%list_elem_of_In%list_elem_of_lookup. rewrite list_lookup_imap in Hi.
    apply fmap_Some in Hi as (c & Hc & ->). by apply Hall.
Qed.

Lemma imap_chunks {A} mb (g : nat -> AdCandidate -> A) l : (0 < mb)%nat ->
  imap (fun i c => g (i / mb)%nat c) l =
  (g 0%nat <$> take mb l) ++ imap (fun i c => g (S (i / mb)) c) (drop mb l).
Proof.
  intros Hmb. rewrite <- (take_drop mb l) at 1. rewrite imap_app. f_equal.
  - rewrite <- (imap_const (g 0%nat)). apply imap_ext. intros i c Hi%lookup_lt_Some. rewrite length_take in Hi.
    by rewrite Nat.div_small by lia.
  - apply imap_ext. intros i c Hi. apply lookup_lt_Some in Hi. rewrite length_drop in Hi. rewrite length_take.
    cbn. replace (Nat.min mb (length l) + i)%nat with (1 * mb + i)%nat by lia. by rewrite Nat.div_add_l by lia.
Qed.

Lemma all_good_chunks mb (good : nat -> list f32 -> bool) ctx l : (0 < mb)%nat -> all_good mb good ctx l =
  forallb (good_candidate (good 0%nat) ctx) (take mb l) && all_good mb (fun k => good (S k)) ctx (drop mb l).
Proof.
  intros Hmb. unfold all_good. rewrite (imap_chunks mb (fun k c => good_candidate (good k) ctx c)) by done.
  rewrite forallb_app. f_equal. induction (take mb l) as [|c l' IH]; [done|]. rewrite fmap_cons. cbn [forallb]. by rewrite IH.
Qed.

Lemma score_chunks_ok fuel s l ctx (good : nat -> list f32 -> bool) (f : nat -> list f32 -> f32) :
  (forall k, zero_row_ok (good k)) -> (forall k, pool_ok (good k) (f k) (pool_at s k)) ->
  (0 < max_batch (ml_cfg s))%nat -> (length l <= fuel)%nat ->
  (score_chunks ln fuel s l ctx).1 =
    (if all_good (max_batch (ml_cfg s)) good ctx l then Ok (scored_by_chunk (max_batch (ml_cfg s)) f ctx l) else Err e) /\
  ml_fallback (score_chunks ln fuel s l ctx).2 = ml_fallback s.
Proof.
  intros Hzero. revert s l good f Hzero; induction fuel as [|fuel IH]; intros s l good f Hzero Hp Hb Hlen.
  { destruct l; simpl in *; [done|lia]. }
  destruct (decide (l = [])) as [->|Hl]; [done|]. rewrite score_chunks_step by done. set (mb := max_batch (ml_cfg s)) in *.
  destruct (score_batch_ok (good 0%nat) (f 0%nat) s (take mb l) ctx (Hzero 0%nat) (Hp 0%nat)) as (Hr & Hp' & Hc' & Hf').
  { destruct l, mb; [done|done|lia|done]. }
  destruct (score_batch ln s (take mb l) ctx) as [r s']. cbn [fst snd] in *. subst r.
  assert (length l <> 0%nat) by (by destruct l).
  destruct (IH s' (drop mb l) (fun k => good (S k)) (fun k => f (S k))) as [Hrest Hfb];
    [auto|intros k; rewrite Hp'; apply Hp|by rewrite Hc'|rewrite length_drop; lia|].
  rewrite Hc' in Hrest. fold mb in Hrest. rewrite all_good_chunks by done. unfold scored_by_chunk at 1.
  rewrite (imap_chunks mb (fun k c => model_score (f k) ctx c)) by done.
  destruct (forallb (good_candidate (good 0%nat) ctx) (take _ l)); [|done]. cbn [andb].
  destruct (score_chunks ln fuel s' _ ctx) as [r s'']. cbn [fst snd] in *. subst r.
  by destruct (all_good _ _ _ (drop mb l)); cbn [fst snd]; rewrite Hfb.
Qed.
End MLLemmas.

(** ** Properties *)

(** [C35] Batched inference is all or nothing and transparent: with a validated
    configuration and models that score each row by itself and reject a batch
    containing a row they cannot score, every candidate gets the score of its own
    feature row, whatever the batch size, the padding and the session that served
    it, by the model that was current when its batch of [max_batch] began, so one
    request's candidates are scored by several models when the watcher reloads in
    between; and if any row anywhere is rejected, no model score survives: all
    scores are reset and the fallback, if configured, scores the whole batch.  A
    NaN is a score like any other here: it rejects nothing and calls no fallback. *)
Theorem ml_scores_all_or_nothing {F} `{Scorer F} (ln : f32 -> f32) (good : nat -> list f32 -> bool)
    (f : nat -> list f32 -> f32) (e : string) (s : MLScorer F) (l : list AdCandidate) (ctx : ScoringContext)
    (Hcfg : validate (ml_cfg s) = Ok tt)
    (Hpools : forall k, pool_at s k <> [] /\ Forall (row_wise (good k) (f k) e) (pool_at s k))
    (Hzero : forall k, good k (replicate FEATURE_COUNT (f32_of_Z 0)) = true) :
  let row c := pack (extract ln c ctx) in
  let model i := (i / max_batch (ml_cfg s))%nat in
  ((forall i c, l !! i = Some c -> good (model i) (row c) = true) ->
   (ml_score_all ln s l ctx).1 = imap (fun i c => with_score c (f (model i) (row c))) l) /\
  ((exists i c, l !! i = Some c /\ good (model i) (row c) = false) ->
   (ml_score_all ln s l ctx).1 = match ml_fallback s with
                                | None => reset_scores l
                                | Some fb => (score_all fb (reset_scores l) ctx).1
                                end).
Proof.
  intros row model. unfold validate in Hcfg. destruct (Nat.eqb (pool_size _) 0); [done|].
  destruct (Nat.eqb (max_batch _) 0) eqn:Em; [done|]. apply Nat.eqb_neq in Em.
  destruct (score_chunks_ok ln e (length l) s l ctx good f) as [Hr Hf]; [done|done|lia|done|].
  unfold ml_score_all. destruct (score_chunks ln (length l) s l ctx) as [r s']. cbn [fst snd] in *. subst r. split.
  - intros Hgood. by rewrite (proj2 (all_good_iff ln _ good ctx l) Hgood).
  - intros (i & c & Hc & Hbad). destruct (all_good ln _ good ctx l) eqn:Eg.
    { pose proof (proj1 (all_good_iff ln _ good ctx l) Eg i c Hc) as Hx. unfold good_candidate in Hx.
      fold (row c) (model i) in Hx. congruence. }
    rewrite Hf. destruct (ml_fallback s) as [fb|]; [|done]. by destruct (score_all fb _ ctx).
Qed.

Definition sample_ad (id price : Z) : AdCandidate := {|
  ac_campaign_id := id; ac_creative_id := id; ac_bid_price_cents := price; ac_score := f32_of_Z 0;
  ac_daily_cap_imps := 10; ac_hourly_cap_imps := 3 |}.

Definition sample_ctx : ScoringContext := {|
  sc_segment_ids := [10]; sc_device_type := Some Mobile; sc_ad_format := Some AdFormat.Banner;
  sc_hour_of_day := 12; sc_is_weekend := false; sc_user_id := "u1"; sc_is_top_market := false |}.

(** Three candidates in batches of two, padded to four rows, over two sessions
    that echo the normalised price; the model reloaded between the batches answers
    NaN to everything, which the third candidate keeps. *)
Lemma ml_scores_all_or_nothing_witness :
  let f (k : nat) (row : list f32) := match k with O => unwrap_or (head row) (f32_of_Z 0) | _ => S754_nan end in
  let session k : Session := fun rows => Ok (f k <$> rows) in
  let s := Build_MLScorer {| model_path := "m.onnx"; parity_path := None; input_tensor_name := "features";
                               output_tensor_name := "pctr"; pool_size := 2; max_batch := 2; batch_pad_to := 4 |}
             [session 0%nat; session 0%nat] 0 (Some FeatureWeightedScorer_default) [None; Some [session 1%nat; session 1%nat]] in
  ac_score <$> (ml_score_all (fun x => x) s [sample_ad 1 250; sample_ad 2 500; sample_ad 3 2000] sample_ctx).1
  = [f32_lit 1 4; f32_lit 1 2; S754_nan].
Proof.
  intros f session s.
  destruct (ml_scores_all_or_nothing (fun x => x) (fun _ _ => true) f "unused" s
    [sample_ad 1 250; sample_ad 2 500; sample_ad 3 2000] sample_ctx) as [Hs _]; [done| |done|].
  - assert (forall rows : list (list f32), forallb (fun _ => true) rows = true) as Hall.
    { intros rows. induction rows; done. }
    intros [|k]; (split; [by destruct k || done|]); [|destruct k]; repeat constructor; intros rows; by rewrite Hall.
  - rewrite Hs by done. vm_compute. reflexivity.
Defined.



Lemma bytes_app s1 s2 : bytes (s1 +:+ s2) = bytes s1 ++ bytes s2.
Proof.
  induction s1 as [|c s1 IH]; [done|]. change (byte_of c :: bytes (s1 +:+ s2) = byte_of c :: bytes s1 ++ bytes s2).
  by rewrite IH.
Qed.

(** The experiment hash is the 64-bit FNV-1a digest of the bytes of
    [seed|user_id], and a [u64]: the three loops of the code are one pass over
    the concatenation. *)
Theorem fnv1a_is_digest_of_concat (seed user_id : string) :
  fnv1a seed user_id = foldl fnv_step FNV_OFFSET (bytes (seed +:+ "|" +:+ user_id)) /\
  in_u64 (fnv1a seed user_id).
Proof.
  split.
  - unfold fnv1a. rewrite !bytes_app, !foldl_app. done.
  - unfold fnv1a. induction (bytes user_id) as [|b l IH] using rev_ind; [apply as_u64_range|].
    rewrite foldl_snoc. apply as_u64_range.
Qed.

(** A published FNV-1a vector, for the constants. *)
Example fnv1a_vector : foldl fnv_step FNV_OFFSET (bytes "foobar") = 0x85944171f73967e8.
Proof. reflexivity. Qed.

(** Ramping an experiment up moves no user out of treatment: a user assigned
    to treatment stays there when the share is raised, so per-user samples remain
    comparable across a roll-out; with share 0 everyone and with any share an
    anonymous user is in control. *)
Theorem ramp_up_keeps_treatment {S1 S2} (c : S1) (t : S2) (seed user : string) (share share' : f32)
    (Hup : fle share share' = true) :
  pick_arm (Build_ABTestScorer c t share seed) "" = Control /\
  pick_arm (Build_ABTestScorer c t (f32_of_Z 0) seed) user = Control /\
  (pick_arm (Build_ABTestScorer c t share seed) user = Treatment ->
   pick_arm (Build_ABTestScorer c t share' seed) user = Treatment).
Proof.
  split; [done|]. split; [unfold pick_arm; case_decide; reflexivity|].
  unfold pick_arm. cbn [treatment_share hash_seed]. case_decide; [done|].
  change (fge ?a ?b) with (fle b a).
  destruct (fle share' (f32_of_Z 0)) eqn:E0.
  { by rewrite (fle_trans share share' _ Hup E0). }
  destruct (fle (f32_of_Z 1) share') eqn:E1; [done|].
  destruct (fle share (f32_of_Z 0)); [done|].
  destruct (fle (f32_of_Z 1) share) eqn:E2; [by rewrite (fle_trans _ _ _ E2 Hup) in E1|].
  destruct (flt _ share) eqn:E3; [|done]. by rewrite (flt_le_trans _ _ _ E3 Hup).
Qed.

Lemma ramp_up_keeps_treatment_witness :
  let ab share := Build_ABTestScorer tt tt share "exp" in
  pick_arm (ab (f32_of_Z 1)) "user-1" = Treatment.
Proof.
  intros ab. apply (ramp_up_keeps_treatment tt tt "exp" "user-1" (f32_lit 9 10) (f32_of_Z 1)); vm_compute; reflexivity.
Defined.
