(* ===== verification/Ml.v ===== *)
(** * Loading and replacing the ML model, and building the scorer

    [bidder-core/src/scoring/ml.rs]: building a snapshot (a pool of sessions),
    the construction with its parity check, and the watcher's reload loop;
    [build_scorer_root] and its helpers of [bidder-server/src/main.rs], which turn
    the [[scoring]] section into a tree of scorers.  The ONNX runtime, the file
    system and [serde_json] are parameters: what loading the model file gives,
    what a loaded session computes, what a file contains, how a line parses. *)
From S2P Require Import Prelude Floats Text Path Config OpenRtb Bitmap Catalog Model Scoring.

Section Ml.
(** A loaded session, and [Session::run] with one named input: the output tensors
    by name. *)
Context {Raw : Type} (run_session : Raw -> string -> list (list f32) -> Result (list (string * list f32)) string).
(** [serde_json::from_str::<ParityPair>] *)
Context (parse_pair : list Z -> option (list f32 * f32)).
(** [f32::ln] *)
Context (ln : f32 -> f32).

(** ** Snapshots *)

Record ModelSnapshot := {
  sn_sessions : list Raw;
  sn_next : Z;
  sn_input_name : string;
  sn_output_name : string;
}.

(** What the file system gives: the outcome of the [i]-th session load from a
    path, and the text of a file. *)
Record Files := {
  fs_load : nat -> string -> Result Raw string;
  fs_read : string -> Result (list Z) string;
}.

(** Load [n] sessions, from number [i] on; the first failure is returned. *)
Fixpoint load_sessions (load : nat -> string -> Result Raw string) (path : string) (i n : nat)
  : Result (list Raw) string :=
  match n with
  | O => Ok []
  | S n =>
      match load i path with
      | Err e => Err e
      | Ok s => match load_sessions load path (S i) n with Err e => Err e | Ok l => Ok (s :: l) end
      end
  end.

Definition snapshot_build (fs : Files) (cfg : MLScorerConfig) : Result ModelSnapshot string :=
  match load_sessions (fs_load fs) (model_path cfg) 0 (pool_size cfg) with
  | Err e => Err e
  | Ok sessions => Ok {| sn_sessions := sessions; sn_next := 0;
                         sn_input_name := input_tensor_name cfg; sn_output_name := output_tensor_name cfg |}
  end.

(** [outputs.get(name)] *)
Fixpoint get_output (name : string) (outs : list (string * list f32)) : option (list f32) :=
  match outs with
  | [] => None
  | (n, data) :: outs => if bool_decide (n = name) then Some data else get_output name outs
  end.

(** A session of a snapshot, as the batch scoring uses it. *)
Definition session_of (sn : ModelSnapshot) (s : Raw) : Session := fun rows =>
  match run_session s (sn_input_name sn) rows with
  | Err e => Err e
  | Ok outs => match get_output (sn_output_name sn) outs with
               | None => Err ("missing output tensor " +:+ sn_output_name sn)%string
               | Some data => Ok data
               end
  end.

Definition sessions_of (sn : ModelSnapshot) : list Session := session_of sn <$> sn_sessions sn.

(** ** The parity check *)

Inductive ParityError :=
| Unreadable
| BadRecord (line_no : nat)
| WrongWidth (line_no : nat) (n : nat)
| NoSession
| RunFailed (line_no : nat) (e : string)
| EmptyOutput (line_no : nat)
| Drift (line_no : nat) (computed expected : f32)
| ZeroRecords.

(** [1e-4] *)
Definition PARITY_TOLERANCE : f32 := f32_lit 1 10000.

Definition check_line (session : option Session) (line_no : nat) (text : list Z) : Result unit ParityError :=
  match parse_pair text with
  | None => Err (BadRecord line_no)
  | Some (input, expected) =>
      if negb (Nat.eqb (length input) FEATURE_COUNT) then Err (WrongWidth line_no (length input))
      else match session with
           | None => Err NoSession
           | Some run =>
               match run [input] with
               | Err e => Err (RunFailed line_no e)
               | Ok [] => Err (EmptyOutput line_no)
               | Ok (computed :: _) =>
                   let drift := SFabs (f32_sub computed expected) in
                   if fgt drift PARITY_TOLERANCE then Err (Drift line_no computed expected) else Ok tt
               end
           end
  end.

(** The loop over the lines, from number [line_no] on, with [count] records read. *)
Fixpoint check_lines (session : option Session) (line_no count : nat) (ls : list (list Z)) : Result nat ParityError :=
  match ls with
  | [] => Ok count
  | l :: ls =>
      let trimmed := trim l in
      if is_empty trimmed then check_lines session (S line_no) count ls
      else match check_line session line_no trimmed with
           | Err e => Err e
           | Ok _ => check_lines session (S line_no) (S count) ls
           end
  end.

Definition verify_parity (fs : Files) (sn : ModelSnapshot) (parity_path : string) : Result unit ParityError :=
  match fs_read fs parity_path with
  | Err _ => Err Unreadable
  | Ok raw =>
      match check_lines (head (sessions_of sn)) 1 0 (lines raw) with
      | Err e => Err e
      | Ok count => if Nat.eqb count 0 then Err ZeroRecords else Ok tt
      end
  end.

(** ** Construction *)

Inductive MlError :=
| InvalidConfig (e : string)
| LoadFailed (e : string)
| ParityFailed (e : ParityError).

(** The scorer that serves a snapshot, until the watcher stores another. *)
Definition scorer_of {F} (cfg : MLScorerConfig) (fallback : option F) (sn : ModelSnapshot) : MLScorer F :=
  Build_MLScorer cfg (sessions_of sn) (sn_next sn) fallback [].

(** The snapshot is what the parity check and the watcher share. *)
Definition new_with_fallback {F} (fs : Files) (cfg : MLScorerConfig) (fallback : option F)
  : Result (MLScorer F * ModelSnapshot) MlError :=
  match validate cfg with
  | Err e => Err (InvalidConfig e)
  | Ok _ =>
      match snapshot_build fs cfg with
      | Err e => Err (LoadFailed e)
      | Ok sn =>
          match parity_path cfg with
          | None => Ok (scorer_of cfg fallback sn, sn)
          | Some path =>
              match verify_parity fs sn path with
              | Err e => Err (ParityFailed e)
              | Ok _ => Ok (scorer_of cfg fallback sn, sn)
              end
          end
      end
  end.

(** ** The watcher's reload loop *)

Inductive EventKind := EvModify | EvCreate | EvOther.
Record FsEvent := { ev_kind : EventKind; ev_paths : list string }.

Definition triggers_reload (cfg : MLScorerConfig) (ev : FsEvent) : bool :=
  existsb (fun p => bool_decide (p = model_path cfg)) (ev_paths ev) &&
  match ev_kind ev with EvModify | EvCreate => true | EvOther => false end.

(** One iteration: the debounce discards the events queued behind a reload, so
    each input is an event and the state of the files once it has been handled. *)
Definition reload_step (cfg : MLScorerConfig) (sn : ModelSnapshot) (ev : FsEvent * Files) : ModelSnapshot :=
  if triggers_reload cfg ev.1
  then match snapshot_build ev.2 cfg with Ok new => new | Err _ => sn end
  else sn.

Definition reload_loop (cfg : MLScorerConfig) (sn : ModelSnapshot) (evs : list (FsEvent * Files)) : ModelSnapshot :=
  foldl (reload_step cfg) sn evs.

(** [start_watcher]: whether the reload task runs.  The watcher and its [watch] are
    notify's. *)
Definition watch_target (cfg : MLScorerConfig) : string := unwrap_or (Path.parent (model_path cfg)) "."%string.
Definition start_watcher (new_watcher : Result unit string)
    (watch : string -> Result unit string) (cfg : MLScorerConfig) : bool :=
  is_ok new_watcher && is_ok (watch (watch_target cfg)).
(** The snapshot served once events have come, with or without the task. *)
Definition served (watching : bool) (cfg : MLScorerConfig) (sn : ModelSnapshot) (evs : list (FsEvent * Files)) : ModelSnapshot :=
  if watching then reload_loop cfg sn evs else sn.

(** ** Scorers as configured *)

(** [Arc<dyn Scorer>] for the scorers the configuration can name. *)
Inductive DynScorer :=
| DynFeatureWeighted (s : FeatureWeightedScorer)
| DynMl (s : MLScorer FeatureWeightedScorer)
| DynCascade (s : CascadeScorer DynScorer DynScorer)
| DynAbTest (s : ABTestScorer DynScorer DynScorer).

(** Dynamic dispatch. *)
Fixpoint dyn_score_all (s : DynScorer) (l : list AdCandidate) (ctx : ScoringContext) {struct s}
  : list AdCandidate * DynScorer :=
  match s with
  | DynFeatureWeighted s => let '(l', s') := score_all s l ctx in (l', DynFeatureWeighted s')
  | DynMl s => let '(l', s') := ml_score_all ln s l ctx in (l', DynMl s')
  | DynCascade c =>
      let '(l', c') := (match c with Build_CascadeScorer a b _ _ =>
        cascade_score_all (fun l ctx => dyn_score_all a l ctx) (fun l ctx => dyn_score_all b l ctx) c l ctx end) in
      (l', DynCascade c')
  | DynAbTest t =>
      let '(l', t') := (match t with Build_ABTestScorer a b _ _ =>
        ab_score_all (fun l ctx => dyn_score_all a l ctx) (fun l ctx => dyn_score_all b l ctx) t l ctx end) in
      (l', DynAbTest t')
  end.

#[global] Instance dyn_scorer : Scorer DynScorer := {| score_all := dyn_score_all |}.

Inductive BuildError :=
| CascadeMissing
| AbTestMissing
| MlMissing
| NotALeaf (where_in_config : string)
| NestedAbTest (where_in_config : string)
| MlFailed (e : MlError).

Definition ml_scorer_config (ml : MLConfig) : MLScorerConfig := {|
  model_path := ml_model_path ml; parity_path := ml_parity_path ml;
  input_tensor_name := ml_input_tensor_name ml; output_tensor_name := ml_output_tensor_name ml;
  pool_size := ml_pool_size ml; max_batch := ml_max_batch ml; batch_pad_to := ml_batch_pad_to ml |}.

Definition build_ml (fs : Files) (cfg : ScoringConfig) : Result DynScorer BuildError :=
  match sg_ml cfg with
  | None => Err MlMissing
  | Some ml =>
      match new_with_fallback fs (ml_scorer_config ml) (Some FeatureWeightedScorer_default) with
      | Err e => Err (MlFailed e)
      | Ok (s, _) => Ok (DynMl s)
      end
  end.

Definition build_leaf (fs : Files) (cfg : ScoringConfig) (kind : ScoringKind.t) (where_in_config : string)
  : Result DynScorer BuildError :=
  match kind with
  | ScoringKind.FeatureWeighted => Ok (DynFeatureWeighted FeatureWeightedScorer_default)
  | ScoringKind.Ml => build_ml fs cfg
  | ScoringKind.Cascade | ScoringKind.AbTest => Err (NotALeaf where_in_config)
  end.

Definition build_cascade (fs : Files) (cfg : ScoringConfig) : Result DynScorer BuildError :=
  match sg_cascade cfg with
  | None => Err CascadeMissing
  | Some c =>
      match build_leaf fs cfg (cs_stage1 c) "cascade.stage1" with
      | Err e => Err e
      | Ok s1 =>
          match build_leaf fs cfg (cs_stage2 c) "cascade.stage2" with
          | Err e => Err e
          | Ok s2 => Ok (DynCascade (Build_CascadeScorer s1 s2 (cs_top_k c) (cs_threshold c)))
          end
      end
  end.

Definition build_leaf_or_cascade (fs : Files) (cfg : ScoringConfig) (kind : ScoringKind.t) (where_in_config : string)
  : Result DynScorer BuildError :=
  match kind with
  | ScoringKind.FeatureWeighted => Ok (DynFeatureWeighted FeatureWeightedScorer_default)
  | ScoringKind.Ml => build_ml fs cfg
  | ScoringKind.Cascade => build_cascade fs cfg
  | ScoringKind.AbTest => Err (NestedAbTest where_in_config)
  end.

Definition build_ab_test (fs : Files) (cfg : ScoringConfig) : Result DynScorer BuildError :=
  match sg_ab_test cfg with
  | None => Err AbTestMissing
  | Some a =>
      match build_leaf_or_cascade fs cfg (at_control a) "ab_test.control" with
      | Err e => Err e
      | Ok c =>
          match build_leaf_or_cascade fs cfg (at_treatment a) "ab_test.treatment" with
          | Err e => Err e
          | Ok t => Ok (DynAbTest (Build_ABTestScorer c t (at_treatment_share a) (at_hash_seed a)))
          end
      end
  end.

Definition build_scorer_root (fs : Files) (cfg : ScoringConfig) : Result DynScorer BuildError :=
  match sg_kind cfg with
  | ScoringKind.FeatureWeighted => Ok (DynFeatureWeighted FeatureWeightedScorer_default)
  | ScoringKind.Ml => build_ml fs cfg
  | ScoringKind.Cascade => build_cascade fs cfg
  | ScoringKind.AbTest => build_ab_test fs cfg
  end.
End Ml.

(** ** Lemmas *)

(** For a model path that is a file name alone the watcher is given the empty path. *)
Lemma bare_model_watched (cfg : MLScorerConfig) : Path.slash ∉ String.list_ascii_of_string (model_path cfg) ->
  model_path cfg <> ""%string -> model_path cfg <> "."%string -> watch_target cfg = ""%string.
Proof. intros. unfold watch_target. by rewrite Path.parent_bare. Qed.

Section MlLemmas.
Context {Raw : Type} (run_session : Raw -> string -> list (list f32) -> Result (list (string * list f32)) string).
Context (parse_pair : list Z -> option (list f32 * f32)) (ln : f32 -> f32).

Lemma zip_with_score_unscored (l : list AdCandidate) (data : list f32) : (length l <= length data)%nat ->
  unscored <$> zip_with with_score l data = unscored <$> l.
Proof.
  revert data; induction l as [|c l IH]; intros [|d data] Hl; simpl in *; try done; [lia|].
  rewrite IH by lia. done.
Qed.

Lemma score_batch_unscored {F} (s : MLScorer F) l ctx l' s' :
  score_batch ln s l ctx = (Ok l', s') -> unscored <$> l' = unscored <$> l.
Proof.
  unfold score_batch. destruct l as [|c l]; [by intros [= <- _]|].
  destruct (pick (load_snapshot s)) as [[run|] sp]; [|done]. destruct (run _) as [data|e]; [|done].
  destruct (Nat.ltb_spec (length data) (length (c :: l))); [done|]. intros [= <- _].
  by apply (zip_with_score_unscored (c :: l) data).
Qed.

Lemma score_chunks_unscored {F} fuel (s : MLScorer F) l ctx l' s' :
  score_chunks ln fuel s l ctx = (Ok l', s') -> unscored <$> l' = unscored <$> l.
Proof.
  revert s l l' s'; induction fuel as [|fuel IH]; intros s l l' s'; destruct l as [|c l]; simpl;
    [by intros [= <- _]|done|by intros [= <- _]|].
  destruct (score_batch ln s _ ctx) as [[chunk|e] s1] eqn:Eb; [|done].
  destruct (score_chunks ln fuel s1 _ ctx) as [[rest|e] s2] eqn:Ec; [|done]. intros [= <- _].
  apply score_batch_unscored in Eb. apply IH in Ec. rewrite fmap_app, Eb, Ec, <- fmap_app, take_drop. done.
Qed.

Lemma reset_unscored l : unscored <$> reset_scores l = unscored <$> l.
Proof. apply (unscored_fmap (fun _ => f32_of_Z 0)). Qed.

(** The ML scorer keeps the contract of a scorer if its fallback does. *)
Lemma ml_unscored {F} `{ScorerLaws F} (s : MLScorer F) l ctx :
  unscored <$> (ml_score_all ln s l ctx).1 = unscored <$> l.
Proof.
  unfold ml_score_all. destruct (score_chunks ln _ s l ctx) as [[l'|e] s'] eqn:E; simpl.
  - by eapply score_chunks_unscored.
  - destruct (ml_fallback s') as [f|]; simpl; [|apply reset_unscored].
    pose proof (score_all_unscored f (reset_scores l) ctx) as Hf. destruct (score_all f _ ctx). simpl in *.
    by rewrite Hf, reset_unscored.
Qed.

(** Every scorer the configuration can build keeps it. *)
#[global] Instance dyn_scorer_laws : @ScorerLaws DynScorer (dyn_scorer ln).
Proof.
  split. simpl. fix IH 1. intros [s|s|[a b k th]|[a b sh seed]] l ctx.
  - apply (unscored_fmap (feature_weighted_score s ctx)).
  - simpl. pose proof (ml_unscored s l ctx) as Hm. by destruct (ml_score_all ln s l ctx).
  - pose proof (cascade_unscored (fun l ctx => dyn_score_all ln a l ctx) (fun l ctx => dyn_score_all ln b l ctx)
      (Build_CascadeScorer a b k th) l ctx (IH a)) as Hc.
    cbn [dyn_score_all]. by destruct (cascade_score_all _ _ (Build_CascadeScorer a b k th) l ctx).
  - pose proof (ab_unscored (fun l ctx => dyn_score_all ln a l ctx) (fun l ctx => dyn_score_all ln b l ctx)
      (Build_ABTestScorer a b sh seed) l ctx (IH a) (IH b)) as Hc.
    cbn [dyn_score_all]. by destruct (ab_score_all _ _ (Build_ABTestScorer a b sh seed) l ctx).
Defined.

(** ** The parity check, declaratively *)

(** The non-blank lines of a fixture. *)
Definition records (raw : list Z) : list (list Z) := filter (fun l => is_empty l = false) (trim <$> lines raw).

(** A record the session reproduces: it parses, has the right width, and the first
    output is not further than the tolerance from the expected score. *)
Definition reproduces (session : Session) (text : list Z) : Prop :=
  exists input expected computed rest,
    parse_pair text = Some (input, expected) /\ length input = FEATURE_COUNT /\
    session [input] = Ok (computed :: rest) /\
    fgt (SFabs (f32_sub computed expected)) PARITY_TOLERANCE = false.

Lemma check_line_ok run line_no text : check_line parse_pair (Some run) line_no text = Ok tt <-> reproduces run text.
Proof.
  unfold check_line, reproduces. split.
  - destruct (parse_pair text) as [[input expected]|]; [|done].
    destruct (Nat.eqb_spec (length input) FEATURE_COUNT); simpl; [|done].
    destruct (run [input]) as [[|computed rest]|] eqn:Er; try done.
    destruct (fgt _ _) eqn:Ef; [done|]. intros _. exists input, expected, computed, rest. done.
  - intros (input & expected & computed & rest & -> & Hl & -> & ->). by rewrite Hl.
Qed.

Lemma check_lines_ok run line_no count ls n :
  check_lines parse_pair (Some run) line_no count ls = Ok n <->
  let rs := filter (fun l => is_empty l = false) (trim <$> ls) in
  Forall (reproduces run) rs /\ n = (count + length rs)%nat.
Proof.
  revert line_no count; induction ls as [|l ls IH]; intros line_no count; cbn [check_lines].
  { simpl. rewrite Nat.add_0_r. split; [intros [= <-]; auto|intros [_ ->]; done]. }
  rewrite fmap_cons, filter_cons. destruct (is_empty (trim l)) eqn:Ee.
  { rewrite decide_False by congruence. apply IH. }
  rewrite decide_True by done. rewrite Forall_cons, <- (check_line_ok run line_no). cbn [length].
  destruct (check_line parse_pair (Some run) line_no (trim l)) as [[]|]; [|split; [done|intros [[[=] _] _]]].
  rewrite IH. cbv zeta. split; intros [? ->]; split_and!; try tauto; lia.
Qed.

(** [C37] The parity check accepts a loaded model iff the fixture can be read, has a
    record, and every record parses to the right number of features and is
    reproduced within [1e-4]; since the comparison is false on NaN, a model that
    answers NaN to everything passes every well-formed fixture. *)
Theorem parity_accepts_iff (fs : Files) (sn : ModelSnapshot) (s : Raw) (path : string)
    (Hs : head (sn_sessions sn) = Some s) :
  (verify_parity run_session parse_pair fs sn path = Ok tt <->
   exists raw, fs_read fs path = Ok raw /\ records raw <> [] /\
               Forall (reproduces (session_of run_session sn s)) (records raw)) /\
  ((forall rows, session_of run_session sn s rows = Ok [S754_nan]) ->
   forall raw, fs_read fs path = Ok raw -> records raw <> [] ->
   (forall l, l ∈ records raw -> exists input expected, parse_pair l = Some (input, expected) /\ length input = FEATURE_COUNT) ->
   verify_parity run_session parse_pair fs sn path = Ok tt).
Proof.
  assert (head (sessions_of run_session sn) = Some (session_of run_session sn s)) as Hh.
  { unfold sessions_of. destruct (sn_sessions sn); naive_solver. }
  assert (verify_parity run_session parse_pair fs sn path = Ok tt <->
   exists raw, fs_read fs path = Ok raw /\ records raw <> [] /\
               Forall (reproduces (session_of run_session sn s)) (records raw)) as Hiff.
  { unfold verify_parity. rewrite Hh. destruct (fs_read fs path) as [raw|e]; [|split; [done|naive_solver]].
    destruct (check_lines _ _ 1 0 (lines raw)) as [n|e] eqn:Ec.
    - apply check_lines_ok in Ec as [Hall ->]. fold (records raw) in *.
      destruct (records raw) eqn:Er; simpl; split; try naive_solver.
      intros _. exists raw. by rewrite Er.
    - split; [done|]. intros (raw' & [= <-] & _ & Hall). exfalso.
      pose proof (proj2 (check_lines_ok (session_of run_session sn s) 1 0 (lines raw) _) (conj Hall eq_refl)). congruence. }
  split; [exact Hiff|]. intros Hnan raw Hr Hne Hparse. apply Hiff. exists raw. split_and!; [done|done|].
  apply Forall_forall. intros l (input & expected & Hp & Hl)%Hparse.
  exists input, expected, S754_nan, []. split_and!; done.
Qed.

(** ** The pool the scorer serves from *)

Lemma load_sessions_length load path i n (l : list Raw) : load_sessions load path i n = Ok l -> length l = n.
Proof.
  revert i l; induction n as [|n IH]; intros i l; simpl; [by intros [= <-]|].
  destruct (load i path); [|done]. destruct (load_sessions load path (S i) n) as [l'|] eqn:E; [|done].
  intros [= <-]. simpl. by rewrite (IH _ _ E).
Qed.

(** A snapshot as built for a configuration. *)
Definition built_for (cfg : MLScorerConfig) (sn : @ModelSnapshot Raw) : Prop := exists fs, snapshot_build fs cfg = Ok sn.

Lemma built_for_pool cfg (sn : @ModelSnapshot Raw) : built_for cfg sn ->
  length (sn_sessions sn) = pool_size cfg /\ sn_input_name sn = input_tensor_name cfg /\
  sn_output_name sn = output_tensor_name cfg.
Proof.
  intros [fs Hb]. unfold snapshot_build in Hb.
  destruct (load_sessions _ _ 0 _) as [l|] eqn:E; [|done]. injection Hb as <-. simpl.
  split_and!; try done. by eapply load_sessions_length.
Qed.

Lemma reload_built cfg (sn : ModelSnapshot) evs : built_for cfg sn -> built_for cfg (reload_loop (Raw := Raw) cfg sn evs).
Proof.
  intros Hb. apply (foldl_inv (built_for cfg)); [done|]. intros s [ev fs] _ Hs. unfold reload_step. cbn [fst snd].
  destruct (triggers_reload cfg ev); [|done]. destruct (snapshot_build fs cfg) eqn:E; [|done]. by exists fs.
Qed.

(** Whatever happens to the model file after start-up, the served snapshot is
    one complete build for the configuration: its pool has [pool_size] sessions,
    at least one, so every batch finds a session whatever the round-robin index;
    a failed reload leaves it as it was, and no reload consults the parity
    fixture. *)
Theorem served_pool_complete {F} (fs : Files) (cfg : MLScorerConfig) (fallback : option F) (s : MLScorer F)
    (sn : ModelSnapshot) (evs : list (FsEvent * Files))
    (Hnew : new_with_fallback run_session parse_pair fs cfg fallback = Ok (s, sn)) :
  let sn' := reload_loop cfg sn evs in
  built_for cfg sn' /\ length (sn_sessions sn') = pool_size cfg /\ (0 < pool_size cfg)%nat /\
  (forall next, is_Some (pick (Build_MLScorer cfg (sessions_of run_session sn') next fallback [])).1) /\
  (forall ev fs', is_ok (snapshot_build fs' cfg) = false -> reload_step cfg sn' (ev, fs') = sn') /\
  (forall reads, reload_loop cfg sn ((fun '(ev, f) => (ev, {| fs_load := fs_load f; fs_read := reads |})) <$> evs) = sn').
Proof.
  intros sn'. unfold new_with_fallback in Hnew.
  destruct (validate cfg) as [[]|] eqn:Hv; [|done]. destruct (snapshot_build fs cfg) as [sn0|] eqn:Hb; [|done].
  assert (sn0 = sn) as ->.
  { destruct (parity_path cfg); [destruct (verify_parity _ _ _ _ _); [|done]|]; by injection Hnew. }
  assert (0 < pool_size cfg)%nat as Hpos.
  { unfold validate in Hv. destruct (Nat.eqb_spec (pool_size cfg) 0); [done|lia]. }
  assert (built_for cfg sn') as Hb' by (apply reload_built; by exists fs).
  pose proof (built_for_pool cfg sn' Hb') as (Hlen & _).
  split_and!; try done.
  - intros next. unfold pick. simpl. apply lookup_lt_is_Some. unfold sessions_of. rewrite length_fmap, Hlen.
    pose proof (Z.mod_pos_bound next (Z.of_nat (pool_size cfg)) ltac:(lia)). lia.
  - intros ev fs' Hf. unfold reload_step. cbn [fst snd]. destruct (triggers_reload cfg ev); [|done].
    by destruct (snapshot_build fs' cfg).
  - intros reads. unfold sn', reload_loop. clear. revert sn; induction evs as [|[ev f] evs IH]; intros sn; [done|].
    simpl. rewrite IH. done.
Qed.
End MlLemmas.

(** ** The scorer tree a configuration denotes *)
Section Tree.
Context {Raw : Type} (run_session : Raw -> string -> list (list f32) -> Result (list (string * list f32)) string).
Context (parse_pair : list Z -> option (list f32 * f32)) (ln : f32 -> f32).
Context (fs : @Files Raw) (cfg : ScoringConfig).
Notation build_root := (build_scorer_root run_session parse_pair fs cfg).

Inductive leaf_of : ScoringKind.t -> DynScorer -> Prop :=
| leaf_feature_weighted : leaf_of ScoringKind.FeatureWeighted (DynFeatureWeighted FeatureWeightedScorer_default)
| leaf_ml ml s sn :
    sg_ml cfg = Some ml ->
    new_with_fallback run_session parse_pair fs (ml_scorer_config ml) (Some FeatureWeightedScorer_default) = Ok (s, sn) ->
    leaf_of ScoringKind.Ml (DynMl s).

Inductive cascade_of : DynScorer -> Prop :=
| cascade_leaves c s1 s2 :
    sg_cascade cfg = Some c -> leaf_of (cs_stage1 c) s1 -> leaf_of (cs_stage2 c) s2 ->
    cascade_of (DynCascade (Build_CascadeScorer s1 s2 (cs_top_k c) (cs_threshold c))).

(** What an experiment arm may be. *)
Inductive arm_of : ScoringKind.t -> DynScorer -> Prop :=
| arm_leaf k s : leaf_of k s -> arm_of k s
| arm_cascade s : cascade_of s -> arm_of ScoringKind.Cascade s.

(** What the root may be. *)
Inductive root_of : ScoringKind.t -> DynScorer -> Prop :=
| root_arm k s : arm_of k s -> root_of k s
| root_ab_test a s1 s2 :
    sg_ab_test cfg = Some a -> arm_of (at_control a) s1 -> arm_of (at_treatment a) s2 ->
    root_of ScoringKind.AbTest
      (DynAbTest (Build_ABTestScorer s1 s2 (at_treatment_share a) (at_hash_seed a))).

Fixpoint depth (s : DynScorer) : nat :=
  match s with
  | DynFeatureWeighted _ | DynMl _ => 0
  | DynCascade c => match c with Build_CascadeScorer a b _ _ => S (Nat.max (depth a) (depth b)) end
  | DynAbTest t => match t with Build_ABTestScorer a b _ _ => S (Nat.max (depth a) (depth b)) end
  end.

(** Every ML scorer of the tree has the feature-weighted fallback. *)
Fixpoint has_fallbacks (s : DynScorer) : Prop :=
  match s with
  | DynFeatureWeighted _ => True
  | DynMl m => ml_fallback m = Some FeatureWeightedScorer_default
  | DynCascade c => match c with Build_CascadeScorer a b _ _ => has_fallbacks a /\ has_fallbacks b end
  | DynAbTest t => match t with Build_ABTestScorer a b _ _ => has_fallbacks a /\ has_fallbacks b end
  end.

#[local] Hint Constructors leaf_of cascade_of arm_of root_of : core.

Lemma build_leaf_iff k w s : build_leaf run_session parse_pair fs cfg k w = Ok s <-> leaf_of k s.
Proof.
  unfold build_leaf, build_ml. split.
  - destruct k; [by intros [= <-]| |done|done].
    destruct (sg_ml cfg) as [ml|] eqn:Em; [|done].
    destruct (new_with_fallback _ _ _ _ _) as [[s' sn]|] eqn:En; [|done]. intros [= <-]. eauto.
  - intros [|ml s' sn Hm Hn]; [done|]. by rewrite Hm, Hn.
Qed.

Lemma build_cascade_iff s : build_cascade run_session parse_pair fs cfg = Ok s <-> cascade_of s.
Proof.
  unfold build_cascade. split.
  - destruct (sg_cascade cfg) as [c|] eqn:Ec; [|done].
    destruct (build_leaf _ _ _ _ (cs_stage1 c) _) as [s1|] eqn:E1; [|done].
    destruct (build_leaf _ _ _ _ (cs_stage2 c) _) as [s2|] eqn:E2; [|done]. intros [= <-].
    apply build_leaf_iff in E1, E2. eauto.
  - intros [c s1 s2 -> H1%(build_leaf_iff _ "cascade.stage1") H2%(build_leaf_iff _ "cascade.stage2")].
    by rewrite H1, H2.
Qed.

Lemma build_arm_iff k w s : build_leaf_or_cascade run_session parse_pair fs cfg k w = Ok s <-> arm_of k s.
Proof.
  split.
  - destruct k; simpl; intros Hb.
    + apply arm_leaf, (build_leaf_iff _ w). done.
    + apply arm_leaf, (build_leaf_iff _ w). done.
    + apply arm_cascade, build_cascade_iff. done.
    + done.
  - intros [k' s' Hl|s' Hc%build_cascade_iff]; [|done]. apply (build_leaf_iff _ w) in Hl. by destruct k'.
Qed.

Lemma leaf_shape k s : leaf_of k s -> depth s = 0%nat /\ has_fallbacks s.
Proof.
  intros [|ml s' sn Hm Hn]; [done|]. split; [done|]. simpl. unfold new_with_fallback in Hn.
  destruct (validate _); [|done]. destruct (snapshot_build _ _); [|done].
  destruct (parity_path _); [destruct (verify_parity _ _ _ _ _); [|done]|]; by injection Hn as <- _.
Qed.

Lemma arm_shape k s : arm_of k s -> (depth s <= 1)%nat /\ has_fallbacks s.
Proof.
  intros [k' s' [? ?]%leaf_shape|s' [c s1 s2 _ [? ?]%leaf_shape [? ?]%leaf_shape]]; simpl; split; auto; lia.
Qed.

(** [C38] Building the scorer succeeds exactly on the well-formed configurations and
    gives the tree they denote: every section a decorator refers to is present,
    every ML model loads and passes its checks, a cascade has leaf stages only and
    an experiment never nests another.  What is built is at most two decorators
    deep, every ML scorer in it has the feature-weighted fallback, and scoring
    with it changes nothing but scores, which is what the pipeline asks of its
    scorer. *)
Theorem build_scorer_root_iff (s : DynScorer) :
  (build_root = Ok s <-> root_of (sg_kind cfg) s) /\
  (build_root = Ok s ->
   (depth s <= 2)%nat /\ has_fallbacks s /\
   forall l ctx, unscored <$> (dyn_score_all ln s l ctx).1 = unscored <$> l).
Proof.
  assert (build_root = Ok s <-> root_of (sg_kind cfg) s) as Hiff.
  { unfold build_scorer_root. split.
    - destruct (sg_kind cfg) eqn:Ek; intros Hb.
      + apply root_arm, (build_arm_iff _ ""). done.
      + apply root_arm, (build_arm_iff _ ""). done.
      + apply root_arm, (build_arm_iff _ ""). done.
      + unfold build_ab_test in Hb. destruct (sg_ab_test cfg) as [a|] eqn:Ea; [|done].
        destruct (build_leaf_or_cascade _ _ _ _ (at_control a) _) as [s1|] eqn:E1; [|done].
        destruct (build_leaf_or_cascade _ _ _ _ (at_treatment a) _) as [s2|] eqn:E2; [|done].
        injection Hb as <-. apply build_arm_iff in E1, E2. eauto.
    - destruct 1 as [k s Ha|a s1 s2 Ha H1 H2].
      + apply (build_arm_iff _ "") in Ha. by destruct k.
      + apply (build_arm_iff _ "ab_test.control") in H1. apply (build_arm_iff _ "ab_test.treatment") in H2.
        unfold build_ab_test. by rewrite Ha, H1, H2. }
  split; [exact Hiff|]. intros Hs%Hiff.
  assert ((depth s <= 2)%nat /\ has_fallbacks s) as [Hd Hf].
  { destruct Hs as [k s [? ?]%arm_shape|a s1 s2 _ [? ?]%arm_shape [? ?]%arm_shape]; simpl; [auto|].
    split; [lia|done]. }
  split_and!; [done|done|]. intros l ctx. apply (@score_all_unscored _ _ (dyn_scorer_laws ln)).
Qed.
End Tree.

Module Sample.
(** A broken model: every score is NaN. *)
Definition nan_model (s : unit) (input : string) (rows : list (list f32)) : Result (list (string * list f32)) string :=
  Ok [("pctr"%string, [S754_nan])].
(** Every record is a zero row with score one half. *)
Definition parse (l : list Z) : option (list f32 * f32) := Some (replicate FEATURE_COUNT (f32_of_Z 0), f32_lit 1 2).
Definition files : @Files unit := {| fs_load _ _ := Ok tt; fs_read _ := Ok [123; 125; 10; 10; 123; 125] |}.
Definition ml : MLConfig := MLConfig_deserialize "m.onnx" (Some "parity.jsonl"%string) None None None None None.
Definition snapshot : @ModelSnapshot unit :=
  {| sn_sessions := [tt; tt]; sn_next := 0; sn_input_name := "features"; sn_output_name := "pctr" |}.
Definition reloaded : FsEvent := {| ev_kind := EvModify; ev_paths := ["m.onnx"%string] |}.
Definition broken_files : @Files unit := {| fs_load _ _ := Err "truncated"%string; fs_read _ := Err "gone"%string |}.
(** Ten per cent of the users get a cascade of the two leaf scorers. *)
Definition scoring : ScoringConfig := {|
  sg_kind := ScoringKind.AbTest; sg_ml := Some ml;
  sg_cascade := Some {| cs_stage1 := ScoringKind.FeatureWeighted; cs_stage2 := ScoringKind.Ml;
                        cs_top_k := 50; cs_threshold := f32_of_Z 0 |};
  sg_ab_test := Some {| at_control := ScoringKind.FeatureWeighted; at_treatment := ScoringKind.Cascade;
                        at_treatment_share := f32_lit 1 10; at_hash_seed := "phase-6-rollout" |} |}.
End Sample.

(** A model that only answers NaN is accepted at start-up. *)
Lemma parity_accepts_iff_witness :
  verify_parity Sample.nan_model Sample.parse Sample.files Sample.snapshot "parity.jsonl" = Ok tt.
Proof.
  apply (proj2 (parity_accepts_iff Sample.nan_model Sample.parse Sample.files Sample.snapshot tt "parity.jsonl" eq_refl))
    with (raw := [123; 125; 10; 10; 123; 125]).
  - intros rows. reflexivity.
  - reflexivity.
  - vm_compute. discriminate.
  - intros l _. eexists _, _. split; reflexivity.
Defined.

(** A reload that fails half-way keeps the pool of two sessions. *)
Lemma served_pool_complete_witness :
  let cfg := ml_scorer_config Sample.ml in
  length (sn_sessions (reload_loop cfg Sample.snapshot [(Sample.reloaded, Sample.files); (Sample.reloaded, Sample.broken_files)])) = 2%nat.
Proof.
  intros cfg.
  refine (proj1 (proj2 (served_pool_complete Sample.nan_model Sample.parse Sample.files cfg (None : option FeatureWeightedScorer)
    _ Sample.snapshot [(Sample.reloaded, Sample.files); (Sample.reloaded, Sample.broken_files)] _))).
  vm_compute. reflexivity.
Defined.

Lemma build_scorer_root_iff_witness :
  exists s, build_scorer_root Sample.nan_model Sample.parse Sample.files Sample.scoring = Ok s /\ (depth s <= 2)%nat /\
    unscored <$> (dyn_score_all (fun x => x) s [sample_ad 1 250; sample_ad 2 500] sample_ctx).1
    = unscored <$> [sample_ad 1 250; sample_ad 2 500].
Proof.
  destruct (build_scorer_root Sample.nan_model Sample.parse Sample.files Sample.scoring) as [s|e] eqn:E;
    [|vm_compute in E; discriminate E].
  exists s. destruct (build_scorer_root_iff Sample.nan_model Sample.parse (fun x => x) Sample.files Sample.scoring s) as [_ H].
  destruct (H E) as (Hd & _ & Hl). split_and!; [reflexivity|exact Hd|apply Hl].
Defined.
