(* ===== verification/GenModel.v ===== *)
(** * The test-model generator

    [tools/gen-test-model]: the model it emits, the parity fixture it writes next
    to it, and what the parity check of [Ml] can see through that fixture.  The
    protobuf encoding, [f32]'s [exp] and decimal printing, and the writing of the
    files are parameters or left out. *)
From S2P Require Import Prelude Floats Text Config Scoring Ml.

(** ** The ONNX messages, as [prost] generates them *)

Module DataType.
Inductive t := UNDEFINED | FLOAT | UINT8 | INT8 | UINT16 | INT16 | INT32 | INT64 | STRING | BOOL | FLOAT16 | DOUBLE
             | UINT32 | UINT64.
(** [as i32] *)
Definition number (d : t) : Z :=
  match d with
  | UNDEFINED => 0 | FLOAT => 1 | UINT8 => 2 | INT8 => 3 | UINT16 => 4 | INT16 => 5 | INT32 => 6 | INT64 => 7 | STRING => 8
  | BOOL => 9 | FLOAT16 => 10 | DOUBLE => 11 | UINT32 => 12 | UINT64 => 13
  end.
End DataType.

Inductive DimValue := DimInt (value : Z) | DimParam (name : string).
Record Dimension := { dm_value : option DimValue; dm_denotation : string }.
Record TensorShapeProto := { ts_dim : list Dimension }.
Record TypeProtoTensor := { tt_elem_type : Z; tt_shape : option TensorShapeProto }.
Record TypeProto := { tp_value : option TypeProtoTensor; tp_denotation : string }.
Record ValueInfoProto := { vi_name : string; vi_type : option TypeProto; vi_doc_string : string }.
Record TensorProto := {
  tn_dims : list Z; tn_data_type : Z; tn_float_data : list f32; tn_int32_data : list Z; tn_string_data : list (list Z);
  tn_int64_data : list Z; tn_name : string; tn_doc_string : string; tn_raw_data : list Z; tn_double_data : list f64;
  tn_uint64_data : list Z }.
Record AttributeProto := {
  ab_name : string; ab_ref_attr_name : string; ab_doc_string : string; ab_type : Z; ab_f : f32; ab_i : Z; ab_s : list Z;
  ab_t : option TensorProto; ab_floats : list f32; ab_ints : list Z; ab_strings : list (list Z); ab_tensors : list TensorProto }.
Record NodeProto := {
  nd_input : list string; nd_output : list string; nd_name : string; nd_op_type : string; nd_domain : string;
  nd_attribute : list AttributeProto; nd_doc_string : string }.
Record GraphProto := {
  gr_node : list NodeProto; gr_name : string; gr_initializer : list TensorProto; gr_doc_string : string;
  gr_input : list ValueInfoProto; gr_output : list ValueInfoProto; gr_value_info : list ValueInfoProto }.
Record OperatorSetIdProto := { os_domain : string; os_version : Z }.
Record ModelProto := {
  mp_ir_version : Z; mp_opset_import : list OperatorSetIdProto; mp_producer_name : string; mp_producer_version : string;
  mp_domain : string; mp_model_version : Z; mp_doc_string : string; mp_graph : option GraphProto }.

(** ** [main.rs] *)

Definition FEATURE_COUNT : nat := 13.
Definition WEIGHTS : list f32 :=
  (fun n => f32_lit n 100) <$> [45; 85; 30; 10; 20; 15; 5; 40; 25; 35; 18; 22; 12].
Definition BIAS : f32 := f32_lit (-25) 10.

Definition INPUT_NAME : string := "features".
Definition OUTPUT_NAME : string := "pctr".
Definition WEIGHTS_NAME : string := "W".
Definition BIAS_NAME : string := "b".
Definition PRE_SIGMOID_NAME : string := "logit".

Definition dim (value : Z) : Dimension := {| dm_value := Some (DimInt value); dm_denotation := "" |}.
Definition dyn_dim (name : string) : Dimension := {| dm_value := Some (DimParam name); dm_denotation := "" |}.
Definition tensor_type (elem_type : DataType.t) (dims : list Dimension) : TypeProto := {|
  tp_value := Some {| tt_elem_type := DataType.number elem_type; tt_shape := Some {| ts_dim := dims |} |};
  tp_denotation := "" |}.
Definition float_initializer (name : string) (dims : list Z) (data : list f32) : TensorProto := {|
  tn_dims := dims; tn_data_type := DataType.number DataType.FLOAT; tn_float_data := data; tn_int32_data := [];
  tn_string_data := []; tn_int64_data := []; tn_name := name; tn_doc_string := ""; tn_raw_data := []; tn_double_data := [];
  tn_uint64_data := [] |}.

(** [version] is the package's version. *)
Definition build_model (version : string) : ModelProto :=
  let input := {| vi_name := INPUT_NAME;
                  vi_type := Some (tensor_type DataType.FLOAT [dyn_dim "batch"; dim (Z.of_nat FEATURE_COUNT)]);
                  vi_doc_string := "" |} in
  let output := {| vi_name := OUTPUT_NAME; vi_type := Some (tensor_type DataType.FLOAT [dyn_dim "batch"; dim 1]);
                   vi_doc_string := "" |} in
  let weights_tensor := float_initializer WEIGHTS_NAME [Z.of_nat FEATURE_COUNT; 1] WEIGHTS in
  let bias_tensor := float_initializer BIAS_NAME [1] [BIAS] in
  let matmul := {| nd_input := [INPUT_NAME; WEIGHTS_NAME]; nd_output := ["logit_pre"]; nd_name := "matmul";
                   nd_op_type := "MatMul"; nd_domain := ""; nd_attribute := []; nd_doc_string := "" |}%string in
  let add := {| nd_input := ["logit_pre"%string; BIAS_NAME]; nd_output := [PRE_SIGMOID_NAME]; nd_name := "add_bias";
                nd_op_type := "Add"; nd_domain := ""; nd_attribute := []; nd_doc_string := "" |} in
  let sigmoid := {| nd_input := [PRE_SIGMOID_NAME]; nd_output := [OUTPUT_NAME]; nd_name := "sigmoid";
                    nd_op_type := "Sigmoid"; nd_domain := ""; nd_attribute := []; nd_doc_string := "" |} in
  let graph := {| gr_node := [matmul; add; sigmoid]; gr_name := "pctr_graph";
                  gr_initializer := [weights_tensor; bias_tensor]; gr_doc_string := ""; gr_input := [input];
                  gr_output := [output]; gr_value_info := [] |} in
  {| mp_ir_version := 9; mp_opset_import := [{| os_domain := ""; os_version := 18 |}];
     mp_producer_name := "rust-rtb-bidder/gen-test-model"; mp_producer_version := version; mp_domain := "";
     mp_model_version := 1; mp_doc_string := "Synthetic test pCTR model — fixed weights, sigmoid(W·x + b)";
     mp_graph := Some graph |}.

(** ** [parity.rs] *)

Section Parity.
Context (exp : f32 -> f32) (display : f32 -> list Z).

Definition sigmoid (x : f32) : f32 := f32_div (f32_of_Z 1) (f32_add (f32_of_Z 1) (exp (SFopp x))).

(** The accumulator of [score] after its loop. *)
Definition logit (features : list f32) : f32 :=
  foldl (fun s '(x, w) => f32_add s (f32_mul x w)) BIAS (zip features WEIGHTS).
Definition score (features : list f32) : f32 := sigmoid (logit features).

Definition fixture_inputs : list (list f32) :=
  let zero := f32_of_Z 0 in let one := f32_of_Z 1 in
  [replicate FEATURE_COUNT zero;
   replicate FEATURE_COUNT one;
   <[0%nat := one]> (replicate FEATURE_COUNT zero);
   <[(FEATURE_COUNT - 1)%nat := one]> (replicate FEATURE_COUNT zero);
   (fun n => f32_lit n 100) <$> [50; 30; 70; 0; 100; 0; 0; 50; 0; 100; 100; 0; 0];
   (fun n => f32_lit n 100) <$> [90; 80; 40; 100; 0; 0; 0; 75; 100; 0; 0; 100; 0];
   (fun n => f32_lit n 100) <$> [10; 5; 0; 0; 100; 0; 0; 25; 0; 0; 100; 0; 0]].

(** The loop writes a comma before every value but the first. *)
Fixpoint joined (vs : list f32) : list Z :=
  match vs with [] => [] | [v] => display v | v :: vs => display v ++ utf8 "," ++ joined vs end.
(** The JSON keys come with their quotes. *)
Definition quote : list Z := [34].
Definition record_body (input : list f32) : list Z :=
  quote ++ utf8 "input" ++ quote ++ utf8 ":[" ++ joined input ++ utf8 "]," ++
  quote ++ utf8 "expected_score" ++ quote ++ utf8 ":" ++ display (score input).
Definition record_text (input : list f32) : list Z := utf8 "{" ++ record_body input ++ utf8 "}".
Definition write_parity_jsonl : list Z := mjoin ((fun input => record_text input ++ [10]) <$> fixture_inputs).
End Parity.

(** ** The graph *)

(** The nodes run in order over the tensors computed so far, as ONNX prescribes for
    a graph in topological order; the operators are [op]. *)
Section Evaluation.
Context {T : Type} (op : string -> list T -> option (list T)) (tensor_of : TensorProto -> T).

Definition run_node (env : gmap string T) (n : NodeProto) : option (gmap string T) :=
  args ← mapM (fun name => env !! name) (nd_input n);
  outs ← op (nd_op_type n) args;
  if Nat.eqb (length outs) (length (nd_output n)) then Some (foldl (fun env '(name, t) => <[name := t]> env) env (zip (nd_output n) outs))
  else None.
Definition eval_graph (g : GraphProto) (inputs : gmap string T) : option (list T) :=
  let start := foldl (fun env t => <[tn_name t := tensor_of t]> env) inputs (gr_initializer g) in
  env ← foldl (fun env n => env ≫= fun env => run_node env n) (Some start) (gr_node g);
  mapM (fun o => env !! vi_name o) (gr_output g).
End Evaluation.

(** The model declares the names and the width the bidder's configuration assumes
    by default, its initializers have as many values as their dimensions say, and it
    computes [Sigmoid (Add (MatMul features W) b)] whatever the operators are. *)
Lemma model_fits_the_bidder version {T} (op : string -> list T -> option (list T)) (tensor_of : TensorProto -> T) (x xw xwb y : T) :
  op "MatMul"%string [x; tensor_of (float_initializer WEIGHTS_NAME [13; 1] WEIGHTS)] = Some [xw] ->
  op "Add"%string [xw; tensor_of (float_initializer BIAS_NAME [1] [BIAS])] = Some [xwb] ->
  op "Sigmoid"%string [xwb] = Some [y] ->
  exists g, mp_graph (build_model version) = Some g /\
    vi_name <$> gr_input g = [default_input_tensor_name] /\ vi_name <$> gr_output g = [default_output_tensor_name] /\
    Forall (fun t => foldr Z.mul 1 (tn_dims t) = Z.of_nat (length (tn_float_data t))) (gr_initializer g) /\
    eval_graph op tensor_of g {[INPUT_NAME := x]} = Some [y].
Proof.
  intros Hm Ha Hs. eexists. split; [reflexivity|]. split; [done|]. split; [done|]. split; [by repeat constructor|].
  unfold eval_graph. cbn [gr_node gr_output gr_initializer foldl]. change (Z.of_nat FEATURE_COUNT) with 13.
  assert (forall env n args, mapM (fun name => env !! name) (nd_input n) = Some args ->
    run_node op env n = (outs ← op (nd_op_type n) args; if Nat.eqb (length outs) (length (nd_output n))
      then Some (foldl (fun env '(name, t) => <[name := t]> env) env (zip (nd_output n) outs)) else None)) as Hr.
  { intros env n args E. unfold run_node. by rewrite E. }
  cbn [mbind option_bind].
  erewrite Hr by reflexivity. cbn [nd_op_type]. rewrite Hm. cbn [mbind option_bind length nd_output Nat.eqb zip zip_with foldl].
  erewrite Hr by reflexivity. cbn [nd_op_type]. rewrite Ha. cbn [mbind option_bind length nd_output Nat.eqb zip zip_with foldl].
  erewrite Hr by reflexivity. cbn [nd_op_type]. rewrite Hs. cbn [mbind option_bind length nd_output Nat.eqb zip zip_with foldl].
  reflexivity.
Qed.

(** ** The fixture, read back *)

Lemma lines_line (l rest : list Z) : 10 ∉ l -> last l <> Some 13 -> lines (l ++ 10 :: rest) = l :: lines rest.
Proof.
  intros Hn Hcr. unfold lines.
  assert (forall acc, 10 ∉ l -> lines_from acc (l ++ 10 :: rest) = rev (strip_cr (rev l ++ acc)) :: lines_from [] rest) as Hf.
  { clear Hn Hcr. induction l as [|b l IH]; intros acc Hn; cbn [lines_from app rev]; [done|].
    rewrite not_elem_of_cons in Hn. destruct Hn as [Hb Hn]. rewrite (proj2 (Z.eqb_neq b 10)) by done.
    rewrite IH by done. by rewrite <- app_assoc. }
  rewrite (Hf [] Hn), app_nil_r. f_equal. unfold strip_cr.
  destruct (rev l) as [|b l'] eqn:E; [by rewrite <- (rev_involutive l), E|].
  assert (last l = Some b) as Hl by (rewrite <- (rev_involutive l), E; cbn; apply last_snoc).
  destruct (Z.eqb_spec b 13) as [->|_]; [by rewrite Hl in Hcr|]. by rewrite <- E, rev_involutive.
Qed.

(** Neither [{] nor [}] begins or ends white space. *)
Lemma trim_braces (l : list Z) : trim (123 :: l ++ [125]) = 123 :: l ++ [125].
Proof.
  assert (trim_start (123 :: l ++ [125]) = 123 :: l ++ [125]) as E.
  { unfold trim_start. cbn [strip]. change (white1 123) with false. cbn iota.
    destruct (l ++ [125]) as [|c l1]; [done|]. unfold white2, white3. cbn -[Z.leb].
    by destruct l1. }
  unfold trim. rewrite E. unfold trim_end.
  change (123 :: l ++ [125]) with ((123 :: l) ++ [125]) at 1. rewrite rev_unit. cbn [strip]. change (white1 125) with false. cbn iota.
  assert (forall c d, white2 c 125 = false /\ white3 d c 125 = false) as Hw.
  { intros c d. unfold white2, white3. cbn. rewrite !andb_false_r. cbn. by rewrite ?andb_false_r. }
  assert (rev (125 :: rev (123 :: l)) = 123 :: l ++ [125]) as Er by (change (rev (rev (123 :: l)) ++ [125] = 123 :: l ++ [125]); by rewrite rev_involutive).
  destruct (rev (123 :: l)) as [|c l1]; [by rewrite <- Er|]. rewrite (proj1 (Hw c 0)).
  destruct l1 as [|d l1]; [by rewrite <- Er|]. rewrite (proj2 (Hw c d)). by rewrite <- Er.
Qed.

Section Fixture.
Context (exp : f32 -> f32) (display : f32 -> list Z).
(** [Display] prints printable ASCII. *)
Context (display_printable : forall x, Forall (fun b => 32 < b < 127) (display x)).

Lemma joined_printable vs : Forall (fun b => 32 < b < 127) (joined display vs).
Proof.
  induction vs as [|v vs IH]; [by constructor|]. destruct vs as [|v' vs]; [apply display_printable|].
  cbn [joined] in *. repeat apply Forall_app_2; [apply display_printable| |exact IH]. repeat constructor; lia.
Qed.

Lemma body_printable input : Forall (fun b => 32 < b < 127) (record_body exp display input).
Proof.
  unfold record_body. repeat apply Forall_app_2; try apply joined_printable; try apply display_printable;
    vm_compute; repeat constructor.
Qed.

(** The fixture's lines are its records. *)
Lemma fixture_lines : lines (write_parity_jsonl exp display) = record_text exp display <$> fixture_inputs.
Proof.
  unfold write_parity_jsonl. induction fixture_inputs as [|input l IH]; [done|].
  cbn [fmap list_fmap mjoin list_join]. rewrite <- app_assoc. cbn [app]. rewrite lines_line; [by f_equal|..].
  - unfold record_text. pose proof (body_printable input) as Hb. rewrite Forall_forall in Hb.
    rewrite !elem_of_app. intros [H|[H|H]]; [vm_compute in H; set_solver| |vm_compute in H; set_solver].
    specialize (Hb 10 H). lia.
  - unfold record_text. rewrite app_assoc. change (utf8 "}") with [125]. by rewrite last_snoc.
Qed.

Lemma record_trim input : trim (record_text exp display input) = record_text exp display input.
Proof. apply trim_braces. Qed.

Lemma fixture_records : records (write_parity_jsonl exp display) = record_text exp display <$> fixture_inputs.
Proof.
  unfold records. rewrite fixture_lines. induction fixture_inputs as [|input l IH]; [done|].
  cbn [fmap list_fmap] in *. rewrite record_trim, filter_cons, decide_True by done. by rewrite IH.
Qed.
End Fixture.

(** ** What the fixture can tell apart *)

(** Two features exchanged. *)
Definition transposed (i j k : nat) : nat := if Nat.eqb k i then j else if Nat.eqb k j then i else k.
Definition swapped (i j : nat) (row : list f32) : list f32 :=
  (fun k => nth (transposed i j k) row (f32_of_Z 0)) <$> seq 0 (length row).
(** A session behind a feature extraction that exchanges them. *)
Definition behind_swap (i j : nat) {Raw} (run : Raw -> string -> list (list f32) -> Result (list (string * list f32)) string)
  : Raw -> string -> list (list f32) -> Result (list (string * list f32)) string :=
  fun s name rows => run s name (swapped i j <$> rows).

(** The exchanges no record of the fixture shows: desktop, weekend and
    video among each other, mobile with banner, tablet with CTV. *)
Definition hidden : list (nat * nat) := [(3, 8); (3, 11); (8, 11); (4, 10); (5, 6)]%nat.

#[local] Instance float_eq_dec : EqDecision spec_float.
Proof. solve_decision. Defined.
Definition shows (i j : nat) (row : list f32) : bool := fgt (SFabs (f32_sub (logit (swapped i j row)) (logit row))) (f32_lit 1 100).
Definition pairs : list (nat * nat) := i ← seq 0 FEATURE_COUNT; j ← seq 0 FEATURE_COUNT; if Nat.ltb i j then [(i, j)] else [].
Lemma hidden_swaps :
  forallb (fun '(i, j) => if bool_decide ((i, j) ∈ hidden) then forallb (fun row => bool_decide (swapped i j row = row)) fixture_inputs
                          else existsb (shows i j) fixture_inputs) pairs = true.
Proof. vm_compute. reflexivity. Qed.

Lemma hidden_or_shown i j : (i < j < FEATURE_COUNT)%nat ->
  if bool_decide ((i, j) ∈ hidden) then Forall (fun row => swapped i j row = row) fixture_inputs
  else Exists (fun row => shows i j row = true) fixture_inputs.
Proof.
  intros Hij. pose proof hidden_swaps as Hall. rewrite forallb_forall in Hall. specialize (Hall (i, j)). cbn beta iota in Hall.
  assert (List.In (i, j) pairs) as Hin.
  { apply list_elem_of_In. unfold pairs. apply list_elem_of_bind. exists i. split; [|apply elem_of_seq; lia].
    apply list_elem_of_bind. exists j. split; [|apply elem_of_seq; lia].
    rewrite (proj2 (Nat.ltb_lt i j)) by lia. by apply list_elem_of_singleton. }
  specialize (Hall Hin). destruct (bool_decide ((i, j) ∈ hidden)).
  - apply Forall_forall. intros row Hrow%list_elem_of_In. rewrite forallb_forall in Hall.
    by eapply bool_decide_eq_true, Hall.
  - apply existsb_exists in Hall as (row & Hrow%list_elem_of_In & Hs). apply Exists_exists. by exists row.
Qed.

(** The loop over the lines asks the session only about the rows that parse. *)
Lemma check_lines_ext (parse : list Z -> option (list f32 * f32)) run run' line_no count ls :
  Forall (fun l => forall row e, parse (trim l) = Some (row, e) -> run [row] = run' [row]) ls ->
  check_lines parse (Some run) line_no count ls = check_lines parse (Some run') line_no count ls.
Proof.
  intros Hall. revert line_no count; induction Hall as [|l ls Hl Hall IH]; intros line_no count; [done|]. cbn [check_lines].
  destruct (is_empty (trim l)); [apply IH|].
  assert (check_line parse (Some run) line_no (trim l) = check_line parse (Some run') line_no (trim l)) as ->.
  { unfold check_line. destruct (parse (trim l)) as [[row e]|]; [|done]. by rewrite (Hl row e eq_refl). }
  destruct (check_line _ _ _ _); [apply IH|done].
Qed.

Section Blind.
Context {Raw : Type} (run : Raw -> string -> list (list f32) -> Result (list (string * list f32)) string).
Context (parse_pair : list Z -> option (list f32 * f32)) (exp : f32 -> f32) (display : f32 -> list Z).

(** The parity check of the generated fixture, row by row. *)
Lemma fixture_parity (fs : @Files Raw) (sn : ModelSnapshot) (s : Raw) (path : string) :
  (forall x, Forall (fun b => 32 < b < 127) (display x)) ->
  Forall (fun row => parse_pair (record_text exp display row) = Some (row, score exp row)) fixture_inputs ->
  fs_read fs path = Ok (write_parity_jsonl exp display) -> head (sn_sessions sn) = Some s ->
  verify_parity run parse_pair fs sn path = Ok tt <->
  Forall (fun row => exists computed rest, session_of run sn s [row] = Ok (computed :: rest) /\
                     fgt (SFabs (f32_sub computed (score exp row))) PARITY_TOLERANCE = false) fixture_inputs.
Proof.
  intros Hdisplay Hparse Hread Hs. assert (head (sessions_of run sn) = Some (session_of run sn s)) as Hh.
  { unfold sessions_of. destruct (sn_sessions sn); naive_solver. }
  unfold verify_parity. rewrite Hread, Hh. destruct (check_lines _ _ 1 0 _) as [n|e] eqn:E.
  - apply check_lines_ok in E as [Hall ->]. change (filter _ (trim <$> lines ?raw)) with (records raw) in *.
    rewrite (fixture_records exp display Hdisplay) in *. split; [intros _|done].
    rewrite Forall_fmap in Hall. eapply Forall_impl; [by apply Forall_and; split; [apply Hparse|apply Hall]|].
    intros row [Hp (input & e & c & rest & Hp' & _ & Hr)]. rewrite Hp in Hp'. injection Hp' as <- <-. by exists c, rest.
  - split; [done|]. intros Hall. exfalso. enough (check_lines parse_pair (Some (session_of run sn s)) 1 0
      (lines (write_parity_jsonl exp display)) = Ok 7%nat) by congruence.
    apply check_lines_ok. change (filter _ (trim <$> lines ?raw)) with (records raw).
    rewrite (fixture_records exp display Hdisplay). split; [|by rewrite length_fmap].
    rewrite Forall_fmap. apply Forall_forall. intros row Hrow. rewrite Forall_forall in Hall, Hparse.
    destruct (Hall row Hrow) as (c & rest & Hc). exists row, (score exp row), c, rest. split; [by apply Hparse|]. split; [|done].
    clear -Hrow. revert row Hrow. apply Forall_forall. by repeat constructor.
Qed.

(** [C39] What the boot-time parity check sees of the generated fixture: a model is
    accepted iff it reproduces the generator's score on each of the seven rows to
    [1e-4].  A bidder that feeds the model with two features exchanged gets, for
    five of the 78 pairs, the same verdict as one that does not, whatever the model:
    desktop, weekend and video among each other, mobile with banner, tablet with
    CTV.  Every other exchange moves the logit of some row by more than 0.01. *)
Theorem parity_fixture_blind_spots (fs : @Files Raw) (sn : ModelSnapshot) (s : Raw) (path : string)
    (Hdisplay : forall x, Forall (fun b => 32 < b < 127) (display x))
    (Hparse : Forall (fun row => parse_pair (record_text exp display row) = Some (row, score exp row)) fixture_inputs)
    (Hread : fs_read fs path = Ok (write_parity_jsonl exp display)) (Hs : head (sn_sessions sn) = Some s) :
  (verify_parity run parse_pair fs sn path = Ok tt <->
   Forall (fun row => exists computed rest, session_of run sn s [row] = Ok (computed :: rest) /\
                      fgt (SFabs (f32_sub computed (score exp row))) PARITY_TOLERANCE = false) fixture_inputs) /\
  (forall i j, (i < j < FEATURE_COUNT)%nat ->
     if bool_decide ((i, j) ∈ hidden)
     then verify_parity (behind_swap i j run) parse_pair fs sn path = verify_parity run parse_pair fs sn path
     else exists row, row ∈ fixture_inputs /\ fgt (SFabs (f32_sub (logit (swapped i j row)) (logit row))) (f32_lit 1 100) = true).
Proof.
  assert (forall run, head (sessions_of run sn) = Some (session_of run sn s)) as Hh.
  { intros r. unfold sessions_of. destruct (sn_sessions sn); naive_solver. }
  split; [by apply fixture_parity|].
  intros i j Hij. pose proof (hidden_or_shown i j Hij) as Hp. case_bool_decide; [|by apply Exists_exists in Hp].
    unfold verify_parity. rewrite Hread, !Hh, (fixture_lines exp display Hdisplay).
    erewrite check_lines_ext; [done|]. rewrite Forall_fmap.
    eapply Forall_impl; [by apply Forall_and; split; [apply Hparse|apply Hp]|].
    intros row [Hr He] row' e Hr'. rewrite record_trim, Hr in Hr'. injection Hr' as <- <-.
    unfold session_of, behind_swap. cbn [fmap list_fmap]. by rewrite He.
Qed.
End Blind.

Module Sample.
(** A printer that tells the fixture's values apart and the reader that knows its
    records; a session that computes the generator's score, with a toy [exp]. *)
Definition display (x : f32) : list Z := match x with S754_finite _ m _ => [33 + Z.pos m mod 90] | _ => [48] end.
Definition exp (x : f32) : f32 := x.
Definition parse (l : list Z) : option (list f32 * f32) :=
  (fun row => (row, score exp row)) <$> find_first (fun row => bool_decide (record_text exp display row = l)) fixture_inputs.
Definition run (s : unit) (name : string) (rows : list (list f32)) : Result (list (string * list f32)) string :=
  Ok [("pctr"%string, score exp <$> rows)].
Definition files : @Files unit := {| fs_load _ _ := Ok tt; fs_read _ := Ok (write_parity_jsonl exp display) |}.
End Sample.

(** A bidder with tablet and CTV exchanged passes the check. *)
Lemma parity_fixture_blind_spots_witness :
  verify_parity (behind_swap 5 6 Sample.run) Sample.parse Sample.files Ml.Sample.snapshot "parity.jsonl" = Ok tt.
Proof.
  destruct (parity_fixture_blind_spots Sample.run Sample.parse Sample.exp Sample.display Sample.files Ml.Sample.snapshot tt "parity.jsonl")
    as [Hiff Hswap].
  - intros [| | |s m e]; repeat constructor; try lia; pose proof (Z.mod_pos_bound (Z.pos m) 90); lia.
  - unfold fixture_inputs. rewrite !Forall_cons, Forall_nil. split_and!; vm_compute; reflexivity.
  - done.
  - done.
  - specialize (Hswap 5%nat 6%nat ltac:(unfold FEATURE_COUNT; lia)). change (bool_decide ((5, 6)%nat ∈ hidden)) with true in Hswap.
    rewrite Hswap. apply Hiff. apply Forall_forall. intros row Hrow. eexists _, []. split; [reflexivity|].
    revert row Hrow. apply Forall_forall. repeat constructor; vm_compute; reflexivity.
Defined.
