(* ===== verification/Integration.v ===== *)
(** * The generated fixture under the integration test

    [main] of [tools/gen-test-model], which writes the model and its parity fixture,
    and [bidder-core/tests/ml_scorer_integration.rs], which builds an [MLScorer] from
    the two files and scores a batch.  The protobuf encoder, the ONNX runtime, the
    decimal printing and JSON parsing of floats, and what the operating system answers
    are parameters. *)
From S2P Require Import Prelude Floats Text OpenRtb Catalog Model Scoring Ml GenModel Path.

(** Files by absolute path. *)
Notation Disk := (gmap string (list Z)).

(** What the system answers to [create_dir_all], [fs::write], [File::create] and the
    writes of a stream; a write that fails leaves what it says, if anything. *)
Record Io := {
  io_create_dir_all : string -> bool;
  io_write : string -> Result unit (option (list Z));
  io_create : string -> bool;
  io_stream : string -> Result unit (list Z);
}.

(** ** [main] of the generator *)

Inductive GenError :=
| EncodeModelProto (e : string)
| CreateOutputDirectory
| WriteModel (path : string)
| CreateParityDirectory
| CreateParity (path : string)
| WriteParity.

Section Generate.
Context (exp : f32 -> f32) (display : f32 -> list Z) (version : string).
(** [prost]'s encoder into a growing buffer. *)
Context (encode : ModelProto -> Result (list Z) string).
Context (cwd : string) (io : Io).

(** An empty path is nothing to create. *)
Definition create_parent (p : string) : bool :=
  match Path.parent p with
  | Some dir => bool_decide (dir = ""%string) || io_create_dir_all io (Path.resolve cwd dir)
  | None => true
  end.

(** [std::fs::write] *)
Definition write_file (d : Disk) (p : string) (bytes : list Z) : bool * Disk :=
  let p := Path.resolve cwd p in
  match io_write io p with
  | Ok _ => (true, <[p := bytes]> d)
  | Err (Some left_) => (false, <[p := left_]> d)
  | Err None => (false, d)
  end.

(** [write_parity_jsonl]: the file is truncated, then written through a buffer. *)
Definition write_parity_file (d : Disk) (path : string) : Result unit GenError * Disk :=
  if negb (create_parent path) then (Err CreateParityDirectory, d)
  else
    let p := Path.resolve cwd path in
    if negb (io_create io p) then (Err (CreateParity path), d)
    else match io_stream io p with
         | Ok _ => (Ok tt, <[p := write_parity_jsonl exp display]> d)
         | Err written => (Err WriteParity, <[p := written]> d)
         end.

Definition default_out_path : string := "tests/fixtures/test_pctr_model.onnx".
Definition out_path_of (args : list string) : string := unwrap_or (args !! 1%nat) default_out_path.
Definition parity_path_of (out_path : string) : string :=
  Path.join (unwrap_or (Path.parent out_path) ".") "scoring_parity.jsonl".

Definition wrote (buf : list Z) (out_path : string) : string :=
  "Wrote " +:+ pretty (Z.of_nat (length buf)) +:+ " bytes to " +:+ out_path.
Definition wrote_parity (parity_path : string) : string := "Wrote parity fixtures to " +:+ parity_path.

(** The outcome, what is printed, and the files afterwards. *)
Definition generate (args : list string) (d : Disk) : Result unit GenError * list string * Disk :=
  let out_path := out_path_of args in
  match encode (build_model version) with
  | Err e => (Err (EncodeModelProto e), [], d)
  | Ok buf =>
      if negb (create_parent out_path) then (Err CreateOutputDirectory, [], d)
      else
        let '(written, d) := write_file d out_path buf in
        if negb written then (Err (WriteModel out_path), [], d)
        else
          let parity_path := parity_path_of out_path in
          match write_parity_file d parity_path with
          | (Err e, d) => (Err e, [wrote buf out_path], d)
          | (Ok _, d) => (Ok tt, [wrote buf out_path; wrote_parity parity_path], d)
          end
  end.
End Generate.

(** ** The integration test *)

Inductive Panic :=
| NoManifestDir
| NoParent
| NewFailed (e : MlError)
| ScoreOutOfRange (score : f32).

Section Harness.
Context {Raw : Type} (run_session : Raw -> string -> list (list f32) -> Result (list (string * list f32)) string).
Context (parse_pair : list Z -> option (list f32 * f32)) (ln : f32 -> f32).
(** The [i]-th session the runtime makes of a model file. *)
Context (open : nat -> list Z -> Result Raw string).

(** [CARGO_MANIFEST_DIR]; whether [ORT_DYLIB_PATH] is set. *)
Record TestEnv := { te_manifest_dir : option string; te_ort : bool; te_disk : Disk }.

Definition fixture_paths (e : TestEnv) : Result (string * string) Panic :=
  match te_manifest_dir e with
  | None => Err NoManifestDir
  | Some manifest =>
      match Path.parent manifest with
      | None => Err NoParent
      | Some repo_root => Ok (Path.join repo_root "tests/fixtures/test_pctr_model.onnx",
                              Path.join repo_root "tests/fixtures/scoring_parity.jsonl")
      end
  end.

(** [None]: the test is skipped. *)
Definition cfg_or_skip (e : TestEnv) : Result (option MLScorerConfig) Panic :=
  if negb (te_ort e) then Ok None
  else match fixture_paths e with
       | Err p => Err p
       | Ok (model, parity) =>
           match te_disk e !! model with
           | None => Ok None
           | Some _ => Ok (Some {| model_path := model; parity_path := Some parity; input_tensor_name := "features";
                                   output_tensor_name := "pctr"; pool_size := 2; max_batch := 32; batch_pad_to := 8 |})
           end
       end.

Definition files_of (e : TestEnv) : @Files Raw := {|
  fs_load i p := match te_disk e !! p with Some bytes => open i bytes | None => Err "no such file"%string end;
  fs_read p := match te_disk e !! p with Some bytes => Ok bytes | None => Err "no such file"%string end |}.

Definition test_candidate : AdCandidate := {|
  ac_campaign_id := 1; ac_creative_id := 1; ac_bid_price_cents := 500; ac_score := f32_of_Z 0;
  ac_daily_cap_imps := u32_max; ac_hourly_cap_imps := u32_max |}.
Definition test_ctx : ScoringContext := {|
  sc_segment_ids := []; sc_device_type := None; sc_ad_format := None; sc_hour_of_day := 12; sc_is_weekend := false;
  sc_user_id := ""; sc_is_top_market := false |}.

Definition in_range (score : f32) : bool := fge score (f32_of_Z 0) && fle score (f32_of_Z 1).

(** The first candidate whose score is out of range panics. *)
Fixpoint check_range (l : list AdCandidate) : Result unit Panic :=
  match l with
  | [] => Ok tt
  | c :: l => if in_range (ac_score c) then check_range l else Err (ScoreOutOfRange (ac_score c))
  end.

(** [run_loads_fixture_and_passes_parity_then_scores_batch] *)
Definition loads_fixture_and_passes_parity_then_scores_batch (e : TestEnv) : Result unit Panic :=
  match cfg_or_skip e with
  | Err p => Err p
  | Ok None => Ok tt
  | Ok (Some cfg) =>
      match new_with_fallback run_session parse_pair (F := FeatureWeightedScorer) (files_of e) cfg None with
      | Err err => Err (NewFailed err)
      | Ok (scorer, _) => check_range (ml_score_all ln scorer (replicate 5 test_candidate) test_ctx).1
      end
  end.

(** [run_test] on standard output: the panic is caught and its message goes to
    standard error. *)
Definition run_test (name : string) (body : Result unit Panic) : bool * list string :=
  match body with
  | Ok _ => (true, ["test " +:+ name +:+ " ... ok"]%string)
  | Err _ => (false, ["test " +:+ name +:+ " ... FAILED"]%string)
  end.

Definition run_tests (l : list (string * Result unit Panic)) : Z * Z * list string :=
  foldl (fun '(passed, failed, out) '(name, body) =>
           let '(ok, printed) := run_test name body in
           (if ok then passed + 1 else passed, if ok then failed else failed + 1, out ++ printed)) (0, 0, []) l.

Definition summary (passed failed : Z) : string :=
  (if failed =? 0 then "test result: ok. " else "test result: FAILED. ") +:+ pretty passed +:+ " passed; " +:+
  pretty failed +:+ " failed; 0 ignored; 0 measured".

(** [main]: the exit code and standard output. *)
Definition harness (e : TestEnv) : Z * list string :=
  let '(passed, failed, out) := run_tests
    [("loads_fixture_and_passes_parity_then_scores_batch"%string, loads_fixture_and_passes_parity_then_scores_batch e)] in
  (if failed =? 0 then 0 else 1,
   [""; "running ml_scorer_integration tests"]%string ++ out ++ [""%string; summary passed failed]).
End Harness.

(** ** The test on what the generator wrote *)

Lemma join_inj p q q' : Path.is_absolute q = false -> Path.is_absolute q' = false -> Path.join p q = Path.join p q' -> q = q'.
Proof.
  unfold Path.join. intros -> ->. destruct (last _) as [c|]; [|done]. case_bool_decide; intros E%string_app_inj_l; [done|].
  by injection E.
Qed.

Section Verdict.
Context {Raw : Type} (run_session : Raw -> string -> list (list f32) -> Result (list (string * list f32)) string).
Context (parse_pair : list Z -> option (list f32 * f32)) (ln : f32 -> f32) (open : nat -> list Z -> Result Raw string).
Context (exp : f32 -> f32) (display : f32 -> list Z) (version : string) (encode : ModelProto -> Result (list Z) string).

(** What a session answers under the names of the configuration. *)
Definition output (s : Raw) : Session :=
  session_of run_session {| sn_sessions := []; sn_next := 0; sn_input_name := "features"; sn_output_name := "pctr" |} s.

(** Five times the test's row, padded to eight. *)
Definition test_rows : list (list f32) :=
  replicate 5 (pack (extract ln test_candidate test_ctx)) ++ replicate 3 (replicate Scoring.FEATURE_COUNT (f32_of_Z 0)).

Lemma check_range_ok l : check_range l = Ok tt <-> Forall (fun c => in_range (ac_score c) = true) l.
Proof.
  induction l as [|c l IH]; cbn; [by split|]. rewrite Forall_cons. destruct (in_range (ac_score c)); [rewrite IH; naive_solver|].
  split; [done|]. by intros [? _].
Qed.

(** A successful run of the generator leaves the model and the fixture. *)
Lemma generate_writes cwd io args d d' out : generate exp display version encode cwd io args d = (Ok tt, out, d') ->
  exists buf, encode (build_model version) = Ok buf /\
    d' = <[Path.resolve cwd (parity_path_of (out_path_of args)) := write_parity_jsonl exp display]>
           (<[Path.resolve cwd (out_path_of args) := buf]> d).
Proof.
  unfold generate, write_file, write_parity_file. destruct (encode _) as [buf|e]; [|done]. intros Hg. exists buf. split; [done|].
  revert Hg. destruct (create_parent _ _ _); [cbn|done]. destruct (io_write _ _) as [u|[l|]]; cbn; try done.
  destruct (create_parent _ _ _); [cbn|done]. destruct (io_create _ _); [cbn|done]. by destruct (io_stream _ _); intros [= _ <-].
Qed.

Definition test_cfg (model parity : string) : MLScorerConfig := {|
  model_path := model; parity_path := Some parity; input_tensor_name := "features"; output_tensor_name := "pctr";
  pool_size := 2; max_batch := 32; batch_pad_to := 8 |}.
Definition snapshot_of (s0 s1 : Raw) : @ModelSnapshot Raw :=
  {| sn_sessions := [s0; s1]; sn_next := 0; sn_input_name := "features"; sn_output_name := "pctr" |}.

(** The scores the test looks at: a failed inference leaves zeros. *)
Lemma batch_verdict model parity s0 s1 :
  check_range (ml_score_all ln (scorer_of run_session (F := FeatureWeightedScorer) (test_cfg model parity) None (snapshot_of s0 s1))
                 (replicate 5 test_candidate) test_ctx).1 = Ok tt <->
  forall data, output s0 test_rows = Ok data -> (5 <= length data)%nat -> Forall (fun x => in_range x = true) (take 5 data).
Proof.
  rewrite check_range_ok. unfold ml_score_all. cbn [replicate length score_chunks scorer_of ml_cfg test_cfg max_batch take drop].
  unfold score_batch, pick, load_snapshot. cbn [scorer_of ml_cfg ml_sessions ml_next ml_fallback ml_stores snapshot_of sn_sessions sn_next sessions_of fmap list_fmap length].
  change ([session_of run_session (snapshot_of s0 s1) s0; session_of run_session (snapshot_of s0 s1) s1] !! Z.to_nat (0 mod Z.of_nat 2))
    with (Some (output s0)).
  change (batch_rows ln (test_cfg model parity) [test_candidate; test_candidate; test_candidate; test_candidate; test_candidate] test_ctx)
    with test_rows.
  cbn iota. destruct (output s0 test_rows) as [data|e].
  2: { split; [done|]. intros _. cbn. repeat constructor. }
  destruct (Nat.ltb_spec (length data) 5) as [Hl|Hl].
  { split; [intros _ d [= <-]; lia|]. intros _. cbn. repeat constructor. }
  do 5 (destruct data as [|? data]; [cbn in Hl; lia|]). cbn [zip_with fst].
  match goal with |- Forall ?P _ <-> _ => change (Forall P (with_score test_candidate <$> [f; f0; f1; f2; f3]) <->
    forall d, Ok (f :: f0 :: f1 :: f2 :: f3 :: data) = @Ok _ string d -> (5 <= length d)%nat -> Forall (fun x => in_range x = true) (take 5 d)) end.
  rewrite Forall_fmap.
  split; [by intros Hall d [= <-] _|]. intros Hd. by apply (Hd _ eq_refl).
Qed.

Lemma harness_ok e : (harness run_session parse_pair ln open e).1 = 0 <->
  loads_fixture_and_passes_parity_then_scores_batch run_session parse_pair ln open e = Ok tt.
Proof. unfold harness, run_tests. cbn. destruct (loads_fixture_and_passes_parity_then_scores_batch _ _ _ _ e) as [[]|]; by cbn. Qed.

(** [C40] Regenerating the fixture and running the integration test: once the generator has
    succeeded in the repository's root, the test exits with 0 iff the ONNX runtime is
    not installed, or it opens the generated model twice, the first session
    reproduces the generator's score on each of the seven fixture rows to [1e-4], and
    the scores it gives to the test's padded batch are in [0, 1] -- if it gives any:
    an inference that fails or answers too few values leaves zeros, which pass. *)
Theorem regenerated_fixture_verdict (manifest root : string) (io : Io) (prog : string) (d d' : Disk) (out : list string) (ort : bool)
    (Hdisplay : forall x, Forall (fun b => 32 < b < 127) (display x))
    (Hparse : Forall (fun row => parse_pair (record_text exp display row) = Some (row, score exp row)) fixture_inputs)
    (Hroot : Path.parent manifest = Some root)
    (Hgen : generate exp display version encode root io [prog] d = (Ok tt, out, d')) :
  (harness run_session parse_pair ln open {| te_manifest_dir := Some manifest; te_ort := ort; te_disk := d' |}).1 = 0 <->
  ort = false \/
  exists buf s0 s1, encode (build_model version) = Ok buf /\ open 0 buf = Ok s0 /\ open 1 buf = Ok s1 /\
    Forall (fun row => exists computed rest, output s0 [row] = Ok (computed :: rest) /\
                       fgt (SFabs (f32_sub computed (score exp row))) PARITY_TOLERANCE = false) fixture_inputs /\
    (forall data, output s0 test_rows = Ok data -> (5 <= length data)%nat -> Forall (fun x => in_range x = true) (take 5 data)).
Proof.
  rewrite harness_ok. apply generate_writes in Hgen as (buf & Hbuf & ->).
  unfold loads_fixture_and_passes_parity_then_scores_batch, cfg_or_skip, fixture_paths. cbn [te_ort te_manifest_dir te_disk].
  destruct ort; [|by split; [left|]]. rewrite Hroot. cbn [negb].
  change (out_path_of [prog]) with default_out_path. unfold Path.resolve.
  change (Path.join root (parity_path_of default_out_path)) with (Path.join root "tests/fixtures/scoring_parity.jsonl").
  set (mp := Path.join root default_out_path). set (pp := Path.join root "tests/fixtures/scoring_parity.jsonl").
  assert (pp <> mp) as Hne by (intros E%join_inj; done).
  change (Path.join root "tests/fixtures/test_pctr_model.onnx") with mp. rewrite lookup_insert_ne, lookup_insert_eq by done.
  fold (test_cfg mp pp). unfold new_with_fallback. cbn [validate test_cfg pool_size max_batch batch_pad_to Nat.eqb parity_path].
  unfold snapshot_build. cbn [test_cfg pool_size load_sessions model_path files_of fs_load te_disk].
  rewrite lookup_insert_ne, lookup_insert_eq by done.
  destruct (open 0 buf) as [s0|] eqn:E0; [|split; [done|intros [|(buf' & s0' & s1' & Hb' & H0 & H1 & _)]; [done|congruence]]].
  destruct (open 1 buf) as [s1|] eqn:E1; [|split; [done|intros [|(buf' & s0' & s1' & Hb' & H0 & H1 & _)]; [done|congruence]]].
  cbn [input_tensor_name output_tensor_name]. fold (snapshot_of s0 s1).
  match goal with |- context [verify_parity _ _ ?fs _ _] => pose proof (fixture_parity run_session parse_pair exp display fs
    (snapshot_of s0 s1) s0 pp Hdisplay Hparse) as Hpar end.
  cbn [fs_read files_of te_disk] in Hpar. rewrite lookup_insert_eq in Hpar. specialize (Hpar eq_refl eq_refl).
  destruct (verify_parity _ _ _ _ _) as [[]|pe] eqn:Ev.
  - rewrite (batch_verdict mp pp s0 s1). split.
    + intros Hb. right. exists buf, s0, s1. split_and!; try done. by apply Hpar.
    + intros [|(buf' & s0' & s1' & Hbuf' & H0 & H1 & _ & Hb)]; [done|]. by assert (s0' = s0) as -> by congruence.
  - split; [done|]. intros [|(buf' & s0' & s1' & Hbuf' & H0 & H1 & Hr & _)]; [done|].
    assert (s0' = s0) as -> by congruence. by apply Hpar in Hr.
Qed.
End Verdict.

(** A runtime that answers the generator's scores, except that its batches of eight
    fail. *)
Module FixtureSample.
Definition io : Io :=
  {| io_create_dir_all _ := true; io_write _ := Ok tt; io_create _ := true; io_stream _ := Ok tt |}.
Definition encode (m : ModelProto) : Result (list Z) string := Ok (utf8 (mp_producer_name m)).
Definition run (s : unit) (name : string) (rows : list (list f32)) : Result (list (string * list f32)) string :=
  if Nat.eqb (length rows) 8 then Err "inference failed"%string else GenModel.Sample.run s name rows.
Definition open (i : nat) (bytes : list Z) : Result unit string := Ok tt.
Definition disk : Disk :=
  (generate GenModel.Sample.exp GenModel.Sample.display "0.1.0" encode "/repo" io ["gen-test-model"%string] ∅).2.
Definition env : TestEnv := {| te_manifest_dir := Some "/repo/bidder-core"%string; te_ort := true; te_disk := disk |}.
End FixtureSample.

(** The test passes although no candidate is ever scored. *)
Lemma regenerated_fixture_verdict_witness :
  (harness FixtureSample.run GenModel.Sample.parse (fun x => x) FixtureSample.open FixtureSample.env).1 = 0.
Proof.
  assert (forall A B C (x : A * B * C) r, x.1.1 = r -> x = (r, x.1.2, x.2)) as Hpair by by intros A B C [[??]?] r <-.
  eapply (regenerated_fixture_verdict FixtureSample.run GenModel.Sample.parse (fun x => x) FixtureSample.open GenModel.Sample.exp
           GenModel.Sample.display "0.1.0" FixtureSample.encode "/repo/bidder-core" "/repo" FixtureSample.io "gen-test-model" ∅ _ _ true).
  - intros [| | |s m e]; repeat constructor; try lia; pose proof (Z.mod_pos_bound (Z.pos m) 90); lia.
  - unfold fixture_inputs. rewrite !Forall_cons, Forall_nil. split_and!; vm_compute; reflexivity.
  - reflexivity.
  - apply Hpair. reflexivity.
  - right. exists (utf8 "rust-rtb-bidder/gen-test-model"), tt, tt. do 3 (split; [reflexivity|]). split.
    + apply Forall_forall. intros row Hrow. eexists _, []. split; [reflexivity|].
      revert row Hrow. apply Forall_forall. repeat constructor; vm_compute; reflexivity.
    + intros data Hd. exfalso. revert Hd. vm_compute. discriminate.
Defined.
