(* ===== verification/Segments.v ===== *)
(** * User segments

    [bidder-core/src/repository/mod.rs], [cache/mod.rs] and
    [bidder-server/src/segment_repo.rs]: the repository trait, its Redis
    implementation behind the shared breaker and hedge bucket, the packed
    little-endian encoding of a segment list, and the per-user cache in front of
    it.  The cache (moka) is the interface [KVCache]. *)
From S2P Require Import Prelude Floats OpenRtb Bitmap Catalog Model Externals Breaker Hedge Frequency.

(** [UserSegmentRepository]: [S] is the repository with what it shares, [E] what
    the environment does during the call. *)
Class UserSegmentRepository (S E : Type) := {
  segments_for : S -> string -> E -> Result (list SegmentId) string * S;
}.

(** ** The packed encoding *)

(** [u32::from_le_bytes] *)
Definition from_le_bytes (b0 b1 b2 b3 : Z) : Z := b0 + 2 ^ 8 * b1 + 2 ^ 16 * b2 + 2 ^ 24 * b3.

(** [bytes.chunks_exact(4).map(from_le_bytes)] *)
Fixpoint decode_ids (bytes : list Z) : list SegmentId :=
  match bytes with
  | b0 :: b1 :: b2 :: b3 :: rest => from_le_bytes b0 b1 b2 b3 :: decode_ids rest
  | _ => []
  end.

Definition decode_segments (value : option (list Z)) : Result (list SegmentId) string :=
  match value with
  | None => Ok []
  | Some bytes =>
      if negb (Z.of_nat (length bytes) mod 4 =? 0) then Err "length is not a multiple of 4"%string
      else Ok (decode_ids bytes)
  end.

(** ** [RedisSegmentRepo] *)
Module RedisSegmentRepo.

(** As for the capper; Redis answers each attempt for the key it is sent. *)
Record Env := {
  sg_now_read : Instant;
  sg_now_write : Instant;
  sg_readable : bool;
  sg_first : string -> Duration * Result (option (list Z)) string;
  sg_second : string -> Duration * Result (option (list Z)) string;
  sg_prefer_first : bool;
  sg_elapsed : Duration;
  sg_now_record : Instant;
}.

Definition segment_key (user_id : string) : string := "v1:seg:{u:" +:+ user_id +:+ "}".

(** A Redis call completes, with a value or an error, after some time. *)
Definition attempt (a : Duration * Result (option (list Z)) string) : Attempt (Result (option (list Z)) string) :=
  {| latency := Some a.1; value := a.2 |}.

(** The call is not under a timeout of its own, so the race has a result. *)
Definition segments_for (s : RedisCapper.Shared) (user_id : string) (env : Env)
  : Result (list SegmentId) string * RedisCapper.Shared :=
  let '(allowed, breaker) := allow_request (RedisCapper.rs_breaker s) (sg_now_read env) (sg_now_write env) in
  if negb allowed then (Ok [], share_breaker s breaker)
  else
    let key := segment_key user_id in
    let run := hedged_call (attempt (sg_first env key)) (attempt (sg_second env key)) (from_millis 8)
                 (is_closed_sync breaker (sg_readable env)) (sg_prefer_first env) None (RedisCapper.rs_hedge s) in
    let finish error := {|
      RedisCapper.rs_breaker := record_outcome breaker error (sg_elapsed env) (sg_now_record env);
      RedisCapper.rs_hedge := hr_budget run;
      RedisCapper.rs_latency := (fun t => record_latency t (sg_elapsed env)) <$> RedisCapper.rs_latency s;
      RedisCapper.rs_timeout_ms := RedisCapper.rs_timeout_ms s |} in
    match unwrap_or (hr_result run) (sg_first env key).2 with
    | Err e => (Err e, finish true)
    | Ok value => (decode_segments value, finish false)
    end.

(** The same call when the caller drops the future [drop_at] after the Redis read
    has started: nothing runs after the await that is pending then, so neither the
    latency nor the outcome is recorded. *)
Definition segments_for_until (drop_at : Duration) (s : RedisCapper.Shared) (user_id : string) (env : Env)
  : option (Result (list SegmentId) string) * RedisCapper.Shared :=
  let '(allowed, breaker) := allow_request (RedisCapper.rs_breaker s) (sg_now_read env) (sg_now_write env) in
  if negb allowed then (Some (Ok []), share_breaker s breaker)
  else
    let key := segment_key user_id in
    let run := hedged_call (attempt (sg_first env key)) (attempt (sg_second env key)) (from_millis 8)
                 (is_closed_sync breaker (sg_readable env)) (sg_prefer_first env) (Some drop_at) (RedisCapper.rs_hedge s) in
    match hr_result run with
    | None => (None, {| RedisCapper.rs_breaker := breaker; RedisCapper.rs_hedge := hr_budget run;
                        RedisCapper.rs_latency := RedisCapper.rs_latency s;
                        RedisCapper.rs_timeout_ms := RedisCapper.rs_timeout_ms s |})
    | Some _ => let '(r, s') := segments_for s user_id env in (Some r, s')
    end.

#[global] Instance redis_segment_repo : UserSegmentRepository RedisCapper.Shared Env :=
  {| Segments.segments_for := segments_for |}.

Lemma race_completes first second trigger closed prefer b :
  is_Some (hr_result (hedged_call (attempt first) (attempt second) trigger closed prefer None b)).
Proof.
  pose proof (hedged_call_returns (attempt first) (attempt second) trigger closed prefer None b eq_refl) as Hr.
  rewrite !elem_of_cons, elem_of_nil in Hr. destruct Hr as [->|[->|[]]]; eauto.
Qed.
End RedisSegmentRepo.

(** ** [SegmentCache]

    [try_get_with]: a cached value is returned as it is; on a miss the fetch
    runs, and only a successful result is stored. *)
Section Cache.
Context {C : Type} `{KVCache C string (list SegmentId)}.

Definition get_or_fetch {S} (cache : C) (user_id : string) (s : S)
    (fetch : S -> Result (list SegmentId) string * S) : Result (list SegmentId) string * C * S :=
  match kv_get cache user_id with
  | Some ids => (Ok ids, cache, s)
  | None =>
      match fetch s with
      | (Ok ids, s') => (Ok ids, kv_put cache user_id ids, s')
      | (Err e, s') => (Err e, cache, s')
      end
  end.
End Cache.

(** ** Lemmas *)

(** [u32::to_le_bytes], the encoding the loader of segment values uses. *)
Definition to_le_bytes (x : Z) : list Z :=
  [x mod 2 ^ 8; x / 2 ^ 8 mod 2 ^ 8; x / 2 ^ 16 mod 2 ^ 8; x / 2 ^ 24 mod 2 ^ 8].

Lemma le_bytes_roundtrip x : in_u32 x ->
  from_le_bytes (x mod 2 ^ 8) (x / 2 ^ 8 mod 2 ^ 8) (x / 2 ^ 16 mod 2 ^ 8) (x / 2 ^ 24 mod 2 ^ 8) = x.
Proof.
  unfold in_u32, u32_max, from_le_bytes. intros Hx.
  rewrite (Z.mod_small (x / 2 ^ 24)) by (split; [apply Z.div_pos; lia|apply Z.div_lt_upper_bound; lia]).
  pose proof (Z.div_mod x (2 ^ 8) ltac:(lia)). pose proof (Z.div_mod (x / 2 ^ 8) (2 ^ 8) ltac:(lia)).
  pose proof (Z.div_mod (x / 2 ^ 16) (2 ^ 8) ltac:(lia)).
  rewrite Z.div_div in * by lia. change (2 ^ 8 * 2 ^ 8) with (2 ^ 16) in *. change (2 ^ 16 * 2 ^ 8) with (2 ^ 24) in *.
  lia.
Qed.

Lemma decode_encode ids : Forall in_u32 ids -> decode_ids (ids ≫= to_le_bytes) = ids.
Proof.
  induction 1 as [|x ids Hx Hall IH]; [done|].
  change (decode_ids ((x :: ids) ≫= to_le_bytes)) with
    (from_le_bytes (x mod 2 ^ 8) (x / 2 ^ 8 mod 2 ^ 8) (x / 2 ^ 16 mod 2 ^ 8) (x / 2 ^ 24 mod 2 ^ 8)
       :: decode_ids (ids ≫= to_le_bytes)).
  by rewrite le_bytes_roundtrip, IH.
Qed.

Lemma length_encode (ids : list Z) : length (ids ≫= to_le_bytes) = (4 * length ids)%nat.
Proof. induction ids as [|x ids IH]; simpl; [done|]. unfold mbind in IH. rewrite IH. lia. Qed.

(** ** Properties *)

(** Segment values round-trip: decoding the packed little-endian encoding of
    any list of 32-bit ids gives the list back, an absent value is the empty list,
    and a value whose length is not a multiple of four is an error. *)
Theorem segments_roundtrip (ids : list SegmentId) (Hids : Forall in_u32 ids) :
  decode_segments (Some (ids ≫= to_le_bytes)) = Ok ids /\ decode_segments None = Ok [] /\
  (forall bytes, Z.of_nat (length bytes) mod 4 <> 0 -> is_ok (decode_segments (Some bytes)) = false).
Proof.
  split_and!; [|done|].
  - unfold decode_segments. rewrite length_encode.
    replace (Z.of_nat (4 * length ids) mod 4) with 0; [by rewrite Z.eqb_refl; simpl; rewrite decode_encode|].
    rewrite Nat2Z.inj_mul, Z.mul_comm. symmetry. by apply Z.mod_mul.
  - intros bytes Hb. unfold decode_segments. apply Z.eqb_neq in Hb. by rewrite Hb.
Qed.

Lemma segments_roundtrip_witness :
  decode_segments (Some [1; 0; 0; 0; 255; 255; 255; 255]) = Ok [1; 4294967295].
Proof.
  apply (segments_roundtrip [1; 4294967295]).
  repeat constructor; unfold u32_max; try lia.
Defined.

(** A breaker refusal is remembered as a user without segments: when the
    shared breaker refuses the read on a cache miss, the empty list is stored, so
    after Redis has recovered the user still resolves to no segments, without any
    Redis read, until the cache drops the entry. *)
Theorem breaker_refusal_is_cached {C} `{KVCacheLaws C string (list SegmentId)} (cache : C) (user : string)
    (s s' : RedisCapper.Shared) (env env' : RedisSegmentRepo.Env) (cb : CircuitBreaker)
    (Hmiss : kv_get cache user = None)
    (Hrefused : allow_request (RedisCapper.rs_breaker s) (RedisSegmentRepo.sg_now_read env)
                  (RedisSegmentRepo.sg_now_write env) = (false, cb)) :
  let '(r, cache', s1) := get_or_fetch cache user s (fun s => segments_for s user env) in
  r = Ok [] /\
  get_or_fetch cache' user s' (fun s => segments_for s user env') = (Ok [], cache', s').
Proof.
  unfold get_or_fetch. rewrite Hmiss. cbn [segments_for RedisSegmentRepo.redis_segment_repo].
  unfold RedisSegmentRepo.segments_for. rewrite Hrefused. simpl. split; [done|].
  by rewrite kv_get_put_same.
Qed.

Lemma breaker_refusal_is_cached_witness :
  let cb := {| cfg := redis "redis"; window := Window_new;
               inner := {| state := Open; opened_at := Some 0; half_open_probe_in_flight := false |} |} in
  let answer := (1, Ok (Some [1; 0; 0; 0])) in
  let env := {| RedisSegmentRepo.sg_now_read := 5; RedisSegmentRepo.sg_now_write := 5;
                RedisSegmentRepo.sg_readable := true; RedisSegmentRepo.sg_first _ := answer;
                RedisSegmentRepo.sg_second _ := answer; RedisSegmentRepo.sg_prefer_first := true;
                RedisSegmentRepo.sg_elapsed := 1; RedisSegmentRepo.sg_now_record := 6 |} in
  let cache : gmap string (list SegmentId) := ∅ in
  let '(r, cache', _) := get_or_fetch cache "alice" (share_breaker sample_shared cb) (fun s => segments_for s "alice" env) in
  get_or_fetch cache' "alice" sample_shared (fun s => segments_for s "alice" env) = (Ok [], cache', sample_shared).
Proof.
  intros cb answer env cache.
  pose proof (breaker_refusal_is_cached cache "alice" (share_breaker sample_shared cb) sample_shared env env cb
    eq_refl eq_refl) as Hc.
  destruct (get_or_fetch cache "alice" _ _) as [[r cache'] s1]. apply Hc.
Defined.

(** A read that would outlast the caller is dropped. *)
Lemma dropped_call {T} (first second : Attempt T) trigger closed prefer drop b :
  by_time (latency first) (Some drop) = false -> by_time ((fun d => trigger + d) <$> latency second) (Some drop) = false ->
  hr_result (hedged_call first second trigger closed prefer (Some drop) b) = None.
Proof.
  intros H1 H2. unfold hedged_call. rewrite H1, andb_false_r. destruct (by_time (Some trigger) (Some drop)); [|done].
  cbn [negb]. destruct (if closed then _ else _) as [[] b']; cbn [negb]; [|done].
  destruct (_ && _); [by rewrite H1|by rewrite H2].
Qed.

Lemma segments_for_refused (s : RedisCapper.Shared) user env :
  probe_out (RedisCapper.rs_breaker s) -> segments_for s user env = (Ok [], s).
Proof.
  intros Hp. cbn [segments_for RedisSegmentRepo.redis_segment_repo]. unfold RedisSegmentRepo.segments_for.
  rewrite allow_request_probe_out by done. by destruct s.
Qed.

(** A client timeout during the recovery probe disables Redis for good: when
    the breaker lets a segment read through as its half-open probe and the HTTP
    timeout drops the request before Redis answers, the outcome is never
    recorded; from then on every segment read of every user answers the empty
    list and changes nothing, and no later request of any caller is let through,
    at whatever time. *)
Theorem dropped_probe_disables_redis (s : RedisCapper.Shared) (user : string) (env : RedisSegmentRepo.Env)
    (drop : Duration) (cb : CircuitBreaker)
    (Hprobe : allow_request (RedisCapper.rs_breaker s) (RedisSegmentRepo.sg_now_read env)
                (RedisSegmentRepo.sg_now_write env) = (true, cb))
    (Hhalf : state (inner cb) = HalfOpen)
    (Hlate : let key := RedisSegmentRepo.segment_key user in
       drop < (RedisSegmentRepo.sg_first env key).1 /\ drop < from_millis 8 + (RedisSegmentRepo.sg_second env key).1) :
  let '(r, s') := RedisSegmentRepo.segments_for_until drop s user env in
  r = None /\
  (forall calls, fold_map (fun s '(u, e) => let '(r, s') := segments_for s u e in (s', r)) s' calls
                 = (s', replicate (length calls) (Ok []))) /\
  (forall t1 t2, (allow_request (RedisCapper.rs_breaker s') t1 t2).1 = false).
Proof.
  cbv zeta in Hlate. assert (probe_out cb) as Hout.
  { unfold allow_request in Hprobe. destruct (allow_fast _ _) as [b|] eqn:Ef.
    - injection Hprobe as -> <-. unfold allow_fast in Ef. rewrite Hhalf in Ef. done.
    - pose proof (try_enter_grants (RedisCapper.rs_breaker s) (RedisSegmentRepo.sg_now_write env)) as Hg.
      rewrite Hprobe in Hg. by apply Hg. }
  unfold RedisSegmentRepo.segments_for_until. rewrite Hprobe. cbn [negb].
  rewrite dropped_call; [|unfold by_time, RedisSegmentRepo.attempt; simpl; apply Z.leb_gt; lia..].
  split; [done|]. split.
  - intros calls. set (s' := RedisCapper.Build_Shared _ _ _ _).
    induction calls as [|[u e] calls IH]; [done|]. cbn [fold_map]. rewrite segments_for_refused by done. by rewrite IH.
  - intros t1 t2. cbn [RedisCapper.rs_breaker]. by rewrite allow_request_probe_out.
Qed.

(** A probe on a Redis that answers after 60 ms, under the 50 ms HTTP timeout. *)
Lemma dropped_probe_disables_redis_witness :
  let cb := {| cfg := redis "redis"; window := Window_new;
               inner := {| state := Open; opened_at := Some 0; half_open_probe_in_flight := false |} |} in
  let slow := (from_millis 60, Ok (Some [1; 0; 0; 0])) in
  let env now := {| RedisSegmentRepo.sg_now_read := now; RedisSegmentRepo.sg_now_write := now;
                    RedisSegmentRepo.sg_readable := true; RedisSegmentRepo.sg_first _ := slow;
                    RedisSegmentRepo.sg_second _ := slow; RedisSegmentRepo.sg_prefer_first := true;
                    RedisSegmentRepo.sg_elapsed := from_millis 60; RedisSegmentRepo.sg_now_record := now |} in
  let '(r, s') := RedisSegmentRepo.segments_for_until (from_millis 50) (share_breaker sample_shared cb) "alice" (env (from_secs 11)) in
  r = None /\ (allow_request (RedisCapper.rs_breaker s') (from_secs 86400) (from_secs 86400)).1 = false.
Proof.
  intros cb slow env.
  pose proof (dropped_probe_disables_redis (share_breaker sample_shared cb) "alice" (env (from_secs 11)) (from_millis 50)
    {| cfg := redis "redis"; window := Window_new;
       inner := {| state := HalfOpen; opened_at := Some 0; half_open_probe_in_flight := true |} |}
    eq_refl eq_refl ltac:(vm_compute; intuition congruence)) as Hd.
  destruct (RedisSegmentRepo.segments_for_until _ _ _ _) as [r s']. destruct Hd as (-> & _ & Hf). auto.
Defined.
