(* ===== verification/Calls.v ===== *)
(** * Concurrent Redis calls

    Any number of segment reads and frequency-cap checks in flight at once over the
    breaker, the hedge bucket and the latency tracker they share.  A call is a state
    machine: each lock section of the breaker and each atomic operation of the
    counters and of the bucket is a step of its own, the answers of Redis, the
    trigger, the capper's timeout and the HTTP timeout that drops a request are
    steps the environment chooses, and a schedule is a list of [Action]s.

    [bidder-core/src/breaker/mod.rs], [hedge.rs], [hedge_feedback.rs],
    [frequency/in_process.rs] and [bidder-server/src/segment_repo.rs],
    [freq_cap.rs].  The stores of a window reset are one step with the locked
    section that makes them. *)
From S2P Require Import Prelude Floats Breaker Hedge Frequency Segments.

(** ** Calls *)

(** [RedisSegmentRepo::segments_for]; [RedisFrequencyCapper::check]; the check of
    [InProcessFrequencyCapper], which asks the same breaker first and then, for its
    cold candidates if it has any, calls the Redis capper: [Fallback]. *)
Inductive Kind := SegmentRead | CapCheck | Layered (cold : bool) | Fallback.

(** How the Redis call ended, as the breaker is told. *)
Record Outcome := { oc_error : bool; oc_elapsed : Duration }.

Inductive Phase :=
| Asking                                        (* at the read lock of [allow_request] *)
| Claiming                                      (* at the write lock of [try_enter_half_open] *)
| Reading                                       (* the first attempt is in flight, the trigger has not elapsed *)
| Consuming                                     (* the breaker is closed: [try_consume] comes next *)
| Waiting                                       (* no hedge: the first attempt is in flight *)
| Racing                                        (* two attempts in flight *)
| Restoring (o : Outcome)                       (* [restore]: before its [fetch_add] *)
| Comparing (o : Outcome) (new : Z)             (* before it loads [effective_cap] *)
| Clamping (o : Outcome) (cap : Z)              (* before its [fetch_min] *)
| Tracking (o : Outcome) (added : bool)         (* [RedisLatencyTracker::record] *)
| Counting (o : Outcome) (adds : nat)           (* [Window::record], after this many of its three updates *)
| Loading (o : Outcome) (loaded : list Z)       (* [Window::snapshot] *)
| Locking (o : Outcome) (snap : Z * Z * Z)      (* at the write lock of [record_outcome] *)
| Refused
| Passed                                        (* the in-process capper needs no Redis *)
| Answered (o : Outcome)
| Dropped (at_phase : Phase).

(** [cl_probe]: the half-open section let the call through, and it has not recorded
    an outcome since; [cl_leaked]: it consumed a token and gave up the race.  Nothing
    reads the two marks. *)
Record Call := { cl_kind : Kind; cl_phase : Phase; cl_probe : bool; cl_leaked : bool }.

Definition to_phase (c : Call) (ph : Phase) : Call :=
  {| cl_kind := cl_kind c; cl_phase := ph; cl_probe := cl_probe c; cl_leaked := cl_leaked c |}.
Definition with_probe (c : Call) (b : bool) : Call :=
  {| cl_kind := cl_kind c; cl_phase := cl_phase c; cl_probe := b; cl_leaked := cl_leaked c |}.
Definition with_leak (c : Call) : Call :=
  {| cl_kind := cl_kind c; cl_phase := cl_phase c; cl_probe := cl_probe c; cl_leaked := true |}.

Notation Shared := RedisCapper.Shared.
Definition set_breaker (s : Shared) (cb : CircuitBreaker) : Shared := share_breaker s cb.
Definition set_hedge (s : Shared) (b : HedgeBudget) : Shared :=
  RedisCapper.Build_Shared (RedisCapper.rs_breaker s) b (RedisCapper.rs_latency s) (RedisCapper.rs_timeout_ms s).
Definition set_latency (s : Shared) (t : option RedisLatencyTracker) : Shared :=
  RedisCapper.Build_Shared (RedisCapper.rs_breaker s) (RedisCapper.rs_hedge s) t (RedisCapper.rs_timeout_ms s).

(** [allow_request] returned [true]. *)
Definition let_through (c : Call) : Call :=
  match cl_kind c with
  | SegmentRead | CapCheck | Fallback => to_phase c Reading
  | Layered true => {| cl_kind := Fallback; cl_phase := Asking; cl_probe := cl_probe c; cl_leaked := cl_leaked c |}
  | Layered false => to_phase c Passed
  end.

(** The updates of [Window::record], one by one. *)
Definition window_add (w : Window) (o : Outcome) (slow : bool) (adds : nat) : Window :=
  match adds with
  | 0%nat => {| calls := as_u64 (calls w + 1); errors := errors w; slow_calls := slow_calls w |}
  | 1%nat => {| calls := calls w; errors := if oc_error o then as_u64 (errors w + 1) else errors w; slow_calls := slow_calls w |}
  | _ => {| calls := calls w; errors := errors w; slow_calls := if slow then as_u64 (slow_calls w + 1) else slow_calls w |}
  end.
Definition is_slow (cb : CircuitBreaker) (o : Outcome) : bool := slow_call_duration (Breaker.cfg cb) <=? oc_elapsed o.

(** The updates of [RedisLatencyTracker::record]. *)
Definition latency_add (t : RedisLatencyTracker) (o : Outcome) (added : bool) : RedisLatencyTracker :=
  if added then {| lat_count := lat_count t; lat_sum_us := as_u64 (lat_sum_us t + as_u64 (as_micros (oc_elapsed o))) |}
  else {| lat_count := as_u64 (lat_count t + 1); lat_sum_us := lat_sum_us t |}.

(** The next synchronous step of a call; a call that waits for Redis, or has ended,
    does not move. *)
Definition advance (now : Instant) (c : Call) (s : Shared) : Call * Shared :=
  let cb := RedisCapper.rs_breaker s in
  let b := RedisCapper.rs_hedge s in
  match cl_phase c with
  | Asking =>
      match allow_fast cb now with
      | Some true => (let_through c, s)
      | Some false => (to_phase c Refused, s)
      | None => (to_phase c Claiming, s)
      end
  | Claiming =>
      let '(allowed, cb) := try_enter_half_open cb now in
      (if allowed then let_through (with_probe c true) else to_phase c Refused, set_breaker s cb)
  | Consuming =>
      let '(allowed, b) := try_consume b in (to_phase c (if allowed then Racing else Waiting), set_hedge s b)
  | Restoring o =>
      let new := as_u64 (tokens b + 1) in (to_phase c (Comparing o new), set_hedge s (set_tokens b new))
  | Comparing o new =>
      let cap := effective_cap b in (to_phase c (if cap <? new then Clamping o cap else Tracking o false), s)
  | Clamping o cap => (to_phase c (Tracking o false), set_hedge s (set_tokens b (Z.min (tokens b) cap)))
  | Tracking o added =>
      (to_phase c (if added then Counting o 0 else Tracking o true),
       set_latency s ((fun t => latency_add t o added) <$> RedisCapper.rs_latency s))
  | Counting o adds =>
      (to_phase c (if Nat.ltb adds 2 then Counting o (S adds) else Loading o []),
       set_breaker s {| Breaker.cfg := Breaker.cfg cb; window := window_add (window cb) o (is_slow cb o) adds; inner := inner cb |})
  | Loading o [] => (to_phase c (Loading o [calls (window cb)]), s)
  | Loading o [n] => (to_phase c (Loading o [n; errors (window cb)]), s)
  | Loading o (n :: e :: _) => (to_phase c (Locking o (n, e, slow_calls (window cb))), s)
  | Locking o snap =>
      (with_probe (to_phase c (Answered o)) false, set_breaker s (record_locked cb snap (oc_error o) (is_slow cb o) now))
  | Reading | Waiting | Racing | Refused | Passed | Answered _ | Dropped _ => (c, s)
  end.

(** The 8 ms of the trigger elapse: [is_closed_sync], with whether the lock can be
    read. *)
Definition trigger (readable : bool) (c : Call) (s : Shared) : Call :=
  match cl_phase c with
  | Reading => to_phase c (if is_closed_sync (RedisCapper.rs_breaker s) readable then Consuming else Waiting)
  | _ => c
  end.

(** An attempt completes; in a race the other one is dropped. *)
Definition complete (o : Outcome) (c : Call) : Call :=
  match cl_phase c with
  | Reading | Waiting => to_phase c (Tracking o false)
  | Racing => to_phase c (Restoring o)
  | _ => c
  end.

(** The capper's own timeout drops the hedged call; the breaker is told of an error. *)
Definition time_out (elapsed : Duration) (c : Call) : Call :=
  let o := {| oc_error := true; oc_elapsed := elapsed |} in
  match cl_kind c, cl_phase c with
  | (CapCheck | Fallback), (Reading | Waiting) => to_phase c (Tracking o false)
  | (CapCheck | Fallback), Racing => with_leak (to_phase c (Tracking o false))
  | _, _ => c
  end.

(** The HTTP timeout drops the request at the [await] its call is at. *)
Definition drop_call (c : Call) : Call :=
  match cl_phase c with
  | Asking | Claiming | Reading | Waiting | Locking _ _ => to_phase c (Dropped (cl_phase c))
  | Racing => with_leak (to_phase c (Dropped Racing))
  | _ => c
  end.

(** ** Schedules *)

(** [sy_clamp]: what the feedback loop is about to clamp the tokens to. *)
Record Sys := { sy_shared : Shared; sy_calls : list Call; sy_clamp : option Z }.

Inductive Action :=
| Spawn (k : Kind)
| Advance (i : nat) (now : Instant)
| Trigger (i : nat) (readable : bool)
| Complete (i : nat) (o : Outcome)
| TimeOut (i : nat) (elapsed : Duration)
| Drop (i : nat)
| ShedStore (rate : f64)
| ShedClamp
| DrainLatency.

Definition with_call (y : Sys) (i : nat) (f : Call -> Call * Shared) : Sys :=
  match sy_calls y !! i with
  | None => y
  | Some c => let '(c, s) := f c in {| sy_shared := s; sy_calls := <[i := c]> (sy_calls y); sy_clamp := sy_clamp y |}
  end.

Definition step (y : Sys) (a : Action) : Sys :=
  let s := sy_shared y in
  match a with
  | Spawn k => {| sy_shared := s; sy_clamp := sy_clamp y;
                  sy_calls := sy_calls y ++ [{| cl_kind := k; cl_phase := Asking; cl_probe := false; cl_leaked := false |}] |}
  | Advance i now => with_call y i (fun c => advance now c s)
  | Trigger i readable => with_call y i (fun c => (trigger readable c s, s))
  | Complete i o => with_call y i (fun c => (complete o c, s))
  | TimeOut i elapsed => with_call y i (fun c => (time_out elapsed c, s))
  | Drop i => with_call y i (fun c => (drop_call c, s))
  | ShedStore rate =>
      let b := RedisCapper.rs_hedge s in
      let effective := shed_capacity (nominal b) rate in
      {| sy_shared := set_hedge s {| tokens := tokens b; nominal := nominal b; effective_cap := effective |};
         sy_calls := sy_calls y; sy_clamp := Some effective |}
  | ShedClamp =>
      match sy_clamp y with
      | None => y
      | Some cap => let b := RedisCapper.rs_hedge s in
                    {| sy_shared := set_hedge s (set_tokens b (Z.min (tokens b) cap)); sy_calls := sy_calls y; sy_clamp := None |}
      end
  | DrainLatency =>
      {| sy_shared := set_latency s ((fun t => (drain_latency t).2) <$> RedisCapper.rs_latency s);
         sy_calls := sy_calls y; sy_clamp := sy_clamp y |}
  end.
Definition run (y : Sys) (acts : list Action) : Sys := foldl step y acts.

(** A server at start-up. *)
Definition fresh (config : BreakerConfig) (capacity timeout_ms : Z) : Sys := {|
  sy_shared := RedisCapper.Build_Shared (CircuitBreaker_new config) (HedgeBudget_new capacity)
                 (Some {| lat_count := 0; lat_sum_us := 0 |}) timeout_ms;
  sy_calls := []; sy_clamp := None |}.

(** ** The breaker's half-open state *)

(** The slot is taken exactly in the half-open state. *)
Definition slot_ok (cb : CircuitBreaker) : Prop := state (inner cb) = HalfOpen <-> half_open_probe_in_flight (inner cb) = true.

Lemma try_enter_slot cb now : slot_ok cb -> let '(allowed, cb') := try_enter_half_open cb now in
  slot_ok cb' /\ (state (inner cb') = HalfOpen -> allowed = true \/ state (inner cb) = HalfOpen).
Proof.
  unfold slot_ok, try_enter_half_open. intros Hw.
  destruct (decide (state (inner cb) = Open)) as [Ho|Ho]; [destruct (open_duration _ <=? _)|];
    repeat case_decide; simpl in *; try tauto; repeat case_match; simpl in *; try tauto; simplify_eq; naive_solver.
Qed.

Lemma record_locked_slot cb snap error slow now : slot_ok cb ->
  slot_ok (record_locked cb snap error slow now) /\ state (inner (record_locked cb snap error slow now)) <> HalfOpen.
Proof.
  unfold slot_ok, record_locked. intros Hw. destruct snap as [[n e] sl].
  destruct (state (inner cb)) eqn:Es; [destruct (_ && _)| |destruct (error || slow)]; simpl; try rewrite Es; naive_solver.
Qed.

(** Where a call that was let through as a probe can be: on its way to
    [record_outcome], dropped, or in the in-process capper. *)
Definition pending (ph : Phase) : bool :=
  match ph with
  | Reading | Consuming | Waiting | Racing | Restoring _ | Comparing _ _ | Clamping _ _ | Tracking _ _ | Counting _ _
  | Loading _ _ | Locking _ _ => true
  | Asking | Claiming | Refused | Passed | Answered _ | Dropped _ => false
  end.
Definition dropped (c : Call) : bool := match cl_phase c with Dropped _ => true | _ => false end.
Definition in_process (c : Call) : bool := match cl_kind c with Layered _ | Fallback => true | _ => false end.

Definition accounted (c : Call) : bool := pending (cl_phase c) || dropped c || in_process c.
Definition probe_ok (c : Call) : Prop := cl_probe c = true -> accounted c = true.

(** What a step of a call may do to the breaker's slot and the call's mark. *)
Definition probe_step (c : Call) (s : Shared) (c' : Call) (s' : Shared) : Prop :=
  slot_ok (RedisCapper.rs_breaker s') /\ probe_ok c' /\
  (state (inner (RedisCapper.rs_breaker s')) = HalfOpen ->
     cl_probe c' = true \/ state (inner (RedisCapper.rs_breaker s)) = HalfOpen /\ cl_probe c' = cl_probe c).

Lemma quiet_step c s c' s' : slot_ok (RedisCapper.rs_breaker s) ->
  inner (RedisCapper.rs_breaker s') = inner (RedisCapper.rs_breaker s) -> cl_probe c' = cl_probe c ->
  (cl_probe c = true -> accounted c' = true) -> probe_step c s c' s'.
Proof. unfold probe_step, slot_ok, probe_ok. intros Hw -> -> Hc. split_and!; [done|exact Hc|]. intros Hs. by right. Qed.

Lemma let_through_probe c : cl_probe (let_through c) = cl_probe c.
Proof. unfold let_through. by destruct (cl_kind c) as [| |[]|]. Qed.
Lemma let_through_accounted c : accounted (let_through c) = true.
Proof. unfold let_through, accounted, dropped, in_process. by destruct (cl_kind c) as [| |[]|] eqn:E; cbn; rewrite ?E. Qed.

Lemma advance_probe now c s : slot_ok (RedisCapper.rs_breaker s) -> probe_ok c ->
  let '(c', s') := advance now c s in probe_step c s c' s'.
Proof.
  intros Hw Hc. unfold probe_ok, accounted, dropped, in_process in Hc. unfold advance.
  destruct (cl_phase c) as [| | | | | |o|o new|o cap|o []|o adds|o [|n [|e l]]|o snap| | |o|ph] eqn:Ep;
    try (apply quiet_step; [done..|]; unfold accounted, dropped, in_process; cbn; rewrite ?Ep; done).
  - destruct (allow_fast _ now) as [[]|]; apply quiet_step; try done.
    + apply let_through_probe.
    + intros _. apply let_through_accounted.
  - pose proof (try_enter_slot (RedisCapper.rs_breaker s) now Hw) as Ht. destruct (try_enter_half_open _ now) as [[] cb].
    + destruct Ht as [Ht Hs]. split_and!; [done| |]; unfold probe_ok; intros; rewrite ?let_through_probe.
      * apply let_through_accounted.
      * by left.
    + destruct Ht as [Ht Hs]. split_and!; [done|exact Hc|]. intros Hh. destruct (Hs Hh) as [|Hh']; [done|by right].
  - destruct (try_consume _) as [[] b]; by apply quiet_step.
  - destruct (_ <? new); by apply quiet_step.
  - destruct (Nat.ltb adds 2); by apply quiet_step.
  - destruct (record_locked_slot (RedisCapper.rs_breaker s) snap (oc_error o) (is_slow (RedisCapper.rs_breaker s) o) now Hw) as [Hw' Hs].
    split_and!; [done|done|]. intros Hh. by destruct Hs.
Qed.

(** The other steps leave the breaker and the marks alone. *)
Lemma drop_probe c s : slot_ok (RedisCapper.rs_breaker s) -> probe_ok c -> probe_step c s (drop_call c) s.
Proof.
  intros Hw Hc. apply quiet_step; [done|done| |]; unfold drop_call; destruct (cl_phase c) eqn:Ep; try done;
    unfold probe_ok, accounted in *; by rewrite Ep in *.
Qed.
Lemma complete_probe o c s : slot_ok (RedisCapper.rs_breaker s) -> probe_ok c -> probe_step c s (complete o c) s.
Proof.
  intros Hw Hc. apply quiet_step; [done|done| |]; unfold complete; destruct (cl_phase c) eqn:Ep; try done;
    unfold probe_ok, accounted in *; by rewrite Ep in *.
Qed.
Lemma trigger_probe r c s : slot_ok (RedisCapper.rs_breaker s) -> probe_ok c -> probe_step c s (trigger r c s) s.
Proof.
  intros Hw Hc. apply quiet_step; [done|done| |]; unfold trigger; destruct (cl_phase c) eqn:Ep; try done;
    try (by destruct (is_closed_sync _ _)); unfold probe_ok, accounted in *; by rewrite Ep in *.
Qed.
Lemma time_out_probe d c s : slot_ok (RedisCapper.rs_breaker s) -> probe_ok c -> probe_step c s (time_out d c) s.
Proof.
  intros Hw Hc. apply quiet_step; [done|done| |]; unfold time_out; destruct (cl_kind c), (cl_phase c) eqn:Ep; try done;
    unfold probe_ok, accounted in *; by rewrite ?Ep in *.
Qed.

(** Half-open means that a call holds the slot, or lost it. *)
Definition probe_inv (y : Sys) : Prop :=
  slot_ok (RedisCapper.rs_breaker (sy_shared y)) /\ Forall probe_ok (sy_calls y) /\
  (state (inner (RedisCapper.rs_breaker (sy_shared y))) = HalfOpen -> Exists (fun c => cl_probe c = true) (sy_calls y)).

Lemma with_call_probe y i f : probe_inv y ->
  (forall c, slot_ok (RedisCapper.rs_breaker (sy_shared y)) -> probe_ok c -> let '(c', s') := f c in probe_step c (sy_shared y) c' s') ->
  probe_inv (with_call y i f).
Proof.
  intros (Hw & Hc & Hh) Hf. unfold with_call. destruct (sy_calls y !! i) as [c|] eqn:Ei; [|done].
  pose proof (Forall_lookup_1 _ _ _ _ Hc Ei) as Hci. specialize (Hf c Hw Hci). destruct (f c) as [c' s'].
  destruct Hf as (Hw' & Hc' & Hh'). split_and!; cbn; [done|by apply Forall_insert|].
  intros Hs. apply Exists_exists. destruct (Hh' Hs) as [Hp|[Hs' He]].
  - exists c'. split; [|done]. apply list_elem_of_insert. by eapply lookup_lt_Some.
  - apply Exists_exists in Hh as (d & Hd & Hp); [|done]. apply list_elem_of_lookup in Hd as [j Hj].
    destruct (decide (i = j)) as [->|Hne].
    + exists c'. split; [apply list_elem_of_insert; by eapply lookup_lt_Some|].
      assert (d = c) as -> by congruence. by rewrite He.
    + exists d. split; [|done]. apply list_elem_of_lookup. exists j. by rewrite list_lookup_insert_ne.
Qed.

Lemma step_probe y a : probe_inv y -> probe_inv (step y a).
Proof.
  intros Hy. destruct a; cbn [step]; try (apply with_call_probe; [done|]; intros; cbn beta).
  - destruct Hy as (Hw & Hc & Hh). split_and!; cbn; [done|by apply Forall_app_2; [|repeat constructor]|].
    intros Hs. apply Exists_app. left. by apply Hh.
  - by apply advance_probe.
  - by apply trigger_probe.
  - by apply complete_probe.
  - by apply time_out_probe.
  - by apply drop_probe.
  - done.
  - by destruct (sy_clamp y).
  - done.
Qed.

Lemma run_probe y acts : probe_inv y -> probe_inv (run y acts).
Proof. revert y; induction acts as [|a acts IH]; intros y Hy; [done|]. by apply IH, step_probe. Qed.

Lemma fresh_probe config capacity timeout_ms : probe_inv (fresh config capacity timeout_ms).
Proof. by split_and!. Qed.

(** ** Calls end *)

Definition ended (ph : Phase) : bool := match ph with Refused | Passed | Answered _ | Dropped _ => true | _ => false end.

(** How many steps a call can still make. *)
Definition phase_rank (ph : Phase) : nat :=
  match ph with
  | Asking => 18 | Claiming => 17 | Reading => 16 | Consuming => 15 | Waiting | Racing => 14 | Restoring _ => 13
  | Comparing _ _ => 12 | Clamping _ _ => 11 | Tracking _ false => 10 | Tracking _ true => 9
  | Counting _ 0 => 8 | Counting _ 1 => 7 | Counting _ _ => 6 | Loading _ [] => 5 | Loading _ [_] => 4 | Loading _ _ => 3
  | Locking _ _ => 2 | Refused | Passed | Answered _ | Dropped _ => 0
  end.
Definition rank (c : Call) : nat :=
  phase_rank (cl_phase c) + match cl_kind c with Layered _ => if ended (cl_phase c) then 0 else 2 | _ => 0 end.

#[local] Instance Kind_eq_dec : EqDecision Kind.
Proof. solve_decision. Defined.
#[local] Instance Outcome_eq_dec : EqDecision Outcome.
Proof. solve_decision. Defined.
#[local] Instance Phase_eq_dec : EqDecision Phase.
Proof. unfold EqDecision, Decision. decide equality; solve_decision. Defined.
#[local] Instance Call_eq_dec : EqDecision Call.
Proof. solve_decision. Defined.

(** The in-process capper makes no Redis call of its own. *)
Definition well_placed (c : Call) : Prop :=
  match cl_kind c with Layered _ => match cl_phase c with Asking | Claiming | Refused | Passed | Dropped _ => True | _ => False end
  | _ => True end.

Definition moves_down (c c' : Call) : Prop := well_placed c -> well_placed c' /\ (c' = c \/ (rank c' < rank c)%nat).

Ltac rank_cases c :=
  unfold moves_down, well_placed, rank, to_phase, with_leak, with_probe;
  destruct c as [k ph p l]; cbn; intros Hp; destruct k as [| |cold|]; destruct ph; cbn in *; try done;
  try (split; [done|]; by left); try (split; [done|]; right; cbn; lia).

Lemma advance_down now c s : moves_down c (advance now c s).1.
Proof.
  destruct c as [k ph p l]. destruct ph as [| | | | | |o|o new|o cap|o []|o [|[|adds]]|o [|n [|e lo]]|o snap| | |o|ph];
    unfold advance, moves_down, well_placed, rank, let_through; cbn; intros Hp.
  1: destruct (allow_fast _ now) as [[]|].
  4: destruct (try_enter_half_open _ now) as [[] cb].
  all: repeat case_match; cbn in *; try done; try (split; [done|]; by left); try (split; [done|]; right; cbn in *; lia).
Qed.
Lemma trigger_down r c s : moves_down c (trigger r c s).
Proof. unfold trigger. rank_cases c; destruct (is_closed_sync _ _); cbn; split; try done; right; cbn; lia. Qed.
Lemma complete_down o c : moves_down c (complete o c).
Proof. unfold complete. rank_cases c. Qed.
Lemma time_out_down d c : moves_down c (time_out d c).
Proof. unfold time_out. rank_cases c. Qed.
Lemma drop_down c : moves_down c (drop_call c).
Proof. unfold drop_call. rank_cases c. Qed.

(** A call that does not wait for Redis and has not ended is not blocked. *)
Lemma advance_moves now c s : ended (cl_phase c) = false -> cl_phase c ∉ [Reading; Waiting; Racing] -> (advance now c s).1 <> c.
Proof.
  intros He Hn Hc. apply (f_equal (fun c => (cl_phase c, cl_kind c))) in Hc. revert Hc. unfold advance, let_through.
  destruct c as [k ph p l]. destruct ph as [| | | | | |o|o new|o cap|o []|o [|[|adds]]|o [|n [|e lo]]|o snap| | |o|ph]; cbn in *;
    try done; try set_solver; repeat case_match; cbn in *; congruence.
Qed.

(** The steps of a schedule that change call [i]. *)
Fixpoint moves (i : nat) (y : Sys) (acts : list Action) : nat :=
  match acts with
  | [] => 0
  | a :: acts => (if bool_decide (sy_calls (step y a) !! i = sy_calls y !! i) then 0 else 1) + moves i (step y a) acts
  end.

Lemma step_down y a i c : sy_calls y !! i = Some c -> well_placed c ->
  exists c', sy_calls (step y a) !! i = Some c' /\ well_placed c' /\ (c' = c \/ (rank c' < rank c)%nat).
Proof.
  intros Hi Hp.
  assert (forall j f, (forall d, moves_down d (f d).1) -> exists c', sy_calls (with_call y j f) !! i = Some c' /\ well_placed c' /\
    (c' = c \/ (rank c' < rank c)%nat)) as Hw.
  { intros j f Hf. unfold with_call. destruct (sy_calls y !! j) as [d|] eqn:Ej; [|by exists c; auto].
    specialize (Hf d). destruct (f d) as [d' s']. cbn in *. destruct (decide (j = i)) as [->|Hne].
    - assert (d = c) as -> by congruence. exists d'. split; [|by apply Hf]. apply list_lookup_insert_eq. by eapply lookup_lt_Some.
    - rewrite list_lookup_insert_ne by done. exists c. auto. }
  destruct a; cbn [step]; try apply Hw.
  - exists c. cbn. split; [|auto]. by apply lookup_app_l_Some.
  - intros d. apply advance_down.
  - intros d. apply trigger_down.
  - intros d. apply complete_down.
  - intros d. apply time_out_down.
  - intros d. apply drop_down.
  - exists c; auto.
  - destruct (sy_clamp y); exists c; auto.
  - exists c; auto.
Qed.

Lemma rank_bound c : (rank c <= 20)%nat.
Proof.
  unfold rank. assert (phase_rank (cl_phase c) <= 18)%nat by (destruct (cl_phase c) as [| | | | | | | | |o []|o [|[|]]|o [|? []]| | | | |]; cbn; lia).
  destruct (cl_kind c); try destruct (ended _); lia.
Qed.

(** [C31] Calls end: whatever the other calls, Redis, the timeouts and the feedback
    loop do, a call changes at most twenty times, and as long as it has not ended
    there is a step that changes it: its own next operation, or an answer of Redis
    while it waits for one. *)
Theorem calls_end y acts i c (Hi : sy_calls y !! i = Some c) (Hplaced : well_placed c) :
  (moves i y acts <= 20)%nat /\
  (ended (cl_phase c) = false -> forall now o, exists a, a ∈ [Advance i now; Complete i o] /\ sy_calls (step y a) !! i <> Some c).
Proof.
  split.
  - transitivity (rank c); [|apply rank_bound]. revert y c Hi Hplaced; induction acts as [|a acts IH]; intros y c Hi Hp; cbn [moves]; [lia|].
    destruct (step_down y a i c Hi Hp) as (c' & Hi' & Hp' & Hr). specialize (IH _ _ Hi' Hp'). case_bool_decide as Hc; [|].
    + destruct Hr as [->|Hr]; lia.
    + destruct Hr as [->|Hr]; [congruence|lia].
  - intros He now o.
    assert (forall f, (f c).1 <> c -> sy_calls (with_call y i f) !! i <> Some c) as Hw.
    { intros f Hf. unfold with_call. rewrite Hi. destruct (f c) as [c' s']. cbn in *.
      rewrite list_lookup_insert_eq by (by eapply lookup_lt_Some). congruence. }
    destruct (decide (cl_phase c ∈ [Reading; Waiting; Racing])) as [Hin|Hin].
    + exists (Complete i o). split; [right; left|]. apply Hw. cbn. unfold complete. rewrite !elem_of_cons, elem_of_nil in Hin.
      destruct c as [k ph p l]; cbn in *. naive_solver.
    + exists (Advance i now). split; [left|]. apply Hw. by apply advance_moves.
Qed.

(** ** Who can keep the breaker half-open *)

(** A schedule in which no request is dropped and the in-process capper is off. *)
Definition lossless (a : Action) : Prop := match a with Drop _ | Spawn (Layered _) | Spawn Fallback => False | _ => True end.
Definition plain (c : Call) : Prop := dropped c = false /\ in_process c = false.

Lemma with_call_plain y i f : (forall c, plain c -> plain (f c).1) -> Forall plain (sy_calls y) -> Forall plain (sy_calls (with_call y i f)).
Proof.
  intros Hf Hall. unfold with_call. destruct (sy_calls y !! i) as [c|] eqn:E; [|done].
  specialize (Hf c (Forall_lookup_1 _ _ _ _ Hall E)). destruct (f c). by apply Forall_insert.
Qed.

Lemma advance_plain now c s : plain c -> plain (advance now c s).1.
Proof.
  unfold plain, advance, let_through, dropped, in_process. destruct c as [k ph p l]; cbn. intros [Hd Hk].
  destruct ph as [| | | | | |o|o new|o cap|o []|o adds|o [|n [|e lo]]|o snap| | |o|ph]; cbn; try done;
    repeat case_match; cbn in *; simplify_eq; done.
Qed.

Lemma step_plain y a : lossless a -> Forall plain (sy_calls y) -> Forall plain (sy_calls (step y a)).
Proof.
  intros Ha Hall. destruct a as [k|i now|i r|i o|i d|i|rate| |]; cbn [step]; try done.
  - apply Forall_app_2; [done|]. constructor; [|done]. by destruct k as [| |[]|].
  - apply with_call_plain; [|done]. intros c. apply advance_plain.
  - apply with_call_plain; [|done]. intros [k ph p l] Hp. unfold plain, trigger, dropped, in_process in *.
    cbn in *. destruct ph; cbn in *; try done. by destruct (is_closed_sync _ _).
  - apply with_call_plain; [|done]. intros [k ph p l] Hp. unfold plain, complete, dropped, in_process in *. by destruct ph.
  - apply with_call_plain; [|done]. intros [k ph p l] Hp. unfold plain, time_out, dropped, in_process in *. by destruct k, ph.
  - by destruct (sy_clamp y).
Qed.

(** [C27] The shared breaker is only ever stuck by lost probes.  In any interleaving
    of any calls, when it is half-open some call was let through as the probe and has
    not recorded its outcome: it is on its way to do so, or its request was dropped,
    or it is one of the in-process capper, which never does.  So if no request is
    dropped and the in-process capper is off, then once the calls have ended the
    breaker is closed, or open and lets the next request through when its pause is
    over. *)
Theorem breaker_stuck_only_by_losses config capacity timeout_ms (acts : list Action) :
  let y := run (fresh config capacity timeout_ms) acts in
  let cb := RedisCapper.rs_breaker (sy_shared y) in
  (state (inner cb) = HalfOpen ->
     exists c, c ∈ sy_calls y /\ cl_probe c = true /\ (pending (cl_phase c) = true \/ dropped c = true \/ in_process c = true)) /\
  (Forall lossless acts -> Forall (fun c => ended (cl_phase c) = true) (sy_calls y) ->
   forall t1 t2, (state (inner cb) = Open -> open_duration (Breaker.cfg cb) <= open_elapsed (inner cb) t1 /\
                                             open_duration (Breaker.cfg cb) <= open_elapsed (inner cb) t2) ->
   (allow_request cb t1 t2).1 = true).
Proof.
  intros y cb. destruct (run_probe _ acts (fresh_probe config capacity timeout_ms)) as (Hw & Hc & Hh). fold y in Hw, Hc, Hh. fold cb in Hw, Hh.
  assert (state (inner cb) = HalfOpen -> exists c, c ∈ sy_calls y /\ cl_probe c = true /\
    (pending (cl_phase c) = true \/ dropped c = true \/ in_process c = true)) as Hhold.
  { intros Hs. apply Exists_exists in Hh as (c & Hin & Hp); [|done]. exists c. split_and!; [done..|].
    rewrite Forall_forall in Hc. specialize (Hc c Hin Hp). unfold accounted in Hc. apply orb_true_iff in Hc as [[?|?]%orb_true_iff|?]; auto. }
  split; [exact Hhold|]. intros Hl Hend t1 t2 Ht.
  assert (Forall plain (sy_calls y)) as Hplain.
  { unfold y, run. apply (foldl_inv (fun y => Forall plain (sy_calls y))); [by constructor|]. intros y' a Ha. apply step_plain.
    rewrite Forall_forall in Hl. by apply Hl. }
  assert (state (inner cb) <> HalfOpen) as Hn.
  { intros Hs. destruct (Hhold Hs) as (c & Hin & _ & Hp). rewrite Forall_forall in Hend, Hplain.
    specialize (Hend c Hin). destruct (Hplain c Hin) as [Hd Hi]. destruct Hp as [Hp|[Hp|Hp]]; [|congruence..]. by destruct (cl_phase c). }
  unfold allow_request, allow_fast. destruct (state (inner cb)) eqn:Es; [done| |done]. destruct (Ht eq_refl) as [H1 H2].
  rewrite (proj2 (Z.ltb_ge _ _)) by done. unfold try_enter_half_open. rewrite (decide_True _ _ Es).
  by rewrite (proj2 (Z.leb_le _ _)) by done.
Qed.

(** ** What becomes of the hedge tokens *)

Fixpoint count (f : Call -> bool) (l : list Call) : Z :=
  match l with [] => 0 | c :: l => (if f c then 1 else 0) + count f l end.

Lemma count_nonneg f l : 0 <= count f l.
Proof. induction l as [|c l IH]; cbn; [done|]. destruct (f c); lia. Qed.
Lemma count_app f l1 l2 : count f (l1 ++ l2) = count f l1 + count f l2.
Proof. induction l1 as [|c l1 IH]; [done|]. cbn. rewrite IH. lia. Qed.
Lemma count_insert f l i c c' : l !! i = Some c ->
  count f (<[i := c']> l) = count f l - (if f c then 1 else 0) + (if f c' then 1 else 0).
Proof.
  intros Hi. rewrite insert_take_drop by (by eapply lookup_lt_Some). rewrite <- (take_drop_middle l i c Hi) at 3.
  rewrite !count_app. cbn. lia.
Qed.

(** A token is out while the attempts race and until [restore] adds it back. *)
Definition racing (c : Call) : bool := match cl_phase c with Racing | Restoring _ => true | _ => false end.
Definition out (l : list Call) : Z := count racing l + count cl_leaked l.

(** No tick of the feedback loop sees more than one per cent of shed load. *)
Definition calm (a : Action) : Prop := match a with ShedStore rate => fgt rate (f64_lit 1 100) = false | _ => True end.

Lemma calm_capacity n rate : fgt rate (f64_lit 1 100) = false -> shed_capacity n rate = n.
Proof.
  unfold shed_capacity. intros H1. rewrite H1. destruct (fgt rate (f64_lit 5 100)) eqn:H5; [|done].
  unfold fgt in *. assert (flt (f64_lit 1 100) rate = true) as H; [|unfold flt in H; congruence].
  apply flt_iff in H5 as (Ha & Hb & Hle). apply flt_iff. split_and!; [done|done|].
  destruct (fle rate (f64_lit 1 100)) eqn:E; [|done]. rewrite <- Hle. symmetry.
  eapply fle_trans; [exact E|]. vm_compute. reflexivity.
Qed.

(** A race is given up once; the comparison of [restore] never finds more than the
    capacity. *)
Definition fits (cap : Z) (c : Call) : Prop :=
  match cl_phase c with
  | Asking | Claiming | Reading | Consuming | Waiting | Racing => cl_leaked c = false
  | Comparing _ new => new <= cap | Clamping _ k => k = cap | _ => True
  end.
(** What a step of a call does to the tokens. *)
Definition token_step (cap : Z) (c : Call) (s : Shared) (c' : Call) (s' : Shared) : Prop :=
  fits cap c' /\ 0 <= tokens (RedisCapper.rs_hedge s') /\
  nominal (RedisCapper.rs_hedge s') = nominal (RedisCapper.rs_hedge s) /\
  effective_cap (RedisCapper.rs_hedge s') = effective_cap (RedisCapper.rs_hedge s) /\
  tokens (RedisCapper.rs_hedge s') + out [c'] = tokens (RedisCapper.rs_hedge s) + out [c].

Definition tokens_inv (cap : Z) (y : Sys) : Prop :=
  let b := RedisCapper.rs_hedge (sy_shared y) in
  nominal b = cap /\ effective_cap b = cap /\ 0 <= tokens b /\ tokens b + out (sy_calls y) = cap /\
  Forall (fits cap) (sy_calls y) /\ (forall k, sy_clamp y = Some k -> k = cap).

Lemma token_idle cap c s c' s' : fits cap c' -> 0 <= tokens (RedisCapper.rs_hedge s) ->
  RedisCapper.rs_hedge s' = RedisCapper.rs_hedge s -> racing c' = racing c -> cl_leaked c' = cl_leaked c -> token_step cap c s c' s'.
Proof. unfold token_step, out. cbn. intros ? ? -> -> ->. done. Qed.

Lemma let_through_tokens cap c : cl_leaked c = false ->
  racing (let_through c) = false /\ cl_leaked (let_through c) = cl_leaked c /\ fits cap (let_through c).
Proof. unfold let_through, racing, fits. intros Hl. by destruct (cl_kind c) as [| |[]|]. Qed.

Lemma advance_tokens cap now c s : 0 <= cap <= u64_max -> effective_cap (RedisCapper.rs_hedge s) = cap ->
  0 <= tokens (RedisCapper.rs_hedge s) -> tokens (RedisCapper.rs_hedge s) + out [c] <= cap -> fits cap c ->
  let '(c', s') := advance now c s in token_step cap c s c' s'.
Proof.
  intros Hcap Heff Ht Hle Hf. assert (racing c = match cl_phase c with Racing | Restoring _ => true | _ => false end) as Hr by done.
  pose proof Hf as Hf'. unfold fits in Hf'. unfold advance.
  destruct (cl_phase c) as [| | | | | |o|o new|o k|o []|o adds|o [|n [|e l]]|o snap| | |o|ph] eqn:Ep;
    try (by apply token_idle; rewrite ?Hr).
  - destruct (let_through_tokens cap c Hf') as (H1 & H2 & H3).
    destruct (allow_fast _ now) as [[]|]; apply token_idle; try done; by rewrite Hr.
  - destruct (let_through_tokens cap (with_probe c true) Hf') as (H1 & H2 & H3).
    destruct (try_enter_half_open _ now) as [[] cb]; apply token_idle; try done; by rewrite Hr.
  - unfold try_consume, token_step, out. destruct (tokens (RedisCapper.rs_hedge s) =? 0) eqn:E0; cbn; rewrite Hr;
      split_and!; try done; zlia.
  - unfold out in Hle. cbn in Hle. rewrite Hr in Hle. destruct (cl_leaked c) eqn:El; cbn in Hle;
      unfold token_step, out, fits; cbn; rewrite El, Hr, as_u64_id by (unfold in_u64; lia); split_and!; try done; lia.
  - rewrite Heff, (proj2 (Z.ltb_ge cap new)) by done. by apply token_idle; rewrite ?Hr.
  - subst k. unfold out in Hle. cbn in Hle. unfold token_step, out. cbn. rewrite Hr in *.
    destruct (cl_leaked c); cbn in Hle; split_and!; try done; lia.
  - destruct (Nat.ltb adds 2); apply token_idle; try done; by rewrite Hr.
Qed.

Lemma with_call_tokens cap y i f : tokens_inv cap y ->
  (forall c, 0 <= tokens (RedisCapper.rs_hedge (sy_shared y)) -> tokens (RedisCapper.rs_hedge (sy_shared y)) + out [c] <= cap ->
     fits cap c -> let '(c', s') := f c in token_step cap c (sy_shared y) c' s') ->
  tokens_inv cap (with_call y i f).
Proof.
  intros (Hn & He & Ht & Hsum & Hfit & Hk) Hf. unfold with_call. destruct (sy_calls y !! i) as [c|] eqn:Ei; [|done].
  assert (out [c] <= out (sy_calls y)) as Hle.
  { rewrite <- (take_drop_middle _ _ _ Ei). unfold out. rewrite !count_app. cbn.
    pose proof (count_nonneg racing (take i (sy_calls y))). pose proof (count_nonneg racing (drop (S i) (sy_calls y))).
    pose proof (count_nonneg cl_leaked (take i (sy_calls y))). pose proof (count_nonneg cl_leaked (drop (S i) (sy_calls y))). lia. }
  specialize (Hf c Ht ltac:(lia) (Forall_lookup_1 _ _ _ _ Hfit Ei)). destruct (f c) as [c' s'].
  destruct Hf as (Hfit' & Ht' & Hn' & He' & Hsum'). unfold tokens_inv. cbn. split_and!; try done; try congruence.
  - unfold out in *. rewrite !(count_insert _ _ _ c c' Ei). cbn in *. lia.
  - by apply Forall_insert.
Qed.

Lemma step_tokens cap y a : 0 <= cap <= u64_max -> calm a -> tokens_inv cap y -> tokens_inv cap (step y a).
Proof.
  intros Hcap Ha Hy. destruct a as [k|i now|i r|i o|i d|i|rate| |]; cbn [step]; try (apply with_call_tokens; [done|]; intros c Ht Hle Hf; cbn beta).
  - destruct Hy as (Hn & He & Ht & Hsum & Hfit & Hk). unfold tokens_inv, out in *. cbn. rewrite !count_app. cbn.
    split_and!; try done; [lia|]. by apply Forall_app_2; [|repeat constructor].
  - destruct Hy as (Hn & He & _). by apply advance_tokens.
  - apply token_idle; try done; unfold fits, trigger, racing in *; destruct (cl_phase c) eqn:Ep; cbn; rewrite ?Ep; try done;
      destruct (is_closed_sync _ _); done.
  - apply token_idle; try done; unfold fits, complete, racing in *; destruct (cl_phase c) eqn:Ep; cbn; by rewrite ?Ep.
  - unfold token_step, out, fits, time_out, racing in *. destruct (cl_kind c), (cl_phase c) eqn:Ep; cbn in *; rewrite ?Ep in *;
      split_and!; try done; rewrite ?Hf; lia.
  - unfold token_step, out, fits, drop_call, racing in *. destruct (cl_phase c) eqn:Ep; cbn in *; rewrite ?Ep in *;
      split_and!; try done; rewrite ?Hf; lia.
  - destruct Hy as (Hn & He & Ht & Hsum & Hfit & Hk). unfold tokens_inv. cbn. rewrite Hn, (calm_capacity cap rate Ha).
    split_and!; try done. by intros k [= <-].
  - destruct (sy_clamp y) as [k|] eqn:Ek; [|done]. destruct Hy as (Hn & He & Ht & Hsum & Hfit & Hk). rewrite (Hk k Ek).
    unfold tokens_inv. cbn. pose proof (count_nonneg racing (sy_calls y)). pose proof (count_nonneg cl_leaked (sy_calls y)).
    unfold out in *. rewrite Z.min_l by lia. by split_and!.
  - done.
Qed.

Lemma fresh_tokens config cap timeout_ms : 0 <= cap -> tokens_inv cap (fresh config cap timeout_ms).
Proof. intros Hc. unfold tokens_inv, out. cbn. split_and!; try done; lia. Qed.

(** [C28] Where the hedge tokens are: while no feedback tick sees more than one per
    cent of shed load, every token of the bucket is in the bucket, with a race in
    flight, or was with a race given up by a timeout of the capper or of the HTTP
    layer; those last are never added back.  After as many such timeouts as the bucket
    has tokens, hedging is off for good. *)
Theorem hedge_tokens_conserved config capacity timeout_ms (acts : list Action)
    (Hcap : 0 <= capacity <= u64_max) (Hcalm : Forall calm acts) :
  let y := run (fresh config capacity timeout_ms) acts in
  let b := RedisCapper.rs_hedge (sy_shared y) in
  0 <= tokens b /\ tokens b + count racing (sy_calls y) + count cl_leaked (sy_calls y) = capacity /\
  (count cl_leaked (sy_calls y) = capacity -> (try_consume b).1 = false).
Proof.
  intros y b.
  assert (tokens_inv capacity y) as (Hn & He & Ht & Hsum & _).
  { unfold y, run. apply (foldl_inv (tokens_inv capacity)); [apply fresh_tokens; lia|]. intros y' a Ha. apply step_tokens; [done|].
    rewrite Forall_forall in Hcalm. by apply Hcalm. }
  unfold out in Hsum. split_and!; [done|unfold b; lia|]. intros Hl. pose proof (count_nonneg racing (sy_calls y)).
  unfold try_consume, b in *. destruct (Z.eqb_spec (tokens (RedisCapper.rs_hedge (sy_shared y))) 0); [done|lia].
Qed.

(** ** A call alone *)

Definition alone (k : Kind) (s : Shared) : Sys := {|
  sy_shared := s; sy_clamp := None;
  sy_calls := [{| cl_kind := k; cl_phase := Asking; cl_probe := false; cl_leaked := false |}] |}.

(** The steps of the environment in a hedged call with the given attempts. *)
Definition race_steps {T} (first second : Attempt (Result T string)) (drop_at : option Duration) (readable prefer : bool)
    (elapsed : Duration) (now : Instant) (cb : CircuitBreaker) (b : HedgeBudget) : list Action :=
  let result := hr_result (hedged_call first second (from_millis 8) (is_closed_sync cb readable) prefer drop_at b) in
  let finish := match result with
                | Some r => Complete 0 {| oc_error := negb (is_ok r); oc_elapsed := elapsed |}
                | None => TimeOut 0 elapsed
                end in
  if by_time (latency first) (Some (from_millis 8)) && by_time (latency first) drop_at then [finish]
  else if negb (by_time (Some (from_millis 8)) drop_at) then [finish]
  else [Trigger 0 readable; Advance 0 now; finish].

Definition solo {T} (first second : Attempt (Result T string)) (drop_at : option Duration) (readable prefer : bool)
    (elapsed : Duration) (now_read now_write now_record : Instant) (s : Shared) : list Action :=
  [Advance 0 now_read; Advance 0 now_write] ++
  race_steps first second drop_at readable prefer elapsed now_record
    (allow_request (RedisCapper.rs_breaker s) now_read now_write).2 (RedisCapper.rs_hedge s) ++
  replicate 12 (Advance 0 now_record).

(** A state with one call. *)
Definition one (c : Call) (s : Shared) : Sys := {| sy_shared := s; sy_calls := [c]; sy_clamp := None |}.
Lemma one_advance c s now acts :
  run (one c s) (Advance 0 now :: acts) = run (one (advance now c s).1 (advance now c s).2) acts.
Proof. unfold run, one. cbn. by destruct (advance now c s). Qed.

Lemma advance_done n c s now : ended (cl_phase c) = true -> run (one c s) (replicate n (Advance 0 now)) = one c s.
Proof.
  intros He. induction n as [|n IH]; [done|]. cbn [replicate]. rewrite one_advance.
  assert (advance now c s = (c, s)) as ->; [|exact IH]. unfold advance. by destruct (cl_phase c).
Qed.

(** The shared state after the bookkeeping of a call. *)
Definition recorded (s : Shared) (o : Outcome) (now : Instant) : Shared := {|
  RedisCapper.rs_breaker := record_outcome (RedisCapper.rs_breaker s) (oc_error o) (oc_elapsed o) now;
  RedisCapper.rs_hedge := RedisCapper.rs_hedge s;
  RedisCapper.rs_latency := (fun t => record_latency t (oc_elapsed o)) <$> RedisCapper.rs_latency s;
  RedisCapper.rs_timeout_ms := RedisCapper.rs_timeout_ms s |}.

Lemma track_alone n k p l s o now : exists c, cl_phase c = Answered o /\
  run (one {| cl_kind := k; cl_phase := Tracking o false; cl_probe := p; cl_leaked := l |} s) (replicate (9 + n) (Advance 0 now)) =
  one c (recorded s o now).
Proof.
  eexists. split; [|]; cycle 1.
  - cbn [replicate Nat.add]. rewrite !one_advance. cbn. rewrite advance_done by done. unfold one. f_equal.
    destruct s as [[cfg [n0 e0 s0] i] b t tm]. unfold recorded, record_outcome, is_slow, set_latency, share_breaker. cbn.
    f_equal. by destruct t.
  - done.
Qed.

Lemma restore_alone k p l s o now : exists c, cl_phase c = Answered o /\
  run (one {| cl_kind := k; cl_phase := Restoring o; cl_probe := p; cl_leaked := l |} s) (replicate 12 (Advance 0 now)) =
  one c (recorded (set_hedge s (restore (RedisCapper.rs_hedge s))) o now).
Proof.
  change (replicate 12 (Advance 0 now)) with (Advance 0 now :: Advance 0 now :: replicate (9 + 1) (Advance 0 now)).
  rewrite !one_advance. unfold restore, set_tokens. cbn [advance cl_phase fst snd to_phase set_hedge RedisCapper.rs_hedge tokens effective_cap set_tokens].
  destruct (effective_cap (RedisCapper.rs_hedge s) <? as_u64 (tokens (RedisCapper.rs_hedge s) + 1)).
  - change (replicate (9 + 1) (Advance 0 now)) with (Advance 0 now :: replicate (9 + 0) (Advance 0 now)). rewrite one_advance.
    apply (track_alone 0).
  - apply (track_alone 1).
Qed.

Lemma run_three y a1 a2 a3 acts : run y ([a1; a2; a3] ++ acts) = run (step (step (step y a1) a2) a3) acts.
Proof. done. Qed.

(** From the first attempt on: the hedged call, then the bookkeeping. *)
Lemma race_alone {T} k p s (first second : Attempt (Result T string)) drop_at readable prefer elapsed now :
  match k with CapCheck => True | SegmentRead => is_Some (hr_result (hedged_call first second (from_millis 8)
    (is_closed_sync (RedisCapper.rs_breaker s) readable) prefer drop_at (RedisCapper.rs_hedge s))) | _ => False end ->
  let call := hedged_call first second (from_millis 8) (is_closed_sync (RedisCapper.rs_breaker s) readable) prefer drop_at (RedisCapper.rs_hedge s) in
  let o := {| oc_error := match hr_result call with Some (Ok _) => false | _ => true end; oc_elapsed := elapsed |} in
  exists c, cl_phase c = Answered o /\
    run (one {| cl_kind := k; cl_phase := Reading; cl_probe := p; cl_leaked := false |} s)
      (race_steps first second drop_at readable prefer elapsed now (RedisCapper.rs_breaker s) (RedisCapper.rs_hedge s) ++
       replicate 12 (Advance 0 now)) =
    one c (recorded (set_hedge s (hr_budget call)) o now).
Proof.
  intros Hk call o. unfold race_steps. fold call.
  fold call in Hk. set (finish := match hr_result call with Some r => _ | None => _ end).
  assert (forall ph s', (ph = Reading \/ ph = Waiting \/ ph = Racing /\ hr_result call = None) ->
    exists l, step (one {| cl_kind := k; cl_phase := ph; cl_probe := p; cl_leaked := false |} s') finish =
              one {| cl_kind := k; cl_phase := Tracking o false; cl_probe := p; cl_leaked := l |} s') as Hfin.
  { intros ph s' Hph. unfold o, finish. destruct (hr_result call) as [r|] eqn:Er.
    - exists false. destruct Hph as [->|[->|[_ ?]]]; [| |done]; by destruct r.
    - destruct k; try (by destruct Hk); destruct Hph as [->|[->|[-> _]]]; by eexists. }
  assert (forall acts, run (one {| cl_kind := k; cl_phase := Reading; cl_probe := p; cl_leaked := false |} s) (finish :: acts) =
    run (step (one {| cl_kind := k; cl_phase := Reading; cl_probe := p; cl_leaked := false |} s) finish) acts) as Hrun by done.
  assert (hr_budget call = RedisCapper.rs_hedge s -> exists c, cl_phase c = Answered o /\
    run (one {| cl_kind := k; cl_phase := Reading; cl_probe := p; cl_leaked := false |} s) (finish :: replicate 12 (Advance 0 now)) =
    one c (recorded (set_hedge s (hr_budget call)) o now)) as Hplain.
  { intros ->. rewrite Hrun. destruct (Hfin Reading s) as [l ->]; [auto|]. destruct s. apply (track_alone 3). }
  destruct (by_time (latency first) (Some (from_millis 8)) && by_time (latency first) drop_at) eqn:E1.
  { apply Hplain. unfold call, hedged_call. by rewrite E1. }
  destruct (negb (by_time (Some (from_millis 8)) drop_at)) eqn:E2.
  { apply Hplain. unfold call, hedged_call. by rewrite E1, E2. }
  rewrite run_three.
  assert (step (one {| cl_kind := k; cl_phase := Reading; cl_probe := p; cl_leaked := false |} s) (Trigger 0 readable) =
    one {| cl_kind := k; cl_phase := if is_closed_sync (RedisCapper.rs_breaker s) readable then Consuming else Waiting;
           cl_probe := p; cl_leaked := false |} s) as -> by done.
  pose proof (eq_refl call) as Hcall. unfold call at 2, hedged_call in Hcall. rewrite E1, E2 in Hcall.
  destruct (is_closed_sync _ _).
  - destruct (try_consume (RedisCapper.rs_hedge s)) as [[] b] eqn:Eb; cbn [negb] in Hcall.
    + assert (step (one {| cl_kind := k; cl_phase := Consuming; cl_probe := p; cl_leaked := false |} s) (Advance 0 now) =
        one {| cl_kind := k; cl_phase := Racing; cl_probe := p; cl_leaked := false |} (set_hedge s b)) as ->.
      { unfold step, with_call, one, advance. cbn. by rewrite Eb. }
      destruct (if by_time _ _ && _ then _ else _) as [done_at r]. destruct (by_time done_at drop_at).
      * unfold finish, o. rewrite Hcall. cbn [hr_result hr_budget]. assert ((match r with Ok _ => false | Err _ => true end) = negb (is_ok r)) as -> by by destruct r.
        apply restore_alone.
      * destruct (Hfin Racing (set_hedge s b)) as [l ->]; [rewrite Hcall; auto|]. rewrite Hcall. apply (track_alone 3).
    + assert (step (one {| cl_kind := k; cl_phase := Consuming; cl_probe := p; cl_leaked := false |} s) (Advance 0 now) =
        one {| cl_kind := k; cl_phase := Waiting; cl_probe := p; cl_leaked := false |} (set_hedge s b)) as ->.
      { unfold step, with_call, one, advance. cbn. by rewrite Eb. }
      destruct (Hfin Waiting (set_hedge s b)) as [l ->]; [auto|]. rewrite Hcall. apply (track_alone 3).
  - assert (step (one {| cl_kind := k; cl_phase := Waiting; cl_probe := p; cl_leaked := false |} s) (Advance 0 now) =
      one {| cl_kind := k; cl_phase := Waiting; cl_probe := p; cl_leaked := false |} s) as -> by done.
    destruct (Hfin Waiting s) as [l ->]; [auto|]. rewrite Hcall. cbn [negb hr_budget]. destruct s. apply (track_alone 3).
Qed.

(** The steps of the environment in a read of a segment key, and in a check of the
    Redis capper for some keys. *)
Definition solo_segments (env : RedisSegmentRepo.Env) (key : string) (s : Shared) : list Action :=
  solo (RedisSegmentRepo.attempt (RedisSegmentRepo.sg_first env key)) (RedisSegmentRepo.attempt (RedisSegmentRepo.sg_second env key)) None
    (RedisSegmentRepo.sg_readable env) (RedisSegmentRepo.sg_prefer_first env) (RedisSegmentRepo.sg_elapsed env)
    (RedisSegmentRepo.sg_now_read env) (RedisSegmentRepo.sg_now_write env) (RedisSegmentRepo.sg_now_record env) s.
Definition solo_check (env : RedisCapper.Env) (keys : list string) (s : Shared) : list Action :=
  solo (RedisCapper.ev_first env keys) (RedisCapper.ev_second env keys) (Some (from_millis (RedisCapper.rs_timeout_ms s)))
    (RedisCapper.ev_readable env) (RedisCapper.ev_prefer_first env) (RedisCapper.ev_elapsed env)
    (RedisCapper.ev_now_read env) (RedisCapper.ev_now_write env) (RedisCapper.ev_now_record env) s.

(** [allow_request] alone: refused, or at the first attempt. *)
Lemma ask_alone k s now_read now_write acts : k = SegmentRead \/ k = CapCheck ->
  let '(allowed, cb) := allow_request (RedisCapper.rs_breaker s) now_read now_write in
  exists p, run (alone k s) (Advance 0 now_read :: Advance 0 now_write :: acts) =
    run (one {| cl_kind := k; cl_phase := if allowed then Reading else Refused; cl_probe := p; cl_leaked := false |} (set_breaker s cb)) acts.
Proof.
  intros Hk. change (alone k s) with (one {| cl_kind := k; cl_phase := Asking; cl_probe := false; cl_leaked := false |} s).
  rewrite !one_advance. unfold allow_request. cbn [advance cl_phase].
  destruct (allow_fast (RedisCapper.rs_breaker s) now_read) as [[]|] eqn:Ef.
  - exists false. destruct s, Hk as [->| ->]; reflexivity.
  - exists false. by destruct s.
  - cbn [fst snd advance to_phase cl_phase]. destruct (try_enter_half_open _ now_write) as [[] cb].
    + exists true. destruct Hk as [->| ->]; reflexivity.
    + by exists false.
Qed.

(** A call that has ended stays as it is. *)
Lemma refused_alone {T} k p s (first second : Attempt (Result T string)) drop_at readable prefer elapsed now cb b :
  let c := {| cl_kind := k; cl_phase := Refused; cl_probe := p; cl_leaked := false |} in
  run (one c s) (race_steps first second drop_at readable prefer elapsed now cb b ++ replicate 12 (Advance 0 now)) = one c s.
Proof.
  intros c. unfold run. rewrite foldl_app. fold (run (one c s) (race_steps first second drop_at readable prefer elapsed now cb b)).
  assert (run (one c s) (race_steps first second drop_at readable prefer elapsed now cb b) = one c s) as ->.
  { unfold race_steps. destruct (hr_result _); (destruct (_ && _); [|destruct (negb _)]); cbn; by destruct k. }
  by apply advance_done.
Qed.

(** The sequential functions are the calls run alone: scheduled by itself, lock
    section by lock section and atomic operation by atomic operation, a segment read
    or a check of the Redis capper ends, refused exactly when the breaker refuses it,
    and leaves breaker, hedge bucket and latency tracker exactly as
    [segments_for] and [check] say. *)
Theorem alone_is_sequential (s : Shared) user :
  (forall env, let y := run (alone SegmentRead s) (solo_segments env (RedisSegmentRepo.segment_key user) s) in
     sy_shared y = (RedisSegmentRepo.segments_for s user env).2 /\
     exists c, sy_calls y = [c] /\ ended (cl_phase c) = true /\
       (cl_phase c = Refused <-> (allow_request (RedisCapper.rs_breaker s) (RedisSegmentRepo.sg_now_read env) (RedisSegmentRepo.sg_now_write env)).1 = false)) /\
  (forall cands dt hour env, cands <> [] -> let y := run (alone CapCheck s) (solo_check env (RedisCapper.cap_keys user cands) s) in
     sy_shared y = (RedisCapper.check s user cands dt hour env).2 /\
     exists c, sy_calls y = [c] /\ ended (cl_phase c) = true /\
       (cl_phase c = Refused <-> (allow_request (RedisCapper.rs_breaker s) (RedisCapper.ev_now_read env) (RedisCapper.ev_now_write env)).1 = false)).
Proof.
  split.
  - intros env. unfold solo_segments, solo, RedisSegmentRepo.segments_for. cbn [app].
    pose proof (fun acts => ask_alone SegmentRead s (RedisSegmentRepo.sg_now_read env) (RedisSegmentRepo.sg_now_write env) acts (or_introl eq_refl)) as Ha.
    set (key := RedisSegmentRepo.segment_key user) in *.
    destruct (allow_request _ _ _) as [[] cb]; cbn [snd]; edestruct Ha as [p ->]; cbn [negb].
    + destruct (race_alone SegmentRead p (set_breaker s cb) (RedisSegmentRepo.attempt (RedisSegmentRepo.sg_first env key))
        (RedisSegmentRepo.attempt (RedisSegmentRepo.sg_second env key)) None (RedisSegmentRepo.sg_readable env)
        (RedisSegmentRepo.sg_prefer_first env) (RedisSegmentRepo.sg_elapsed env) (RedisSegmentRepo.sg_now_record env)
        (RedisSegmentRepo.race_completes _ _ _ _ _ _)) as (c & Hc & Hr).
      cbv zeta. cbn [RedisCapper.rs_breaker RedisCapper.rs_hedge set_breaker share_breaker] in Hr. rewrite Hr.
      destruct (RedisSegmentRepo.race_completes (RedisSegmentRepo.sg_first env key) (RedisSegmentRepo.sg_second env key) (from_millis 8)
        (is_closed_sync cb (RedisSegmentRepo.sg_readable env)) (RedisSegmentRepo.sg_prefer_first env) (RedisCapper.rs_hedge s)) as [r Er].
      rewrite Er. cbn [unwrap_or]. split; [by destruct r|]. exists c. split_and!; [done|by rewrite Hc|by rewrite Hc].
    + rewrite refused_alone. split; [done|]. by eexists.
  - intros cands dt hour env Hne. unfold solo_check, solo, RedisCapper.check. set (keys := RedisCapper.cap_keys user cands) in *.
    destruct cands as [|cand cands]; [done|]. cbn [app].
    pose proof (fun acts => ask_alone CapCheck s (RedisCapper.ev_now_read env) (RedisCapper.ev_now_write env) acts (or_intror eq_refl)) as Ha.
    destruct (allow_request _ _ _) as [[] cb]; cbn [snd]; edestruct Ha as [p ->]; cbn [negb].
    + destruct (race_alone CapCheck p (set_breaker s cb) (RedisCapper.ev_first env keys) (RedisCapper.ev_second env keys)
        (Some (from_millis (RedisCapper.rs_timeout_ms s))) (RedisCapper.ev_readable env)
        (RedisCapper.ev_prefer_first env) (RedisCapper.ev_elapsed env) (RedisCapper.ev_now_record env) I) as (c & Hc & Hr).
      cbv zeta. cbn [RedisCapper.rs_breaker RedisCapper.rs_hedge set_breaker share_breaker] in Hr. rewrite Hr.
      split; [by destruct (hr_result _) as [[]|]|]. exists c. split_and!; [done|by rewrite Hc|by rewrite Hc].
    + rewrite refused_alone. split; [done|]. by eexists.
Qed.

(** ** Concrete schedules *)
Module Sample.
(** A breaker that opens on its first failed call, a bucket of one token. *)
Definition config : BreakerConfig := {|
  bc_name := "redis"; min_calls := 1; error_rate_threshold := f64_lit 1 2; slow_call_ratio_threshold := f64_lit 1 2;
  slow_call_duration := from_millis 16; open_duration := from_secs 10; window_size := 100 |}.
Definition start : Sys := fresh config 1 10.
Definition failed : Outcome := {| oc_error := true; oc_elapsed := from_millis 3 |}.
Definition fine : Outcome := {| oc_error := false; oc_elapsed := from_millis 3 |}.
(** A failed read opens the breaker; eleven seconds later another one is the probe. *)
Definition probed : list Action :=
  [Spawn SegmentRead; Advance 0 0; Complete 0 failed] ++ replicate 9 (Advance 0 0) ++
  [Spawn SegmentRead; Advance 1 (from_secs 11); Advance 1 (from_secs 11)].
Definition answered : list Action := probed ++ [Complete 1 fine] ++ replicate 9 (Advance 1 (from_secs 11)).
(** A check whose race is given up by its own timeout. *)
Definition given_up : list Action :=
  [Spawn CapCheck; Advance 0 0; Trigger 0 true; Advance 0 0; TimeOut 0 (from_millis 10)].
Definition segment_env : RedisSegmentRepo.Env := {|
  RedisSegmentRepo.sg_now_read := 0; RedisSegmentRepo.sg_now_write := 0; RedisSegmentRepo.sg_readable := true;
  RedisSegmentRepo.sg_first _ := (from_millis 12, Ok None); RedisSegmentRepo.sg_second _ := (from_millis 1, Ok None);
  RedisSegmentRepo.sg_prefer_first := true; RedisSegmentRepo.sg_elapsed := from_millis 9; RedisSegmentRepo.sg_now_record := 0 |}.
End Sample.

Lemma calls_end_witness :
  let y := run Sample.start [Spawn SegmentRead] in (moves 0 y (tail Sample.probed) <= 20)%nat.
Proof.
  intros y.
  apply (calls_end y (tail Sample.probed) 0 {| cl_kind := SegmentRead; cl_phase := Asking; cl_probe := false; cl_leaked := false |});
    [reflexivity|exact I].
Defined.

(** With the probe dropped it is the dropped call that keeps the breaker half-open;
    answered, it closes the breaker. *)
Lemma breaker_stuck_only_by_losses_witness :
  let y := run Sample.start (Sample.probed ++ [Drop 1]) in
  (exists c, c ∈ sy_calls y /\ cl_probe c = true) /\
  (allow_request (RedisCapper.rs_breaker (sy_shared (run Sample.start Sample.answered))) 0 0).1 = true.
Proof.
  intros y. split.
  - destruct (breaker_stuck_only_by_losses Sample.config 1 10 (Sample.probed ++ [Drop 1])) as [Hh _].
    destruct Hh as (c & Hin & Hp & _); [vm_compute; reflexivity|]. by exists c.
  - destruct (breaker_stuck_only_by_losses Sample.config 1 10 Sample.answered) as [_ Hr].
    apply Hr; [repeat constructor|vm_compute; repeat constructor|]. intros Ho. exfalso. vm_compute in Ho. discriminate.
Defined.

Lemma hedge_tokens_conserved_witness :
  (try_consume (RedisCapper.rs_hedge (sy_shared (run Sample.start Sample.given_up)))).1 = false.
Proof.
  apply (hedge_tokens_conserved Sample.config 1 10 Sample.given_up); [unfold u64_max; lia|repeat constructor|vm_compute; reflexivity].
Defined.

(** A hedged read: the second attempt wins. *)
Lemma alone_is_sequential_witness :
  let s := sy_shared Sample.start in
  sy_shared (run (alone SegmentRead s) (solo_segments Sample.segment_env (RedisSegmentRepo.segment_key "u7") s)) = (RedisSegmentRepo.segments_for s "u7" Sample.segment_env).2.
Proof.
  intros s. destruct (alone_is_sequential s "u7") as [Hs _]. exact (proj1 (Hs Sample.segment_env)).
Defined.
