(* ===== verification/Pipeline.v ===== *)
(** * The bid pipeline

    [bidder-core/src/pipeline/]: the nine stages and [Pipeline::execute].  A
    stage maps the request context and the shared world to a result, a context
    and a world; the world holds what the stages reach through [Arc]s (catalog
    snapshot, segment cache and repository, scorer, frequency capper, pacer).
    Clock readings and the behaviour of Redis during the request are inputs
    ([Env]).  The order in which [BinaryHeap::into_iter] yields its elements,
    which the standard library leaves open, is the parameter [heap_order]. *)
From S2P Require Import Prelude Floats OpenRtb Bitmap Catalog Model Externals Pacing Frequency Scoring Segments.

Section Stages.
Context {Value : Type} `{JsonValue Value} {B : Type} `{Bitmap B}.
Context {C : Type} `{KVCache C string (list SegmentId)} {G GE : Type} `{UserSegmentRepository G GE}.
Context {Sc : Type} `{Scorer Sc} {F FE : Type} `{FrequencyCapper F FE} {P : Type} `{BudgetPacer P}.
Context {N : Type} `{NoticeUrlBuilder N}.
Context (heap_order : list AdCandidate -> list AdCandidate).
Notation Ctx := (BidContext Value B).

Record World := {
  w_catalog : CampaignCatalog B;
  w_cache : C;
  w_repo : G;
  w_scorer : Sc;
  w_capper : F;
  w_pacer : P;
}.

Definition set_segments (w : World) (cache : C) (repo : G) : World :=
  {| w_catalog := w_catalog w; w_cache := cache; w_repo := repo; w_scorer := w_scorer w;
     w_capper := w_capper w; w_pacer := w_pacer w |}.
Definition set_scorer (w : World) (s : Sc) : World :=
  {| w_catalog := w_catalog w; w_cache := w_cache w; w_repo := w_repo w; w_scorer := s;
     w_capper := w_capper w; w_pacer := w_pacer w |}.
Definition set_capper (w : World) (f : F) : World :=
  {| w_catalog := w_catalog w; w_cache := w_cache w; w_repo := w_repo w; w_scorer := w_scorer w;
     w_capper := f; w_pacer := w_pacer w |}.
Definition set_pacer (w : World) (p : P) : World :=
  {| w_catalog := w_catalog w; w_cache := w_cache w; w_repo := w_repo w; w_scorer := w_scorer w;
     w_capper := w_capper w; w_pacer := p |}.

(** What the environment does during one request: the clock before each stage,
    the wall clock, the segment read, and each frequency-cap check. *)
Record Env := {
  en_clock : nat -> Instant;
  en_secs : Z;
  en_segments : GE;
  en_cap : nat -> FE;
}.

Definition StageRun : Type := Ctx -> World -> Result unit string * Ctx * World.
Record Stage := { stage_name : string; stage_execute : StageRun }.

(** ** [RequestValidationStage] *)

Definition has_consent (req : BidRequest Value) : bool :=
  match (u ← br_user req; e ← user_ext u; v ← json_get e "consent"; json_as_str v) with
  | Some s => negb (bool_decide (s = ""%string))
  | None => false
  end.

(** [regs.gdpr == Some(1)] *)
Definition gdpr_applies (req : BidRequest Value) : bool :=
  match br_regs req with Some regs => bool_decide (regs_gdpr regs = Some 1) | None => false end.

Definition request_validation : Stage := {|
  stage_name := "request_validation";
  stage_execute ctx w :=
    let req := request ctx in
    if bool_decide (br_id req = ""%string) then (Ok tt, set_outcome ctx (NoBid INVALID_REQUEST), w)
    else if bool_decide (length (br_imp req) = 0%nat) then (Ok tt, set_outcome ctx (NoBid INVALID_REQUEST), w)
    else if gdpr_applies req && negb (has_consent req)
    then (Ok tt, set_outcome ctx (NoBid REQUEST_BLOCKED_PRIVACY), w)
    else (Ok tt, ctx, w) |}.

(** ** [UserEnrichmentStage] *)
Definition user_enrichment (env : Env) : Stage := {|
  stage_name := "user_enrichment";
  stage_execute ctx w :=
    let ctx := set_catalog ctx (Some (w_catalog w)) in
    match ctx_user_id ctx with
    | None => (Ok tt, ctx, w)
    | Some user =>
        let '(r, cache, repo) :=
          get_or_fetch (w_cache w) user (w_repo w) (fun g => segments_for g user (en_segments env)) in
        let w := set_segments w cache repo in
        match r with
        | Ok ids => (Ok tt, set_segment_ids ctx ids, w)
        | Err _ => (Ok tt, ctx, w)
        end
    end |}.

(** ** [CandidateRetrievalStage] *)

Definition imp_ad_format (imp : Imp Value) : option AdFormat.t :=
  if bool_decide (is_Some (imp_banner imp)) then Some AdFormat.Banner
  else if bool_decide (is_Some (imp_video imp)) then Some AdFormat.Video
  else if bool_decide (is_Some (imp_audio imp)) then Some AdFormat.Audio
  else if bool_decide (is_Some (imp_native imp)) then Some AdFormat.Native
  else None.

Definition geo_keys (req : BidRequest Value) : option (list GeoKey) :=
  (fun geo =>
     (match geo_country geo with Some c => [{| gk_kind := Country; gk_code := c |}] | None => [] end) ++
     (match geo_metro geo with Some m => [{| gk_kind := Metro; gk_code := m |}] | None => [] end))
  <$> (d ← br_device req; dev_geo d).

Definition target_device (req : BidRequest Value) : option DeviceTargetType :=
  (fun dt => from_openrtb (device_type dt)) <$> (d ← br_device req; dev_devicetype d).

Definition candidate_request (req : BidRequest Value) (segs : list SegmentId) (imp : Imp Value)
  : CandidateRequest := {|
  rq_segment_ids := segs; rq_geo_keys := geo_keys req; rq_device_type := target_device req;
  rq_ad_format := imp_ad_format imp |}.

Definition format_fits (fmt : option AdFormat.t) (cr : Creative) : bool :=
  match fmt with Some f => bool_decide (cr_ad_format cr = f) | None => true end.

Definition candidate_of (cat : CampaignCatalog B) (fmt : option AdFormat.t) (cid : CampaignId) : option AdCandidate :=
  cm ← campaign cat cid;
  cr ← find_first (format_fits fmt) (creatives_for cat cid);
  Some {| ac_campaign_id := cid; ac_creative_id := cr_id cr; ac_bid_price_cents := c_bid_floor_cents cm;
          ac_score := f32_of_Z 0; ac_daily_cap_imps := c_daily_cap_imps cm;
          ac_hourly_cap_imps := c_hourly_cap_imps cm |}.

Definition retrieve (cat : CampaignCatalog B) (req : BidRequest Value) (segs : list SegmentId) (imp : Imp Value)
  : list AdCandidate :=
  omap (candidate_of cat (imp_ad_format imp)) (bm_iter (candidates_for cat (candidate_request req segs imp))).

Definition candidate_retrieval : Stage := {|
  stage_name := "candidate_retrieval";
  stage_execute ctx w :=
    match catalog ctx with
    | None => (Ok tt, ctx, w)
    | Some cat =>
        if Nat.eqb (catalog_len cat) 0 then (Ok tt, ctx, w)
        else
          let imps := br_imp (request ctx) in
          let slots := resize (Nat.max (length imps) 1) [] (candidates ctx) in
          (Ok tt, set_candidates ctx
             (foldl (fun cs '(idx, imp) => <[idx := retrieve cat (request ctx) (segment_ids ctx) imp]> cs)
                    slots (imap pair imps)), w)
    end |}.

(** ** [CandidateLimitStage] *)

(** [HeapEntry::cmp]: by price, then the lower campaign id is the greater. *)
Definition heap_cmp (a b : AdCandidate) : comparison :=
  match Z.compare (ac_bid_price_cents a) (ac_bid_price_cents b) with
  | Eq => Z.compare (ac_campaign_id b) (ac_campaign_id a)
  | c => c
  end.

(** [BinaryHeap<Reverse<_>>::pop]: removes a least entry. *)
Fixpoint pop_min (l : list AdCandidate) : option (AdCandidate * list AdCandidate) :=
  match l with
  | [] => None
  | a :: l' =>
      match pop_min l' with
      | None => Some (a, [])
      | Some (m, r) => match heap_cmp m a with Lt => Some (m, a :: r) | _ => Some (a, l') end
      end
  end.

Definition push_limited (top_k : nat) (heap : list AdCandidate) (c : AdCandidate) : list AdCandidate :=
  let heap := c :: heap in
  if Nat.ltb top_k (length heap) then match pop_min heap with Some (_, r) => r | None => heap end else heap.

Definition limit_candidates (top_k : nat) (cands : list AdCandidate) : list AdCandidate :=
  if Nat.leb (length cands) top_k then cands
  else heap_order (foldl (push_limited top_k) [] cands).

Definition candidate_limit (top_k : nat) : Stage := {|
  stage_name := "candidate_limit";
  stage_execute ctx w := (Ok tt, set_candidates ctx (limit_candidates top_k <$> candidates ctx), w) |}.

(** ** [ScoringStage] *)
Definition scoring_context (env : Env) (ctx : Ctx) (idx : nat) : ScoringContext := {|
  sc_segment_ids := segment_ids ctx;
  sc_device_type := target_device (request ctx);
  sc_ad_format := imp ← br_imp (request ctx) !! idx; imp_ad_format imp;
  sc_hour_of_day := current_hour_of_day (en_secs env);
  sc_is_weekend := is_weekend_utc (en_secs env);
  sc_user_id := unwrap_or (ctx_user_id ctx) ""%string;
  sc_is_top_market := false |}.

(** A loop over the impressions that threads one component of the world. *)
Definition each_imp {W} (f : W -> nat -> list AdCandidate -> W * list AdCandidate) (w : W)
    (cs : list (list AdCandidate)) : W * list (list AdCandidate) :=
  fold_map (fun w '(idx, l) => match l with [] => (w, l) | _ => f w idx l end) w (imap pair cs).

Definition scoring (env : Env) : Stage := {|
  stage_name := "scoring";
  stage_execute ctx w :=
    let '(s, cs) := each_imp (fun s idx l => let '(l', s') := score_all s l (scoring_context env ctx idx) in (s', l'))
                             (w_scorer w) (candidates ctx) in
    (Ok tt, set_candidates ctx cs, set_scorer w s) |}.

(** ** [FreqCapStage] *)

Definition retain_uncapped (results : list CapResult) (l : list AdCandidate) : list AdCandidate :=
  let capped : gset Z := list_to_set (cp_campaign_id <$> filter (fun r => cp_capped r = true) results) in
  filter (fun c => ac_campaign_id c ∉ capped) l.

Definition freq_cap (env : Env) : Stage := {|
  stage_name := "frequency_cap";
  stage_execute ctx w :=
    match ctx_user_id ctx with
    | None => (Ok tt, ctx, w)
    | Some user =>
        let device_type_val := match ctx_devicetype ctx with Some dt => device_type dt | None => 0 end in
        let hour := current_hour_of_day (en_secs env) in
        let '((f, log), cs) :=
          each_imp (fun '(f, log) idx l =>
            let '(out, f') := fc_check f user l device_type_val hour (en_cap env idx) in
            match out with
            | Checked results =>
                ((f', log ++ ((fun r => (idx, cp_campaign_id r, cp_capped r)) <$> results)), retain_uncapped results l)
            | _ => ((f', log), l)
            end) (w_capper w, freq_cap_results ctx) (candidates ctx) in
        (Ok tt, set_freq_cap_results (set_candidates ctx cs) log, set_capper w f)
    end |}.

(** ** [BudgetPacingStage] *)

(** Reserve for every candidate of an impression; the exhausted campaigns. *)
Definition reserve_all (p : P) (l : list AdCandidate) : P * list Z :=
  foldl (fun '(p, ex) c =>
           let '(d, p') := check_and_reserve p (ac_campaign_id c) (ac_bid_price_cents c) in
           (p', if decide (d = Exhausted) then ex ++ [ac_campaign_id c] else ex))
        (p, []) l.

(** The candidates of the campaigns that are not reported exhausted. *)
Definition retain_granted (ex : list Z) (l : list AdCandidate) : list AdCandidate :=
  match ex with
  | [] => l
  | _ => let exhausted : gset Z := list_to_set ex in filter (fun c => ac_campaign_id c ∉ exhausted) l
  end.

Definition pace_imp (p : P) (l : list AdCandidate) : P * list AdCandidate :=
  let '(p', ex) := reserve_all p l in (p', retain_granted ex l).

(** The context once every impression has been paced. *)
Definition paced (ctx : Ctx) (cs : list (list AdCandidate)) : Ctx :=
  let ctx := set_candidates ctx cs in
  if existsb (fun l => negb (bool_decide (l = []))) cs then ctx else set_outcome ctx (NoBid NO_ELIGIBLE_BIDS).

Definition budget_pacing : Stage := {|
  stage_name := "budget_pacing";
  stage_execute ctx w :=
    let '(p, cs) := each_imp (fun p _ l => pace_imp p l) (w_pacer w) (candidates ctx) in
    (Ok tt, paced ctx cs, set_pacer w p) |}.

(** ** [RankingStage] *)

Definition rank_cmp (a b : AdCandidate) : comparison :=
  match cmp_or_equal (ac_score a) (ac_score b) with
  | Eq => Z.compare (ac_bid_price_cents a) (ac_bid_price_cents b)
  | c => c
  end.

Definition release_losers (p : P) (w : AdCandidate) (l : list AdCandidate) : P :=
  foldl (fun p c => release p (ac_campaign_id c) (ac_bid_price_cents c)) p
        (filter (fun c => ac_campaign_id c <> ac_campaign_id w) l).

Definition winner_entry (req : BidRequest Value) (idx : nat) (w : AdCandidate) : ImpWinner := {|
  iw_imp_id := match br_imp req !! idx with Some i => imp_id i | None => pretty (Z.of_nat idx) end;
  iw_campaign_id := ac_campaign_id w; iw_creative_id := ac_creative_id w;
  iw_bid_price_cents := ac_bid_price_cents w; iw_score := ac_score w |}.

Definition rank_imp (req : BidRequest Value) (st : P * list ImpWinner) (entry : nat * list AdCandidate)
  : P * list ImpWinner :=
  let '(p, ws) := st in
  let '(idx, l) := entry in
  match max_by rank_cmp l with
  | None => st
  | Some w => (release_losers p w l, ws ++ [winner_entry req idx w])
  end.

(** The context once every impression has been ranked. *)
Definition ranked (ctx : Ctx) (ws : list ImpWinner) : Ctx :=
  set_outcome (set_winners ctx ws) (match ws with [] => NoBid NO_ELIGIBLE_BIDS | _ => OutcomeBid end).

Definition ranking : Stage := {|
  stage_name := "ranking";
  stage_execute ctx w :=
    let '(p, ws) := foldl (rank_imp (request ctx)) (w_pacer w, winners ctx) (imap pair (candidates ctx)) in
    (Ok tt, ranked ctx ws, set_pacer w p) |}.

(** ** [ResponseBuildStage] *)

Definition bid_of (builder : N) (exchange_id : string) (req : BidRequest Value) (user : string) (w : ImpWinner)
  : Bid Value := {|
  bid_id := br_id req +:+ "-" +:+ iw_imp_id w;
  bid_impid := iw_imp_id w;
  bid_price := f64_div (f64_of_Z (iw_bid_price_cents w)) (f64_of_Z 100);
  bid_adid := Some (pretty (iw_creative_id w));
  bid_nurl := build_notice_url builder {|
    wn_request_id := br_id req; wn_imp_id := iw_imp_id w; wn_campaign_id := iw_campaign_id w;
    wn_creative_id := iw_creative_id w; wn_clearing_price_micros := iw_bid_price_cents w * 10000;
    wn_user_id := user; wn_exchange_id := exchange_id |};
  bid_burl := None; bid_lurl := None; bid_adm := None; bid_adomain := None; bid_bundle := None; bid_iurl := None;
  bid_cid := Some (pretty (iw_campaign_id w));
  bid_crid := Some (pretty (iw_creative_id w));
  bid_tactic := None; bid_cat := []; bid_attr := []; bid_api := None; bid_protocol := None;
  bid_qagmediarating := None; bid_language := None; bid_dealid := None; bid_w := None; bid_h := None;
  bid_wratio := None; bid_hratio := None; bid_exp := None;
  bid_ext := Some (json_object [("bidder_pctr"%string, json_f32 (iw_score w)); ("bidder_score"%string, json_f32 (iw_score w))]);
|}.

Definition bid_response_of (builder : N) (exchange_id : string) (ctx : Ctx) : BidResponse Value := {|
  resp_id := br_id (request ctx);
  resp_seatbid := [{| sb_bid := bid_of builder exchange_id (request ctx) (unwrap_or (ctx_user_id ctx) ""%string)
                                <$> winners ctx;
                      sb_seat := None; sb_group := 0; sb_ext := None |}];
  resp_bidid := None; resp_cur := Some "USD"%string; resp_customdata := None; resp_nbr := None; resp_ext := None |}.

(** The stage on the context alone. *)
Definition responded (builder : N) (exchange_id : string) (ctx : Ctx) : Result unit string * Ctx :=
  let ctx := match outcome ctx with Pending => set_outcome ctx (NoBid NO_ELIGIBLE_BIDS) | _ => ctx end in
  match outcome ctx with
  | NoBid reason => (Ok tt, set_bid_response ctx (Some (no_bid (br_id (request ctx)) reason)))
  | OutcomeBid => (Ok tt, set_bid_response ctx (Some (bid_response_of builder exchange_id ctx)))
  | Pending => (Err "unreachable"%string, ctx)
  end.

Definition response_build (builder : N) (exchange_id : string) : Stage := {|
  stage_name := "response_build";
  stage_execute ctx w := let '(r, ctx) := responded builder exchange_id ctx in (r, ctx, w) |}.

(** ** [Pipeline::execute] *)

(** The stages from number [i] on.  The per-stage latency budgets only feed
    metrics. *)
Fixpoint run_stages (env : Env) (deadline_ms : Z) (i : nat) (stages : list Stage) (ctx : Ctx) (w : World)
  : Result unit string * Ctx * World :=
  match stages with
  | [] => (Ok tt, ctx, w)
  | st :: rest =>
      if deadline_ms <=? elapsed_ms ctx (en_clock env i)
      then (Ok tt, set_outcome ctx (NoBid PIPELINE_DEADLINE), w)
      else
        let '(r, ctx, w) := stage_execute st ctx w in
        match r with
        | Err e => (Err e, ctx, w)
        | Ok _ =>
            match outcome ctx with
            | NoBid _ => (Ok tt, ctx, w)
            | _ => run_stages env deadline_ms (S i) rest ctx w
            end
        end
  end.

Definition execute (env : Env) (deadline_ms : Z) (stages : list Stage) (ctx : Ctx) (w : World)
  : Result unit string * Ctx * World := run_stages env deadline_ms 0 stages ctx w.

(** The pipeline [main.rs] assembles. *)
Definition bid_pipeline (env : Env) (max_candidates_per_imp : nat) (builder : N) (exchange_id : string) : list Stage :=
  [request_validation; user_enrichment env; candidate_retrieval; candidate_limit max_candidates_per_imp;
   scoring env; freq_cap env; budget_pacing; ranking; response_build builder exchange_id].
End Stages.
Arguments World : clear implicits.
Arguments Env : clear implicits.
Arguments Stage : clear implicits.
