(* ===== verification/PipelineInv.v ===== *)
(** * Lemmas about the bid pipeline

    Per stage of [Pipeline], what it does to the candidates and to the pacer;
    then [Inv], what holds before each stage of a run, and [execute_ok], how every
    run ends.  [PipelineProps] states the properties. *)
From S2P Require Import Prelude Floats OpenRtb Bitmap Catalog Model Externals Pacing Frequency Scoring Segments Pipeline.

(** ** Candidate limit: the heap keeps the best *)

Lemma heap_cmp_refl a : heap_cmp a a = Eq.
Proof. unfold heap_cmp. by rewrite !Z.compare_refl. Qed.

Lemma heap_cmp_le a b : heap_cmp a b <> Gt <->
  ac_bid_price_cents a < ac_bid_price_cents b \/
  (ac_bid_price_cents a = ac_bid_price_cents b /\ ac_campaign_id b <= ac_campaign_id a).
Proof.
  unfold heap_cmp. destruct (Z.compare_spec (ac_bid_price_cents a) (ac_bid_price_cents b)).
  - destruct (Z.compare_spec (ac_campaign_id b) (ac_campaign_id a)); split; intros; try done; lia.
  - split; [lia|done].
  - split; [done|lia].
Qed.

Lemma heap_cmp_trans a b c : heap_cmp a b <> Gt -> heap_cmp b c <> Gt -> heap_cmp a c <> Gt.
Proof. rewrite !heap_cmp_le. lia. Qed.

Lemma heap_cmp_lt_flip a b : heap_cmp a b <> Lt -> heap_cmp b a <> Gt.
Proof.
  rewrite heap_cmp_le. unfold heap_cmp.
  destruct (Z.compare_spec (ac_bid_price_cents a) (ac_bid_price_cents b)); [|done|lia].
  destruct (Z.compare_spec (ac_campaign_id b) (ac_campaign_id a)); try done; lia.
Qed.

Lemma pop_min_spec l m r : pop_min l = Some (m, r) ->
  l ≡ₚ m :: r /\ forall x, x ∈ l -> heap_cmp m x <> Gt.
Proof.
  revert m r; induction l as [|a l IH]; intros m r; simpl; [done|].
  destruct (pop_min l) as [[m' r']|] eqn:E.
  - destruct (IH m' r' eq_refl) as [Hp Hm]. destruct (heap_cmp m' a) eqn:Ec; intros [= <- <-].
    + split; [done|]. intros x [->|Hx]%elem_of_cons; [by rewrite heap_cmp_refl|].
      apply (heap_cmp_trans a m' x); [apply heap_cmp_lt_flip; congruence|auto].
    + split; [rewrite Hp; apply Permutation_swap|]. intros x [->|Hx]%elem_of_cons; [congruence|auto].
    + split; [done|]. intros x [->|Hx]%elem_of_cons; [by rewrite heap_cmp_refl|].
      apply (heap_cmp_trans a m' x); [apply heap_cmp_lt_flip; congruence|auto].
  - intros [= <- <-]. destruct l; [|simpl in E; destruct (pop_min l) as [[]|]; [destruct (heap_cmp _ _)|]; done].
    split; [done|]. intros x [->|?%elem_of_nil]%elem_of_cons; [by rewrite heap_cmp_refl|done].
Qed.

Lemma pop_min_is_Some l : l <> [] -> exists m r, pop_min l = Some (m, r).
Proof.
  destruct l as [|a l]; [done|]. intros _. simpl.
  destruct (pop_min l) as [[m r]|]; [|eauto]. destruct (heap_cmp m a); eauto.
Qed.

(** The heap after a prefix of the list: the [k] greatest entries of it. *)
Definition keeps_best (k : nat) (l kept dropped : list AdCandidate) : Prop :=
  l ≡ₚ kept ++ dropped /\ length kept = Nat.min k (length l) /\
  forall d x, d ∈ dropped -> x ∈ kept -> heap_cmp d x <> Gt.

Lemma push_limited_keeps k l kept dropped c : keeps_best k l kept dropped ->
  exists dropped', keeps_best k (l ++ [c]) (push_limited k kept c) dropped'.
Proof.
  intros (Hp & Hlen & Hle). unfold push_limited.
  destruct (Nat.ltb k (length (c :: kept))) eqn:E.
  - apply Nat.ltb_lt in E. simpl in E. destruct (pop_min_is_Some (c :: kept) ltac:(done)) as (m & r & Hpop).
    rewrite Hpop. destruct (pop_min_spec _ _ _ Hpop) as [Hmr Hmin]. exists (m :: dropped). split_and!.
    + rewrite Hp, <- (Permutation_cons_append _ c), app_comm_cons, Hmr. apply Permutation_middle.
    + apply Permutation_length in Hmr. simpl in Hmr. rewrite length_app. simpl. lia.
    + intros d x [->|Hd]%elem_of_cons Hx.
      * apply Hmin. rewrite Hmr. set_solver.
      * assert (x ∈ c :: kept) as [->|Hxk]%elem_of_cons by (rewrite Hmr; set_solver); [|auto].
        assert (m ∈ c :: kept) as [->|Hm]%elem_of_cons by (rewrite Hmr; set_solver).
        -- apply Permutation_cons_inv in Hmr. apply Hle; [done|]. by rewrite Hmr.
        -- apply (heap_cmp_trans d m c); [auto|]. apply Hmin. set_solver.
  - apply Nat.ltb_ge in E. simpl in E. exists dropped. split_and!.
    + rewrite Hp. simpl. by rewrite <- (Permutation_cons_append _ c).
    + rewrite length_app. simpl. lia.
    + intros d x Hd [->|Hx]%elem_of_cons; [|auto].
      assert (dropped = []) as ->; [|by apply elem_of_nil in Hd].
      apply Permutation_length in Hp. rewrite length_app in Hp. destruct dropped; [done|]. simpl in *. lia.
Qed.

Lemma heap_keeps_best k l : exists dropped, keeps_best k l (foldl (push_limited k) [] l) dropped.
Proof.
  induction l as [|c l IH] using rev_ind.
  - exists []. split_and!; [done|by rewrite Nat.min_0_r|set_solver].
  - destruct IH as [dropped IH]. rewrite foldl_snoc. by eapply push_limited_keeps.
Qed.

Lemma limit_keeps_best (heap_order : list AdCandidate -> list AdCandidate) k l :
  (forall l, heap_order l ≡ₚ l) -> exists dropped, keeps_best k l (limit_candidates heap_order k l) dropped.
Proof.
  intros Ho. unfold limit_candidates. destruct (Nat.leb (length l) k) eqn:E.
  - apply Nat.leb_le in E. exists []. split_and!; [by rewrite app_nil_r|lia|set_solver].
  - destruct (heap_keeps_best k l) as (dropped & Hp & Hlen & Hle). exists dropped. split_and!.
    + by rewrite Ho.
    + by rewrite Ho.
    + intros d x Hd Hx. rewrite Ho in Hx. auto.
Qed.

(** ** Loops over the impressions *)

Section EachImp.
Context {W : Type} (f : W -> nat -> list AdCandidate -> W * list AdCandidate).

(** Invariant rule: [P] relates the state to the lists produced so far. *)
Lemma each_imp_ind (P : W -> list (list AdCandidate) -> Prop) w cs :
  P w [] ->
  (forall w outs l, P w outs -> cs !! length outs = Some l ->
     let r := match l with [] => (w, l) | _ => f w (length outs) l end in P r.1 (outs ++ [r.2])) ->
  P (each_imp f w cs).1 (each_imp f w cs).2.
Proof.
  intros H0 Hstep. unfold each_imp.
  enough (forall cs' outs w, P w outs ->
            (forall i l, cs' !! i = Some l -> cs !! (length outs + i)%nat = Some l) ->
            let r := fold_map (fun w '(idx, l) => match l with [] => (w, l) | _ => f w idx l end) w
                       (imap (fun i l => ((length outs + i)%nat, l)) cs') in
            P r.1 (outs ++ r.2)) as Hgen.
  { by apply (Hgen cs [] w H0). }
  clear w H0. induction cs' as [|l cs' IH]; intros outs w Hw Hcs; [simpl; by rewrite app_nil_r|].
  pose proof (Hcs 0%nat l eq_refl) as Hl. rewrite Nat.add_0_r in Hl.
  pose proof (Hstep w outs l Hw Hl) as Hs. simpl. rewrite Nat.add_0_r.
  set (r := match l with [] => (w, l) | _ => f w (length outs) l end) in *. destruct r as [w1 l1].
  specialize (IH (outs ++ [l1]) w1 Hs). rewrite length_app in IH. simpl in IH.
  rewrite (imap_ext _ (fun i l => ((length outs + 1 + i)%nat, l))) by (intros; simpl; f_equal; lia).
  destruct (fold_map _ _ _) as [w2 ls]. simpl in *. rewrite <- app_assoc in IH. apply IH.
  intros i l' Hi. specialize (Hcs (S i) l' Hi). by replace (length outs + 1 + i)%nat with (length outs + S i)%nat by lia.
Qed.

(** A loop whose body relates each list to its replacement. *)
Lemma each_imp_Forall2 (R : list AdCandidate -> list AdCandidate -> Prop) w cs :
  R [] [] -> (forall w idx l, R l (f w idx l).2) -> Forall2 R cs (each_imp f w cs).2.
Proof.
  intros Hnil HR.
  assert (length (each_imp f w cs).2 = length cs /\ Forall2 R (take (length (each_imp f w cs).2) cs) (each_imp f w cs).2)
    as [Hlen H].
  { split; [unfold each_imp; by rewrite length_fold_map, length_imap|].
    apply (each_imp_ind (fun _ outs => Forall2 R (take (length outs) cs) outs)); [constructor|].
    intros w' outs l Ho Hl. cbv zeta. rewrite length_app. simpl. rewrite Nat.add_1_r, (take_S_r _ _ l) by done.
    apply Forall2_app; [done|]. constructor; [|constructor]. destruct l; [done|]. apply HR. }
  rewrite Hlen, firstn_all in H. done.
Qed.
End EachImp.

(** ** Where candidates come from *)

(** The lists of a later stage hold no candidate an earlier one did not hold. *)
Definition shrinks (l l' : list AdCandidate) : Prop := unscored <$> l' ⊆+ unscored <$> l.

#[global] Instance shrinks_preorder : PreOrder shrinks.
Proof. split; [intros l; unfold shrinks; done|]. intros l1 l2 l3 H1 H2. unfold shrinks in *. by etransitivity. Qed.

Lemma shrinks_nil l : shrinks [] l -> l = [].
Proof. unfold shrinks. intros Hl. simpl in Hl. by apply submseteq_nil_r, fmap_nil_inv in Hl. Qed.

Lemma shrinks_filter (P : AdCandidate -> Prop) `{forall c, Decision (P c)} l : shrinks l (filter P l).
Proof. unfold shrinks. apply fmap_submseteq, sublist_submseteq, sublist_filter. Qed.

Lemma shrinks_retain rs l : shrinks l (retain_uncapped rs l).
Proof. apply shrinks_filter. Qed.

Lemma retain_granted_filter ex l : retain_granted ex l = filter (fun c => ac_campaign_id c ∉ ex) l.
Proof.
  destruct ex as [|i ex]; [by rewrite filter_all by (intros; apply not_elem_of_nil)|]. unfold retain_granted. cbv zeta.
  apply filter_ext_in. intros. by rewrite elem_of_list_to_set.
Qed.

Lemma shrinks_limit ho k l : (forall l, ho l ≡ₚ l) -> shrinks l (limit_candidates ho k l).
Proof.
  intros Hho. destruct (limit_keeps_best ho k l Hho) as (dropped & Hp & _). unfold shrinks.
  apply fmap_submseteq. rewrite Hp at 2. apply submseteq_inserts_r. done.
Qed.

Section Retrieval.
Context {Value : Type} `{JsonValue Value} {B : Type} `{BitmapLaws B}.
Implicit Types (cat : CampaignCatalog B) (req : BidRequest Value) (imp : Imp Value).

(** What makes a candidate fit an impression: a known campaign that matches the
    request's targeting, one of its creatives in the impression's format, the
    campaign's floor as the price and its caps. *)
Definition serves cat req (segs : list SegmentId) imp (cid crid price : Z) : Prop :=
  exists cm cr, campaign cat cid = Some cm /\ matches cat (candidate_request req segs imp) cid /\
    cr ∈ creatives_for cat cid /\ cr_id cr = crid /\ format_fits (imp_ad_format imp) cr = true /\
    price = c_bid_floor_cents cm.

Lemma candidate_of_id cat fmt cid c : candidate_of cat fmt cid = Some c -> ac_campaign_id c = cid.
Proof. unfold candidate_of. intros (cm & _ & (cr & _ & [= <-])%bind_Some)%bind_Some. done. Qed.

Lemma retrieve_serves cat req segs imp c : catalog_wf cat -> c ∈ retrieve cat req segs imp ->
  serves cat req segs imp (ac_campaign_id c) (ac_creative_id c) (ac_bid_price_cents c).
Proof.
  intros Hwf (cid & Hcid & Hc)%list_elem_of_omap. pose proof (candidate_of_id _ _ _ _ Hc) as Hid.
  unfold candidate_of in Hc. apply bind_Some in Hc as (cm & Hcm & (cr & Hcr & [= <-])%bind_Some).
  apply find_first_Some in Hcr as [Hcr Hfit]. rewrite elem_of_bm_iter, elem_of_candidates_for in Hcid by done.
  exists cm, cr. simpl. naive_solver.
Qed.

Lemma retrieve_ids cat req segs imp : NoDup (ac_campaign_id <$> retrieve cat req segs imp).
Proof.
  unfold retrieve. pose proof (bm_iter_NoDup (candidates_for cat (candidate_request req segs imp))) as Hn.
  induction Hn as [|cid l Hin Hn IH]; [constructor|]. simpl.
  destruct (candidate_of cat (imp_ad_format imp) cid) as [c|] eqn:E; [|done].
  rewrite fmap_cons. constructor; [|done]. rewrite (candidate_of_id _ _ _ _ E).
  intros (c' & Hc' & (cid' & Hin' & E')%list_elem_of_omap)%list_elem_of_fmap.
  rewrite (candidate_of_id _ _ _ _ E') in Hc'. by subst.
Qed.

Lemma retrieve_unscored cat req segs imp : unscored <$> retrieve cat req segs imp = retrieve cat req segs imp.
Proof.
  unfold retrieve. induction (bm_iter _) as [|cid l IH]; [done|]. simpl.
  destruct (candidate_of cat (imp_ad_format imp) cid) as [c|] eqn:E; [|done].
  rewrite fmap_cons. f_equal; [|exact IH]. unfold candidate_of in E.
  apply bind_Some in E as (cm & _ & (cr & _ & [= <-])%bind_Some). reflexivity.
Qed.

(** The candidates of impression [idx] were retrieved for it. *)
Definition retrieved cat req segs (idx : nat) (l : list AdCandidate) : Prop :=
  l = [] \/ exists imp, br_imp req !! idx = Some imp /\ shrinks (retrieve cat req segs imp) l.

Lemma retrieved_shrinks cat req segs idx l l' :
  retrieved cat req segs idx l -> shrinks l l' -> retrieved cat req segs idx l'.
Proof.
  intros [->|(imp & Hi & Hs)] Hl; [left; by apply shrinks_nil|right; exists imp; split; [done|by etransitivity]].
Qed.

Lemma retrieved_ids cat req segs idx l : retrieved cat req segs idx l -> NoDup (ac_campaign_id <$> l).
Proof.
  intros [->|(imp & Hi & Hs)]; [constructor|]. unfold shrinks in Hs. rewrite retrieve_unscored in Hs.
  apply (fmap_submseteq ac_campaign_id) in Hs. rewrite <- list_fmap_compose in Hs.
  apply submseteq_Permutation in Hs as [k Hk]. pose proof (retrieve_ids cat req segs imp) as Hn.
  rewrite Hk in Hn. by apply NoDup_app in Hn as [? _].
Qed.

Lemma retrieved_serves cat req segs idx l c : catalog_wf cat -> retrieved cat req segs idx l -> c ∈ l ->
  exists imp, br_imp req !! idx = Some imp /\
    serves cat req segs imp (ac_campaign_id c) (ac_creative_id c) (ac_bid_price_cents c).
Proof.
  intros Hwf [->|(imp & Hi & Hs)] Hc; [by apply elem_of_nil in Hc|]. exists imp. split; [done|].
  unfold shrinks in Hs. rewrite retrieve_unscored in Hs.
  assert (unscored c ∈ retrieve cat req segs imp) as Hin.
  { eapply elem_of_submseteq; [|exact Hs]. by apply list_elem_of_fmap_2. }
  apply (retrieve_serves cat req segs imp (unscored c) Hwf Hin).
Qed.

(** The loop that assigns each impression its candidates. *)
Lemma assign_lookup (g : Imp Value -> list AdCandidate) imps slots idx l :
  (length imps <= length slots)%nat ->
  foldl (fun cs '(i, imp) => <[i := g imp]> cs) slots (imap pair imps) !! idx = Some l ->
  (exists imp, imps !! idx = Some imp /\ l = g imp) \/ (slots !! idx = Some l /\ imps !! idx = None).
Proof.
  intros Hlen. revert l. induction imps as [|imp imps IH] using rev_ind; intros l; [simpl; auto|].
  rewrite length_app in Hlen. simpl in Hlen. specialize (IH ltac:(lia)).
  rewrite imap_app, foldl_app. simpl. rewrite Nat.add_0_r.
  set (cs := foldl _ slots _) in *.
  assert (length cs = length slots) as Hcs.
  { unfold cs. clear. revert slots. induction (imap pair imps) as [|[i im] l IH]; intros slots; simpl; [done|].
    by rewrite IH, length_insert. }
  destruct (decide (idx = length imps)) as [->|Hne].
  - rewrite list_lookup_insert_eq by lia. intros [= <-]. left. exists imp.
    split; [|done]. by rewrite list_lookup_middle.
  - rewrite list_lookup_insert_ne by done. intros Hl. destruct (IH l Hl) as [(im & Him & ->)|[Hs Hn]].
    + left. exists im. split; [by apply lookup_app_l_Some|done].
    + right. split; [done|]. apply lookup_ge_None in Hn. apply lookup_ge_None. rewrite length_app. simpl. lia.
Qed.
End Retrieval.

(** ** What pacing holds and ranking gives back *)

(** The prices of a campaign's candidates in a list. *)
Definition held (id : Z) (l : list AdCandidate) : Z :=
  sum_by (fun c => if decide (ac_campaign_id c = id) then ac_bid_price_cents c else 0) l.

(** The prices of a campaign's winners. *)
Definition won (id : Z) (ws : list ImpWinner) : Z :=
  sum_by (fun w => if decide (iw_campaign_id w = id) then iw_bid_price_cents w else 0) ws.

Lemma held_none id l : id ∉ ac_campaign_id <$> l -> held id l = 0.
Proof.
  unfold held. induction l as [|c l IH]; [done|]. rewrite fmap_cons, sum_by_cons. intros Hn.
  rewrite IH by set_solver. rewrite decide_False by set_solver. lia.
Qed.

(** With distinct campaigns, dropping one campaign drops one candidate. *)
Lemma held_drop id l c : NoDup (ac_campaign_id <$> l) -> c ∈ l ->
  held id l = held id (filter (fun x => ac_campaign_id x <> ac_campaign_id c) l)
              + (if decide (ac_campaign_id c = id) then ac_bid_price_cents c else 0).
Proof.
  induction l as [|a l IH]; [set_solver|]. rewrite fmap_cons, filter_cons.
  intros [Ha Hn]%NoDup_cons Hc. change (held id (a :: l)) with
    ((if decide (ac_campaign_id a = id) then ac_bid_price_cents a else 0) + held id l).
  apply elem_of_cons in Hc as [->|Hc].
  - rewrite (decide_False (P := ac_campaign_id a <> ac_campaign_id a)) by auto. rewrite filter_all; [lia|].
    intros x Hx E. apply Ha. rewrite <- E. by apply list_elem_of_fmap_2.
  - rewrite (decide_True (P := ac_campaign_id a <> ac_campaign_id c)) by (intros E; apply Ha; rewrite E; by apply list_elem_of_fmap_2).
    rewrite (IH Hn Hc). unfold held. rewrite sum_by_cons. lia.
Qed.

Section Budget.
Context {P : Type} `{BudgetPacerLaws P}.
Implicit Types (p : P) (l : list AdCandidate).

(** [p'] is [p] after [d id] has been deducted from every campaign [id]. *)
Definition deducted (d : Z -> Z) p p' : Prop :=
  pacer_wf p' /\ forall id, remaining p' id = (fun c => as_i64 (c - d id)) <$> remaining p id.

Lemma deducted_zero p : pacer_wf p -> deducted (fun _ => 0) p p.
Proof.
  intros Hwf. split; [done|]. intros id. destruct (remaining p id) as [c|] eqn:E; [|done]. simpl.
  rewrite Z.sub_0_r, as_i64_id; [done|]. by eapply remaining_range.
Qed.

Lemma deducted_none p p' id : pacer_wf p -> deducted (fun _ => 0) p p' -> remaining p' id = remaining p id.
Proof. intros Hwf [_ Hd]. by rewrite Hd, <- (proj2 (deducted_zero p Hwf) id). Qed.

Lemma deducted_trans d1 d2 d p1 p2 p3 : deducted d1 p1 p2 -> deducted d2 p2 p3 ->
  (forall id, d id = d1 id + d2 id) -> deducted d p1 p3.
Proof.
  intros [_ H1] [Hwf H2] Hd. split; [done|]. intros id. rewrite H2, H1, Hd.
  destruct (remaining p1 id) as [c|]; [|done]. simpl. f_equal.
  replace (as_i64 (c - d1 id) - d2 id) with (as_i64 (c - d1 id) + - d2 id) by lia.
  rewrite as_i64_add. f_equal. lia.
Qed.

Lemma release_deducts p id bid : pacer_wf p ->
  deducted (fun i => if decide (id = i) then - bid else 0) p (release p id bid).
Proof.
  intros Hwf. split; [by apply release_wf|]. intros i. destruct (decide (id = i)) as [<-|Hne].
  - rewrite release_same. destruct (remaining p id); simpl; [|done]. f_equal. f_equal. lia.
  - rewrite release_other by done. by apply deducted_zero.
Qed.

(** A campaign the pacer grants nothing to. *)
Definition broke p (id : Z) : Prop := forall c, remaining p id = Some c -> c <= 0.

Lemma reserve_deducts p id bid : pacer_wf p ->
  let r := check_and_reserve p id bid in
  (r.1 = HasBudget /\ ~ broke p id /\ deducted (fun i => if decide (id = i) then bid else 0) p r.2) \/
  (r.1 = Exhausted /\ deducted (fun _ => 0) p r.2).
Proof.
  intros Hwf r. pose proof (reserve_wf p id bid Hwf) as Hwf'. fold r in Hwf'. destruct (r.1) eqn:E; [left|right].
  - pose proof E as (c & Hc & Hpos)%reserve_decision. split_and!; [done|intros Hb; specialize (Hb c Hc); lia|].
    split; [done|].
    intros i. destruct (decide (id = i)) as [<-|Hne].
    + unfold r. rewrite (reserve_has p id bid c Hc Hpos), Hc. done.
    + unfold r. rewrite (reserve_other p id i bid Hne). by apply deducted_zero.
  - split; [done|]. split; [done|]. intros i. destruct (decide (id = i)) as [<-|Hne].
    + unfold r. rewrite reserve_exhausted by done. by apply deducted_zero.
    + unfold r. rewrite (reserve_other p id i bid Hne). by apply deducted_zero.
Qed.

(** What a refusal or a grant leaves of a broke campaign. *)
Lemma broke_reserve p id bid i : pacer_wf p -> broke p i -> broke (check_and_reserve p id bid).2 i.
Proof.
  intros Hwf Hb. destruct (reserve_deducts p id bid Hwf) as [(Hd & Hnb & [_ Hr])|(Hd & [_ Hr])].
  - intros c. rewrite Hr. destruct (decide (id = i)) as [->|Hne]; [done|].
    rewrite <- (proj2 (deducted_zero p Hwf) i). apply Hb.
  - intros c. rewrite Hr. rewrite <- (proj2 (deducted_zero p Hwf) i). apply Hb.
Qed.

Lemma reserve_all_snoc p l c :
  reserve_all p (l ++ [c]) =
  let '(p1, ex) := reserve_all p l in
  let '(d, p2) := check_and_reserve p1 (ac_campaign_id c) (ac_bid_price_cents c) in
  (p2, if decide (d = Exhausted) then ex ++ [ac_campaign_id c] else ex).
Proof.
  unfold reserve_all. rewrite foldl_snoc. by destruct (foldl _ (p, []) l) as [p1 ex].
Qed.

(** Reserving for a batch of distinct campaigns deducts exactly the candidates
    that are not reported exhausted, and reports every broke campaign. *)
Lemma reserve_all_spec p l : pacer_wf p -> NoDup (ac_campaign_id <$> l) ->
  let '(p', ex) := reserve_all p l in
  deducted (fun id => held id (filter (fun c => ac_campaign_id c ∉ ex) l)) p p' /\
  ex ⊆ ac_campaign_id <$> l /\
  (forall i, broke p i -> broke p' i) /\
  (forall c, c ∈ l -> broke p (ac_campaign_id c) -> ac_campaign_id c ∈ ex).
Proof.
  intros Hwf. induction l as [|c l IH] using rev_ind; intros Hn.
  { simpl. split_and!; [by apply deducted_zero|done|done|set_solver]. }
  rewrite fmap_app in Hn. apply NoDup_app in Hn as (Hn & Hfresh & _). specialize (IH Hn). rewrite reserve_all_snoc.
  destruct (reserve_all p l) as [p1 ex]. destruct IH as (Hd & Hex & Hbr & Hbroke).
  assert (ac_campaign_id c ∉ ac_campaign_id <$> l) as Hc by (intros Hi; apply (Hfresh _ Hi); set_solver).
  pose proof (reserve_deducts p1 (ac_campaign_id c) (ac_bid_price_cents c) (proj1 Hd)) as Hr.
  pose proof (fun i => broke_reserve p1 (ac_campaign_id c) (ac_bid_price_cents c) i (proj1 Hd)) as Hbr'.
  destruct (check_and_reserve p1 _ _) as [d p2]. simpl in Hr, Hbr'. rewrite fmap_app.
  destruct Hr as [(-> & Hnb & Hd2)|(-> & Hd2)]; [rewrite decide_False by done|rewrite decide_True by done].
  - split_and!; [|set_solver|auto|].
    + eapply deducted_trans; [exact Hd|exact Hd2|]. intros id. simpl. rewrite filter_app. unfold held.
      rewrite sum_by_app, filter_cons, decide_True by set_solver. unfold sum_by at 2. simpl. lia.
    + intros x [Hx|Hx]%elem_of_app Hb; [auto|]. apply list_elem_of_singleton in Hx as ->. by specialize (Hbr _ Hb).
  - split_and!; [|set_solver|auto|].
    + eapply deducted_trans; [exact Hd|exact Hd2|]. intros id. simpl. rewrite filter_app, filter_cons, decide_False by set_solver.
      rewrite filter_nil, app_nil_r, Z.add_0_r. f_equal. apply filter_ext_in. intros x Hx.
      assert (ac_campaign_id x <> ac_campaign_id c) by (intros E; apply Hc; rewrite <- E; by apply list_elem_of_fmap_2).
      set_solver.
    + intros x [Hx|Hx]%elem_of_app Hb; [set_solver|]. apply list_elem_of_singleton in Hx as ->. set_solver.
Qed.

Lemma pace_imp_spec p l : pacer_wf p -> NoDup (ac_campaign_id <$> l) ->
  let '(p', l') := pace_imp p l in
  deducted (fun id => held id l') p p' /\ shrinks l l' /\
  (forall i, broke p i -> broke p' i) /\ (forall c, c ∈ l' -> ~ broke p (ac_campaign_id c)).
Proof.
  intros Hwf Hn. pose proof (reserve_all_spec p l Hwf Hn) as Hs. unfold pace_imp.
  destruct (reserve_all p l) as [p' ex]. destruct Hs as (Hd & Hex & Hbr & Hbroke). rewrite retain_granted_filter.
  split_and!; [done|apply shrinks_filter|done|].
  intros c [Hc Hin]%list_elem_of_filter Hb. auto.
Qed.

(** Totals over the impressions. *)
Definition held_all (id : Z) (cs : list (list AdCandidate)) : Z := sum_by (held id) cs.

Lemma pace_all_spec p cs : pacer_wf p -> Forall (fun l => NoDup (ac_campaign_id <$> l)) cs ->
  let '(p', cs') := each_imp (fun p _ l => pace_imp p l) p cs in
  deducted (fun id => held_all id cs') p p' /\
  (forall l c, l ∈ cs' -> c ∈ l -> ~ broke p (ac_campaign_id c)).
Proof.
  intros Hwf Hn. pose proof (each_imp_ind (fun p _ l => pace_imp p l) (fun p' outs =>
    deducted (fun id => held_all id outs) p p' /\ (forall i, broke p i -> broke p' i) /\
    (forall l c, l ∈ outs -> c ∈ l -> ~ broke p (ac_campaign_id c))) p cs) as Hind.
  destruct (each_imp _ p cs) as [p' cs']. destruct Hind as (Hd & _ & Hb); [| |done].
  { split_and!; [by apply deducted_zero|done|set_solver]. }
  intros p1 outs l (Hd & Hbr & Hb) Hl r.
  assert (let '(p2, l') := r in deducted (fun id => held id l') p1 p2 /\ (forall i, broke p1 i -> broke p2 i) /\
    (forall c, c ∈ l' -> ~ broke p1 (ac_campaign_id c))) as Hr.
  { unfold r. destruct l as [|c l].
    - split_and!; [apply deducted_zero, Hd|done|set_solver].
    - pose proof (pace_imp_spec p1 (c :: l) (proj1 Hd)) as Hp. destruct (pace_imp p1 (c :: l)).
      rewrite Forall_lookup in Hn. destruct (Hp (Hn _ _ Hl)) as (? & ? & ? & ?). auto. }
  destruct r as [p2 l']. destruct Hr as (Hd2 & Hbr2 & Hb2). simpl. split_and!.
  - eapply deducted_trans; [exact Hd|exact Hd2|]. intros id. unfold held_all. by rewrite sum_by_app, sum_by_cons, Z.add_0_r.
  - auto.
  - intros l1 c [Hl1|Hl1]%elem_of_app Hc; [by eapply Hb|]. apply list_elem_of_singleton in Hl1 as ->.
    intros Hbc. apply (Hb2 c Hc), Hbr, Hbc.
Qed.

Lemma release_losers_deducts p w l : pacer_wf p ->
  deducted (fun id => - held id (filter (fun c => ac_campaign_id c <> ac_campaign_id w) l)) p (release_losers p w l).
Proof.
  intros Hwf. unfold release_losers. induction (filter _ l) as [|c k IH] using rev_ind.
  - by apply deducted_zero.
  - rewrite foldl_snoc. eapply deducted_trans; [exact IH|apply release_deducts, IH|].
    intros id. unfold held. rewrite sum_by_app, sum_by_cons. simpl. case_decide; unfold sum_by; simpl; lia.
Qed.
End Budget.

(** ** Ranking *)

(** The winner of one impression. *)
Definition winner_of {Value} (req : BidRequest Value) (entry : nat * list AdCandidate) : option ImpWinner :=
  winner_entry req entry.1 <$> max_by rank_cmp entry.2.

Lemma rank_winners {Value P} `{BudgetPacer P} (req : BidRequest Value) (p : P) ws entries :
  (foldl (rank_imp req) (p, ws) entries).2 = ws ++ omap (winner_of req) entries.
Proof.
  revert p ws; induction entries as [|[idx l] entries IH]; intros p ws; [simpl; by rewrite app_nil_r|].
  cbn [foldl rank_imp omap list_omap]. unfold winner_of at 1. cbn [fst snd].
  destruct (max_by rank_cmp l) as [w|]; rewrite IH; [|done]. simpl. by rewrite <- app_assoc.
Qed.

(** Ranking returns to each campaign what it held beyond its wins. *)
Lemma rank_deducts {Value P} `{BudgetPacerLaws P} (req : BidRequest Value) (p : P) ws entries :
  pacer_wf p -> Forall (fun e => NoDup (ac_campaign_id <$> e.2)) entries ->
  deducted (fun id => won id (omap (winner_of req) entries) - held_all id entries.*2) p
    (foldl (rank_imp req) (p, ws) entries).1.
Proof.
  revert p ws; induction entries as [|[idx l] entries IH]; intros p ws Hwf.
  { intros _. by apply deducted_zero. }
  intros [Hn Hns]%Forall_cons. cbn [foldl rank_imp omap list_omap]. unfold winner_of at 1. cbn [fst snd] in *.
  assert (forall id, held_all id (snd <$> (idx, l) :: entries) = held id l + held_all id entries.*2) as Hall by done.
  destruct (max_by rank_cmp l) as [w|] eqn:E; cbn [fmap option_fmap option_map].
  - pose proof (release_losers_deducts p w l Hwf) as Hr.
    eapply deducted_trans; [exact Hr|apply IH; [apply Hr|done]|]. intros id.
    rewrite Hall, (held_drop id l w Hn (max_by_elem _ _ _ E)). unfold won. rewrite sum_by_cons.
    cbn [iw_campaign_id iw_bid_price_cents winner_entry]. lia.
  - apply max_by_None in E as ->. eapply deducted_trans; [by apply deducted_zero|by apply IH|].
    intros id. rewrite Hall. unfold held, sum_by. simpl. lia.
Qed.

(** Scores that are numbers are totally preordered by the ranking comparator. *)
Lemma rank_cmp_le a b : is_nan (ac_score a) = false -> is_nan (ac_score b) = false ->
  rank_cmp a b <> Gt <->
  flt (ac_score a) (ac_score b) = true \/
  (fcmp (ac_score a) (ac_score b) = Some Eq /\ ac_bid_price_cents a <= ac_bid_price_cents b).
Proof.
  intros Ha Hb. unfold rank_cmp, cmp_or_equal, flt, SFltb.
  destruct (fcmp_some _ _ Ha Hb) as [c Hc]. rewrite Hc. unfold fcmp in Hc. rewrite Hc.
  destruct c; simpl; [|naive_solver|naive_solver]. rewrite <- Z.compare_le_iff. naive_solver.
Qed.

Lemma imap_pair_snd {A} (l : list A) : (imap pair l).*2 = l.
Proof. rewrite fmap_imap. apply list_eq. intros i. rewrite list_lookup_imap. by destruct (l !! i). Qed.

Lemma rank_cmp_refl a : is_nan (ac_score a) = false -> rank_cmp a a <> Gt.
Proof. intros Ha. apply rank_cmp_le; [done..|]. right. split; [by apply fcmp_refl|lia]. Qed.

Lemma rank_cmp_antisym a b : is_nan (ac_score a) = false -> is_nan (ac_score b) = false ->
  rank_cmp a b = Gt -> rank_cmp b a <> Gt.
Proof.
  unfold rank_cmp, cmp_or_equal. intros Ha Hb. rewrite (fcmp_antisym (ac_score a)).
  destruct (fcmp_some _ _ Ha Hb) as [[] ->]; simpl; [|done|done].
  rewrite (Z.compare_antisym (ac_bid_price_cents a)). by destruct (Z.compare _ _).
Qed.

Lemma rank_cmp_fle a b : is_nan (ac_score a) = false -> is_nan (ac_score b) = false ->
  rank_cmp a b <> Gt <->
  fle (ac_score a) (ac_score b) = true /\
  (fle (ac_score b) (ac_score a) = true -> ac_bid_price_cents a <= ac_bid_price_cents b).
Proof.
  intros Ha Hb. rewrite rank_cmp_le by done. unfold fle, flt, SFleb, SFltb.
  pose proof (fcmp_antisym (ac_score a) (ac_score b)) as Hba. unfold fcmp in *. rewrite Hba.
  destruct (SFcompare (ac_score a) (ac_score b)) as [[]|]; simpl; intuition congruence.
Qed.

Lemma rank_cmp_trans a b c : is_nan (ac_score a) = false -> is_nan (ac_score b) = false -> is_nan (ac_score c) = false ->
  rank_cmp a b <> Gt -> rank_cmp b c <> Gt -> rank_cmp a c <> Gt.
Proof.
  intros Ha Hb Hc. rewrite !rank_cmp_fle by done. intros [H1 P1] [H2 P2].
  split; [by eapply fle_trans|]. intros H3.
  pose proof (P1 (fle_trans _ _ _ H2 H3)). pose proof (P2 (fle_trans _ _ _ H3 H1)). lia.
Qed.

Lemma max_by_rank l c : Forall (fun c => is_nan (ac_score c) = false) l -> max_by rank_cmp l = Some c ->
  forall x, x ∈ l -> rank_cmp x c <> Gt.
Proof.
  apply max_by_upper; eauto using rank_cmp_refl, rank_cmp_antisym, rank_cmp_trans.
Qed.

Lemma some_winner_iff {Value} (req : BidRequest Value) cs :
  omap (winner_of req) (imap pair cs) <> [] <-> exists l, l ∈ cs /\ l <> [].
Proof.
  split.
  - intros Hw. destruct (omap _ _) as [|iw ws] eqn:E; [done|].
    assert (iw ∈ omap (winner_of req) (imap pair cs)) as Hin by (rewrite E; left).
    apply list_elem_of_omap in Hin as ([idx l] & Hl & Hiw). exists l. split.
    + rewrite <- (imap_pair_snd cs). apply list_elem_of_fmap. by exists (idx, l).
    + intros ->. done.
  - intros (l & Hl & Hne) Hw. apply list_elem_of_lookup in Hl as [idx Hl].
    destruct (max_by rank_cmp l) as [c|] eqn:E; [|by apply max_by_None in E].
    assert (is_Some (winner_of req (idx, l))) as [iw Hiw] by (unfold winner_of; simpl; rewrite E; eauto).
    apply (not_elem_of_nil (A := ImpWinner) iw). rewrite <- Hw. apply list_elem_of_omap. exists (idx, l). split; [|done].
    apply list_elem_of_lookup. exists idx. by rewrite list_lookup_imap, Hl.
Qed.

(** ** Stages that only drop candidates *)

Section Shrinking.
Context {Value : Type} `{JsonValue Value} {B : Type} `{Bitmap B}.
Context {C : Type} `{KVCache C string (list SegmentId)} {G GE : Type} `{UserSegmentRepository G GE}.
Context {Sc : Type} `{ScorerLaws Sc} {F FE : Type} `{FrequencyCapper F FE} {P : Type} `{BudgetPacer P}.
Implicit Types (ctx : BidContext Value B) (w : World B C G Sc F P).

(** The candidate lists get smaller; nothing else the run depends on changes. *)
Record shrink_step ctx w ctx' w' : Prop := {
  step_candidates : Forall2 shrinks (candidates ctx) (candidates ctx');
  step_catalog : w_catalog w' = w_catalog w;
  step_pacer : w_pacer w' = w_pacer w;
  step_request : request ctx' = request ctx;
  step_segments : segment_ids ctx' = segment_ids ctx;
  step_snapshot : catalog ctx' = catalog ctx;
  step_outcome : outcome ctx' = outcome ctx;
  step_winners : winners ctx' = winners ctx;
  step_response : bid_response ctx' = bid_response ctx;
}.

Definition shrinking (st : Stage Value B C G Sc F P) : Prop :=
  forall ctx w, let '(r, ctx', w') := stage_execute st ctx w in r = Ok tt /\ shrink_step ctx w ctx' w'.

Lemma candidate_limit_shrinks heap_order top_k : (forall l, heap_order l ≡ₚ l) ->
  shrinking (candidate_limit heap_order top_k).
Proof.
  intros Hperm ctx w. split; [done|]. split; try done.
  apply Forall2_fmap_r, Forall_Forall2_diag, Forall_forall. intros l _. by apply shrinks_limit.
Qed.

Lemma scoring_shrinks (env : Env GE FE) : shrinking (scoring env).
Proof.
  intros ctx w. cbn [stage_execute scoring].
  pose proof (each_imp_Forall2 (fun s idx l => let '(l', s') := score_all s l (scoring_context env ctx idx) in (s', l'))
    shrinks (w_scorer w) (candidates ctx)) as Hs.
  destruct (each_imp _ _ _) as [s cs]. split; [done|]. split; try done. apply Hs; [done|].
  intros s' idx l. pose proof (score_all_unscored s' l (scoring_context env ctx idx)) as Hu.
  destruct (score_all _ _ _) as [l' s'']. simpl in *. unfold shrinks. by rewrite Hu.
Qed.

Lemma freq_cap_shrinks (env : Env GE FE) : shrinking (freq_cap env).
Proof.
  intros ctx w. cbn [stage_execute freq_cap]. destruct (ctx_user_id ctx) as [user|].
  2:{ split; [done|]. by split. }
  match goal with |- context [each_imp ?g (w_capper w, freq_cap_results ctx)] =>
    pose proof (each_imp_Forall2 g shrinks (w_capper w, freq_cap_results ctx) (candidates ctx)) as Hs end.
  destruct (each_imp _ _ _) as [[f log] cs]. split; [done|]. split; try done. apply Hs; [done|].
  intros [f' log'] idx l. destruct (fc_check _ _ _ _ _ _) as [[rs| | ] f'']; simpl; [apply shrinks_retain|done|done].
Qed.
End Shrinking.

(** ** The run as a whole *)

Section Run.
Context {Value : Type} `{JsonValue Value} {B : Type} `{BitmapLaws B}.
Context {C : Type} `{KVCache C string (list SegmentId)} {G GE : Type} `{UserSegmentRepository G GE}.
Context {Sc : Type} `{ScorerLaws Sc} {F FE : Type} `{FrequencyCapper F FE} {P : Type} `{BudgetPacerLaws P}.
Context {N : Type} `{NoticeUrlBuilder N}.
Context (heap_order : list AdCandidate -> list AdCandidate) (heap_order_perm : forall l, heap_order l ≡ₚ l).
Context (env : Env GE FE) (deadline_ms : Z) (top_k : nat) (builder : N) (exchange_id : string).
Context (req : BidRequest Value) (w0 : World B C G Sc F P).
Hypothesis w0_catalog_wf : catalog_wf (w_catalog w0).
Hypothesis w0_pacer_wf : pacer_wf (w_pacer w0).
Local Notation Ctx := (BidContext Value B).
Implicit Types (ctx : Ctx) (w : World B C G Sc F P).

(** The segments the enrichment stage attaches: those of the cache or the
    repository, none without a user or on an error. *)
Definition user_segments : list SegmentId :=
  match (u ← br_user req; user_id u) with
  | None => []
  | Some user =>
      match get_or_fetch (w_cache w0) user (w_repo w0) (fun g => segments_for g user (en_segments env)) with
      | (Ok ids, _, _) => ids
      | _ => []
      end
  end.

(** What holds when stage number [i] is about to start: candidates come from
    retrieval, nothing is reserved before pacing, the reservations are the
    candidates' between pacing and ranking and the winners' afterwards. *)
Record Inv (i : nat) ctx w : Prop := {
  inv_request : request ctx = req;
  inv_catalog : w_catalog w = w_catalog w0;
  inv_start : (i <= 1)%nat -> w = w0 /\ segment_ids ctx = [];
  inv_segments : (2 <= i)%nat -> segment_ids ctx = user_segments;
  inv_snapshot : (2 <= i)%nat -> catalog ctx = Some (w_catalog w0);
  inv_outcome : outcome ctx = if Nat.ltb i 8 then Pending else OutcomeBid;
  inv_empty : (i <= 2)%nat -> Forall (fun l => l = []) (candidates ctx);
  inv_retrieved : forall idx l, candidates ctx !! idx = Some l ->
    retrieved (w_catalog w0) req (segment_ids ctx) idx l;
  inv_granted : (7 <= i)%nat -> forall l c, l ∈ candidates ctx -> c ∈ l -> ~ broke (w_pacer w0) (ac_campaign_id c);
  inv_winners : winners ctx = if Nat.ltb i 8 then [] else omap (winner_of req) (imap pair (candidates ctx));
  inv_some_winner : (8 <= i)%nat -> winners ctx <> [];
  inv_response : bid_response ctx = if Nat.ltb i 9 then None else Some (bid_response_of builder exchange_id ctx);
  inv_pacer : deducted (fun id => if Nat.ltb i 7 then 0 else if Nat.ltb i 8 then held_all id (candidates ctx)
                                  else won id (winners ctx)) (w_pacer w0) (w_pacer w);
}.

(** How a run ends when a stage decides not to bid. *)
Definition Ended ctx w : Prop :=
  (exists reason, outcome ctx = NoBid reason /\ reason <> PIPELINE_DEADLINE) /\
  winners ctx = [] /\ bid_response ctx = None /\ deducted (fun _ => 0) (w_pacer w0) (w_pacer w).

Definition stage_ok (i : nat) (st : Stage Value B C G Sc F P) : Prop :=
  forall ctx w, Inv i ctx w ->
    let '(r, ctx', w') := stage_execute st ctx w in r = Ok tt /\ (Inv (S i) ctx' w' \/ Ended ctx' w').

Lemma inv_shrink i ctx ctx' w w' : (3 <= i <= 5)%nat -> Inv i ctx w -> shrink_step ctx w ctx' w' -> Inv (S i) ctx' w'.
Proof.
  intros Hi [] [Hs Hc Hp Hreq Hseg Hcat Hout Hwin Hresp].
  assert (Nat.ltb i 8 = true /\ Nat.ltb (S i) 8 = true /\ Nat.ltb i 9 = true /\ Nat.ltb (S i) 9 = true /\
          Nat.ltb i 7 = true /\ Nat.ltb (S i) 7 = true) as (E1 & E2 & E3 & E4 & E5 & E6)
    by (split_and!; apply Nat.ltb_lt; lia).
  rewrite E1, E3, ?E5 in *.
  split; rewrite ?E2, ?E4, ?E6, ?Hreq, ?Hseg, ?Hcat, ?Hout, ?Hwin, ?Hresp, ?Hc, ?Hp; intros; try done; try lia; auto with lia.
  destruct (Forall2_lookup_r _ _ _ _ _ Hs ltac:(eassumption)) as (l0 & Hl0 & Hsh).
  eapply retrieved_shrinks; eauto.
Qed.

Lemma inv_ended i ctx w reason : (i <= 6)%nat -> Inv i ctx w -> reason <> PIPELINE_DEADLINE ->
  Ended (set_outcome ctx (NoBid reason)) w.
Proof.
  intros Hi [] Hr. unfold Ended, set_outcome. simpl.
  rewrite inv_winners0, inv_response0, !(proj2 (Nat.ltb_lt _ _)) by lia.
  rewrite (proj2 (Nat.ltb_lt i 7)) in inv_pacer0 by lia. split_and!; eauto.
Qed.

Lemma request_validation_ok : stage_ok 0 request_validation.
Proof.
  intros ctx w Hi. cbn [stage_execute request_validation].
  repeat case_goal; (split; [done|]); [right; eapply inv_ended; [|exact Hi|]; [lia|done]..|].
  left. destruct Hi. split; intros; auto with lia.
Qed.

Lemma user_enrichment_ok : stage_ok 1 (user_enrichment env).
Proof.
  intros ctx w []. destruct (inv_start0 ltac:(lia)) as [-> Hs]. cbn [stage_execute user_enrichment].
  assert (forall idx l segs, candidates ctx !! idx = Some l -> retrieved (w_catalog w0) req segs idx l) as Hnil.
  { intros idx l segs Hl. left. specialize (inv_empty0 ltac:(lia)). rewrite Forall_lookup in inv_empty0. eauto. }
  unfold ctx_user_id. cbn [request set_catalog].
  assert (user_segments = match (u ← br_user (request ctx); user_id u) with
    | None => []
    | Some user => match (get_or_fetch (w_cache w0) user (w_repo w0) (fun g => segments_for g user (en_segments env))) with
                   | (Ok ids, _, _) => ids | _ => [] end end) as Hu by (unfold user_segments; by rewrite inv_request0).
  destruct (u ← br_user (request ctx); user_id u) as [user|]; [destruct (get_or_fetch _ _ _ _) as [[[ids|e] c] g]|];
    (split; [done|]); left; split; cbn; rewrite ?Hu; intros; auto with lia.
Qed.

Lemma candidate_retrieval_ok : stage_ok 2 candidate_retrieval.
Proof.
  intros ctx w []. cbn [stage_execute candidate_retrieval]. rewrite inv_snapshot0 by lia.
  case_goal; (split; [done|]); left; split; cbn; intros; auto with lia.
  match goal with Hl : foldl _ _ _ !! _ = _ |- _ => apply assign_lookup in Hl as [(imp & Himp & ->)|[Hl _]] end.
  - right. exists imp. rewrite <- inv_request0. done.
  - left. assert (Forall (fun l => l = []) (resize (length (br_imp (request ctx)) `max` 1) [] (candidates ctx))) as Hr
      by (apply Forall_resize; auto).
    rewrite Forall_lookup in Hr. eauto.
  - rewrite length_resize. lia.
Qed.

Lemma shrinking_ok i st : (3 <= i <= 5)%nat -> shrinking st -> stage_ok i st.
Proof.
  intros Hi Hst ctx w Hinv. specialize (Hst ctx w). destruct (stage_execute st ctx w) as [[r ctx'] w'].
  destruct Hst as [-> Hst]. split; [done|]. left. by eapply inv_shrink.
Qed.

Lemma held_all_empty id (cs : list (list AdCandidate)) :
  existsb (fun l => negb (bool_decide (l = []))) cs = false -> held_all id cs = 0.
Proof.
  unfold held_all. induction cs as [|l cs IH]; [done|]. cbn [existsb]. rewrite sum_by_cons.
  intros [Hl Hcs]%orb_false_iff. rewrite IH by done. destruct l; [done|]. by rewrite bool_decide_eq_false_2 in Hl.
Qed.

Lemma inv_ids i ctx w : Inv i ctx w -> Forall (fun l => NoDup (ac_campaign_id <$> l)) (candidates ctx).
Proof. intros []. apply Forall_lookup. intros idx l Hl. by eapply retrieved_ids, inv_retrieved0. Qed.

Lemma pace_shrinks (p : P) l : shrinks l (pace_imp p l).2.
Proof. unfold pace_imp. destruct (reserve_all p l) as [p' ex]. simpl. rewrite retain_granted_filter. apply shrinks_filter. Qed.

Lemma budget_pacing_ok : stage_ok 6 budget_pacing.
Proof.
  intros ctx w Hi. pose proof (inv_ids _ _ _ Hi) as Hn. destruct Hi. cbn [stage_execute budget_pacing].
  pose proof (pace_all_spec (w_pacer w) (candidates ctx) (proj1 inv_pacer0) Hn) as Hp.
  pose proof (each_imp_Forall2 (fun p _ l => pace_imp p l) shrinks (w_pacer w) (candidates ctx)
    ltac:(done) (fun p _ l => pace_shrinks p l)) as Hs.
  destruct (each_imp _ _ _) as [p cs]. destruct Hp as [Hd Hb]. split; [done|].
  assert (deducted (fun id => held_all id cs) (w_pacer w0) p) as Hdd by (by eapply deducted_trans).
  unfold paced. destruct (existsb _ cs) eqn:E; [left|right].
  - split; cbn; intros; try done; try lia; auto with lia.
    + destruct (Forall2_lookup_r _ _ _ _ _ Hs ltac:(eassumption)) as (l0 & Hl0 & Hsh).
      eapply retrieved_shrinks; eauto.
    + intros Hbr. eapply Hb; [eassumption..|]. intros c'. rewrite (deducted_none (w_pacer w0) (w_pacer w)) by done.
      apply Hbr.
  - unfold Ended. cbn. split_and!; [eexists; split; [reflexivity|done]|done|done|].
    split; [apply Hdd|]. intros id. rewrite (proj2 Hdd), held_all_empty by done. done.
Qed.

Lemma no_winner_held entries id : omap (winner_of req) entries = [] -> held_all id entries.*2 = 0.
Proof.
  induction entries as [|[idx l] entries IH]; [done|]. cbn [omap list_omap]. unfold winner_of at 1. cbn [fst snd].
  destruct (max_by rank_cmp l) eqn:E; [done|]. apply max_by_None in E as ->. intros Hn.
  rewrite fmap_cons. unfold held_all. rewrite sum_by_cons. by apply IH.
Qed.

Lemma ranking_ok : stage_ok 7 ranking.
Proof.
  intros ctx w Hi. pose proof (inv_ids _ _ _ Hi) as Hn. destruct Hi. cbn [stage_execute ranking].
  pose proof (rank_winners (request ctx) (w_pacer w) (winners ctx) (imap pair (candidates ctx))) as Hw.
  pose proof (rank_deducts (request ctx) (w_pacer w) (winners ctx) (imap pair (candidates ctx)) (proj1 inv_pacer0)) as Hd.
  rewrite imap_pair_snd in Hd. rewrite <- (imap_pair_snd (candidates ctx)), Forall_fmap in Hn. specialize (Hd Hn).
  destruct (foldl _ _ _) as [p ws]. simpl in Hw, Hd. rewrite inv_winners0, inv_request0 in Hw. simpl in Hw.
  rewrite inv_request0, <- Hw in Hd. split; [done|].
  assert (deducted (fun id => won id ws) (w_pacer w0) p) as Hdd
    by (eapply deducted_trans; [exact inv_pacer0|exact Hd|]; simpl; intros; lia).
  destruct ws as [|x ws]; [right|left].
  - unfold Ended. cbn. split_and!; [eexists; split; [reflexivity|done]|done|done|exact Hdd].
  - split; cbn; intros; try done; try lia; auto with lia. eapply inv_granted0; [lia|eassumption..].
Qed.

Lemma response_build_ok : stage_ok 8 (response_build builder exchange_id).
Proof.
  intros ctx w []. cbn [stage_execute response_build]. unfold responded. simpl in inv_outcome0. rewrite inv_outcome0. simpl.
  rewrite inv_outcome0. split; [done|]. left. split; cbn; intros; try done; try lia; auto with lia.
  eapply inv_granted0; [lia|eassumption..].
Qed.

(** The run stops at a stage boundary past the deadline. *)
Definition Dropped ctx w : Prop :=
  exists i ctx0, (i < 9)%nat /\ Inv i ctx0 w /\ ctx = set_outcome ctx0 (NoBid PIPELINE_DEADLINE) /\
    deadline_ms <= elapsed_ms ctx0 (en_clock env i).

Lemma run_stages_ok i stages ctx w : (i + length stages = 9)%nat ->
  (forall j st, stages !! j = Some st -> stage_ok (i + j) st) -> Inv i ctx w ->
  let '(r, ctx', w') := run_stages env deadline_ms i stages ctx w in
  r = Ok tt /\ (Inv 9 ctx' w' \/ Ended ctx' w' \/ Dropped ctx' w').
Proof.
  revert i ctx w; induction stages as [|st stages IH]; intros i ctx w Hlen Hst Hi; simpl in *.
  { split; [done|left]. by replace 9%nat with i by lia. }
  destruct (deadline_ms <=? elapsed_ms ctx (en_clock env i)) eqn:Ed.
  { split; [done|right; right]. exists i, ctx. split_and!; [lia|done|done|]. by zbool. }
  pose proof (Hst 0%nat st eq_refl ctx w ltac:(by rewrite Nat.add_0_r)) as Hs. rewrite Nat.add_0_r in Hs.
  destruct (stage_execute st ctx w) as [[r ctx1] w1]. destruct Hs as [-> [Hs|Hs]].
  - specialize (IH (S i) ctx1 w1 ltac:(lia)).
    assert (forall a, outcome ctx1 = NoBid a -> False) as Hnb.
    { intros a Ha. rewrite (inv_outcome _ _ _ Hs) in Ha. by destruct (Nat.ltb _ _). }
    destruct (outcome ctx1) eqn:Eo; [| by destruct (Hnb reason) |]; apply IH; try done;
      intros j st' Hj; rewrite Nat.add_succ_comm; by apply (Hst (S j)).
  - pose proof Hs as [(reason & Ho & _) _]. rewrite Ho. auto.
Qed.

Lemma inv_init now : Inv 0 (BidContext_new req now) w0.
Proof.
  split; cbn; intros; try done; try lia; auto using deducted_zero.
  - apply Forall_replicate. done.
  - left. match goal with Hl : replicate _ _ !! _ = Some _ |- _ => by apply lookup_replicate in Hl as [-> _] end.
Qed.

(** Every run of the assembled pipeline ends in one of three ways. *)
Lemma execute_ok now :
  let '(r, ctx, w) := execute env deadline_ms (bid_pipeline heap_order env top_k builder exchange_id)
                        (BidContext_new req now) w0 in
  r = Ok tt /\ (Inv 9 ctx w \/ Ended ctx w \/ Dropped ctx w).
Proof.
  pose proof (shrinking_ok 3 _ ltac:(lia) (candidate_limit_shrinks heap_order top_k heap_order_perm)) as Hlimit.
  pose proof (shrinking_ok 4 _ ltac:(lia) (scoring_shrinks env)) as Hscore.
  pose proof (shrinking_ok 5 _ ltac:(lia) (freq_cap_shrinks env)) as Hcap.
  apply run_stages_ok; [done| |apply inv_init]. intros j st Hj. unfold bid_pipeline in Hj.
  do 9 (destruct j as [|j]; [injection Hj as <-; eauto using request_validation_ok, user_enrichment_ok, candidate_retrieval_ok,
    budget_pacing_ok, ranking_ok, response_build_ok|]). done.
Qed.
End Run.

Lemma not_broke {P} `{BudgetPacerLaws P} (p : P) id : ~ broke p id -> exists c, remaining p id = Some c /\ 0 < c.
Proof.
  unfold broke. destruct (remaining p id) as [c|]; [|intros Hn; exfalso; by apply Hn].
  intros Hn. exists c. split; [done|]. destruct (decide (0 < c)); [done|]. exfalso. apply Hn. intros ? [= <-]. lia.
Qed.

(** The impressions that win, in request order. *)
Lemma winners_sublist {Value} (req : BidRequest Value) k cs :
  (forall i l, cs !! i = Some l -> l = [] \/ is_Some (br_imp req !! (k + i)%nat)) ->
  iw_imp_id <$> omap (winner_of req) (imap (fun i l => ((k + i)%nat, l)) cs) `sublist_of` drop k (imp_id <$> br_imp req).
Proof.
  revert k; induction cs as [|l cs IH]; intros k Hk; [apply sublist_nil_l|].
  cbn [imap]. rewrite (imap_ext _ (fun i l => ((S k + i)%nat, l))) by (intros; simpl; f_equal; lia).
  specialize (IH (S k)). cbn [omap list_omap]. unfold winner_of at 1. cbn [fst snd]. rewrite Nat.add_0_r.
  assert (forall i l, cs !! i = Some l -> l = [] \/ is_Some (br_imp req !! (S k + i)%nat)) as Hs.
  { intros i l' Hl. rewrite Nat.add_succ_comm. by apply (Hk (S i)). }
  specialize (IH Hs). destruct (Hk 0%nat l eq_refl) as [->|[imp Himp]].
  - simpl. etransitivity; [exact IH|]. replace (S k) with (1 + k)%nat by lia. rewrite Nat.add_comm, <- drop_drop. apply sublist_drop.
  - rewrite Nat.add_0_r in Himp. assert ((imp_id <$> br_imp req) !! k = Some (imp_id imp)) as Hd
      by (by rewrite list_lookup_fmap, Himp).
    rewrite (drop_S _ _ _ Hd). destruct (max_by rank_cmp l); simpl; rewrite ?Himp; by constructor.
Qed.
