(* ===== verification/PipelineProps.v ===== *)
(** * Properties of the bid pipeline

    What the stages of [Pipeline] guarantee together: which bids leave the
    bidder, what the pacer is charged, how a run ends, and what limiting, capping
    and ranking keep. *)
From S2P Require Import Prelude Floats OpenRtb Bitmap Catalog Model Externals Pacing Frequency Scoring Segments Pipeline PipelineInv.

(** ** A concrete bidder, for the examples below

    Three campaigns with a banner creative each, all targeting segment 10;
    campaign 3 has spent its budget.  The repository answers every user with
    segment 10 and the capper with a fixed outcome. *)
Module Sample.

Inductive Json := JStr (s : string) | JNum (f : f32) | JInt (z : Z) | JObj (members : list (string * Json)).
#[global] Instance json_value : JsonValue Json := {|
  json_get v k := match v with JObj l => snd <$> find_first (fun m => bool_decide (m.1 = k)) l | _ => None end;
  json_as_str v := match v with JStr s => Some s | _ => None end;
  json_object := JObj; json_f32 := JNum; json_u32 := JInt; json_str := JStr; json_to_string _ := ""%string |}.
#[global] Instance fixed_segments : UserSegmentRepository (list SegmentId) unit := {| segments_for s _ _ := (Ok s, s) |}.
#[global] Instance fixed_capper : FrequencyCapper unit FreqCapOutcome := {| fc_check _ _ _ _ _ out := (out, tt) |}.

Definition creative (id : Z) : Creative := {|
  cr_id := 70 + id; cr_campaign_id := id; cr_ad_format := AdFormat.Banner; cr_click_url := "https://example.org";
  cr_image_url := None; cr_width := None; cr_height := None |}.

Definition catalog : CampaignCatalog (gset Z) := {|
  campaigns := {[1 := sample_campaign 1; 2 := sample_campaign 2; 3 := sample_campaign 3]};
  creatives := {[1 := [creative 1]; 2 := [creative 2]; 3 := [creative 3]]};
  segment_to_campaigns := {[10 := {[1; 2; 3]}]}; geo_to_campaigns := ∅; device_to_campaigns := ∅;
  format_to_campaigns := {[AdFormat.Banner := {[1; 3]}]}; daypart_active_now := ∅;
  all_campaigns := {[1; 2; 3]}; device_unrestricted := {[1; 2; 3]}; format_unrestricted := {[2]} |}.

Lemma catalog_is_wf : catalog_wf catalog.
Proof.
  unfold catalog_wf, catalog; simpl.
  split_and!; try lazymatch goal with
    | |- map_Forall _ ∅ => apply map_Forall_empty
    | |- map_Forall _ _ => apply map_Forall_singleton
    end; vm_decide.
Defined.

Definition banner : Banner Json := Build_Banner [] (Some 300) (Some 250) None None None None [] [] None [] None [] [] None None None.
Definition imp : Imp Json :=
  Build_Imp "imp-1" (Some banner) None None None None None None 0 None None None 0 0 [] None None None None.
Definition user : User Json := Build_User (Some "u7"%string) None None None None None None [] None None.
Definition regs (gdpr : option Z) : Regs Json := Build_Regs None gdpr None None [] None.
Definition request (gdpr : option Z) : BidRequest Json :=
  Build_BidRequest "req-1" [imp] None None None None (Some user) None None [] [] None [] [] [] [] None (Some (regs gdpr)) 0 None.

Definition world : World (gset Z) (gmap string (list SegmentId)) (list SegmentId) FeatureWeightedScorer unit Local.LocalBudgetPacer := {|
  w_catalog := catalog; w_cache := ∅; w_repo := [10]; w_scorer := FeatureWeightedScorer_default; w_capper := tt;
  w_pacer := {| Local.counters := {[1 := 5000; 2 := 5000; 3 := 0]} |} |}.

Lemma world_pacer_wf : pacer_wf (w_pacer world).
Proof. unfold pacer_wf; simpl. unfold Local.wf. apply map_Forall_to_list. repeat constructor; vm_decide. Defined.

(** The clock is at [late] milliseconds from stage [from] on, at zero before. *)
Definition env (from : nat) (late : Z) : Env unit FreqCapOutcome := {|
  en_clock i := if Nat.leb from i then from_millis late else 0; en_secs := 1000000; en_segments := tt;
  en_cap _ := SkippedTimeout |}.

Definition run (e : Env unit FreqCapOutcome) (gdpr : option Z) :=
  execute e 100 (bid_pipeline (fun l => l) e 50 no_notice_url "openrtb-generic") (BidContext_new (request gdpr) 0) world.
Definition run_ctx e gdpr := (run e gdpr).1.2.
Definition run_world e gdpr := (run e gdpr).2.

Lemma run_eq e gdpr : run e gdpr = ((run e gdpr).1.1, run_ctx e gdpr, run_world e gdpr).
Proof. unfold run_ctx, run_world. by destruct (run e gdpr) as [[? ?] ?]. Qed.

Lemma order_id (l : list AdCandidate) : l ≡ₚ l.
Proof. done. Qed.
End Sample.

Section Properties.
Context {Value : Type} `{JsonValue Value} {B : Type} `{BitmapLaws B}.
Context {C : Type} `{KVCache C string (list SegmentId)} {G GE : Type} `{UserSegmentRepository G GE}.
Context {Sc : Type} `{ScorerLaws Sc} {F FE : Type} `{FrequencyCapper F FE} {P : Type} `{BudgetPacerLaws P}.
Context {N : Type} `{NoticeUrlBuilder N}.
Context (heap_order : list AdCandidate -> list AdCandidate) (heap_order_perm : forall l, heap_order l ≡ₚ l).
Context (env : Env GE FE) (deadline_ms : Z) (top_k : nat) (builder : N) (exchange_id : string).
Context (req : BidRequest Value) (now : Instant) (w0 : World B C G Sc F P).
Context (catalog_ok : catalog_wf (w_catalog w0)) (pacer_ok : pacer_wf (w_pacer w0)).
Implicit Types (r : Result unit string) (ctx : BidContext Value B) (w : World B C G Sc F P).
Local Notation bid := (bid_pipeline heap_order env top_k builder exchange_id).

Lemma run_ok r ctx w : execute env deadline_ms bid (BidContext_new req now) w0 = (r, ctx, w) ->
  r = Ok tt /\
  (Inv env builder exchange_id req w0 9 ctx w \/ Ended w0 ctx w \/ Dropped env deadline_ms builder exchange_id req w0 ctx w).
Proof.
  intros Hrun. pose proof (execute_ok heap_order heap_order_perm env deadline_ms top_k builder exchange_id req w0 pacer_ok now) as He.
  by rewrite Hrun in He.
Qed.

Lemma response_run r ctx w resp : execute env deadline_ms bid (BidContext_new req now) w0 = (r, ctx, w) -> bid_response ctx = Some resp ->
  Inv env builder exchange_id req w0 9 ctx w /\ resp = bid_response_of builder exchange_id ctx.
Proof.
  intros Hrun Hr. destruct (run_ok _ _ _ Hrun) as [_ [Hi|[(_ & _ & Hn & _)|(i & ctx0 & Hi & Hinv & -> & _)]]].
  - split; [done|]. destruct Hi. simpl in inv_response. congruence.
  - congruence.
  - destruct Hinv. simpl in Hr. rewrite inv_response in Hr. by rewrite (proj2 (Nat.ltb_lt i 9)) in Hr.
Qed.

(** Eligibility, end to end: every bid of every response the pipeline
    produces is for an impression of the request, from a known campaign that
    matches the request's targeting under the user's segments and had budget left
    when the request arrived, with a creative of that campaign in the
    impression's format, at the campaign's floor price.  Limiting, scoring,
    frequency capping, pacing and ranking cannot produce anything else, whatever
    the scorer and the capper answer. *)
Theorem bids_are_eligible r ctx w
    (Hrun : execute env deadline_ms bid (BidContext_new req now) w0 = (r, ctx, w))
    (resp : BidResponse Value) (sb : SeatBid Value) (b : Bid Value)
    (Hresp : bid_response ctx = Some resp) (Hsb : sb ∈ resp_seatbid resp) (Hb : b ∈ sb_bid sb) :
  exists imp cid crid price left, imp ∈ br_imp req /\
    bid_impid b = imp_id imp /\ bid_cid b = Some (pretty cid) /\ bid_crid b = Some (pretty crid) /\
    bid_price b = f64_div (f64_of_Z price) (f64_of_Z 100) /\
    serves (w_catalog w0) req (user_segments env req w0) imp cid crid price /\
    remaining (w_pacer w0) cid = Some left /\ 0 < left.
Proof.
  destruct (response_run _ _ _ resp Hrun Hresp) as [[] ->]. simpl in Hsb, inv_winners.
  apply list_elem_of_singleton in Hsb as ->. simpl in Hb. rewrite inv_winners in Hb.
  apply list_elem_of_fmap in Hb as (iw & -> & ([idx l] & Hl & Hw)%list_elem_of_omap).
  apply list_elem_of_lookup in Hl as [i Hl]. rewrite list_lookup_imap in Hl.
  destruct (candidates ctx !! i) as [l'|] eqn:El; simplify_eq/=.
  unfold winner_of in Hw. simpl in Hw. destruct (max_by rank_cmp l) as [c|] eqn:Em; simplify_eq/=.
  apply max_by_elem in Em. specialize (inv_retrieved idx l El).
  destruct (retrieved_serves _ _ _ _ _ _ catalog_ok inv_retrieved Em) as (imp & Himp & Hs).
  destruct (not_broke (w_pacer w0) (ac_campaign_id c)) as (left & Hleft & Hpos).
  { eapply inv_granted; [lia|by eapply list_elem_of_lookup_2|done]. }
  rewrite inv_segments in Hs by lia.
  exists imp, (ac_campaign_id c), (ac_creative_id c), (ac_bid_price_cents c), left. simpl.
  rewrite Himp. split_and!; try done. by eapply list_elem_of_lookup_2.
Qed.

(** [C3] How a run ends: never with an error, never undecided, and with a
    response exactly when the outcome is a bid; the response then answers the
    request it was built for in one seat with at least one bid, and at most one
    bid per impression, in the order of the impressions. *)
Theorem execute_answers r ctx w
    (Hrun : execute env deadline_ms bid (BidContext_new req now) w0 = (r, ctx, w)) :
  r = Ok tt /\ outcome ctx <> Pending /\ (is_Some (bid_response ctx) <-> outcome ctx = OutcomeBid) /\
  forall resp, bid_response ctx = Some resp ->
    resp_id resp = br_id req /\
    exists sb, resp_seatbid resp = [sb] /\ sb_bid sb <> [] /\
      bid_impid <$> sb_bid sb `sublist_of` imp_id <$> br_imp req.
Proof.
  destruct (run_ok _ _ _ Hrun) as [Hr Hend]. split; [done|]. split; [|split].
  - destruct Hend as [[]|[[(reason & -> & _) _]|(i & ctx0 & _ & _ & -> & _)]]; [simpl in inv_outcome; by rewrite inv_outcome|done|done].
  - destruct Hend as [[]|[[(reason & -> & _) (_ & -> & _)]|(i & ctx0 & Hi & [] & -> & _)]].
    + simpl in *. rewrite inv_outcome, inv_response. split; [done|eauto].
    + split; [intros [? [=]]|done].
    + simpl. rewrite inv_response, (proj2 (Nat.ltb_lt i 9)) by done. split; [intros [? [=]]|done].
  - intros resp Hresp. destruct (response_run _ _ _ resp Hrun Hresp) as [[] ->]. simpl. simpl in inv_winners. split; [congruence|].
    eexists. split; [reflexivity|]. simpl. split.
    + intros Hn%fmap_nil_inv. by apply inv_some_winner; [lia|].
    + rewrite <- list_fmap_compose. rewrite (list_fmap_ext _ iw_imp_id (winners ctx)) by done.
      rewrite inv_winners. apply (winners_sublist req 0).
      intros i l Hl. destruct (inv_retrieved i l Hl) as [->|(imp & Himp & _)]; [by left|right; eauto].
Qed.

(** [C2] The pacer pays for winners only: unless the deadline cut the run short,
    each campaign's remaining budget afterwards is what it was before, less the
    prices of the bids it won; candidates that were capped, exhausted or outranked
    cost nothing, and a request that ends without a bid leaves every budget
    untouched. *)
Theorem pacer_charged_for_winners r ctx w
    (Hrun : execute env deadline_ms bid (BidContext_new req now) w0 = (r, ctx, w))
    (id : Z) (Hdead : outcome ctx <> NoBid PIPELINE_DEADLINE) :
  remaining (w_pacer w) id = (fun c => as_i64 (c - won id (winners ctx))) <$> remaining (w_pacer w0) id.
Proof.
  destruct (run_ok _ _ _ Hrun) as [_ [[]|[(_ & -> & _ & [_ ->])|(i & ctx0 & _ & _ & -> & _)]]]; [apply inv_pacer|done|done].
Qed.

(** [C15] A run the deadline cuts short sends no response, and whatever was
    reserved by then stays deducted: nothing before pacing, every surviving
    candidate's price if the clock ran out between pacing and ranking, every
    winner's price if it ran out before the response was built. *)
Theorem deadline_keeps_reservations r ctx w
    (Hrun : execute env deadline_ms bid (BidContext_new req now) w0 = (r, ctx, w))
    (Hdead : outcome ctx = NoBid PIPELINE_DEADLINE) :
  bid_response ctx = None /\
  exists i, (i < 9)%nat /\ deadline_ms <= elapsed_ms ctx (en_clock env i) /\
    forall id, remaining (w_pacer w) id =
      (fun c => as_i64 (c - (if Nat.ltb i 7 then 0 else if Nat.ltb i 8 then held_all id (candidates ctx)
                             else won id (winners ctx)))) <$> remaining (w_pacer w0) id.
Proof.
  destruct (run_ok _ _ _ Hrun) as [_ [[]|[[(reason & Ho & Hne) _]|(i & ctx0 & Hi & [] & -> & Ht)]]].
  - simpl in inv_outcome. congruence.
  - congruence.
  - simpl. rewrite inv_response, (proj2 (Nat.ltb_lt i 9)) by done. split; [done|]. exists i.
    split_and!; [done|done|]. intros id. apply inv_pacer.
Qed.
End Properties.

Lemma bids_are_eligible_witness :
  let w := Sample.run_world (Sample.env 9 0) None in
  exists resp sb b imp cid crid price left,
    bid_response (Sample.run_ctx (Sample.env 9 0) None) = Some resp /\ sb ∈ resp_seatbid resp /\ b ∈ sb_bid sb /\
    bid_cid b = Some (pretty cid) /\ serves Sample.catalog (Sample.request None) [10] imp cid crid price /\
    remaining (w_pacer Sample.world) cid = Some left /\ 0 < left.
Proof.
  intros w.
  destruct (bid_response (Sample.run_ctx (Sample.env 9 0) None)) as [resp|] eqn:E; [|vm_compute in E; discriminate].
  assert (exists sb b, sb ∈ resp_seatbid resp /\ b ∈ sb_bid sb) as (sb & b & Hsb & Hb).
  { vm_compute in E. injection E as <-. eexists _, _. split; left. }
  destruct (bids_are_eligible (fun l => l) Sample.order_id (Sample.env 9 0) 100 50 no_notice_url "openrtb-generic"
    (Sample.request None) 0 Sample.world Sample.catalog_is_wf Sample.world_pacer_wf _ _ _ (Sample.run_eq _ None)
    resp sb b E Hsb Hb) as (imp & cid & crid & price & left & _ & _ & Hcid & _ & _ & Hs & Hleft & Hpos).
  exists resp, sb, b, imp, cid, crid, price, left. split_and!; done.
Defined.

Lemma execute_answers_witness :
  outcome (Sample.run_ctx (Sample.env 9 0) None) = OutcomeBid /\
  is_Some (bid_response (Sample.run_ctx (Sample.env 9 0) None)).
Proof.
  destruct (execute_answers (fun l => l) Sample.order_id (Sample.env 9 0) 100 50 no_notice_url "openrtb-generic"
    (Sample.request None) 0 Sample.world Sample.world_pacer_wf _ _ _ (Sample.run_eq _ None)) as (_ & _ & Hiff & _).
  assert (outcome (Sample.run_ctx (Sample.env 9 0) None) = OutcomeBid) as Ho by (vm_compute; reflexivity).
  split; [done|]. by apply Hiff.
Defined.

(** Campaign 2 wins at 200 cents; campaign 1 gets its reservation back. *)
Lemma pacer_charged_for_winners_witness :
  remaining (w_pacer (Sample.run_world (Sample.env 9 0) None)) 2 = Some 4800 /\
  remaining (w_pacer (Sample.run_world (Sample.env 9 0) None)) 1 = Some 5000.
Proof.
  split; (erewrite (pacer_charged_for_winners (fun l => l) Sample.order_id (Sample.env 9 0) 100 50 no_notice_url "openrtb-generic"
    (Sample.request None) 0 Sample.world Sample.world_pacer_wf _ _ _ (Sample.run_eq _ None));
    [vm_compute; reflexivity|vm_compute; discriminate]).
Defined.

(** The clock runs out before ranking: both reservations stay. *)
Lemma deadline_keeps_reservations_witness :
  bid_response (Sample.run_ctx (Sample.env 7 150) None) = None /\
  remaining (w_pacer (Sample.run_world (Sample.env 7 150) None)) 1 = Some 4900 /\
  remaining (w_pacer (Sample.run_world (Sample.env 7 150) None)) 2 = Some 4800.
Proof.
  destruct (deadline_keeps_reservations (fun l => l) Sample.order_id (Sample.env 7 150) 100 50 no_notice_url "openrtb-generic"
    (Sample.request None) 0 Sample.world Sample.world_pacer_wf _ _ _ (Sample.run_eq _ None)) as [Hr _];
    [vm_compute; reflexivity|].
  split; [exact Hr|]. split; vm_compute; reflexivity.
Defined.

(** [C18] Candidate limit: per impression the stage keeps all candidates when
    there are at most [top_k], and otherwise exactly [top_k] of them, such that no
    dropped candidate bids more than a kept one, and among equal prices none with a
    lower campaign id than a kept one is dropped. *)
Theorem limit_keeps_top_k (heap_order : list AdCandidate -> list AdCandidate) (top_k : nat) (l : list AdCandidate)
    (Hperm : forall l, heap_order l ≡ₚ l) :
  exists dropped, let kept := limit_candidates heap_order top_k l in
    l ≡ₚ kept ++ dropped /\ length kept = Nat.min top_k (length l) /\
    ((length l <= top_k)%nat -> kept = l) /\
    forall d k, d ∈ dropped -> k ∈ kept ->
      ac_bid_price_cents d < ac_bid_price_cents k \/
      (ac_bid_price_cents d = ac_bid_price_cents k /\ ac_campaign_id k <= ac_campaign_id d).
Proof.
  destruct (limit_keeps_best heap_order top_k l Hperm) as (dropped & Hp & Hlen & Hle). exists dropped.
  split_and!; [done|done| |].
  - intros Hl. unfold limit_candidates. by rewrite (proj2 (Nat.leb_le _ _) Hl).
  - intros d k Hd Hk. by apply heap_cmp_le, Hle.
Qed.

(** Two candidates of equal price: the lower id stays. *)
Lemma limit_keeps_top_k_witness :
  let l := [sample_ad 4 100; sample_ad 3 100; sample_ad 2 50] in
  limit_candidates (fun l => l) 1 l = [sample_ad 3 100] /\
  exists dropped, l ≡ₚ limit_candidates (fun l => l) 1 l ++ dropped.
Proof.
  intros l. destruct (limit_keeps_top_k (fun l => l) 1 l ltac:(done)) as (dropped & Hp & _).
  split; [vm_compute; reflexivity|by exists dropped].
Defined.

(** [C17] Ranking: an impression has one winner, one of its candidates, as soon as it
    has a candidate, the winners come in the order of the impressions, and the
    stage decides to bid exactly when some impression has a candidate; and for an
    impression whose scores are all numbers no candidate has a higher score than
    the winner, nor an equal score and a higher price.  (With a NaN among them the
    comparison is no order, and the winner may be any of them.) *)
Theorem ranking_picks_best {Value B C G Sc F P} `{BudgetPacer P} (ctx : BidContext Value B) (w : World B C G Sc F P)
    (Hfresh : winners ctx = []) :
  let '(r, ctx', w') := stage_execute ranking ctx w in
  r = Ok tt /\ winners ctx' = omap (winner_of (request ctx)) (imap pair (candidates ctx)) /\
  (outcome ctx' = OutcomeBid <-> exists l, l ∈ candidates ctx /\ l <> []) /\
  forall idx l, candidates ctx !! idx = Some l ->
    (winner_of (request ctx) (idx, l) = None <-> l = []) /\
    forall iw, winner_of (request ctx) (idx, l) = Some iw ->
    exists c, c ∈ l /\ iw_campaign_id iw = ac_campaign_id c /\ iw_creative_id iw = ac_creative_id c /\
      iw_bid_price_cents iw = ac_bid_price_cents c /\ iw_score iw = ac_score c /\
      (Forall (fun c => is_nan (ac_score c) = false) l ->
       forall x, x ∈ l -> flt (ac_score x) (ac_score c) = true \/
         (fcmp (ac_score x) (ac_score c) = Some Eq /\ ac_bid_price_cents x <= ac_bid_price_cents c)).
Proof.
  cbn [stage_execute ranking].
  pose proof (rank_winners (request ctx) (w_pacer w) (winners ctx) (imap pair (candidates ctx))) as Hw.
  destruct (foldl _ _ _) as [p ws]. simpl in Hw. rewrite Hfresh in Hw. simpl in Hw. subst ws.
  split_and!; [done|done| |].
  - rewrite <- (some_winner_iff (request ctx)). cbn. destruct (omap _ _); split; done.
  - intros idx l Hl. unfold winner_of. cbn [fst snd]. destruct (max_by rank_cmp l) as [c|] eqn:Em; split.
    + split; [done|]. intros ->. done.
    + intros iw [= <-]. exists c. cbn. pose proof (max_by_elem _ _ _ Em) as Hc. split_and!; try done. intros Hnum x Hx.
      pose proof Hnum as Hall. rewrite Forall_forall in Hall. apply rank_cmp_le; auto. by apply (max_by_rank l).
    + split; [|done]. intros _. by apply max_by_None in Em.
    + done.
Qed.

(** A NaN between them hides the best score from the least. *)
Lemma nan_hides_the_best :
  let scored id score := with_score (sample_ad id 100) score in
  ac_campaign_id <$> max_by rank_cmp [scored 1 (f32_lit 9 10); scored 2 S754_nan; scored 3 (f32_lit 1 10)] = Some 3.
Proof. vm_compute. reflexivity. Qed.

(** Equal scores: the higher price wins. *)
Lemma ranking_picks_best_witness :
  let scored id price := with_score (sample_ad id price) (f32_lit 1 2) in
  let ctx := set_candidates (BidContext_new (B := gset Z) (Sample.request None) 0) [[scored 1 200; scored 2 300; sample_ad 3 900]] in
  iw_campaign_id <$> winners (stage_execute ranking ctx Sample.world).1.2 = [2].
Proof.
  intros scored ctx. pose proof (ranking_picks_best ctx Sample.world eq_refl) as Hr.
  destruct (stage_execute ranking ctx Sample.world) as [[r ctx'] w'].
  destruct Hr as (_ & Hw & _). simpl. rewrite Hw. vm_compute. reflexivity.
Defined.

Lemma has_consent_empty {Value} `{JsonValue Value} (req : BidRequest Value) :
  (forall u e v s, br_user req = Some u -> user_ext u = Some e -> json_get e "consent" = Some v ->
     json_as_str v = Some s -> s = ""%string) -> has_consent req = false.
Proof.
  unfold has_consent. intros Hc. destruct (br_user req) as [u|] eqn:Eu; [|done]. simpl.
  destruct (user_ext u) as [e|] eqn:Ee; [|done]. simpl. destruct (json_get e "consent") as [v|] eqn:Ev; [|done]. simpl.
  destruct (json_as_str v) as [str|] eqn:Es; [|done]. by rewrite (Hc u e v str).
Qed.

(** [C19] Privacy gate: a request under GDPR without a consent string is answered
    with the privacy no-bid before anything about its user is looked up: the
    segment cache, the repository, the scorer, the capper and the pacer are as
    before, and no candidate was retrieved. *)
Theorem gdpr_without_consent_blocked {Value B C G GE Sc F FE P N} `{JsonValue Value} `{Bitmap B}
    `{KVCache C string (list SegmentId)} `{UserSegmentRepository G GE} `{Scorer Sc} `{FrequencyCapper F FE}
    `{BudgetPacer P} `{NoticeUrlBuilder N} (heap_order : list AdCandidate -> list AdCandidate)
    (env : Env GE FE) (deadline_ms : Z) (top_k : nat) (builder : N) (exchange_id : string)
    (req : BidRequest Value) (regs : Regs Value) (now : Instant) (w0 : World B C G Sc F P)
    (Hid : br_id req <> ""%string) (Himp : br_imp req <> [])
    (Htime : elapsed_ms (B := B) (BidContext_new req now) (en_clock env 0) < deadline_ms)
    (Hregs : br_regs req = Some regs) (Hgdpr : regs_gdpr regs = Some 1)
    (Hconsent : forall u e v s, br_user req = Some u -> user_ext u = Some e -> json_get e "consent" = Some v ->
                  json_as_str v = Some s -> s = ""%string) :
  execute env deadline_ms (bid_pipeline heap_order env top_k builder exchange_id) (BidContext_new req now) w0 =
  (Ok tt, set_outcome (BidContext_new req now) (NoBid REQUEST_BLOCKED_PRIVACY), w0).
Proof.
  unfold execute, bid_pipeline. cbn [run_stages]. replace (deadline_ms <=? _) with false by lia.
  cbn [stage_execute request_validation request BidContext_new].
  rewrite (bool_decide_eq_false_2 (br_id req = "")) by done.
  rewrite (bool_decide_eq_false_2 (length (br_imp req) = 0%nat)) by (intros E; by apply Himp, nil_length_inv).
  assert (gdpr_applies req = true) as -> by (unfold gdpr_applies; rewrite Hregs; by apply bool_decide_eq_true).
  by rewrite (has_consent_empty req Hconsent).
Qed.

Lemma gdpr_without_consent_blocked_witness :
  Sample.run (Sample.env 9 0) (Some 1) =
  (Ok tt, set_outcome (BidContext_new (Sample.request (Some 1)) 0) (NoBid REQUEST_BLOCKED_PRIVACY), Sample.world).
Proof. apply (gdpr_without_consent_blocked _ _ _ _ _ _ _ (Sample.regs (Some 1))); try done. intros ? ? ? ? [= <-]. done. Defined.

Section FreqCap.
Context {Value B C G GE Sc F FE P : Type} `{FrequencyCapper F FE}.

(** What one impression keeps of [l] under the capper's answer. *)
Definition kept_by (out : FreqCapOutcome) (l l' : list AdCandidate) : Prop :=
  match out with
  | Checked rs => l' `sublist_of` l /\
      forall c, c ∈ l' <-> c ∈ l /\ forall r, r ∈ rs -> cp_campaign_id r = ac_campaign_id c -> cp_capped r = false
  | _ => l' = l
  end.

Lemma kept_by_retain rs l : kept_by (Checked rs) l (retain_uncapped rs l).
Proof.
  split; [apply sublist_filter|]. intros c. unfold retain_uncapped.
  rewrite list_elem_of_filter, elem_of_list_to_set, list_elem_of_fmap. split; intros [H1 H2]; (split; [try done|try done]).
  - intros r Hr Hid. destruct (cp_capped r) eqn:E; [|done]. destruct H1. exists r.
    split; [done|]. by apply list_elem_of_filter.
  - intros (r & Hid & [Hc Hr]%list_elem_of_filter). specialize (H2 r Hr (eq_sym Hid)). congruence.
Qed.

(** The verdicts of one answer, as they are recorded for observability. *)
Definition verdicts_of (idx : nat) (out : FreqCapOutcome) : list (nat * Z * bool) :=
  match out with Checked rs => (fun r => (idx, cp_campaign_id r, cp_capped r)) <$> rs | _ => [] end.

Section Pass.
Context (user : string) (dt hour : Z) (cap : nat -> FE).

(** One pass over the impressions from number [idx] on, taking the capper from one
    state to another: an impression without candidates asks nothing, any other
    asks once about its own candidates, in the state the checks before left. *)
Inductive capping : nat -> F -> list (list AdCandidate) -> F -> list (nat * Z * bool) -> list (list AdCandidate) -> Prop :=
| capping_end idx f : capping idx f [] f [] []
| capping_empty idx f cs f' log out :
    capping (S idx) f cs f' log out -> capping idx f ([] :: cs) f' log ([] :: out)
| capping_ask idx f l answer f1 l' cs f' log out :
    l <> [] -> fc_check f user l dt hour (cap idx) = (answer, f1) -> kept_by answer l l' ->
    capping (S idx) f1 cs f' log out -> capping idx f (l :: cs) f' (verdicts_of idx answer ++ log) (l' :: out).

(** The body of the stage's loop. *)
Definition cap_imp (st : F * list (nat * Z * bool)) (entry : nat * list AdCandidate)
  : (F * list (nat * Z * bool)) * list AdCandidate :=
  let '(idx, l) := entry in
  match l with
  | [] => (st, l)
  | _ => (let '(f, log) := st in fun idx l =>
            let '(out, f') := fc_check f user l dt hour (cap idx) in
            match out with
            | Checked results => ((f', log ++ ((fun r => (idx, cp_campaign_id r, cp_capped r)) <$> results)), retain_uncapped results l)
            | _ => ((f', log), l)
            end) idx l
  end.

Lemma cap_imp_capping cs idx f log :
  let '((f', log'), out) := fold_map cap_imp (f, log) (imap (fun i l => ((idx + i)%nat, l)) cs) in
  exists new, log' = log ++ new /\ capping idx f cs f' new out.
Proof.
  revert idx f log; induction cs as [|l cs IH]; intros idx f log; [exists []; rewrite app_nil_r; by split; [|constructor]|].
  cbn [imap fold_map]. rewrite Nat.add_0_r.
  replace (imap _ cs) with (imap (fun i l => ((S idx + i)%nat, l)) cs) by (apply imap_ext; intros; cbn; f_equal; lia).
  destruct l as [|c l]; cbn [cap_imp].
  { specialize (IH (S idx) f log). destruct (fold_map _ _ _) as [[f' log'] out]. destruct IH as (new & -> & Hc).
    exists new. split; [done|]. by constructor. }
  destruct (fc_check f user (c :: l) dt hour (cap idx)) as [answer f1] eqn:E. destruct answer as [rs| |];
    match goal with |- context [fold_map _ (f1, ?log1) _] => specialize (IH (S idx) f1 log1) end;
    destruct (fold_map _ _ _) as [[f' log'] out]; destruct IH as (new & -> & Hc).
  - rewrite <- app_assoc. eexists. split; [done|]. eapply (capping_ask idx f (c :: l) (Checked rs)); [done|exact E|apply kept_by_retain|done].
  - eexists. split; [done|]. by eapply (capping_ask idx f (c :: l) SkippedTimeout).
  - eexists. split; [done|]. by eapply (capping_ask idx f (c :: l) SkippedNoUser).
Qed.
End Pass.

(** [C16] The frequency-cap stage: a request without a user passes unchecked.
    Otherwise it makes one pass over the impressions, in order, that ends in the
    capper's final state: an empty impression is left alone without a check; for
    any other the capper is asked exactly once, about exactly the impression's
    candidates, in the state the earlier checks left it in, and the stage drops
    precisely the candidates reported capped, or none when the check was skipped,
    keeping the order.  The verdicts are recorded in that order and nothing else
    of the context or the world changes. *)
Theorem freq_cap_drops_capped (env : Env GE FE) (ctx : BidContext Value B) (w : World B C G Sc F P) :
  let dt := match ctx_devicetype ctx with Some d => device_type d | None => 0 end in
  let hour := current_hour_of_day (en_secs env) in
  stage_execute (freq_cap env) ctx w =
    match ctx_user_id ctx with
    | None => (Ok tt, ctx, w)
    | Some _ => let '(_, ctx', w') := stage_execute (freq_cap env) ctx w in
        (Ok tt, set_freq_cap_results (set_candidates ctx (candidates ctx')) (freq_cap_results ctx'), set_capper w (w_capper w'))
    end /\
  forall user, ctx_user_id ctx = Some user -> exists log,
    let '(_, ctx', w') := stage_execute (freq_cap env) ctx w in
    freq_cap_results ctx' = freq_cap_results ctx ++ log /\
    capping user dt hour (en_cap env) 0 (w_capper w) (candidates ctx) (w_capper w') log (candidates ctx').
Proof.
  intros dt hour. cbn [stage_execute freq_cap]. destruct (ctx_user_id ctx) as [user|]; [|done].
  pose proof (cap_imp_capping user dt hour (en_cap env) (candidates ctx) 0 (w_capper w) (freq_cap_results ctx)) as Hc.
  unfold each_imp.
  match goal with |- context [fold_map ?g ?st ?es] => change (fold_map g st es) with (fold_map (cap_imp user dt hour (en_cap env)) st es) end.
  change (imap (fun i l => ((0 + i)%nat, l)) (candidates ctx)) with (imap pair (candidates ctx)) in Hc.
  destruct (fold_map _ _ _) as [[f log] cs]. destruct Hc as (new & -> & Hc). split; [done|].
  intros ? [= <-]. by exists new.
Qed.
End FreqCap.

(** The first impression has no candidates; of the second campaign 1 is capped,
    campaign 2 is not. *)
Lemma freq_cap_drops_capped_witness :
  let verdict id capped := {| cp_campaign_id := id; cp_capped := capped; cp_day_count := None; cp_hour_count := None |} in
  let env := {| en_clock _ := 0; en_secs := 0; en_segments := tt; en_cap _ := Checked [verdict 1 true; verdict 2 false] |} in
  let ctx := set_candidates (BidContext_new (B := gset Z) (Sample.request None) 0) [[]; [sample_ad 1 200; sample_ad 2 300]] in
  let '(_, ctx', _) := stage_execute (freq_cap env) ctx Sample.world in
  candidates ctx' = [[]; [sample_ad 2 300]] /\ freq_cap_results ctx' = [(1%nat, 1, true); (1%nat, 2, false)].
Proof.
  intros verdict env ctx.
  destruct (freq_cap_drops_capped env ctx Sample.world) as [_ Hf]. destruct (Hf "u7"%string eq_refl) as [log Hlog].
  assert (candidates (stage_execute (freq_cap env) ctx Sample.world).1.2 = [[]; [sample_ad 2 300]]) as Hc by (vm_compute; reflexivity).
  destruct (stage_execute (freq_cap env) ctx Sample.world) as [[r ctx'] w']. destruct Hlog as [Hl Hpass].
  split; [exact Hc|]. rewrite Hl. cbn [candidates ctx set_candidates] in Hpass.
  inversion Hpass as [|? ? ? ? ? ? Hrest|]; simplify_eq. inversion Hrest as [| |? ? ? ? ? ? ? ? ? ? _ Hask _ Hend]; simplify_eq.
  inversion Hend; simplify_eq. injection Hask as <- _. reflexivity.
Defined.
