(* ===== verification/WinNotice.v ===== *)
(** * Win notices

    [bidder-server/src/win_notice.rs], the [win] handler of
    [server/handlers.rs]: signing the
    notice URL of a bid, verifying a notice, dropping repeated notices, and the
    side effects of an accepted one.  HMAC-SHA256, the hex codec and Redis'
    [SET NX EX] are library code: classes with laws.  A [&str] is the string of
    its UTF-8 bytes. *)
From S2P Require Import Prelude Config OpenRtb Externals Model Frequency Events.

(** ** Library interfaces *)

(** [Hmac::<Sha256>::new_from_slice(secret)], [update], [finalize]. *)
Class Hmac (M : Type) := { hmac_sha256 : M -> string -> string -> option (list Z) }.

(** The documentation of [new_from_slice]: a key of any length is accepted.  The
    digest is a non-empty sequence of bytes. *)
Class HmacLaws (M : Type) `{Hmac M} := {
  hmac_any_key m secret message : is_Some (hmac_sha256 m secret message);
  hmac_output m secret message mac : hmac_sha256 m secret message = Some mac -> mac <> [] /\ Forall in_u8 mac;
}.

(** [hex::encode], [hex::decode]. *)
Class Hex (X : Type) := {
  hex_encode : X -> list Z -> string;
  hex_decode : X -> string -> option (list Z);
}.
Class HexLaws (X : Type) `{Hex X} := {
  hex_roundtrip x bytes : Forall in_u8 bytes -> hex_decode x (hex_encode x bytes) = Some bytes;
  hex_empty x bytes : hex_encode x bytes = ""%string -> bytes = [];
}.

(** [SET key 1 EX ttl NX]: the answer, and the store after it; [nx_live] tells
    whether a key exists at a time. *)
Class DedupStore (D : Type) := { set_nx : D -> string -> Z -> Instant -> bool * D }.
Class DedupLaws (D : Type) `{DedupStore D} := {
  nx_live : D -> Instant -> string -> bool;
  nx_answer d k ttl now : (set_nx d k ttl now).1 = negb (nx_live d now k);
  nx_after d k ttl now t k' : nx_live (set_nx d k ttl now).2 t k' =
    if decide (k = k') then (if nx_live d now k then nx_live d t k' else t <? now + from_secs ttl) else nx_live d t k';
}.

#[global] Instance map_dedup : DedupStore (gmap string Instant) := {|
  set_nx d k ttl now :=
    if match d !! k with Some e => now <? e | None => false end
    then (false, d) else (true, <[k := now + from_secs ttl]> d) |}.
#[global] Instance map_dedup_laws : DedupLaws (gmap string Instant).
Proof.
  refine {| nx_live d t k := match d !! k with Some e => t <? e | None => false end |}; simpl.
  - intros d k ttl now. by destruct (d !! k) as [e|]; [destruct (now <? e)|].
  - intros d k ttl now t k'. destruct (match d !! k with Some e => now <? e | None => false end) eqn:E; simpl.
    + destruct (decide (k = k')) as [<-|Hk]; [done|done].
    + destruct (decide (k = k')) as [<-|Hk]; [by rewrite lookup_insert_eq|by rewrite lookup_insert_ne].
Defined.

(** ** [percent_encode] *)

Definition code (c : Ascii.ascii) : nat := Ascii.nat_of_ascii c.

Definition is_safe (c : Ascii.ascii) : bool :=
  let n := code c in
  (Nat.leb 65 n && Nat.leb n 90) || (Nat.leb 97 n && Nat.leb n 122) || (Nat.leb 48 n && Nat.leb n 57) ||
  Nat.eqb n 45 || Nat.eqb n 95 || Nat.eqb n 46 || Nat.eqb n 126.

(** One digit of [{:02X}]. *)
Definition hex_digit (n : nat) : Ascii.ascii := Ascii.ascii_of_nat (if Nat.ltb n 10 then 48 + n else 55 + n).

Definition percent : Ascii.ascii := Ascii.ascii_of_nat 37.

Fixpoint percent_encode (s : string) : string :=
  match s with
  | EmptyString => EmptyString
  | String c s =>
      if is_safe c then String c (percent_encode s)
      else String percent (String (hex_digit (code c / 16)) (String (hex_digit (code c mod 16)) (percent_encode s)))
  end.

(** ** [WinNoticeGateService] *)

Inductive WinNoticeGate := Accept | AuthFailed | Duplicate | DedupUnavailable.
#[global] Instance WinNoticeGate_eq_dec : EqDecision WinNoticeGate.
Proof. solve_decision. Defined.

Definition DEDUP_REDIS_TIMEOUT : Duration := from_millis 50.

Record WinNoticeGateService := {
  wg_cfg : WinNoticeConfig;
  wg_secret : option string;
  wg_secrets : gmap string string;
}.

Definition WinNoticeGateService_new (cfg : WinNoticeConfig) : WinNoticeGateService := {|
  wg_cfg := cfg;
  wg_secret := if require_auth cfg && negb (bool_decide (cfg_secret cfg = ""%string)) then Some (cfg_secret cfg) else None;
  wg_secrets := filter (fun kv => kv.2 <> ""%string) (cfg_secrets cfg);
|}.

Definition secret_for (self : WinNoticeGateService) (exchange_id : string) : option string :=
  if negb (bool_decide (exchange_id = ""%string)) then
    match wg_secrets self !! exchange_id with Some s => Some s | None => wg_secret self end
  else wg_secret self.

Definition signing_message (request_id imp_id : string) (campaign_id creative_id : Z) : string :=
  request_id +:+ "|" +:+ imp_id +:+ "|" +:+ pretty campaign_id +:+ "|" +:+ pretty creative_id.

Section Gate.
Context {M : Type} `{Hmac M} {X : Type} `{Hex X} {D : Type} `{DedupStore D} (m : M) (x : X).

Definition sign (self : WinNoticeGateService) (message exchange_id : string) : option string :=
  secret ← secret_for self exchange_id;
  mac ← hmac_sha256 m secret message;
  Some (hex_encode x mac).

Definition verify_token (self : WinNoticeGateService) (message : string) (presented_hex : option string)
    (exchange_id : string) : bool :=
  match secret_for self exchange_id with
  | None => true
  | Some secret =>
      match presented_hex with
      | None => false
      | Some h =>
          if bool_decide (h = ""%string) then false
          else match hex_decode x h with
               | None => false
               | Some presented =>
                   match hmac_sha256 m secret message with
                   | None => false
                   | Some expected => bool_decide (expected = presented)
                   end
               end
      end
  end.

(** What became of the [SET]: answered after [latency], or an error; a call that
    errors or times out may still have been executed by Redis. *)
Inductive SetFate := Answered (latency : Duration) | Errored (executed : bool).

Definition dedup_key (request_id imp_id : string) : string := "v1:winx:" +:+ request_id +:+ ":" +:+ imp_id.

(** A notice as it reaches the gate. *)
Record WinParams := {
  wp_request_id : string;
  wp_imp_id : string;
  wp_campaign_id : Z;
  wp_creative_id : Z;
  wp_clearing_price_micros : Z;
  wp_user_id : option string;
  wp_token : option string;
  wp_exchange_id : option string;
}.

Definition check (self : WinNoticeGateService) (d : D) (request_id imp_id : string) (campaign_id creative_id : Z)
    (token : option string) (exchange_id : string) (now : Instant) (fate : SetFate) : WinNoticeGate * D :=
  let message := signing_message request_id imp_id campaign_id creative_id in
  if negb (verify_token self message token exchange_id) then (AuthFailed, d)
  else
    let key := dedup_key request_id imp_id in
    let ttl := as_i64 (Z.max 1 (dedup_ttl_secs (wg_cfg self))) in
    let '(fresh, d') := set_nx d key ttl now in
    match fate with
    | Answered latency =>
        if latency <? DEDUP_REDIS_TIMEOUT
        then ((if fresh then Accept else Duplicate), d')
        else (DedupUnavailable, d')
    | Errored executed => (DedupUnavailable, if executed then d' else d)
    end.

(** [NoticeUrlBuilder::build] *)
Definition build (self : WinNoticeGateService) (req : WinNoticeRequest) : option string :=
  let cfg := wg_cfg self in
  if bool_decide (notice_base_url cfg = ""%string) then None
  else
    let message := signing_message (wn_request_id req) (wn_imp_id req) (wn_campaign_id req) (wn_creative_id req) in
    let token_param := match sign self message (wn_exchange_id req) with Some t => "&token=" +:+ t | None => "" end in
    let exchange_param := if bool_decide (wn_exchange_id req = ""%string) then ""%string
                          else "&exchange_id=" +:+ percent_encode (wn_exchange_id req) in
    Some (notice_base_url cfg +:+ "?request_id=" +:+ percent_encode (wn_request_id req)
      +:+ "&imp_id=" +:+ percent_encode (wn_imp_id req)
      +:+ "&campaign_id=" +:+ pretty (wn_campaign_id req)
      +:+ "&creative_id=" +:+ pretty (wn_creative_id req)
      +:+ "&clearing_price_micros=" +:+ pretty (wn_clearing_price_micros req)
      +:+ "&user_id=" +:+ percent_encode (wn_user_id req)
      +:+ exchange_param +:+ token_param).
End Gate.

(** ** The [win] handler *)

Inductive StatusCode :=
| OK | NO_CONTENT | BAD_REQUEST | UNAUTHORIZED | INTERNAL_SERVER_ERROR | SERVICE_UNAVAILABLE.

Section Handler.
Context {M : Type} `{Hmac M} {X : Type} `{Hex X} {D : Type} `{DedupStore D} (m : M) (x : X).
Context {Ch : Type} `{Mpsc Ch RedisCapper.ImpressionEvent} {K : Type} `{EventPublisher K}.

(** What the handler reaches through [AppState]. *)
Record AppState := {
  as_gate : WinNoticeGateService;
  as_dedup : D;
  as_recorder : Ch;
  as_publisher : K;
  as_events_topic : string;
}.

Record WinEnv := { wv_now : Instant; wv_fate : SetFate; wv_secs : Z; wv_timestamp_ms : Z }.

Definition impression_of (p : WinParams) (secs : Z) (uid : string) : RedisCapper.ImpressionEvent := {|
  RedisCapper.im_user_id := uid; RedisCapper.im_campaign_id := wp_campaign_id p;
  RedisCapper.im_creative_id := wp_creative_id p; RedisCapper.im_device_type := 0;
  RedisCapper.im_hour_of_day := current_hour_of_day secs |}.

Definition win_event_of (p : WinParams) (timestamp_ms : Z) : WinEvent := {|
  we_request_id := wp_request_id p; we_imp_id := wp_imp_id p; we_campaign_id := wp_campaign_id p;
  we_creative_id := wp_creative_id p; we_clearing_price_micros := wp_clearing_price_micros p;
  we_timestamp_ms := timestamp_ms; we_user_id := unwrap_or (wp_user_id p) ""%string |}.

Definition win (st : AppState) (p : WinParams) (env : WinEnv) : StatusCode * AppState :=
  let '(gate, d) := check m x (as_gate st) (as_dedup st) (wp_request_id p) (wp_imp_id p) (wp_campaign_id p)
                      (wp_creative_id p) (wp_token p) (unwrap_or (wp_exchange_id p) ""%string) (wv_now env) (wv_fate env) in
  let st := {| as_gate := as_gate st; as_dedup := d; as_recorder := as_recorder st;
               as_publisher := as_publisher st; as_events_topic := as_events_topic st |} in
  match gate with
  | AuthFailed => (UNAUTHORIZED, st)
  | Duplicate | DedupUnavailable => (OK, st)
  | Accept =>
      let recorder :=
        match wp_user_id p with
        | Some uid => if bool_decide (uid = ""%string) then as_recorder st
                      else (try_record (as_recorder st) (impression_of p (wv_secs env) uid)).2
        | None => as_recorder st
        end in
      (OK, {| as_gate := as_gate st; as_dedup := as_dedup st; as_recorder := recorder;
              as_publisher := publish (as_publisher st) (as_events_topic st) (le_bytes4 (wp_campaign_id p))
                                (AdEvent.Win (win_event_of p (wv_timestamp_ms env)));
              as_events_topic := as_events_topic st |})
  end.
End Handler.
Arguments AppState : clear implicits.

(** ** Lemmas *)

(** The value of a hexadecimal digit, and RFC 3986 decoding, the inverse the
    exchange and the server's query parser apply. *)
Definition hex_value (c : Ascii.ascii) : option nat :=
  let n := code c in
  if Nat.leb 48 n && Nat.leb n 57 then Some (n - 48)%nat
  else if Nat.leb 65 n && Nat.leb n 70 then Some (n - 55)%nat else None.

Fixpoint percent_decode (s : string) : option string :=
  match s with
  | EmptyString => Some EmptyString
  | String c s' =>
      if bool_decide (c = percent) then
        match s' with
        | String h (String l rest) =>
            hv ← hex_value h; lv ← hex_value l; tail ← percent_decode rest;
            Some (String (Ascii.ascii_of_nat (16 * hv + lv)) tail)
        | _ => None
        end
      else tail ← percent_decode s'; Some (String c tail)
  end.

(** A character that may stand in a query value. *)
Definition query_char (c : Ascii.ascii) : bool := is_safe c || bool_decide (c = percent).

(** All 256 bytes, checked one by one. *)
Lemma escape_table c :
  (hv ← hex_value (hex_digit (code c / 16)); lv ← hex_value (hex_digit (code c mod 16));
   Some (Ascii.ascii_of_nat (16 * hv + lv))) = Some c /\
  is_safe (hex_digit (code c / 16)) = true /\ is_safe (hex_digit (code c mod 16)) = true /\
  (c = percent -> is_safe c = false).
Proof. destruct c as [[] [] [] [] [] [] [] []]; vm_compute; split_and!; done. Qed.

Lemma escape_values c : exists hv lv, hex_value (hex_digit (code c / 16)) = Some hv /\
  hex_value (hex_digit (code c mod 16)) = Some lv /\ Ascii.ascii_of_nat (16 * hv + lv) = c.
Proof.
  destruct (escape_table c) as [(hv & Hh & (lv & Hl & [= Hc])%bind_Some)%bind_Some _]. eauto.
Qed.

Section GateLemmas.
Context {M : Type} `{HmacLaws M} {X : Type} `{HexLaws X} {D : Type} `{DedupLaws D} (m : M) (x : X).

Lemma sign_verifies self message exchange :
  verify_token m x self message (sign m x self message exchange) exchange = true.
Proof.
  unfold verify_token, sign. destruct (secret_for self exchange) as [secret|]; [|done]. cbn [mbind option_bind].
  destruct (hmac_any_key m secret message) as [mac Hm]. rewrite Hm. cbn [mbind option_bind].
  destruct (hmac_output m secret message mac Hm) as [Hne Hbytes].
  rewrite bool_decide_eq_false_2, hex_roundtrip by (try done; by intros Hn%hex_empty).
  by apply bool_decide_eq_true.
Qed.

Lemma verify_token_iff self message presented exchange :
  verify_token m x self message presented exchange = true <->
  secret_for self exchange = None \/
  exists secret h mac, secret_for self exchange = Some secret /\ presented = Some h /\ h <> ""%string /\
    hmac_sha256 m secret message = Some mac /\ hex_decode x h = Some mac.
Proof.
  unfold verify_token. destruct (secret_for self exchange) as [secret|]; [|split; auto].
  split.
  - destruct presented as [h|]; [|done]. case_bool_decide; [done|]. destruct (hex_decode x h) as [mac'|] eqn:Eh; [|done].
    destruct (hmac_sha256 m secret message) as [mac|] eqn:E; [|done]. intros ->%bool_decide_eq_true.
    right. exists secret, h, mac'. done.
  - intros [?|(secret' & h & mac & ? & -> & Hne & Hm & Hx)]; simplify_eq.
    rewrite bool_decide_eq_false_2, Hx, Hm by done. by apply bool_decide_eq_true.
Qed.

(** The window in which a notice was first seen. *)
Context (t0 ttl : Z) (key : string).
Definition spent (d : D) : Prop := forall t, t0 <= t < t0 + from_secs ttl -> nx_live d t key = true.

Lemma set_nx_spent d now : t0 <= now < t0 + from_secs ttl -> spent d ->
  (set_nx d key ttl now).1 = false /\ spent (set_nx d key ttl now).2.
Proof.
  intros Hn Hd. rewrite nx_answer, Hd by done. split; [done|].
  intros t Ht. rewrite nx_after, decide_True, !Hd by done. done.
Qed.

Lemma set_nx_fresh d now : t0 <= now < t0 + from_secs ttl -> (set_nx d key ttl now).1 = true ->
  spent (set_nx d key ttl now).2.
Proof.
  intros Hn. rewrite nx_answer. intros Hl%negb_true_iff t Ht. rewrite nx_after, decide_True, Hl by done.
  apply Z.ltb_lt. lia.
Qed.
End GateLemmas.

(** Messages of notices whose ids hold no separator determine the notice. *)
Lemma bar_decimal : is_decimal (Ascii.ascii_of_nat 124) = false.
Proof. reflexivity. Qed.

Lemma signing_message_inj r1 i1 c1 k1 r2 i2 c2 k2 :
  let bar := Ascii.ascii_of_nat 124 in
  has_char bar r1 = false -> has_char bar r2 = false -> has_char bar i1 = false -> has_char bar i2 = false ->
  signing_message r1 i1 c1 k1 = signing_message r2 i2 c2 k2 -> r1 = r2 /\ i1 = i2 /\ c1 = c2 /\ k1 = k2.
Proof.
  intros bar Hr1 Hr2 Hi1 Hi2. unfold signing_message.
  change ("|" +:+ ?s)%string with (String bar s).
  intros [-> Hm]%split_first_sep; try done. apply split_first_sep in Hm as [-> Hm]; [|done..].
  apply split_first_sep in Hm as [->%(inj pretty) Hm]; [|apply pretty_Z_has_char, bar_decimal..].
  apply (inj pretty) in Hm as ->. done.
Qed.

(** ** Properties *)

(** What the bidder signs it accepts, once: a notice presented with the token
    issued for it passes verification under every configuration; if its key is not
    in the dedup store and Redis answers in time the gate accepts it, and the same
    notice presented again within the window is not accepted but a duplicate. *)
Theorem issued_notice_accepted_once {M X D} `{HmacLaws M} `{HexLaws X} `{DedupLaws D} (m : M) (x : X)
    (self : WinNoticeGateService) (d : D) (n : WinNoticeRequest) (now now' latency latency' : Z)
    (Hnew : nx_live d now (dedup_key (wn_request_id n) (wn_imp_id n)) = false)
    (Hlat : latency < DEDUP_REDIS_TIMEOUT) (Hlat' : latency' < DEDUP_REDIS_TIMEOUT)
    (Hlater : now' < now + from_secs (as_i64 (Z.max 1 (dedup_ttl_secs (wg_cfg self))))) :
  let token := sign m x self (signing_message (wn_request_id n) (wn_imp_id n) (wn_campaign_id n) (wn_creative_id n))
                 (wn_exchange_id n) in
  let present d now latency := check m x self d (wn_request_id n) (wn_imp_id n) (wn_campaign_id n) (wn_creative_id n)
                                 token (wn_exchange_id n) now (Answered latency) in
  (present d now latency).1 = Accept /\ (present (present d now latency).2 now' latency').1 = Duplicate.
Proof.
  intros token present. unfold present, check, token. rewrite !(sign_verifies m x). cbn [negb].
  set (key := dedup_key _ _) in *. set (ttl := as_i64 _) in *.
  pose proof (nx_answer d key ttl now) as Ha. pose proof (nx_after d key ttl now now' key) as Hl.
  rewrite Hnew in Ha, Hl. rewrite decide_True in Hl by done.
  destruct (set_nx d key ttl now) as [fresh d1]. simpl in Ha, Hl. subst fresh.
  rewrite (proj2 (Z.ltb_lt latency _)) by done. cbn [fst snd]. split; [done|].
  pose proof (nx_answer d1 key ttl now') as Ha. rewrite Hl, (proj2 (Z.ltb_lt now' _)) in Ha by done.
  destruct (set_nx d1 key ttl now') as [fresh d2]. simpl in Ha. subst fresh.
  by rewrite (proj2 (Z.ltb_lt latency' _)).
Qed.

(** A toy MAC and the base-16 codec, to run the gate with. *)
Module Sample.
#[global] Instance toy_hmac : Hmac unit := {|
  hmac_sha256 _ k s := Some [Z.of_nat (String.length k) mod 256; Z.of_nat (String.length s) mod 256] |}.
#[global] Instance toy_hmac_laws : HmacLaws unit.
Proof.
  split; simpl; [eauto|]. intros _ k s mac [= <-]. split; [done|].
  repeat constructor; unfold u8_max; pose proof (Z.mod_pos_bound (Z.of_nat (String.length k)) 256);
    pose proof (Z.mod_pos_bound (Z.of_nat (String.length s)) 256); lia.
Defined.

Fixpoint hex_of (bytes : list Z) : string :=
  match bytes with
  | [] => EmptyString
  | b :: l => String (hex_digit (Z.to_nat b / 16)) (String (hex_digit (Z.to_nat b mod 16)) (hex_of l))
  end.
Fixpoint unhex (s : string) : option (list Z) :=
  match s with
  | EmptyString => Some []
  | String h (String l rest) =>
      hv ← hex_value h; lv ← hex_value l; tail ← unhex rest; Some (Z.of_nat (16 * hv + lv) :: tail)
  | _ => None
  end.
Lemma hex_value_digit n : (n < 16)%nat -> hex_value (hex_digit n) = Some n.
Proof. intros Hn. do 16 (destruct n as [|n]; [reflexivity|]). lia. Qed.

#[global] Instance hex_codec : Hex unit := {| hex_encode _ := hex_of; hex_decode _ := unhex |}.
#[global] Instance hex_codec_laws : HexLaws unit.
Proof.
  split; [intros x bytes Hb; simpl; clear x|by intros ? []]. induction Hb as [|b l Hb _ IH]; [done|].
  unfold in_u8, u8_max in Hb. cbn [hex_of unhex].
  rewrite (hex_value_digit (Z.to_nat b / 16)) by (apply Nat.Div0.div_lt_upper_bound; lia).
  rewrite (hex_value_digit (Z.to_nat b mod 16)) by (apply Nat.mod_upper_bound; lia). cbn [mbind option_bind]. rewrite IH. cbn [mbind option_bind].
  rewrite <- (Nat.div_mod (Z.to_nat b) 16) by lia. by rewrite Z2Nat.id by lia.
Defined.

Definition cfg : WinNoticeConfig := {|
  require_auth := true; cfg_secret := "k"; cfg_secrets := ∅; dedup_ttl_secs := 3600;
  notice_base_url := "https://bid.example.com/rtb/win" |}.
Definition gate : WinNoticeGateService := WinNoticeGateService_new cfg.
Definition notice : WinNoticeRequest := {|
  wn_request_id := "req-1"; wn_imp_id := "imp-1"; wn_campaign_id := 7; wn_creative_id := 9;
  wn_clearing_price_micros := 2000000; wn_user_id := "u 1"; wn_exchange_id := "" |}.
End Sample.

(** The URL the sample bid carries. *)
Example build_ex : build tt tt Sample.gate Sample.notice =
  Some ("https://bid.example.com/rtb/win?request_id=req-1&imp_id=imp-1&campaign_id=7&creative_id=9" +:+
        "&clearing_price_micros=2000000&user_id=u%201&token=010F")%string.
Proof. vm_compute. reflexivity. Qed.

Lemma issued_notice_accepted_once_witness :
  let token := sign tt tt Sample.gate (signing_message "req-1" "imp-1" 7 9) "" in
  (check tt tt Sample.gate (∅ : gmap string Instant) "req-1" "imp-1" 7 9 token "" 0 (Answered 5)).1 = Accept.
Proof.
  apply (issued_notice_accepted_once tt tt Sample.gate (∅ : gmap string Instant) Sample.notice 0 60 5 5);
    vm_compute; reflexivity.
Defined.

(** [C21] The gate lets nothing unauthenticated through: a notice is turned away,
    without touching the dedup store, unless no secret is configured for its
    exchange or its token decodes to the MAC of its own signing message under that
    secret.  Among notices whose ids do not contain the separator that message
    identifies request, impression, campaign and creative; a separator can be
    moved from one id to the other without changing it, and price and user are
    not part of it at all. *)
Theorem gate_authenticates {M X D} `{Hmac M} `{Hex X} `{DedupStore D} (m : M) (x : X)
    (self : WinNoticeGateService) (d : D) (request_id imp_id : string) (campaign_id creative_id : Z)
    (token : option string) (exchange_id : string) (now : Instant) (fate : SetFate) :
  let message := signing_message request_id imp_id campaign_id creative_id in
  let r := check m x self d request_id imp_id campaign_id creative_id token exchange_id now fate in
  (r.1 <> AuthFailed <->
     secret_for self exchange_id = None \/
     exists secret h mac, secret_for self exchange_id = Some secret /\ token = Some h /\ h <> ""%string /\
       hmac_sha256 m secret message = Some mac /\ hex_decode x h = Some mac) /\
  (r.1 = AuthFailed -> r.2 = d) /\
  (forall request_id' imp_id' campaign_id' creative_id',
    Forall (fun s => has_char (Ascii.ascii_of_nat 124) s = false) [request_id; imp_id; request_id'; imp_id'] ->
    signing_message request_id' imp_id' campaign_id' creative_id' = message ->
    (request_id', imp_id', campaign_id', creative_id') = (request_id, imp_id, campaign_id, creative_id)) /\
  (forall a b, imp_id = (a +:+ "|" +:+ b)%string ->
     signing_message (request_id +:+ "|" +:+ a) b campaign_id creative_id = message).
Proof.
  intros message r. split; [|split; [|split]].
  - rewrite <- (verify_token_iff m x). unfold r, check. fold message.
    destruct (verify_token m x self message token exchange_id); [|done]. cbn [negb].
    destruct (set_nx d _ _ now) as [fresh d']. destruct fate as [latency|executed]; [|done].
    by destruct (latency <? _), fresh.
  - unfold r, check. destruct (verify_token _ _ _ _ _ _); [|done]. cbn [negb].
    destruct (set_nx d _ _ now) as [fresh d']. destruct fate as [latency|executed]; [|done].
    by destruct (latency <? _), fresh.
  - intros r' i' c' k' Hbar Hm. repeat rewrite Forall_cons in Hbar. destruct Hbar as (? & ? & ? & ? & _).
    apply signing_message_inj in Hm as (-> & -> & -> & ->); done.
  - intros a b ->. unfold message, signing_message. by rewrite !string_app_assoc.
Qed.

(** A token that decodes to something else than the MAC is turned away. *)
Lemma gate_authenticates_witness :
  (check tt tt Sample.gate (∅ : gmap string Instant) "req-1" "imp-1" 7 9 (Some "02"%string) "" 0 (Answered 5)).1 = AuthFailed /\
  secret_for Sample.gate "" = Some "k"%string.
Proof.
  destruct (gate_authenticates tt tt Sample.gate (∅ : gmap string Instant) "req-1" "imp-1" 7 9 (Some "02"%string) "" 0 (Answered 5))
    as [[Hauth _] _].
  split; [|vm_compute; reflexivity].
  destruct (decide ((check tt tt Sample.gate (∅ : gmap string Instant) "req-1" "imp-1" 7 9 (Some "02"%string) "" 0 (Answered 5)).1
    = AuthFailed)) as [He|Hne]; [done|].
  destruct (Hauth Hne) as [Hs|(secret & h & mac & Hs & [= <-] & _ & Hm & Hx)]; [vm_compute in Hs; discriminate|].
  vm_compute in Hx. injection Hx as <-. simpl in Hm. discriminate.
Defined.

(** Values in a notice URL are percent-encoded: RFC 3986 decoding gives the
    value back, and the encoded text holds only unreserved characters and percent
    signs, so no value can end its parameter or add another. *)
Theorem percent_encode_roundtrip (s : string) :
  percent_decode (percent_encode s) = Some s /\ all_chars query_char (percent_encode s) = true.
Proof.
  induction s as [|c s [IH1 IH2]]; [done|]. cbn [percent_encode].
  destruct (escape_table c) as (_ & Hh & Hl & Hpc). destruct (is_safe c) eqn:E.
  - cbn [percent_decode all_chars]. rewrite bool_decide_eq_false_2 by (intros Hc; discriminate (Hpc Hc)).
    rewrite IH1, IH2. unfold query_char at 1. by rewrite E.
  - destruct (escape_values c) as (hv & lv & Hhv & Hlv & Hc). cbn [percent_decode all_chars].
    rewrite bool_decide_eq_true_2 by done. rewrite Hhv, Hlv, IH1, IH2. cbn [mbind option_bind]. rewrite Hc.
    unfold query_char. by rewrite Hh, Hl.
Qed.

Section Counting.
Context {M : Type} `{HmacLaws M} {X : Type} `{HexLaws X} {D : Type} `{DedupLaws D} (m : M) (x : X).
Context {Ch : Type} `{Mpsc Ch RedisCapper.ImpressionEvent} {K : Type} `{EventPublisher K}.
Implicit Types (st : AppState D Ch K) (p : WinParams) (env : WinEnv).

(** The handler's runs on a sequence of notices, in the order they reach the gate. *)
Definition run_wins st (l : list (WinParams * WinEnv)) : AppState D Ch K * list StatusCode :=
  fold_map (fun st '(p, env) => let '(code, st') := win m x st p env in (st', code)) st l.

(** The side effects of an accepted notice. *)
Definition recorded (c : Ch) p env : Ch :=
  match wp_user_id p with
  | Some uid => if bool_decide (uid = ""%string) then c else (try_record c (impression_of p (wv_secs env) uid)).2
  | None => c
  end.
Definition published (st : AppState D Ch K) p env : K :=
  publish (as_publisher st) (as_events_topic st) (le_bytes4 (wp_campaign_id p)) (AdEvent.Win (win_event_of p (wv_timestamp_ms env))).

Definition untouched st st' : Prop :=
  as_recorder st' = as_recorder st /\ as_publisher st' = as_publisher st.
Definition counted st st' p env : Prop :=
  as_recorder st' = recorded (as_recorder st) p env /\ as_publisher st' = published st p env.

Definition status_of (gate : WinNoticeGateService) p : StatusCode :=
  if verify_token m x gate (signing_message (wp_request_id p) (wp_imp_id p) (wp_campaign_id p) (wp_creative_id p))
       (wp_token p) (unwrap_or (wp_exchange_id p) ""%string)
  then OK else UNAUTHORIZED.

Context (rid iid : string) (t0 : Instant).
Definition in_window (gate : WinNoticeGateService) p env : Prop :=
  wp_request_id p = rid /\ wp_imp_id p = iid /\
  t0 <= wv_now env < t0 + from_secs (as_i64 (Z.max 1 (dedup_ttl_secs (wg_cfg gate)))).

Lemma win_step st p env : in_window (as_gate st) p env ->
  let sp := spent t0 (as_i64 (Z.max 1 (dedup_ttl_secs (wg_cfg (as_gate st))))) (dedup_key rid iid) in
  let '(code, st') := win m x st p env in
  code = status_of (as_gate st) p /\ as_gate st' = as_gate st /\ as_events_topic st' = as_events_topic st /\
  (sp (as_dedup st) -> sp (as_dedup st') /\ untouched st st') /\
  (untouched st st' \/ (counted st st' p env /\ status_of (as_gate st) p = OK /\ sp (as_dedup st'))).
Proof.
  intros (Hr & Hi & Ht) sp. unfold win, check, status_of. rewrite Hr, Hi.
  destruct (verify_token _ _ _ _ _ _) eqn:Ev; cbn [negb].
  2:{ split_and!; try done; left; done. }
  pose proof (set_nx_spent t0 _ (dedup_key rid iid) (as_dedup st) (wv_now env) Ht) as Hsp.
  pose proof (set_nx_fresh t0 _ (dedup_key rid iid) (as_dedup st) (wv_now env) Ht) as Hfr.
  fold sp in Hsp, Hfr. destruct (set_nx _ _ _ _) as [fresh d']. cbn [fst snd] in Hsp, Hfr.
  destruct (wv_fate env) as [latency|executed]; [destruct (latency <? _); [destruct fresh|]|]; cbn.
  - split_and!; [done..|intros Hs; by destruct (Hsp Hs)|]. right. split_and!; [|done|by apply Hfr].
    split; [|done]. unfold recorded. by destruct (wp_user_id p).
  - split_and!; [done..| |by left]. intros Hs. split; [|done]. by apply Hsp.
  - split_and!; [done..| |by left]. intros Hs. split; [|done]. by apply Hsp.
  - split_and!; [done..| |by left]. intros Hs. split; [|done]. destruct executed; [by apply Hsp|done].
Qed.

Lemma run_wins_cons st p env l :
  run_wins st ((p, env) :: l) =
  let '(code, st1) := win m x st p env in let '(st2, codes) := run_wins st1 l in (st2, code :: codes).
Proof. unfold run_wins. cbn [fold_map]. by destruct (win m x st p env). Qed.

(** A spent notice has no further effect. *)
Lemma run_wins_spent l st : Forall (fun '(p, env) => in_window (as_gate st) p env) l ->
  spent t0 (as_i64 (Z.max 1 (dedup_ttl_secs (wg_cfg (as_gate st))))) (dedup_key rid iid) (as_dedup st) ->
  let '(st', codes) := run_wins st l in
  untouched st st' /\ as_gate st' = as_gate st /\ codes = (fun '(p, _) => status_of (as_gate st) p) <$> l.
Proof.
  revert st; induction l as [|[p env] l IH]; intros st; [done|]. intros [Hp Hl]%Forall_cons Hs.
  rewrite run_wins_cons. pose proof (win_step st p env Hp) as Hw. cbv zeta in Hw.
  destruct (win m x st p env) as [code st1]. destruct Hw as (-> & Hg & _ & Hkeep & _).
  destruct (Hkeep Hs) as [Hs1 [Hr Hk]]. specialize (IH st1). rewrite Hg in IH. specialize (IH Hl Hs1).
  destruct (run_wins st1 l) as [st2 codes]. destruct IH as ([Hr2 Hk2] & Hg2 & ->).
  split_and!; [split; congruence|congruence|done].
Qed.

(** [C20] A win counts at most once: over any sequence of notices for one
    impression within the dedup window, whatever their tokens, clocks and the fate
    of their Redis calls (errors that were executed included), the handler records
    at most one impression and publishes at most one event, both those of one
    authenticated notice of the sequence; and it answers 401 to exactly the notices
    that fail verification, 200 to all others. *)
Theorem win_counts_once st (l : list (WinParams * WinEnv))
    (Hl : Forall (fun '(p, env) => in_window (as_gate st) p env) l) :
  let '(st', codes) := run_wins st l in
  codes = (fun '(p, _) => status_of (as_gate st) p) <$> l /\
  (untouched st st' \/
   exists p env, (p, env) ∈ l /\ status_of (as_gate st) p = OK /\ counted st st' p env).
Proof.
  revert st Hl; induction l as [|[p env] l IH]; intros st; [by split; [|left]|]. intros [Hp Hl]%Forall_cons.
  rewrite run_wins_cons. pose proof (win_step st p env Hp) as Hw. cbv zeta in Hw.
  destruct (win m x st p env) as [code st1]. destruct Hw as (-> & Hg & Ht & _ & [[Hr Hk]|([Hr Hk] & Hok & Hs)]).
  - specialize (IH st1). rewrite Hg in IH. specialize (IH Hl). destruct (run_wins st1 l) as [st2 codes].
    destruct IH as [-> IH]. split; [done|]. destruct IH as [[Hr2 Hk2]|(p2 & env2 & Hin & Hok & [Hr2 Hk2])].
    + left. split; congruence.
    + right. exists p2, env2. split_and!; [by right|done|]. unfold counted, published in *. split; congruence.
  - pose proof (run_wins_spent l st1) as Hrest. rewrite Hg in Hrest. specialize (Hrest Hl Hs).
    destruct (run_wins st1 l) as [st2 codes]. destruct Hrest as ([Hr2 Hk2] & _ & ->). split; [done|].
    right. exists p, env. split_and!; [by left|done|]. split; congruence.
Qed.
End Counting.

(** Three deliveries of one notice, the last one hitting a Redis error: all are
    answered 200 and one impression is queued. *)
Lemma win_counts_once_witness :
  let p := {| wp_request_id := "req-1"; wp_imp_id := "imp-1"; wp_campaign_id := 7; wp_creative_id := 9;
              wp_clearing_price_micros := 2; wp_user_id := Some "u1"; wp_token := Some "010F"; wp_exchange_id := None |}%string in
  let env now fate := {| wv_now := now; wv_fate := fate; wv_secs := 0; wv_timestamp_ms := 0 |} in
  let st := {| as_gate := Sample.gate; as_dedup := ∅ : gmap string Instant;
               as_recorder := (10%nat, []) : nat * list RedisCapper.ImpressionEvent;
               as_publisher := no_op_publisher; as_events_topic := "events" |} in
  let l := [(p, env 0 (Answered 5)); (p, env 10 (Answered 5)); (p, env 20 (Errored true))] in
  (run_wins tt tt st l).2 = [OK; OK; OK] /\ length (chan_items (as_recorder (run_wins tt tt st l).1)) = 1%nat.
Proof.
  intros p env st l.
  pose proof (win_counts_once tt tt "req-1" "imp-1" 0 st l) as Hw.
  assert (Forall (fun '(p, env) => in_window "req-1" "imp-1" 0 (as_gate st) p env) l) as Hl
    by (repeat constructor; vm_compute; done).
  specialize (Hw Hl). split; [|vm_compute; reflexivity].
  destruct (run_wins tt tt st l) as [st' codes]. destruct Hw as [-> _]. vm_compute. reflexivity.
Defined.
