(* ===== verification/Kafka.v ===== *)
(** * Kafka publishing and the incident policy

    [bidder-core/src/kafka_incident.rs] and [bidder-server/src/kafka.rs]: the
    counters and the effective drop policy the publisher and the monitor share,
    the monitor's tick, the publisher and its delivery callback, and the choice of
    publisher at start-up in [main.rs].  librdkafka's producer is an interface:
    [send] answers at once, deliveries are reported later by the environment. *)
From S2P Require Import Prelude Floats FloatErr Text Config Events.

(** ** [KafkaIncidentState] *)

Module EffectivePolicy.
Inductive t := Newest | Oldest | RandomSample.
#[global] Instance eq_dec : EqDecision t.
Proof. solve_decision. Defined.

(** [policy as u8] and [from_u8] *)
Definition as_u8 (p : t) : Z := match p with Newest => 0 | Oldest => 1 | RandomSample => 2 end.
Definition from_u8 (v : Z) : t :=
  if v =? 1 then Oldest else if v =? 2 then RandomSample else Newest.

Definition of_drop_policy (p : KafkaDropPolicy.t) : t :=
  match p with
  | KafkaDropPolicy.Newest => Newest
  | KafkaDropPolicy.Oldest => Oldest
  | KafkaDropPolicy.RandomSample => RandomSample
  | KafkaDropPolicy.IncidentMode => Newest
  end.
End EffectivePolicy.

Record KafkaIncidentState := {
  base_policy : EffectivePolicy.t;
  effective : Z;
  published_total : Z;
  dropped_total : Z;
  auto_flip : bool;
}.

Definition KafkaIncidentState_new (base : KafkaDropPolicy.t) : KafkaIncidentState :=
  let base_eff := EffectivePolicy.of_drop_policy base in {|
    base_policy := base_eff; effective := EffectivePolicy.as_u8 base_eff;
    published_total := 0; dropped_total := 0;
    auto_flip := bool_decide (base = KafkaDropPolicy.IncidentMode) |}.

Definition effective_policy (s : KafkaIncidentState) : EffectivePolicy.t := EffectivePolicy.from_u8 (effective s).

Definition record_published (s : KafkaIncidentState) : KafkaIncidentState := {|
  base_policy := base_policy s; effective := effective s;
  published_total := as_u64 (published_total s + 1); dropped_total := dropped_total s; auto_flip := auto_flip s |}.

Definition record_dropped (s : KafkaIncidentState) : KafkaIncidentState := {|
  base_policy := base_policy s; effective := effective s;
  published_total := published_total s; dropped_total := as_u64 (dropped_total s + 1); auto_flip := auto_flip s |}.

Definition set_effective (s : KafkaIncidentState) (p : EffectivePolicy.t) : KafkaIncidentState := {|
  base_policy := base_policy s; effective := EffectivePolicy.as_u8 p;
  published_total := published_total s; dropped_total := dropped_total s; auto_flip := auto_flip s |}.

Definition snapshot (s : KafkaIncidentState) : Z * Z := (published_total s, dropped_total s).

(** ** The monitor loop *)

(** Its local variables. *)
Record Monitor := {
  last : Z * Z;
  over_count : Z;
  under_count : Z;
  in_incident : bool;
}.

Definition Monitor_new (s : KafkaIncidentState) : Monitor :=
  {| last := snapshot s; over_count := 0; under_count := 0; in_incident := false |}.

(** The drop rate of the window between two snapshots. *)
Definition drop_rate (last cur : Z * Z) : f64 :=
  let pub_delta := usaturating_sub cur.1 last.1 in
  let drop_delta := usaturating_sub cur.2 last.2 in
  let total := as_u64 (pub_delta + drop_delta) in
  if total =? 0 then f64_of_Z 0 else f64_div (f64_of_Z drop_delta) (f64_of_Z total).

(** One iteration of the loop. *)
Definition monitor_tick (dwell_ticks : Z) (threshold : f64) (s : KafkaIncidentState) (m : Monitor)
  : KafkaIncidentState * Monitor :=
  let cur := snapshot s in
  let rate := drop_rate (last m) cur in
  if negb (auto_flip s)
  then (s, {| last := cur; over_count := over_count m; under_count := under_count m; in_incident := in_incident m |})
  else
    let '(over, under) := if fgt rate threshold then (u32_saturating_add (over_count m) 1, 0)
                          else (0, u32_saturating_add (under_count m) 1) in
    if negb (in_incident m) && (dwell_ticks <=? over)
    then (set_effective s EffectivePolicy.RandomSample,
          {| last := cur; over_count := over; under_count := under; in_incident := true |})
    else if in_incident m && (dwell_ticks <=? under)
    then (set_effective s (base_policy s),
          {| last := cur; over_count := over; under_count := under; in_incident := false |})
    else (s, {| last := cur; over_count := over; under_count := under; in_incident := in_incident m |}).

(** The parameters [main.rs] passes: thirty-second ticks, ten of them, one per cent. *)
Definition MONITOR_TICK : Duration := from_secs 30.
Definition DWELL_TICKS : Z := 10.
Definition DROP_THRESHOLD : f64 := f64_lit 1 100.

(** ** The publisher *)

Definition RANDOM_SAMPLE_DENOMINATOR : Z := 10.

(** What [BaseProducer::send] can answer besides success: the full queue, or any
    other error. *)
Inductive SendError := QueueFull | OtherKafkaError.

(** [BaseProducer]: [send] enqueues a record without blocking. *)
Class Producer (R : Type) := { send : R -> string -> list Z -> list Z -> option SendError * R }.

Record KafkaEventPublisher (R : Type) := {
  producer : R;
  incident : KafkaIncidentState;
  sample_counter : Z;
}.
#[global] Arguments producer {R}.
#[global] Arguments incident {R}.
#[global] Arguments sample_counter {R}.
#[global] Arguments Build_KafkaEventPublisher {R}.

Definition set_incident {R} (k : KafkaEventPublisher R) (s : KafkaIncidentState) : KafkaEventPublisher R :=
  Build_KafkaEventPublisher (producer k) s (sample_counter k).

Definition KafkaEventPublisher_new {R} (create : KafkaConfig -> Result R string) (cfg : KafkaConfig)
    (s : KafkaIncidentState) : Result (KafkaEventPublisher R) string :=
  if is_empty (trim (utf8 (brokers cfg))) then Err "kafka.brokers is empty — Kafka publisher disabled by config"%string
  else match create cfg with
       | Err e => Err e
       | Ok p => Ok (Build_KafkaEventPublisher p s 0)
       end.

(** The delivery callback. *)
Definition delivery {R} (k : KafkaEventPublisher R) (delivered : bool) : KafkaEventPublisher R :=
  set_incident k (if delivered then record_published (incident k) else record_dropped (incident k)).

Section Publish.
Context {R : Type} `{Producer R}.
(** [prost::Message::encode_to_vec] *)
Context (encode_to_vec : AdEvent.t -> list Z).

Definition enqueue (k : KafkaEventPublisher R) (topic : string) (key : list Z) (event : AdEvent.t) : KafkaEventPublisher R :=
  let '(r, p) := send (producer k) topic key (encode_to_vec event) in
  match r with
  | None => Build_KafkaEventPublisher p (incident k) (sample_counter k)
  | Some _ => Build_KafkaEventPublisher p (record_dropped (incident k)) (sample_counter k)
  end.

Definition kafka_publish (k : KafkaEventPublisher R) (topic : string) (key : list Z) (event : AdEvent.t)
  : KafkaEventPublisher R :=
  match effective_policy (incident k) with
  | EffectivePolicy.RandomSample =>
      let n := sample_counter k in
      let k := Build_KafkaEventPublisher (producer k) (incident k) (as_u64 (n + 1)) in
      if negb (n mod RANDOM_SAMPLE_DENOMINATOR =? 0) then set_incident k (record_dropped (incident k))
      else enqueue k topic key event
  | _ => enqueue k topic key event
  end.

#[global] Instance kafka_publisher : EventPublisher (KafkaEventPublisher R) := {| publish := kafka_publish |}.

(** The publisher [main.rs] installs: a no-op one if Kafka cannot be set up. *)
Definition ServerPublisher : Type := KafkaEventPublisher R + NoOpEventPublisher.
Definition event_publisher (create : KafkaConfig -> Result R string) (cfg : KafkaConfig) : ServerPublisher :=
  match KafkaEventPublisher_new create cfg (KafkaIncidentState_new (drop_policy cfg)) with
  | Ok p => inl p
  | Err _ => inr no_op_publisher
  end.
#[global] Instance server_publisher : EventPublisher ServerPublisher := {|
  publish k topic key event :=
    match k with inl p => inl (publish p topic key event) | inr n => inr (publish n topic key event) end |}.

(** ** Publisher, callbacks and monitor together *)

Inductive KafkaEvent :=
| Publish (topic : string) (key : list Z) (event : AdEvent.t)
| Delivered
| DeliveryFailed
| Tick.

Definition kafka_step (dwell_ticks : Z) (threshold : f64) (st : KafkaEventPublisher R * Monitor) (e : KafkaEvent)
  : KafkaEventPublisher R * Monitor :=
  let '(k, m) := st in
  match e with
  | Publish topic key event => (kafka_publish k topic key event, m)
  | Delivered => (delivery k true, m)
  | DeliveryFailed => (delivery k false, m)
  | Tick => let '(s, m) := monitor_tick dwell_ticks threshold (incident k) m in (set_incident k s, m)
  end.

Definition kafka_run (dwell_ticks : Z) (threshold : f64) (st : KafkaEventPublisher R * Monitor) (l : list KafkaEvent)
  : KafkaEventPublisher R * Monitor := foldl (kafka_step dwell_ticks threshold) st l.
End Publish.
Arguments ServerPublisher : clear implicits.

(** ** The abstract policy: hysteresis over the tick samples *)

(** The last [n] samples (most recent first) all say [b]. *)
Definition streak (b : bool) (n : nat) (h : list bool) : bool :=
  Nat.leb n (length h) && forallb (Bool.eqb b) (take n h).

(** Incident mode starts after [n] consecutive samples above the threshold and
    ends after [n] consecutive ones that are not. *)
Fixpoint incident_mode (n : nat) (h : list bool) : bool :=
  match h with
  | [] => false
  | _ :: h' => if streak true n h then true else if streak false n h then false else incident_mode n h'
  end.

Fixpoint leading (b : bool) (h : list bool) : nat :=
  match h with [] => 0 | c :: h => if Bool.eqb b c then S (leading b h) else 0 end.

Lemma streak_leading b n h : streak b n h = true <-> (n <= leading b h)%nat.
Proof.
  unfold streak. rewrite andb_true_iff, Nat.leb_le. revert n; induction h as [|c h IH]; intros n; simpl.
  - destruct n; simpl; [tauto|lia].
  - destruct n as [|n]; simpl; [intuition lia|]. specialize (IH n).
    destruct (Bool.eqb b c); simpl; [|split; [intros [_ [=]]|lia]]. rewrite <- !Nat.succ_le_mono. tauto.
Qed.

Section Refinement.
Context {R : Type} `{Producer R} (encode_to_vec : AdEvent.t -> list Z) (dwell : Z) (threshold : f64).
Notation run := (kafka_run encode_to_vec dwell threshold).
Notation step := (kafka_step encode_to_vec dwell threshold).
Implicit Types (st : KafkaEventPublisher R * Monitor) (s : KafkaIncidentState).

(** The sample a tick takes in a state. *)
Definition over_threshold st : bool := fgt (drop_rate (last st.2) (snapshot (incident st.1))) threshold.

(** The samples of a run, most recent first, in front of [h]. *)
Fixpoint samples st (l : list KafkaEvent) (h : list bool) : list bool :=
  match l with
  | [] => h
  | e :: l => samples (step st e) l (match e with Tick => over_threshold st :: h | _ => h end)
  end.

(** The concrete state agrees with the abstract policy after the samples [h]. *)
Definition tracks (policy : KafkaDropPolicy.t) st (h : list bool) : Prop :=
  let flip := bool_decide (policy = KafkaDropPolicy.IncidentMode) in
  auto_flip (incident st.1) = flip /\
  base_policy (incident st.1) = EffectivePolicy.of_drop_policy policy /\
  in_incident st.2 = flip && incident_mode (Z.to_nat dwell) h /\
  effective_policy (incident st.1) =
    (if in_incident st.2 then EffectivePolicy.RandomSample else EffectivePolicy.of_drop_policy policy) /\
  (flip = true ->
   over_count st.2 = Z.min u32_max (Z.of_nat (leading true h)) /\
   under_count st.2 = Z.min u32_max (Z.of_nat (leading false h))).

Lemma effective_set s p : effective_policy (set_effective s p) = p.
Proof. by destruct p. Qed.

Lemma tick_tracks policy st h : 1 <= dwell <= u32_max ->
  tracks policy st h -> tracks policy (step st Tick) (over_threshold st :: h).
Proof.
  destruct st as [k m]. intros Hd (Ha & Hb & Hi & He & Hc). simpl in *.
  unfold tracks, monitor_tick, kafka_step, over_threshold. cbn [fst snd].
  change (fgt (drop_rate (last m) (snapshot (incident k))) threshold) with (over_threshold (k, m)).
  rewrite Ha. destruct (bool_decide (policy = _)) eqn:Hp; simpl negb; cbv iota.
  2:{ simpl in *. by split_and!. }
  destruct (Hc eq_refl) as [Ho Hu]. cbn [andb] in Hi.
  cbn [incident_mode]. set (b := over_threshold (k, m)).
  assert (forall c, streak c (Z.to_nat dwell) (b :: h) =
    (dwell <=? Z.min u32_max (Z.of_nat (leading c (b :: h))))) as Hs.
  { intros c. apply Bool.eq_iff_eq_true. rewrite streak_leading, Z.leb_le. lia. }
  rewrite !Hs. clear Hs.
  destruct b; cbn [leading Bool.eqb]; unfold u32_saturating_add; rewrite ?Ho, ?Hu.
  - replace (Z.min u32_max (Z.min u32_max (Z.of_nat (leading true h)) + 1))
      with (Z.min u32_max (Z.of_nat (S (leading true h)))) by lia.
    rewrite (proj2 (Z.leb_gt dwell 0)), andb_false_r by lia.
    rewrite (proj2 (Z.leb_gt dwell (Z.min u32_max (Z.of_nat 0)))) by lia.
    rewrite <- Hi. destruct (in_incident m), (dwell <=? Z.min u32_max (Z.of_nat (S (leading true h))));
      cbn; rewrite ?effective_set; split_and!; auto; lia.
  - replace (Z.min u32_max (Z.min u32_max (Z.of_nat (leading false h)) + 1))
      with (Z.min u32_max (Z.of_nat (S (leading false h)))) by lia.
    rewrite (proj2 (Z.leb_gt dwell 0)), andb_false_r by lia.
    rewrite (proj2 (Z.leb_gt dwell (Z.min u32_max (Z.of_nat 0)))) by lia.
    rewrite <- Hi. destruct (in_incident m), (dwell <=? Z.min u32_max (Z.of_nat (S (leading false h))));
      cbn; rewrite ?effective_set; split_and!; auto; lia.
Qed.

(** Publishing and deliveries touch the counters only. *)
Lemma publish_frame (k : KafkaEventPublisher R) topic key event :
  let k' := kafka_publish encode_to_vec k topic key event in
  auto_flip (incident k') = auto_flip (incident k) /\ base_policy (incident k') = base_policy (incident k) /\
  effective (incident k') = effective (incident k).
Proof.
  unfold kafka_publish, enqueue. destruct (effective_policy _); simpl; [| |destruct (_ =? 0)]; simpl; try done;
    by destruct (send _ topic key _) as [[]].
Qed.

Lemma step_tracks policy st h e : 1 <= dwell <= u32_max ->
  tracks policy st h ->
  tracks policy (step st e) (match e with Tick => over_threshold st :: h | _ => h end).
Proof.
  intros Hd Ht. destruct e as [topic key event| | |]; [|by destruct st..|by apply tick_tracks].
  destruct st as [k m]. unfold tracks, effective_policy in *. cbn [kafka_step fst snd] in *.
  destruct (publish_frame k topic key event) as (-> & -> & ->). done.
Qed.

Lemma run_tracks policy st h l : 1 <= dwell <= u32_max ->
  tracks policy st h -> tracks policy (run st l) (samples st l h).
Proof.
  intros Hd. revert st h; induction l as [|e l IH]; intros st h Ht; simpl; [done|].
  apply IH. by apply step_tracks.
Qed.

(** [C22] The effective policy refines the two-threshold hysteresis automaton: after
    any interleaving of publishes, delivery reports and monitor ticks, a publisher
    configured with [incident_mode] samples exactly when the abstract policy is in
    incident mode after the drop-rate samples taken so far; every other configured
    policy never changes. *)
Theorem monitor_refines_hysteresis (k : KafkaEventPublisher R) (policy : KafkaDropPolicy.t) (l : list KafkaEvent)
    (Hd : 1 <= dwell <= u32_max) (Hk : incident k = KafkaIncidentState_new policy) :
  let st := (k, Monitor_new (incident k)) in
  effective_policy (incident (run st l).1) =
  (if bool_decide (policy = KafkaDropPolicy.IncidentMode) && incident_mode (Z.to_nat dwell) (samples st l [])
   then EffectivePolicy.RandomSample else EffectivePolicy.of_drop_policy policy).
Proof.
  intros st. assert (tracks policy st []) as Ht.
  { unfold tracks, st. cbn [fst snd]. rewrite Hk. split_and!; try done.
    - simpl. by rewrite andb_false_r.
    - by destruct policy. }
  destruct (run_tracks policy st [] l Hd Ht) as (_ & _ & <- & -> & _). done.
Qed.
End Refinement.

(** ** Incident mode under traffic *)

(** A share of at least one fiftieth is above the threshold of one per cent. *)
Lemma share_above_threshold d total : 0 < d <= total -> total <= 50 * d -> total < 2 ^ 52 ->
  fgt (f64_div (f64_of_Z d) (f64_of_Z total)) DROP_THRESHOLD = true.
Proof.
  intros Hd Ht Hb. destruct (f64_div_of_Z d total ltac:(lia) ltac:(lia)) as (m & e & -> & Hm & He & Herr).
  change DROP_THRESHOLD with (S754_finite false 5764607523034235 (-59)).
  apply normal_flt; [unfold normal; lia|done|lia|lia|].
  assert (0 < 2 ^ (- e)) as Hp by (apply Z.pow_pos_nonneg; lia). set (P := 2 ^ (- e)) in *.
  assert (2 ^ 53 * (d * P - Z.pos m * total) <= d * P) as Hlow by lia.
  assert (total * ((2 ^ 53 - 1) * P) <= total * (50 * 2 ^ 53 * Z.pos m)) as Hc.
  { assert (total * P <= 50 * d * P) by (apply Z.mul_le_mono_nonneg_r; lia). lia. }
  apply Z.mul_le_mono_pos_l in Hc; [|lia]. change (2 ^ (- -59)) with 576460752303423488. lia.
Qed.

Section Sustained.
Context {R : Type} `{Producer R} (encode_to_vec : AdEvent.t -> list Z).
Implicit Types (k : KafkaEventPublisher R) (l : list KafkaEvent).

Definition is_publish (e : KafkaEvent) : bool := match e with Publish _ _ _ => true | _ => false end.
Definition is_delivered (e : KafkaEvent) : bool := match e with Delivered => true | _ => false end.
Definition count (p : KafkaEvent -> bool) l : Z := sum_by (fun e => Z.b2z (p e)) l.

(** The events of one monitor window: at least two publishes, and at most ten
    acknowledgements for each of them (those of earlier windows included). *)
Definition busy_window l : Prop :=
  Forall (fun e => e <> Tick) l /\ 2 <= count is_publish l /\ count is_delivered l <= 10 * count is_publish l.

(** Sampling: the publisher, with drops at least half of the publishes. *)
Definition sampling k : Prop := effective_policy (incident k) = EffectivePolicy.RandomSample.
Definition in_range k (n : Z) : Prop :=
  0 <= published_total (incident k) /\ 0 <= dropped_total (incident k) /\ in_u64 (sample_counter k) /\
  published_total (incident k) + dropped_total (incident k) + n < 2 ^ 52.
Definition slack k : Z := if sample_counter k mod 10 =? 0 then 0 else 1.

Lemma in_range_le k n n' : in_range k n -> n' <= n -> in_range k n'.
Proof. intros (? & ? & ? & ?) Hn. split_and!; try done. lia. Qed.

(** Two publishes in a row are never both kept. *)
Lemma next_not_kept n : n mod 10 = 0 -> as_u64 (n + 1) mod 10 <> 0.
Proof. unfold as_u64. intros Hn. Z.to_euclidean_division_equations. lia. Qed.

Lemma window_step dwell threshold k m e n : e <> Tick -> sampling k -> 0 <= n -> in_range k (n + 1) ->
  let k' := (kafka_step encode_to_vec dwell threshold (k, m) e).1 in
  (kafka_step encode_to_vec dwell threshold (k, m) e).2 = m /\
  sampling k' /\ auto_flip (incident k') = auto_flip (incident k) /\ in_range k' n /\
  published_total (incident k') = published_total (incident k) + Z.b2z (is_delivered e) /\
  dropped_total (incident k) <= dropped_total (incident k') /\
  2 * (dropped_total (incident k') - dropped_total (incident k)) + slack k' >= Z.b2z (is_publish e) + slack k.
Proof.
  intros Ht Hs Hn Hr. unfold sampling, in_range, in_u64, u64_max in *.
  destruct e as [topic key event| | |]; [| | |done]; simpl.
  - unfold kafka_publish. rewrite Hs. change RANDOM_SAMPLE_DENOMINATOR with 10.
    unfold slack. destruct (Z.eqb_spec (sample_counter k mod 10) 0) as [Hz|Hz]; simpl.
    + apply next_not_kept, Z.eqb_neq in Hz. unfold enqueue. pose proof (as_u64_range (sample_counter k + 1)) as Hw.
      unfold in_u64, u64_max in Hw.
      destruct (send _ topic key _) as [[err|] p]; simpl; rewrite Hz, ?as_u64_id by (unfold in_u64, u64_max; lia);
        split_and!; auto; lia.
    + pose proof (as_u64_range (sample_counter k + 1)) as Hw. unfold in_u64, u64_max in Hw.
      rewrite (as_u64_id (dropped_total _ + 1)) by (unfold in_u64, u64_max; lia).
      split_and!; auto; try lia. destruct (_ =? 0); lia.
  - unfold slack. simpl. rewrite as_u64_id by (unfold in_u64, u64_max; lia). split_and!; auto; lia.
  - unfold slack. simpl. rewrite as_u64_id by (unfold in_u64, u64_max; lia). split_and!; auto; lia.
Qed.

Lemma window_run dwell threshold l k m n : Forall (fun e => e <> Tick) l -> sampling k -> 0 <= n ->
  in_range k (n + Z.of_nat (length l)) ->
  let st := kafka_run encode_to_vec dwell threshold (k, m) l in
  st.2 = m /\ sampling st.1 /\ auto_flip (incident st.1) = auto_flip (incident k) /\ in_range st.1 n /\
  published_total (incident st.1) = published_total (incident k) + count is_delivered l /\
  dropped_total (incident k) <= dropped_total (incident st.1) /\
  2 * (dropped_total (incident st.1) - dropped_total (incident k)) + slack st.1 >= count is_publish l + slack k.
Proof.
  revert k; induction l as [|e l IH]; intros k Hl Hs Hn Hr.
  { unfold count. simpl in *. rewrite Z.add_0_r in Hr. split_and!; auto; lia. }
  apply Forall_cons in Hl as [He Hl]. cbn [length] in Hr.
  destruct (window_step dwell threshold k m e (n + Z.of_nat (length l)) He Hs ltac:(lia)) as
    (Hm & Hs' & Ha' & Hr' & Hp' & Hd' & Hv').
  { replace (n + Z.of_nat (length l) + 1) with (n + Z.of_nat (S (length l))) by lia. done. }
  change (kafka_run encode_to_vec dwell threshold (k, m) (e :: l))
    with (kafka_run encode_to_vec dwell threshold (kafka_step encode_to_vec dwell threshold (k, m) e) l).
  destruct (kafka_step encode_to_vec dwell threshold (k, m) e) as [k1 m1]. cbn [fst snd] in *. subst m1.
  destruct (IH k1 Hl Hs' Hn Hr') as (Hm2 & Hs2 & Ha2 & Hr2 & Hp2 & Hd2 & Hv2).
  unfold count in *. rewrite !sum_by_cons. split_and!; auto; lia || congruence.
Qed.

(** In a busy window the drop rate is above the threshold, whatever the broker does. *)
Lemma busy_window_over_threshold dwell l k m n : busy_window l -> sampling k -> 0 <= n ->
  last m = snapshot (incident k) -> in_range k (n + Z.of_nat (length l)) ->
  over_threshold DROP_THRESHOLD (kafka_run encode_to_vec dwell DROP_THRESHOLD (k, m) l) = true.
Proof.
  intros (Hl & Hn2 & Hd) Hs Hn Hm Hr.
  destruct (window_run dwell DROP_THRESHOLD l k m n Hl Hs Hn Hr) as (Hm' & _ & _ & Hr' & Hp & Hdd & Hv).
  destruct (kafka_run _ _ _ _ l) as [k' m']. cbn [fst snd] in *. subst m'.
  unfold over_threshold, drop_rate. cbn [fst snd]. rewrite Hm. cbn [snapshot fst snd].
  assert (0 <= slack k <= 1) by (unfold slack; destruct (_ =? 0); lia).
  assert (0 <= slack k' <= 1) by (unfold slack; destruct (_ =? 0); lia).
  assert (0 <= count is_delivered l) by (apply sum_by_nonneg; intros e _; destruct (is_delivered e); simpl; lia).
  unfold in_range in *. unfold usaturating_sub. rewrite !Z.max_r by lia.
  rewrite as_u64_id by (unfold in_u64, u64_max; lia).
  destruct (Z.eqb_spec (published_total (incident k') - published_total (incident k) +
    (dropped_total (incident k') - dropped_total (incident k))) 0); [lia|].
  apply share_above_threshold; lia.
Qed.

(** Whole windows, each ended by a tick. *)
Definition windows (ws : list (list KafkaEvent)) : list KafkaEvent := ws ≫= (fun w => w ++ [Tick]).

(** [C23] Incident mode sustains itself: once the publisher samples, the events it
    discards count as drops, so as long as every monitor window sees at least two
    publishes the sampled drop rate stays above one per cent and the policy is
    never reverted, even when the producer accepts and the broker acknowledges
    every event it is given. *)
Theorem incident_mode_sustains_itself (k : KafkaEventPublisher R) (m : Monitor) (dwell : Z)
    (ws : list (list KafkaEvent)) (Hd : 1 <= dwell) (Hw : Forall busy_window ws)
    (Hs : effective_policy (incident k) = EffectivePolicy.RandomSample) (Ha : auto_flip (incident k) = true)
    (Hi : in_incident m = true) (Hm : last m = snapshot (incident k))
    (Hr : in_range k (Z.of_nat (length (windows ws)))) :
  let st := kafka_run encode_to_vec dwell DROP_THRESHOLD (k, m) (windows ws) in
  effective_policy (incident st.1) = EffectivePolicy.RandomSample /\ in_incident st.2 = true.
Proof.
  revert k m Hs Ha Hi Hm Hr; induction Hw as [|w ws Hw _ IH]; intros k m Hs Ha Hi Hm Hr; [done|].
  set (n := Z.of_nat (length (windows ws))).
  assert (windows (w :: ws) = w ++ Tick :: windows ws) as Hcat by (unfold windows; simpl; by rewrite <- app_assoc).
  rewrite Hcat in *. rewrite length_app in Hr. cbn [length] in Hr.
  assert (in_range k (n + 1 + Z.of_nat (length w))) as Hr1.
  { eapply in_range_le; [exact Hr|]. unfold n. lia. }
  pose proof (busy_window_over_threshold dwell w k m (n + 1) Hw Hs ltac:(lia) Hm Hr1) as Hover.
  destruct (window_run dwell DROP_THRESHOLD w k m (n + 1) ltac:(apply Hw) Hs ltac:(lia) Hr1)
    as (Hm' & Hs' & Ha' & Hr' & _).
  unfold kafka_run in *. rewrite foldl_app.
  destruct (foldl _ (k, m) w) as [k1 m1]. cbn [fst snd] in *. subst m1. rewrite Ha in Ha'.
  cbn [foldl kafka_step]. unfold monitor_tick. unfold over_threshold in Hover. cbn [fst snd] in Hover.
  rewrite Hover, Ha', Hi, (proj2 (Z.leb_gt dwell 0)) by lia. cbn [negb andb].
  apply IH; [exact Hs'|exact Ha'|reflexivity|reflexivity|]. apply (in_range_le _ (n + 1)); [done|]. unfold n. lia.
Qed.
End Sustained.

Module Sample.
(** A producer that accepts every record. *)
#[global] Instance healthy : Producer unit := {| send r _ _ _ := (None, r) |}.
Definition no_bytes (e : AdEvent.t) : list Z := [].
Definition event : AdEvent.t := AdEvent.Click
  {| te_request_id := "r"; te_imp_id := "1"; te_campaign_id := 7; te_creative_id := 9;
     te_timestamp_ms := 0; te_user_id := "u" |}.
Definition publish_one : KafkaEvent := Publish "events" [] event.
Definition start : KafkaEventPublisher unit :=
  Build_KafkaEventPublisher tt (KafkaIncidentState_new KafkaDropPolicy.IncidentMode) 0.
(** Ten failed deliveries per window for two windows: incident mode with a dwell of 2. *)
Definition outage : list KafkaEvent := windows (replicate 2 (replicate 10 DeliveryFailed)).
Definition in_outage : KafkaEventPublisher unit * Monitor :=
  kafka_run no_bytes 2 DROP_THRESHOLD (start, Monitor_new (incident start)) outage.
(** The recovered broker: twenty publishes, of which two are sent and acknowledged. *)
Definition recovered : list KafkaEvent := replicate 20 publish_one ++ [Delivered; Delivered].
End Sample.

(** After a short outage the policy reverts once two quiet windows have passed. *)
Lemma monitor_refines_hysteresis_witness :
  effective_policy (incident (kafka_run Sample.no_bytes 2 DROP_THRESHOLD
    (Sample.start, Monitor_new (incident Sample.start)) (Sample.outage ++ [Tick; Tick])).1) = EffectivePolicy.Newest.
Proof.
  rewrite (monitor_refines_hysteresis Sample.no_bytes 2 DROP_THRESHOLD Sample.start KafkaDropPolicy.IncidentMode
             (Sample.outage ++ [Tick; Tick])); [vm_compute; reflexivity|unfold u32_max; lia|reflexivity].
Defined.

(** ... but under traffic it does not, although the broker has recovered. *)
Lemma incident_mode_sustains_itself_witness :
  effective_policy (incident (kafka_run Sample.no_bytes 2 DROP_THRESHOLD (Sample.in_outage.1, Sample.in_outage.2)
    (windows (replicate 5 Sample.recovered))).1) = EffectivePolicy.RandomSample.
Proof.
  refine (proj1 (incident_mode_sustains_itself Sample.no_bytes Sample.in_outage.1 Sample.in_outage.2 2
           (replicate 5 Sample.recovered) _ _ _ _ _ _ _)).
  - lia.
  - repeat constructor; vm_compute; congruence.
  - vm_compute. reflexivity.
  - vm_compute. reflexivity.
  - vm_compute. reflexivity.
  - vm_compute. reflexivity.
  - unfold in_range, in_u64. vm_compute. intuition congruence.
Defined.
