(* ===== verification/KafkaPoll.v ===== *)
(** * The Kafka poll thread

    The thread [KafkaEventPublisher::new] starts in [bidder-server/src/kafka.rs], the
    delivery reports it serves to the producer context, and the [Drop] of the
    publisher, which stops and joins it.  Requests publish meanwhile.  librdkafka's
    queue is a class with its documented laws; when [poll] and [flush] return, and
    what they report before, is for the schedule to choose. *)
From S2P Require Import Prelude Config Events Kafka.

(** ** The producer's queue *)

(** [waiting]: records accepted and not reported on; [report] takes one of them. *)
Class DeliveryQueue (R : Type) `{Producer R} := {
  waiting : R -> nat;
  report : R -> option R;
}.
(** A record accepted is reported on once, a record refused never. *)
Class DeliveryQueueLaws (R : Type) `{DeliveryQueue R} : Prop := {
  send_waiting r topic key payload :
    waiting (send r topic key payload).2 = match (send r topic key payload).1 with None => S (waiting r) | Some _ => waiting r end;
  report_waiting r : match report r with Some r' => waiting r = S (waiting r') | None => waiting r = 0%nat end;
}.

(** A bounded queue that counts. *)
#[global] Instance bounded_producer : Producer (nat * nat) :=
  {| send r _ _ _ := if Nat.ltb r.2 r.1 then (None, (r.1, S r.2)) else (Some QueueFull, r) |}.
#[global] Instance bounded_queue : DeliveryQueue (nat * nat) :=
  {| waiting r := r.2; report r := match r.2 with S n => Some (r.1, n) | O => None end |}.
#[global] Instance bounded_queue_laws : DeliveryQueueLaws (nat * nat).
Proof. split; [|by intros [c [|n]]]. intros [c n] topic key payload. unfold send, waiting; simpl. by case_match. Qed.

(** ** Threads *)

Inductive Poller :=
| Checking                (** at the condition of the loop *)
| Polling                 (** in [poll(POLL_INTERVAL)] *)
| Flushing                (** in [flush(5 s)] *)
| Ended.
Inductive Owner :=
| Publishing
| Joining                 (** in [drop], at [handle.join()] *)
| Dropped.
#[global] Instance Poller_eq_dec : EqDecision Poller.
Proof. solve_decision. Defined.
#[global] Instance Owner_eq_dec : EqDecision Owner.
Proof. solve_decision. Defined.

Section Poll.
Context {R : Type} `{DeliveryQueue R} (encode_to_vec : AdEvent.t -> list Z).

Record Sys := { sy_publisher : KafkaEventPublisher R; sy_poller : Poller; sy_shutdown : bool; sy_owner : Owner }.

Inductive Action :=
| Publish (topic : string) (key : list Z) (event : AdEvent.t)
| Check
| Report (delivered : bool)
| Return
| BeginDrop
| Join.

Definition set_poller (y : Sys) (p : Poller) : Sys :=
  {| sy_publisher := sy_publisher y; sy_poller := p; sy_shutdown := sy_shutdown y; sy_owner := sy_owner y |}.
Definition set_publisher (y : Sys) (k : KafkaEventPublisher R) : Sys :=
  {| sy_publisher := k; sy_poller := sy_poller y; sy_shutdown := sy_shutdown y; sy_owner := sy_owner y |}.

(** The body of [drop]. *)
Definition begin_drop (y : Sys) : Sys :=
  {| sy_publisher := sy_publisher y; sy_poller := sy_poller y; sy_shutdown := true; sy_owner := Joining |}.
Definition join (y : Sys) : Sys :=
  match sy_poller y with
  | Ended => {| sy_publisher := sy_publisher y; sy_poller := Ended; sy_shutdown := sy_shutdown y; sy_owner := Dropped |}
  | _ => y
  end.

(** The poll thread: the condition of its loop, and the return of a call into the
    library. *)
Definition check (y : Sys) : Sys :=
  match sy_poller y with Checking => set_poller y (if sy_shutdown y then Flushing else Polling) | _ => y end.
Definition returned (y : Sys) : Sys :=
  match sy_poller y with Polling => set_poller y Checking | Flushing => set_poller y Ended | _ => y end.

(** A report served by the call the thread is in: the callback. *)
Definition serve (delivered : bool) (y : Sys) : Sys :=
  match sy_poller y with
  | Polling | Flushing =>
      let k := sy_publisher y in
      match report (producer k) with
      | Some r => set_publisher y (delivery (Build_KafkaEventPublisher r (incident k) (sample_counter k)) delivered)
      | None => y
      end
  | _ => y
  end.

Definition step (y : Sys) (a : Action) : Sys :=
  match a, sy_owner y with
  | Publish topic key event, Publishing => set_publisher y (kafka_publish encode_to_vec (sy_publisher y) topic key event)
  | Check, _ => check y
  | Report delivered, _ => serve delivered y
  | Return, _ => returned y
  | BeginDrop, Publishing => begin_drop y
  | Join, Joining => join y
  | _, _ => y
  end.
Definition run : Sys -> list Action -> Sys := foldl step.

(** [new]: the thread has been spawned. *)
Definition spawn (k : KafkaEventPublisher R) : Sys :=
  {| sy_publisher := k; sy_poller := Checking; sy_shutdown := false; sy_owner := Publishing |}.

(** The calls of [publish] a schedule makes. *)
Fixpoint published_calls (y : Sys) (acts : list Action) : nat :=
  match acts with
  | [] => 0
  | a :: acts =>
      (match a, sy_owner y with Publish _ _ _, Publishing => 1 | _, _ => 0 end + published_calls (step y a) acts)%nat
  end.
End Poll.
Arguments Sys : clear implicits.

Section Properties.
Context {R : Type} `{DeliveryQueueLaws R} (encode_to_vec : AdEvent.t -> list Z).
Implicit Types (y : Sys R) (k : KafkaEventPublisher R).

(** What has been counted or waits to be. *)
Definition accounted k : Z :=
  published_total (incident k) + dropped_total (incident k) + Z.of_nat (waiting (producer k)).
Definition counters_nonneg k : Prop := 0 <= published_total (incident k) /\ 0 <= dropped_total (incident k).

Lemma count_one n m : 0 <= n -> n + m < 2 ^ 64 -> 0 < m -> as_u64 (n + 1) = n + 1.
Proof. intros. apply as_u64_id. unfold in_u64, u64_max. lia. Qed.

Lemma enqueue_accounts k topic key event : counters_nonneg k -> accounted k + 1 < 2 ^ 64 ->
  let k' := enqueue encode_to_vec k topic key event in accounted k' = accounted k + 1 /\ counters_nonneg k'.
Proof.
  unfold accounted, counters_nonneg, enqueue. intros [Hp Hd] Hn. pose proof (send_waiting (producer k) topic key (encode_to_vec event)) as Hw.
  destruct (send _ _ _ _) as [[e|] r]; cbn in *; rewrite Hw; [|lia].
  rewrite (count_one _ 1) by lia. lia.
Qed.

Lemma publish_accounts k topic key event : counters_nonneg k -> accounted k + 1 < 2 ^ 64 ->
  let k' := kafka_publish encode_to_vec k topic key event in accounted k' = accounted k + 1 /\ counters_nonneg k'.
Proof.
  intros Hk Hn. unfold kafka_publish. destruct (effective_policy _); try by apply enqueue_accounts.
  destruct (negb _); [|by apply (enqueue_accounts (Build_KafkaEventPublisher (producer k) (incident k) _))].
  unfold accounted, counters_nonneg in *. cbn. rewrite (count_one _ 1) by lia. lia.
Qed.

Lemma serve_accounts delivered y : counters_nonneg (sy_publisher y) -> accounted (sy_publisher y) < 2 ^ 64 ->
  accounted (sy_publisher (serve delivered y)) = accounted (sy_publisher y) /\ counters_nonneg (sy_publisher (serve delivered y)).
Proof.
  unfold serve, accounted, counters_nonneg. intros [Hp Hd] Hn. pose proof (report_waiting (producer (sy_publisher y))) as Hw.
  destruct (sy_poller y), (report _) as [r|]; cbn; try done; rewrite Hw in *;
    destruct delivered; cbn; rewrite (count_one _ 1) by lia; lia.
Qed.

(** The owner and the thread agree. *)
Definition agrees y : Prop :=
  match sy_owner y with
  | Publishing => sy_shutdown y = false /\ sy_poller y <> Flushing /\ sy_poller y <> Ended
  | Joining => sy_shutdown y = true
  | Dropped => sy_shutdown y = true /\ sy_poller y = Ended
  end.

Lemma step_agrees y a : agrees y -> agrees (step encode_to_vec y a).
Proof.
  unfold agrees, step. destruct y as [k p sh o]. cbn. destruct a, o; cbn; unfold check, serve, returned, join; cbn;
    try (destruct p; cbn; try tauto; try (destruct (report _); cbn; tauto); destruct sh; cbn; intuition congruence).
Qed.

Lemma run_accounts acts y : agrees y -> counters_nonneg (sy_publisher y) ->
  accounted (sy_publisher y) + Z.of_nat (published_calls encode_to_vec y acts) < 2 ^ 64 ->
  let y' := run encode_to_vec y acts in
  agrees y' /\ accounted (sy_publisher y') = accounted (sy_publisher y) + Z.of_nat (published_calls encode_to_vec y acts).
Proof.
  revert y. induction acts as [|a acts IH]; intros y Ha Hc Hn; cbn; [split; [done|lia]|]. cbn [published_calls] in Hn.
  assert (accounted (sy_publisher (step encode_to_vec y a)) =
            accounted (sy_publisher y) + (match a, sy_owner y with Publish _ _ _, Publishing => 1 | _, _ => 0 end) /\
          counters_nonneg (sy_publisher (step encode_to_vec y a))) as [Hs Hc'].
  { unfold step. destruct a; destruct (sy_owner y) eqn:Eo; rewrite ?Z.add_0_r; try done;
      try (by apply publish_accounts; [done|lia]); try (apply serve_accounts; [done|lia]);
      unfold check, returned, join; by destruct (sy_poller y). }
  destruct (IH (step encode_to_vec y a)) as [Ha' Hacc]; [by apply step_agrees|done| |].
  - rewrite Hs. destruct a, (sy_owner y); lia.
  - split; [done|]. rewrite Hacc, Hs. destruct a, (sy_owner y); lia.
Qed.

(** A thread that stays in the library keeps the owner waiting. *)
Lemma wedged acts y : sy_owner y = Joining -> (sy_poller y = Polling \/ sy_poller y = Flushing) -> Return ∉ acts ->
  sy_owner (run encode_to_vec y acts) = Joining.
Proof.
  revert y. induction acts as [|a acts IH]; intros y Ho Hp Hr; [done|]. rewrite not_elem_of_cons in Hr. destruct Hr as [Hra Hr].
  cbn. assert (sy_owner (step encode_to_vec y a) = Joining /\ sy_poller (step encode_to_vec y a) = sy_poller y) as [Ho' Hp'].
  { unfold step. rewrite Ho. destruct a; try done; unfold check, serve, join; destruct Hp as [Hp|Hp]; rewrite Hp; cbn; auto;
      destruct (report (producer (sy_publisher y))); cbn; auto. }
  apply IH; [done|by rewrite Hp'|done].
Qed.

Lemma drop_returns y : sy_owner y = Joining -> sy_shutdown y = true ->
  exists later, later ∈ [[Join]; [Return; Join]; [Check; Return; Join]; [Return; Check; Return; Join]] /\
    sy_owner (run encode_to_vec y later) = Dropped.
Proof.
  destruct y as [k p sh o]. cbn. intros -> ->.
  destruct p; [exists [Check; Return; Join]|exists [Return; Check; Return; Join]|exists [Return; Join]|exists [Join]];
    (split; [set_solver|done]).
Qed.

(** [C24] For every schedule of publishing requests, delivery reports, returns from
    librdkafka and the dropping of the publisher: each call of [publish] is counted
    exactly once, as published or as dropped, or its record still waits in the queue;
    the thread ends only for a drop.  A drop returns only after the thread has ended,
    within two more returns from the library, and what waits then is never counted;
    but it is no best-effort join: a drop that begins while the thread is in a call
    that does not return never returns. *)
Theorem poll_thread_accounts k (acts : list Action)
    (Hfresh : published_total (incident k) = 0 /\ dropped_total (incident k) = 0 /\ waiting (producer k) = 0%nat)
    (Hlen : Z.of_nat (length acts) < 2 ^ 64) :
  let y := run encode_to_vec (spawn k) acts in
  published_total (incident (sy_publisher y)) + dropped_total (incident (sy_publisher y)) +
    Z.of_nat (waiting (producer (sy_publisher y))) = Z.of_nat (published_calls encode_to_vec (spawn k) acts) /\
  (sy_poller y = Ended -> sy_owner y <> Publishing) /\ (sy_owner y = Dropped -> sy_poller y = Ended) /\
  (sy_owner y = Joining -> exists later, later ∈ [[Join]; [Return; Join]; [Check; Return; Join]; [Return; Check; Return; Join]] /\
     sy_owner (run encode_to_vec y later) = Dropped) /\
  (sy_owner y = Joining -> (sy_poller y = Polling \/ sy_poller y = Flushing) -> forall later, Return ∉ later ->
     sy_owner (run encode_to_vec y later) = Joining).
Proof.
  intros y. destruct Hfresh as (Hp & Hd & Hw).
  assert (forall l y, (published_calls encode_to_vec y l <= length l)%nat) as Hcalls.
  { induction l as [|a l IH]; intros y0; cbn; [done|]. specialize (IH (step encode_to_vec y0 a)). destruct a, (sy_owner y0); lia. }
  specialize (Hcalls acts (spawn k)).
  assert (accounted k = 0) as Hz by (unfold accounted; rewrite Hp, Hd, Hw; done).
  destruct (run_accounts acts (spawn k)) as [Ha Hacc]; [done|unfold counters_nonneg; cbn; lia|cbn; lia|]. fold y in Ha, Hacc.
  cbn in Hacc. rewrite Hz in Hacc. split; [exact Hacc|]. unfold agrees in Ha. split_and!.
  - intros He Ho. rewrite Ho in Ha. tauto.
  - intros Ho. rewrite Ho in Ha. tauto.
  - intros Ho. rewrite Ho in Ha. by apply drop_returns.
  - intros Ho Hpo later. by apply wedged.
Qed.
End Properties.

(** A queue of three; two reports come, the drop flushes one more and abandons one. *)
Module PollSample.
Definition publisher : KafkaEventPublisher (nat * nat) :=
  Build_KafkaEventPublisher (3, 0)%nat (KafkaIncidentState_new KafkaDropPolicy.Newest) 0.
Definition publish_one : Action := Publish "events" [] Kafka.Sample.event.
Definition schedule : list Action :=
  replicate 5 publish_one ++ [Check; Report true; Report false; BeginDrop; publish_one; Return; Check; Return; Join].
End PollSample.

Lemma poll_thread_accounts_witness :
  let y := run Kafka.Sample.no_bytes (spawn PollSample.publisher) PollSample.schedule in
  sy_poller y = Ended /\
  published_total (incident (sy_publisher y)) + dropped_total (incident (sy_publisher y)) +
    Z.of_nat (waiting (producer (sy_publisher y))) = 5.
Proof.
  intros y. destruct (poll_thread_accounts Kafka.Sample.no_bytes PollSample.publisher PollSample.schedule) as (Hacc & _ & Hd & _);
    [vm_compute; done|vm_compute; done|]. split; [by apply Hd|exact Hacc].
Defined.
