(* ===== verification/Exchange.v ===== *)
(** * Exchange adapters

    [bidder-core/src/exchange/]: the adapter trait, the generic OpenRTB adapter
    and the Google AdX adapter with its mapping between the messages of
    [bidder-protos/proto/adx.proto] and the internal model.  The wire codecs
    ([simd_json], [serde_json], [prost]) are parameters; of [serde_json::from_value]
    the AdX mapping relies on what the derived [Deserialize] does to an object
    that names only some members, which is the class [FromValueLaws]. *)
From S2P Require Import Prelude Floats FloatErr Text OpenRtb Bitmap Catalog Model Scoring Segments Frequency Pacing Externals Pipeline.

(** ** The trait *)

Notation ExchangeId := string (only parsing).
Notation ResponseContentType := string (only parsing).

Class ExchangeAdapter (A Value : Type) := {
  adapter_id : A -> ExchangeId;
  decode_request : A -> list Z -> Result (BidRequest Value) string;
  encode_response : A -> BidResponse Value -> Result (list Z * ResponseContentType) string;
}.

(** ** [OpenRtbGenericAdapter] *)

Module OpenRtbGeneric.
Inductive OpenRtbGenericAdapter := open_rtb_generic.

Definition RESPONSE_CONTENT_TYPE : ResponseContentType := "application/json".
Definition ID : ExchangeId := "openrtb-generic".

(** [simd_json::from_slice] and [serde_json::to_vec] are the arguments. *)
Definition adapter {Value} (from_slice : list Z -> Result (BidRequest Value) string)
    (to_vec : BidResponse Value -> Result (list Z) string) : ExchangeAdapter OpenRtbGenericAdapter Value := {|
  adapter_id _ := ID;
  decode_request _ body :=
    match from_slice body with
    | Ok req => Ok req
    | Err e => Err ("simd-json bid request decode failed: " +:+ e)%string
    end;
  encode_response _ response :=
    match to_vec response with
    | Ok body => Ok (body, RESPONSE_CONTENT_TYPE)
    | Err e => Err ("bid response JSON encode failed: " +:+ e)%string
    end |}.
End OpenRtbGeneric.

(** ** The AdX messages *)

Record AdxSlot := {
  as_id : Z;
  as_width : list Z;
  as_height : list Z;
  as_matching_ad_data_minimum_cpm_micros : Z;
}.
Record AdxSite := { ax_url : string; ax_referrer : string }.
Record AdxMobile := { ax_app_id : string; ax_device_type : Z }.
Record AdxUser := { ax_google_user_id : string }.
Record AdxGeo := { ax_country : string; ax_region : string; ax_city : string }.
Record AdxDevice := { ax_ua : string; ax_ip : string }.

Record AdxBidRequest := {
  axq_id : list Z;
  axq_adslot : option AdxSlot;
  axq_site : option AdxSite;
  axq_mobile : option AdxMobile;
  axq_user : option AdxUser;
  axq_geo : option AdxGeo;
  axq_device : option AdxDevice;
}.

Record AdxAd := {
  ad_max_cpm_micros : Z;
  ad_buyer_creative_id : Z;
  ad_adslot_id : Z;
  ad_nurl : string;
  ad_ext_json : string;
}.
Record AdxBidResponse := { axr_id : list Z; axr_ad : list AdxAd }.

(** ** Building the JSON tree *)

(** The further [json!] conversions the mapping uses. *)
Class JsonBuild (Value : Type) := {
  json_array : list Value -> Value;
  json_i32 : Z -> Value;
  json_f64 : f64 -> Value;
}.

(** A byte as two lowercase hexadecimal digits, and the fallback of an id that is
    not UTF-8. *)
Definition hex_digit (n : Z) : Ascii.ascii :=
  Ascii.ascii_of_nat (Z.to_nat (if n <? 10 then 48 + n else 87 + n)).
Fixpoint hex (l : list Z) : string :=
  match l with
  | [] => EmptyString
  | b :: l => String (hex_digit (b / 16)) (String (hex_digit (b mod 16)) (hex l))
  end.
Definition bytes_to_string_lossy (b : list Z) : string := if utf8_valid b then of_bytes b else hex b.

Definition member {A V} (key : string) (f : A -> V) (o : option A) : list (string * V) :=
  match o with Some a => [(key, f a)] | None => [] end.

Section Adx.
Context {Value : Type} `{JsonValue Value} `{JsonBuild Value}.

Definition site_json (page ref : option string) : Value :=
  json_object (member "page" json_str page ++ member "ref" json_str ref).
Definition geo_json (g : AdxGeo) : Value :=
  json_object [("country", json_str (ax_country g)); ("region", json_str (ax_region g)); ("city", json_str (ax_city g))]%string.
Definition device_json (ua ip : option string) (geo : option AdxGeo) : Value :=
  json_object (member "ua" json_str ua ++ member "ip" json_str ip ++ member "geo" geo_json geo).
Definition imp_json (imp_id : string) (w h : Z) (bidfloor : f64) : Value :=
  json_object [("id", json_str imp_id); ("banner", json_object [("w", json_i32 w); ("h", json_i32 h)]);
               ("bidfloor", json_f64 bidfloor)]%string.

(** [site_page.is_some() || site_ref.is_some()] and the like. *)
Definition site_of (page ref : option string) : option Value :=
  match page, ref with None, None => None | _, _ => Some (site_json page ref) end.
Definition device_of (ua ip : option string) (geo : option AdxGeo) : option Value :=
  match ua, ip, geo with None, None, None => None | _, _, _ => Some (device_json ua ip geo) end.

Definition request_json (id imp_id : string) (w h : Z) (bidfloor : f64) (user : option string)
    (page ref ua ip : option string) (geo : option AdxGeo) : Value :=
  json_object ([("id", json_str id); ("imp", json_array [imp_json imp_id w h bidfloor])]%string ++
    member "user" (fun uid => json_object [("id"%string, json_str uid)]) user ++
    member "site" (fun v => v) (site_of page ref) ++ member "device" (fun v => v) (device_of ua ip geo)).

(** [adx_to_internal]; [from_value] is [serde_json::from_value::<BidRequest>]. *)
Definition adx_to_internal (from_value : Value -> Result (BidRequest Value) string) (raw : AdxBidRequest)
  : Result (BidRequest Value) string :=
  let id := bytes_to_string_lossy (axq_id raw) in
  let user_id := ax_google_user_id <$> axq_user raw in
  let device_ua := ax_ua <$> axq_device raw in
  let device_ip := ax_ip <$> axq_device raw in
  let site_page := ax_url <$> axq_site raw in
  let site_ref := ax_referrer <$> axq_site raw in
  match axq_adslot raw with
  | None => Err "adx bid request missing adslot"%string
  | Some slot =>
      let w := as_i32 (unwrap_or (head (as_width slot)) 0) in
      let h := as_i32 (unwrap_or (head (as_height slot)) 0) in
      let floor_usd := f64_div (f64_of_Z (as_matching_ad_data_minimum_cpm_micros slot)) (f64_of_Z 1000000) in
      from_value (request_json id (pretty (as_id slot)) w h floor_usd user_id site_page site_ref
                    device_ua device_ip (axq_geo raw))
  end.

(** One [Ad] per bid. *)
Definition ad_of (bid : Bid Value) : AdxAd := {|
  ad_max_cpm_micros := f_to_i64 (f64_round (f64_mul (bid_price bid) (f64_of_Z 1000000)));
  ad_buyer_creative_id := unwrap_or (s ← bid_crid bid; parse_u32 s) 0;
  ad_adslot_id := unwrap_or (parse_u32 (bid_impid bid)) 0;
  ad_nurl := unwrap_or (bid_nurl bid) ""%string;
  ad_ext_json := match bid_ext bid with Some v => json_to_string v | None => ""%string end |}.

Definition internal_to_adx (resp : BidResponse Value) : AdxBidResponse := {|
  axr_id := utf8 (resp_id resp);
  axr_ad := resp_seatbid resp ≫= (fun sb => ad_of <$> sb_bid sb) |}.

Inductive GoogleAdxAdapter := google_adx.
Definition ADX_RESPONSE_CONTENT_TYPE : ResponseContentType := "application/octet-stream".
Definition ADX_ID : ExchangeId := "google-adx".

(** [prost]'s [decode] and [encode], and [from_value], are the arguments. *)
Definition adx_adapter (decode : list Z -> Result AdxBidRequest string)
    (encode : AdxBidResponse -> Result (list Z) string)
    (from_value : Value -> Result (BidRequest Value) string) : ExchangeAdapter GoogleAdxAdapter Value := {|
  adapter_id _ := ADX_ID;
  decode_request _ body :=
    match decode body with
    | Ok raw => adx_to_internal from_value raw
    | Err e => Err ("adx protobuf bid request decode failed: " +:+ e)%string
    end;
  encode_response _ response :=
    match encode (internal_to_adx response) with
    | Ok buf => Ok (buf, ADX_RESPONSE_CONTENT_TYPE)
    | Err e => Err ("adx protobuf bid response encode failed: " +:+ e)%string
    end |}.
End Adx.

(** ** What the derived [Deserialize] makes of the tree

    The struct definitions of [model/openrtb.rs] give an absent [Option] member
    [None] and an absent [#[serde(default)]] member its default; [json!] turns a
    float that is not finite into [null], which an [Option] reads as [None]. *)
Section FromValue.
Context {Value : Type} `{JsonValue Value} `{JsonBuild Value}.

Definition is_finite (a : f64) : bool := match a with S754_zero _ | S754_finite _ _ _ => true | _ => false end.

Definition imp_with (imp_id : string) (w h : Z) (bidfloor : f64) : Imp Value := {|
  OpenRtb.imp_id := imp_id;
  imp_banner := Some {| ban_format := []; ban_w := Some w; ban_h := Some h; ban_wmax := None; ban_hmax := None;
    ban_wmin := None; ban_hmin := None; ban_btype := []; ban_battr := []; ban_pos := None; ban_mimes := [];
    ban_topframe := None; ban_expdir := []; ban_api := []; ban_id := None; ban_vcm := None; ban_ext := None |};
  imp_video := None; imp_audio := None; imp_native := None; imp_pmp := None; imp_displaymanager := None;
  imp_displaymanagerver := None; imp_instl := 0; imp_tagid := None;
  imp_bidfloor := if is_finite bidfloor then Some bidfloor else None;
  imp_bidfloorcur := None; imp_clickbrowser := 0; imp_secure := 0; imp_iframebuster := []; imp_rwdd := None;
  imp_ssai := None; imp_exp := None; imp_ext := None |}.

Definition user_with (uid : string) : User Value := {|
  user_id := Some uid; user_buyeruid := None; user_yob := None; user_gender := None; user_keywords := None;
  user_customdata := None; user_geo := None; user_data := []; user_eids := None; user_ext := None |}.

Definition site_with (page ref : option string) : Site Value := {|
  site_id := None; site_name := None; site_domain := None; site_cat := []; site_sectioncat := []; site_pagecat := [];
  site_page := page; site_ref := ref; site_search := None; site_mobile := None; site_privacypolicy := None;
  site_publisher := None; site_content := None; site_keywords := None; site_ext := None |}.

Definition geo_with (g : AdxGeo) : Geo Value := {|
  geo_lat := None; geo_lon := None; geo_type := None; geo_accuracy := None; geo_lastfix := None;
  geo_ipservice := None; geo_country := Some (ax_country g); geo_region := Some (ax_region g);
  geo_regionfips104 := None; geo_metro := None; geo_city := Some (ax_city g); geo_zip := None;
  geo_utcoffset := None; geo_ext := None |}.

Definition device_with (ua ip : option string) (geo : option AdxGeo) : Device Value := {|
  dev_ua := ua; dev_geo := geo_with <$> geo; dev_dnt := None; dev_lmt := None; dev_ip := ip; dev_ipv6 := None;
  dev_devicetype := None; dev_make := None; dev_model := None; dev_os := None; dev_osv := None; dev_hwv := None;
  dev_h := None; dev_w := None; dev_ppi := None; dev_pxratio := None; dev_js := None; dev_geofetch := None;
  dev_flashver := None; dev_language := None; dev_carrier := None; dev_mccmnc := None; dev_connectiontype := None;
  dev_ifa := None; dev_didsha1 := None; dev_didmd5 := None; dev_dpidsha1 := None; dev_dpidmd5 := None;
  dev_macsha1 := None; dev_macmd5 := None; dev_ext := None |}.

(** The objects that may be absent as a whole. *)
Definition site_option (page ref : option string) : option (Site Value) :=
  match page, ref with None, None => None | _, _ => Some (site_with page ref) end.
Definition device_option (ua ip : option string) (geo : option AdxGeo) : option (Device Value) :=
  match ua, ip, geo with None, None, None => None | _, _, _ => Some (device_with ua ip geo) end.

Definition request_with (id imp_id : string) (w h : Z) (bidfloor : f64) (user page ref ua ip : option string)
    (geo : option AdxGeo) : BidRequest Value := {|
  br_id := id; br_imp := [imp_with imp_id w h bidfloor]; br_site := site_option page ref; br_app := None;
  br_dooh := None; br_device := device_option ua ip geo; br_user := user_with <$> user; br_at := None;
  br_tmax := None; br_wseat := []; br_bseat := []; br_cur := None; br_wlang := []; br_bcat := []; br_badv := [];
  br_bapp := []; br_source := None; br_regs := None; br_test := 0; br_ext := None |}.

Class FromValueLaws (from_value : Value -> Result (BidRequest Value) string) := {
  from_value_request id imp_id w h bidfloor user page ref ua ip geo :
    in_i32 w -> in_i32 h ->
    from_value (request_json id imp_id w h bidfloor user page ref ua ip geo) =
    Ok (request_with id imp_id w h bidfloor user page ref ua ip geo);
}.
End FromValue.
Arguments FromValueLaws {Value _ _} from_value.

(** ** Lemmas *)

Lemma as_i32_range z : in_i32 (as_i32 z).
Proof. unfold in_i32, as_i32. pose proof (Z.mod_pos_bound (z + 2 ^ 31) (2 ^ 32)). lia. Qed.

(** Two rounded operations and a rounding to an integer lose nothing on a price. *)
Lemma cents_to_micros c : 0 <= c < 2 ^ 31 ->
  f_to_i64 (f64_round (f64_mul (f64_div (f64_of_Z c) (f64_of_Z 100)) (f64_of_Z 1000000))) = c * 10000.
Proof.
  intros Hc. destruct (Z.eq_dec c 0) as [->|Hc0]; [reflexivity|].
  destruct (f64_div_of_Z c 100 ltac:(lia) ltac:(lia)) as (m1 & e1 & -> & Hm1 & He1 & H1).
  change (f64_of_Z 1000000) with (S754_finite false 8589934592000000 (-33)).
  destruct (f64_mul_spec m1 e1 8589934592000000 (-33) Hm1 ltac:(unfold normal; lia) ltac:(lia))
    as (m & e & -> & Hm & He & H2).
  assert (0 < 2 ^ (- e1)) as HA by (apply Z.pow_pos_nonneg; lia).
  set (T := 2 ^ (e - (e1 + -33))) in *. assert (0 < T) as HT by (apply Z.pow_pos_nonneg; lia).
  assert (c * 2 ^ (- e1) < 2 ^ 31 * 2 ^ (- e1)) as Hb by (apply Z.mul_lt_mono_pos_r; lia).
  assert (2 * Z.abs (Z.pos m * T - 10000 * (c * 2 ^ (- e1)) * 2 ^ 33) < 2 ^ (- e1) * 2 ^ 33) as Herr by lia.
  assert (e <= 0) as He0.
  { destruct (Z.le_gt_cases e 0); [done|exfalso].
    assert (2 ^ (1 + - e1 + 33) <= T) as Hp by (apply Z.pow_le_mono_r; lia).
    rewrite !Z.pow_add_r in Hp by lia. unfold normal in Hm.
    assert (2 ^ 52 * (2 ^ 1 * 2 ^ (- e1) * 2 ^ 33) <= Z.pos m * T) by (apply Z.mul_le_mono_nonneg; lia). lia. }
  assert (2 ^ (- e) * T = 2 ^ (- e1) * 2 ^ 33) as HeT.
  { unfold T. rewrite <- !Z.pow_add_r by lia. f_equal. lia. }
  apply round_near; [lia|lia|]. apply (Z.mul_lt_mono_pos_r _ _ _ HT).
  replace (2 * Z.abs (Z.pos m - c * 10000 * 2 ^ (- e)) * T)
    with (2 * Z.abs ((Z.pos m - c * 10000 * 2 ^ (- e)) * T)) by (rewrite Z.abs_mul, (Z.abs_eq T); lia).
  replace ((Z.pos m - c * 10000 * 2 ^ (- e)) * T)
    with (Z.pos m * T - 10000 * (c * (2 ^ (- e) * T))) by ring.
  rewrite HeT. replace (10000 * (c * (2 ^ (- e1) * 2 ^ 33))) with (10000 * (c * 2 ^ (- e1)) * 2 ^ 33) by ring. done.
Qed.

Lemma length_hex l : length (utf8 (hex l)) = (2 * length l)%nat.
Proof. unfold utf8. rewrite length_fmap. induction l as [|b l IH]; simpl in *; lia. Qed.

(** The id survives the trip through a string iff it was one. *)
Lemma id_echo b : Forall in_u8 b -> utf8 (bytes_to_string_lossy b) = b <-> utf8_valid b = true.
Proof.
  intros Hb. unfold bytes_to_string_lossy. destruct (utf8_valid b) eqn:Hv.
  - split; [done|]. intros _. by apply utf8_of_bytes.
  - split; [|done]. intros He. apply (f_equal length) in He. rewrite length_hex in He.
    destruct b; [done|]. simpl in He. lia.
Qed.

Lemma retrieve_nil {Value B} `{BitmapLaws B} (cat : CampaignCatalog B) (req : BidRequest Value) segs imp :
  catalog_wf cat -> (forall id, ~ matches cat (candidate_request req segs imp) id) -> retrieve cat req segs imp = [].
Proof.
  intros Hwf Hm. unfold retrieve.
  destruct (bm_iter (candidates_for cat (candidate_request req segs imp))) as [|id l] eqn:E; [done|exfalso].
  assert (id ∈ bm_iter (candidates_for cat (candidate_request req segs imp))) as Hid by (rewrite E; left).
  rewrite elem_of_bm_iter, elem_of_candidates_for in Hid by done. destruct Hid as [_ Hid]. by apply (Hm id).
Qed.

(** ** Properties *)

(** [C26] Decoding an AdX request fails exactly if the body is not the message or
    names no ad slot.  Otherwise the request has one banner impression, whose id
    is the slot's, and the user's id is [google_user_id] verbatim, also when it is
    empty; a [geo] message without a country (the proto3 default) becomes the
    country code "", so unless a campaign targets that code no candidate is
    retrieved for any impression and any segments. *)
Theorem adx_request_spec {Value} `{JsonValue Value} `{JsonBuild Value} {B} `{BitmapLaws B}
    (decode : list Z -> Result AdxBidRequest string) (encode : AdxBidResponse -> Result (list Z) string)
    (from_value : Value -> Result (BidRequest Value) string) (body : list Z) (Hfv : FromValueLaws from_value) :
  let r := @decode_request _ _ (adx_adapter decode encode from_value) google_adx body in
  (is_ok r = true <-> exists raw, decode body = Ok raw /\ axq_adslot raw <> None) /\
  (forall raw slot req, decode body = Ok raw -> axq_adslot raw = Some slot -> r = Ok req ->
     br_id req = bytes_to_string_lossy (axq_id raw) /\
     (imp_id <$> br_imp req) = [pretty (as_id slot)] /\
     (imp_ad_format <$> br_imp req) = [Some AdFormat.Banner] /\
     (u ← br_user req; user_id u) = ax_google_user_id <$> axq_user raw /\
     target_device req = None /\
     (forall geo (cat : CampaignCatalog B) segs imp, axq_geo raw = Some geo -> ax_country geo = ""%string ->
        catalog_wf cat -> (forall id, ~ indexed (geo_to_campaigns cat) {| gk_kind := Country; gk_code := "" |} id) ->
        retrieve cat req segs imp = [])).
Proof.
  intros r. unfold decode_request, adx_adapter in r. subst r. destruct (decode body) as [raw|e] eqn:Ed; simpl.
  2:{ split; [|done]. split; [done|]. intros (raw & [=] & _). }
  unfold adx_to_internal. destruct (axq_adslot raw) as [slot|] eqn:Es; simpl.
  2:{ split; [|congruence]. split; [done|]. intros (raw' & [= <-] & Hs). by rewrite Es in Hs. }
  rewrite from_value_request by apply as_i32_range. split.
  { simpl. split; [|done]. intros _. exists raw. split; [done|]. by rewrite Es. }
  intros raw' slot' req [= <-] Hs Hreq. rewrite Es in Hs. injection Hs as <-. injection Hreq as Hreq.
  assert (forall geo, axq_geo raw = Some geo ->
    geo_keys req = Some [{| gk_kind := Country; gk_code := ax_country geo |}]) as Hk.
  { intros geo Hg. rewrite <- Hreq, Hg. unfold geo_keys. simpl. by destruct (axq_device raw). }
  split_and!; try (by rewrite <- Hreq).
  - rewrite <- Hreq. simpl. by destruct (axq_user raw).
  - rewrite <- Hreq. unfold target_device. simpl. by destruct (axq_device raw), (axq_geo raw).
  - intros geo cat segs imp Hg Hc Hwf Hno. apply retrieve_nil; [done|]. intros id (_ & Hgeo & _).
    unfold matches_geo, candidate_request in Hgeo. cbn [rq_geo_keys] in Hgeo. rewrite (Hk geo Hg), Hc in Hgeo.
    simpl in Hgeo. destruct Hgeo as [[=]|(k & Hin & Hi)].
    apply list_elem_of_singleton in Hin as ->. by apply (Hno id).
Qed.

(** [C25] What the response stage builds reaches AdX without loss: for every winner
    one ad, in order, whose price is exactly the bid price in cents times ten
    thousand micros although it passes through two [f64] operations, with the
    winner's creative and the slot the impression came from. *)
Theorem adx_ads_exact {Value B} `{JsonValue Value} {N} `{NoticeUrlBuilder N} (builder : N) (exchange_id : string)
    (ctx : BidContext Value B) (slot : Z) (Hslot : in_u32 slot)
    (Hw : Forall (fun w => 0 <= iw_bid_price_cents w < 2 ^ 31 /\ in_u32 (iw_creative_id w) /\
                           iw_imp_id w = pretty slot) (winners ctx)) :
  let ads := axr_ad (internal_to_adx (bid_response_of builder exchange_id ctx)) in
  (fun a => (ad_max_cpm_micros a, ad_buyer_creative_id a, ad_adslot_id a)) <$> ads =
  (fun w => (iw_bid_price_cents w * 10000, iw_creative_id w, slot)) <$> winners ctx.
Proof.
  intros ads. subst ads. cbn [internal_to_adx bid_response_of axr_ad resp_seatbid sb_bid mbind list_bind].
  rewrite app_nil_r, <- !list_fmap_compose. apply list_fmap_ext. intros i w Hi.
  apply (Forall_lookup_1 _ _ _ _ Hw) in Hi as (Hp & Hc & Him). unfold compose, ad_of, bid_of. simpl.
  rewrite cents_to_micros, Him, !parse_u32_pretty by done. done.
Qed.

(** The request id is echoed to AdX byte for byte exactly if it is UTF-8: a
    binary id, such as the 16 bytes of a UUID, comes back as its hexadecimal
    text, which AdX never sent. *)
Theorem adx_id_echoed_iff_utf8 {Value} `{JsonValue Value} `{JsonBuild Value}
    (from_value : Value -> Result (BidRequest Value) string) (raw : AdxBidRequest) (req : BidRequest Value)
    (resp : BidResponse Value) (Hfv : FromValueLaws from_value) (Hid : Forall in_u8 (axq_id raw))
    (Hreq : adx_to_internal from_value raw = Ok req) (Hresp : resp_id resp = br_id req) :
  axr_id (internal_to_adx resp) = axq_id raw <-> utf8_valid (axq_id raw) = true.
Proof.
  unfold adx_to_internal in Hreq. destruct (axq_adslot raw) as [slot|]; [|done].
  rewrite from_value_request in Hreq by apply as_i32_range. injection Hreq as <-. simpl. rewrite Hresp. simpl.
  by apply id_echo.
Qed.

Module Sample.
(** A JSON tree, and a decoder that reads the members the mapping can produce. *)
Inductive Json :=
| JNull | JStr (s : string) | JInt (z : Z) | JFloat (f : spec_float)
| JObj (members : list (string * Json)) | JArr (l : list Json).
#[global] Instance json_value : JsonValue Json := {|
  json_get v k := match v with JObj l => snd <$> find_first (fun m => bool_decide (m.1 = k)) l | _ => None end;
  json_as_str v := match v with JStr s => Some s | _ => None end;
  json_object := JObj; json_f32 := JFloat; json_u32 := JInt; json_str := JStr; json_to_string _ := "{}"%string |}.
#[global] Instance json_build : JsonBuild Json := {|
  json_array := JArr; json_i32 := JInt; json_f64 f := if is_finite f then JFloat f else JNull |}.

Definition get_str (v : Json) (k : string) : option string := x ← json_get v k; json_as_str x.
Definition get_int (v : Json) (k : string) : option Z :=
  match json_get v k with Some (JInt z) => Some z | _ => None end.
Definition get_float (v : Json) (k : string) : option f64 :=
  match json_get v k with Some (JFloat f) => Some f | _ => None end.

Definition de_banner (v : Json) : Banner Json :=
  Build_Banner [] (get_int v "w") (get_int v "h") None None None None [] [] None [] None [] [] None None None.
Definition de_imp (v : Json) : option (Imp Json) :=
  id ← get_str v "id";
  Some (Build_Imp id (de_banner <$> json_get v "banner") None None None None None None 0 None (get_float v "bidfloor")
          None 0 0 [] None None None None).
Definition de_user (v : Json) : User Json := Build_User (get_str v "id") None None None None None None [] None None.
Definition de_site (v : Json) : Site Json :=
  Build_Site None None None [] [] [] (get_str v "page") (get_str v "ref") None None None None None None None.
Definition de_geo (v : Json) : Geo Json :=
  Build_Geo None None None None None None (get_str v "country") (get_str v "region") None None (get_str v "city")
    None None None.
Definition de_device (v : Json) : Device Json :=
  Build_Device (get_str v "ua") (de_geo <$> json_get v "geo") None None (get_str v "ip") None None None None None None
    None None None None None None None None None None None None None None None None None None None None.

Definition from_value (v : Json) : Result (BidRequest Json) string :=
  match get_str v "id", json_get v "imp" with
  | Some id, Some (JArr imps) =>
      match mapM de_imp imps with
      | Some imps => Ok (Build_BidRequest id imps (de_site <$> json_get v "site") None None
                           (de_device <$> json_get v "device") (de_user <$> json_get v "user") None None
                           [] [] None [] [] [] [] None None 0 None)
      | None => Err "invalid imp"%string
      end
  | _, _ => Err "missing field"%string
  end.

#[global] Instance from_value_laws : FromValueLaws from_value.
Proof.
  split. intros id iid w h f user page ref ua ip geo _ _. unfold request_with, imp_with.
  destruct user, page, ref, ua, ip, geo; cbn; destruct (is_finite f); reflexivity.
Defined.

(** A request with a binary id, an anonymous user and a [geo] without a country. *)
Definition slot : AdxSlot := {|
  as_id := 42; as_width := [300]; as_height := [250]; as_matching_ad_data_minimum_cpm_micros := 1500000 |}.
Definition raw : AdxBidRequest := {|
  axq_id := [0xDE; 0xAD; 0xBE; 0xEF]; axq_adslot := Some slot; axq_site := None; axq_mobile := None;
  axq_user := Some {| ax_google_user_id := "" |};
  axq_geo := Some {| ax_country := ""; ax_region := "CA"; ax_city := "SF" |}; axq_device := None |}.
Definition decode (body : list Z) : Result AdxBidRequest string := Ok raw.
Definition encode (r : AdxBidResponse) : Result (list Z) string := Ok (axr_id r).
Definition request : BidRequest Json :=
  match adx_to_internal from_value raw with Ok req => req | Err _ => request_with "" "" 0 0 S754_nan None None None None None None end.

Definition ctx : BidContext Json (gset Z) :=
  set_winners (BidContext_new request 0)
    [{| iw_imp_id := "42"; iw_campaign_id := 7; iw_creative_id := 100; iw_bid_price_cents := 29; iw_score := f32_of_Z 1 |}].
End Sample.

(** A catalog without geo targeting offers nothing to a request with an empty country. *)
Lemma adx_request_spec_witness :
  br_imp Sample.request <> [] /\ (u ← br_user Sample.request; user_id u) = Some ""%string /\
  forall cat : CampaignCatalog (gset Z), cat = catalog_default ->
    retrieve cat Sample.request [] (imp_with "42" 300 250 (f64_of_Z 1)) = [].
Proof.
  destruct (adx_request_spec (B := gset Z) Sample.decode Sample.encode Sample.from_value [] Sample.from_value_laws) as [_ H].
  specialize (H Sample.raw Sample.slot Sample.request eq_refl eq_refl ltac:(reflexivity)).
  destruct H as (_ & _ & _ & Hu & _ & Hg). split; [vm_compute; discriminate|]. split; [exact Hu|].
  intros cat ->. apply (Hg {| ax_country := ""; ax_region := "CA"; ax_city := "SF" |}); try reflexivity.
  - unfold catalog_wf, catalog_default; simpl. split_and!; lazymatch goal with |- map_Forall _ _ => apply map_Forall_empty | _ => vm_decide end.
  - intros id (b & Hb & _). simpl in Hb. by rewrite lookup_empty in Hb.
Defined.

(** 29 cents are 0.29 dollars, not a binary fraction; AdX gets 290000 micros. *)
Lemma adx_ads_exact_witness :
  (fun a => (ad_max_cpm_micros a, ad_buyer_creative_id a, ad_adslot_id a)) <$>
    axr_ad (internal_to_adx (bid_response_of no_notice_url "google-adx" Sample.ctx)) = [(290000, 100, 42)].
Proof.
  apply (adx_ads_exact no_notice_url "google-adx" Sample.ctx 42); [unfold in_u32, u32_max; lia|].
  repeat constructor; simpl; unfold u32_max; lia || reflexivity.
Defined.

(** Four bytes that are not UTF-8 come back as eight. *)
Lemma adx_id_echoed_iff_utf8_witness :
  axr_id (internal_to_adx (no_bid (br_id Sample.request) NO_ELIGIBLE_BIDS : BidResponse Sample.Json)) <> axq_id Sample.raw.
Proof.
  rewrite (adx_id_echoed_iff_utf8 Sample.from_value Sample.raw Sample.request
             (no_bid (br_id Sample.request) NO_ELIGIBLE_BIDS) Sample.from_value_laws); try reflexivity.
  - discriminate.
  - repeat constructor; unfold u8_max; lia.
Defined.
