(* ===== verification/Server.v ===== *)
(** * The HTTP handlers

    [bidder-server/src/server/handlers.rs] (the [bid], [liveness] and [readiness]
    handlers; [win] is in [WinNotice]), the timeout middleware and the limits of
    [routes.rs], and [health.rs].  Routing, extractors and the tower layers are
    axum's and tower's. *)
From S2P Require Import Prelude Floats Config OpenRtb Bitmap Catalog Model Externals Pacing Frequency Scoring Segments.
From S2P Require Import Pipeline PipelineInv PipelineProps Exchange Hedge WinNotice Events.

(** ** [HealthState] *)

Record HealthState := { ready : bool }.
Definition HealthState_new : HealthState := {| ready := false |}.
Definition set_ready (h : HealthState) : HealthState := {| ready := true |}.
Definition set_not_ready (h : HealthState) : HealthState := {| ready := false |}.
Definition is_ready (h : HealthState) : bool := ready h.

Definition liveness : StatusCode := OK.
Definition readiness (h : HealthState) : StatusCode := if is_ready h then OK else SERVICE_UNAVAILABLE.

(** ** Responses *)

Record Response := { rs_status : StatusCode; rs_content_type : option string; rs_body : list Z }.
(** [status.into_response()] *)
Definition bare (status : StatusCode) : Response := {| rs_status := status; rs_content_type := None; rs_body := [] |}.

(** A handler answers or panics. *)
Inductive Answer := Answered (r : Response) | Panicked.

(** ** The [bid] handler *)

Section Handler.
Context {Value : Type} `{JsonValue Value} {B : Type} `{Bitmap B}.
Context {C : Type} `{KVCache C string (list SegmentId)} {G GE : Type} `{UserSegmentRepository G GE}.
Context {Sc : Type} `{Scorer Sc} {F FE : Type} `{FrequencyCapper F FE} {P : Type} `{BudgetPacer P}.
Context {N : Type} `{NoticeUrlBuilder N} {A : Type} `{ExchangeAdapter A Value} {K : Type} `{EventPublisher K}.
Context (heap_order : list AdCandidate -> list AdCandidate).

(** What the handler reaches through [AppState] and does not change. *)
Record BidService := {
  bv_adapter : A;
  bv_topic : string;
  bv_deadline_ms : Z;
  bv_top_k : nat;
  bv_builder : N;
}.

(** ... and what it changes. *)
Record BidState := { bs_world : World B C G Sc F P; bs_publisher : K }.

(** The time at which the request is received, and the wall clock when the events
    are written. *)
Record BidEnv := { bn_env : Env GE FE; bn_started : Instant; bn_timestamp_ms : Z }.

Definition bid_event_of (ctx : BidContext Value B) (timestamp_ms : Z) (w : ImpWinner) : BidEvent := {|
  be_request_id := br_id (request ctx);
  be_imp_id := iw_imp_id w;
  be_campaign_id := iw_campaign_id w;
  be_creative_id := iw_creative_id w;
  be_bid_price_micros := as_i64 (iw_bid_price_cents w * 10000);
  be_timestamp_ms := timestamp_ms;
  be_user_id := unwrap_or (ctx_user_id ctx) ""%string;
  be_device_type := match ctx_devicetype ctx with Some dt => device_type dt | None => 0 end |}.

Definition publish_winners (topic : string) (ctx : BidContext Value B) (timestamp_ms : Z) (k : K) : K :=
  foldl (fun k w => publish k topic (le_bytes4 (iw_campaign_id w)) (AdEvent.Bid (bid_event_of ctx timestamp_ms w)))
        k (winners ctx).

(** [bid] through a pipeline of the given stages. *)
Definition bid_through (stages : list (Stage Value B C G Sc F P)) (sv : BidService) (env : BidEnv) (body : list Z)
    (st : BidState) : Answer * BidState :=
  match decode_request (bv_adapter sv) body with
  | Err _ => (Answered (bare BAD_REQUEST), st)
  | Ok req =>
      let '(r, ctx, w) := execute (bn_env env) (bv_deadline_ms sv) stages (BidContext_new req (bn_started env)) (bs_world st) in
      let st := {| bs_world := w; bs_publisher := bs_publisher st |} in
      match r with
      | Err _ => (Answered (bare INTERNAL_SERVER_ERROR), st)
      | Ok _ =>
          match outcome ctx with
          | NoBid _ => (Answered (bare NO_CONTENT), st)
          | OutcomeBid =>
              match bid_response ctx with
              | None => (Answered (bare INTERNAL_SERVER_ERROR), st)
              | Some resp =>
                  match encode_response (bv_adapter sv) resp with
                  | Err _ => (Answered (bare INTERNAL_SERVER_ERROR), st)
                  | Ok (body, content_type) =>
                      (Answered {| rs_status := OK; rs_content_type := Some content_type; rs_body := body |},
                       {| bs_world := w;
                          bs_publisher := publish_winners (bv_topic sv) ctx (bn_timestamp_ms env) (bs_publisher st) |})
                  end
              end
          | Pending => (Panicked, st)
          end
      end
  end.

Definition bid (sv : BidService) (env : BidEnv) : list Z -> BidState -> Answer * BidState :=
  bid_through (bid_pipeline heap_order (bn_env env) (bv_top_k sv) (bv_builder sv) (adapter_id (bv_adapter sv))) sv env.
End Handler.
Arguments BidService : clear implicits.
Arguments BidState : clear implicits.
Arguments BidEnv : clear implicits.

(** ** The timeout middleware and the limits *)

(** [timeout_middleware]: [run] is what the inner service would answer and when. *)
Definition timeout_middleware (limit : Duration) (tracker : LoadShedTracker) (run : option (Duration * Response))
  : Response * LoadShedTracker :=
  let tracker := record_request tracker in
  match run with
  | Some (latency, resp) =>
      if latency <=? limit
      then (resp, match rs_status resp with SERVICE_UNAVAILABLE => record_shed tracker | _ => tracker end)
      else (bare SERVICE_UNAVAILABLE, record_shed tracker)
  | None => (bare SERVICE_UNAVAILABLE, record_shed tracker)
  end.

(** What [build] derives from the configuration. *)
Definition bid_timeout (cfg : Config) : Duration := from_millis (http_timeout_ms (cfg_latency_budget cfg)).
Definition win_timeout (cfg : Config) : Duration := from_millis (win_timeout_ms (cfg_latency_budget cfg)).
Definition bid_concurrency (cfg : Config) : nat := sv_max_concurrency (cfg_server cfg).
Definition win_concurrency (cfg : Config) : nat := Nat.max (sv_max_concurrency (cfg_server cfg) / 10) 1.

(** ** Properties *)
Section Properties.
Context {Value : Type} `{JsonValue Value} {B : Type} `{BitmapLaws B}.
Context {C : Type} `{KVCache C string (list SegmentId)} {G GE : Type} `{UserSegmentRepository G GE}.
Context {Sc : Type} `{ScorerLaws Sc} {F FE : Type} `{FrequencyCapper F FE} {P : Type} `{BudgetPacerLaws P}.
Context {N : Type} `{NoticeUrlBuilder N} {A : Type} `{ExchangeAdapter A Value} {K : Type} `{EventPublisher K}.
Context (heap_order : list AdCandidate -> list AdCandidate).
Implicit Types (sv : BidService N A) (st : BidState B C G Sc F P K) (env : BidEnv GE FE).

(** The event and the bid of one winner. *)
Definition same_offer (b : Bid Value) (e : BidEvent) : Prop :=
  bid_impid b = be_imp_id e /\ bid_cid b = Some (pretty (be_campaign_id e)) /\
  bid_crid b = Some (pretty (be_creative_id e)) /\
  exists cents, bid_price b = f64_div (f64_of_Z cents) (f64_of_Z 100) /\
                be_bid_price_micros e = as_i64 (cents * 10000).

(** Publishing a list of events, each under the key of its campaign. *)
Definition publish_events (topic : string) (es : list BidEvent) (k : K) : K :=
  foldl (fun k e => publish k topic (le_bytes4 (be_campaign_id e)) (AdEvent.Bid e)) k es.

Lemma publish_winners_events topic (ctx : BidContext Value B) ts (k : K) :
  publish_winners topic ctx ts k = publish_events topic (bid_event_of ctx ts <$> winners ctx) k.
Proof.
  unfold publish_winners, publish_events. generalize (winners ctx). intros ws.
  revert k; induction ws as [|w ws IH]; intros k; [done|]. simpl. apply IH.
Qed.

Lemma offers_match builder ex (ctx : BidContext Value B) ts (ws : list ImpWinner) :
  Forall2 same_offer
    (bid_of builder ex (request ctx) (unwrap_or (ctx_user_id ctx) ""%string) <$> ws) (bid_event_of ctx ts <$> ws).
Proof.
  induction ws as [|w ws IH]; constructor; [|done]. split_and!; try done.
  by exists (iw_bid_price_cents w).
Qed.

(** What the handler must answer to a request it decoded, given the context its
    pipeline run ended in: nothing is lost between the run's decision and the
    exchange.  A run that bids is answered with the encoding of its own response
    and one event per bid of it; a run that does not bid is a 204; the only 500
    is a response of the run that the exchange's encoder refuses. *)
Definition answers_run sv env (req : BidRequest Value) (ctx : BidContext Value B) (k k' : K) (r : Response) : Prop :=
  match outcome ctx with
  | NoBid _ => r = bare NO_CONTENT /\ k' = k
  | OutcomeBid => exists resp sb,
      bid_response ctx = Some resp /\ resp_id resp = br_id req /\ resp_seatbid resp = [sb] /\ sb_bid sb <> [] /\
      match encode_response (bv_adapter sv) resp with
      | Err _ => r = bare INTERNAL_SERVER_ERROR /\ k' = k
      | Ok (bytes, content_type) =>
          rs_status r = OK /\ rs_body r = bytes /\ rs_content_type r = Some content_type /\
          exists es, Forall2 same_offer (sb_bid sb) es /\
            Forall (fun e => be_request_id e = br_id req /\ be_timestamp_ms e = bn_timestamp_ms env) es /\
            k' = publish_events (bv_topic sv) es k
      end
  | Pending => False
  end.

(** [C8] The bid endpoint never panics, and its answer is the one its pipeline
    run calls for.  A body that does not decode is a 400 that leaves everything
    as it was.  Any other request is run through the pipeline once, the run ends
    decided and without error, and the world it left is the world after the
    request.  If the run bids, the answer is 200 with exactly the encoding of the
    run's response, which answers this request with at least one bid, and
    exactly then events are published: one per bid of that response, in order,
    for the same request, impression, campaign, creative and price.  If the
    encoder refuses that response, it is a 500; if the run does not bid, a 204. *)
Theorem bid_answers sv env (body : list Z) st
    (Hperm : forall l, heap_order l ≡ₚ l)
    (Hpacer : pacer_wf (w_pacer (bs_world st))) :
  let '(answer, st') := bid heap_order sv env body st in
  exists r, answer = Answered r /\
    match decode_request (bv_adapter sv) body with
    | Err _ => r = bare BAD_REQUEST /\ st' = st
    | Ok req => exists ctx,
        execute (bn_env env) (bv_deadline_ms sv)
          (bid_pipeline heap_order (bn_env env) (bv_top_k sv) (bv_builder sv) (adapter_id (bv_adapter sv)))
          (BidContext_new req (bn_started env)) (bs_world st) = (Ok tt, ctx, bs_world st') /\
        answers_run sv env req ctx (bs_publisher st) (bs_publisher st') r
    end.
Proof.
  unfold bid, bid_through. destruct (decode_request (bv_adapter sv) body) as [req|e]; [|by eexists].
  pose proof (execute_ok heap_order Hperm (bn_env env) (bv_deadline_ms sv) (bv_top_k sv) (bv_builder sv)
    (adapter_id (bv_adapter sv)) req (bs_world st) Hpacer (bn_started env)) as Hx.
  destruct (execute _ _ _ _ _) as [[r ctx] w]. destruct Hx as [-> Hend].
  assert ((exists r, outcome ctx = NoBid r) \/
    Inv (bn_env env) (bv_builder sv) (adapter_id (bv_adapter sv)) req (bs_world st) 9 ctx w) as [[no Ho]|[]].
  { destruct Hend as [|[[(no & Ho & _) _]|(i & ctx0 & _ & _ & -> & _)]]; eauto. }
  { rewrite Ho. exists (bare NO_CONTENT). split; [done|]. exists ctx. split; [done|]. unfold answers_run. by rewrite Ho. }
  simpl in inv_outcome. rewrite inv_outcome. simpl in inv_response. rewrite inv_response.
  destruct (encode_response (bv_adapter sv) _) as [[bytes ct]|e] eqn:Ee.
  all: eexists; split; [reflexivity|]; eexists; split; [reflexivity|].
  all: unfold answers_run; rewrite inv_outcome, inv_response; eexists _, _; split; [reflexivity|].
  all: split; [by simpl; rewrite inv_request|]; split; [reflexivity|].
  all: split; [simpl; intros Hn%fmap_nil_inv; by apply inv_some_winner; [lia|]|]; rewrite Ee.
  2: done.
  split_and!; [done..|]. exists (bid_event_of ctx (bn_timestamp_ms env) <$> winners ctx). split_and!.
  - apply offers_match.
  - apply Forall_fmap, Forall_true. intros w'. simpl. by rewrite inv_request.
  - simpl. by rewrite publish_winners_events.
Qed.

(** A request the validation stage rejects touches nothing. *)
Lemma rejected_request_untouched sv env (body : list Z) st req :
  decode_request (bv_adapter sv) body = Ok req -> br_id req = ""%string \/ br_imp req = [] ->
  bid heap_order sv env body st = (Answered (bare NO_CONTENT), st).
Proof.
  intros Hd Hr. unfold bid, bid_through. rewrite Hd. unfold execute. cbn [bid_pipeline run_stages].
  destruct (_ <=? _); [by destruct st|]. cbn [stage_execute request_validation request BidContext_new].
  case_bool_decide; [by destruct st|]. destruct Hr as [Hr|Hr]; [done|]. rewrite Hr. simpl. by destruct st.
Qed.
End Properties.

Module Sample.
Import PipelineProps.Sample.
(** The generic adapter over a codec that knows one body, a publisher that keeps
    the events it is given. *)
Definition from_slice (body : list Z) : Result (BidRequest Json) string :=
  match body with [123; 125] => Ok (PipelineProps.Sample.request None) | _ => Err "expected value"%string end.
Definition to_vec (resp : BidResponse Json) : Result (list Z) string := Ok [Z.of_nat (length (resp_seatbid resp))].
#[global] Instance adapter : ExchangeAdapter OpenRtbGeneric.OpenRtbGenericAdapter Json :=
  OpenRtbGeneric.adapter from_slice to_vec.
#[global] Instance recording : EventPublisher (list AdEvent.t) := {| publish k _ _ e := k ++ [e] |}.

Definition service : BidService NoNoticeUrl OpenRtbGeneric.OpenRtbGenericAdapter := {|
  bv_adapter := OpenRtbGeneric.open_rtb_generic; bv_topic := "events"; bv_deadline_ms := 100; bv_top_k := 50;
  bv_builder := no_notice_url |}.
Definition bid_env : BidEnv unit FreqCapOutcome := {| bn_env := env 9 0; bn_started := 0; bn_timestamp_ms := 7 |}.
Definition before : BidState (gset Z) (gmap string (list SegmentId)) (list SegmentId) FeatureWeightedScorer unit
  Local.LocalBudgetPacer (list AdEvent.t) := {| bs_world := world; bs_publisher := [] |}.
Definition answer := bid (fun l => l) service bid_env [123; 125] before.
End Sample.

(** One winner: a 200, and one event with the price of campaign 2. *)
Lemma bid_answers_witness :
  exists r (ctx : BidContext PipelineProps.Sample.Json (gset Z)), Sample.answer.1 = Answered r /\ rs_status r = OK /\ outcome ctx = OutcomeBid /\
    answers_run Sample.service Sample.bid_env (PipelineProps.Sample.request None) ctx [] (bs_publisher Sample.answer.2) r /\
    length (bs_publisher Sample.answer.2) = 1%nat.
Proof.
  pose proof (bid_answers (fun l => l) Sample.service Sample.bid_env [123; 125] Sample.before
    (fun l => reflexivity l) PipelineProps.Sample.world_pacer_wf) as Hb.
  fold Sample.answer in Hb. assert (length (bs_publisher Sample.answer.2) = 1%nat) as Hlen by (vm_compute; reflexivity).
  assert (forall r, Sample.answer.1 = Answered r -> rs_status r = OK) as Hok.
  { intros r. vm_compute. by intros [= <-]. }
  destruct Sample.answer as [a st']. destruct Hb as (r & -> & ctx & _ & Hrun). exists r, ctx.
  specialize (Hok r eq_refl). split_and!; [done|done| |exact Hrun|exact Hlen].
  unfold answers_run in Hrun. destruct (outcome ctx); [done| |done]. destruct Hrun as [-> _]. discriminate Hok.
Defined.
