(* ===== verification/Http.v ===== *)
(** * The HTTP layers

    [build] of [bidder-server/src/server/routes.rs] as a transition system: the
    metrics layer of [layers/metrics.rs] around every route, the timeout middleware
    and the concurrency limit around the bid and win routes, requests in flight at
    once, clients that disconnect, and the shutdown signal of [main.rs].  A step is
    what one poll of a request's future does without waiting.  The limiter is
    tower's: a class with its documented laws. *)
From S2P Require Import Prelude Floats Config Hedge WinNotice Server.

(** ** The concurrency limit *)

(** [tower::limit::ConcurrencyLimit]: a request that finds no permit waits for one;
    the permit returns when the response is ready or the request is dropped. *)
Class ConcurrencyLimit (L : Type) := {
  limit_new : nat -> L;
  acquire : L -> option L;
  release_permit : L -> L;
}.
Class ConcurrencyLimitLaws (L : Type) `{ConcurrencyLimit L} := {
  free : L -> nat;
  free_new n : free (limit_new n) = n;
  acquire_spec l : match acquire l with Some l' => free l = S (free l') | None => free l = 0%nat end;
  free_release l : free (release_permit l) = S (free l);
}.
#[global] Instance nat_limit : ConcurrencyLimit nat :=
  {| limit_new n := n; acquire l := match l with 0%nat => None | S l => Some l end; release_permit := S |}.
#[global, refine] Instance nat_limit_laws : ConcurrencyLimitLaws nat := {| free n := n |}.
Proof. all: try done. by intros [|n]. Defined.

(** ** Routes *)

Inductive Method := GET | HEAD | POST | OtherMethod (name : string).
Definition method_name (m : Method) : string :=
  match m with GET => "GET" | HEAD => "HEAD" | POST => "POST" | OtherMethod name => name end.

Inductive Endpoint := Liveness | Readiness | BidEndpoint | WinEndpoint.
#[global] Instance Endpoint_eq_dec : EqDecision Endpoint.
Proof. solve_decision. Defined.

(** The [route] calls of [build]. *)
Definition routes : list (string * (Method * Endpoint)) := [
  ("/health/live", (GET, Liveness)); ("/health/ready", (GET, Readiness));
  ("/rtb/openrtb/bid", (POST, BidEndpoint)); ("/rtb/win", (GET, WinEndpoint))]%string.

(** A GET route also takes HEAD. *)
Definition takes (mounted : Method) (m : Method) : bool :=
  match mounted, m with GET, (GET | HEAD) | POST, POST => true | _, _ => false end.

Definition matched (path : string) : option (string * (Method * Endpoint)) :=
  find_first (fun r => bool_decide (r.1 = path)) routes.
(** What [MatchedPath] holds, and the handler, if any, that gets the request. *)
Definition matched_path (path : string) : option string := fst <$> matched path.
Definition endpoint (m : Method) (path : string) : option Endpoint :=
  match matched path with
  | Some (_, (mounted, e)) => if takes mounted m then Some e else None
  | None => None
  end.

(** The layers of the sub-router a path belongs to: they also wrap its answer to a
    method it does not take. *)
Inductive Stack := Plain | Limited (win : bool).
Definition stack_of (path : string) : Stack :=
  match matched path with
  | Some (_, (_, BidEndpoint)) => Limited false
  | Some (_, (_, WinEndpoint)) => Limited true
  | _ => Plain
  end.

(** ** Requests in flight *)

(** Who answered: the inner service, or the timer of the middleware. *)
Inductive By := Handler | Timer.
Inductive Phase :=
| Called                                    (** the metrics layer has returned its future *)
| Queued (deadline : Instant)               (** polled; waiting for a permit *)
| Handling (deadline : option Instant)
| Answered (r : Response) (at_ : Instant) (by_ : By) (deadline : option Instant)
| Disconnected (entered : bool).

Record Flight := { fl_method : Method; fl_path : string; fl_start : Instant; fl_phase : Phase }.
Definition to_phase (f : Flight) (ph : Phase) : Flight :=
  {| fl_method := fl_method f; fl_path := fl_path f; fl_start := fl_start f; fl_phase := ph |}.

(** [method], [route], [status]. *)
Definition Labels : Type := string * string * string.
Definition as_u16 (s : StatusCode) : Z :=
  match s with
  | OK => 200 | NO_CONTENT => 204 | BAD_REQUEST => 400 | UNAUTHORIZED => 401
  | INTERNAL_SERVER_ERROR => 500 | SERVICE_UNAVAILABLE => 503
  end.
Definition labels (f : Flight) (r : Response) : Labels :=
  (method_name (fl_method f), unwrap_or (matched_path (fl_path f)) "unknown"%string, pretty (as_u16 (rs_status r))).

Section Http.
Context {L : Type} `{ConcurrencyLimit L} (cfg : Config).

Record Http := {
  ht_flights : list Flight;
  ht_bid_limit : L;
  ht_win_limit : L;
  ht_tracker : LoadShedTracker;
  ht_timeouts : Z;                       (** [bidder.http.timeout_total] *)
  ht_requests : gmap Labels Z;           (** [bidder.http.requests_total] *)
  ht_durations : gmap Labels (list f64); (** [bidder.http.request_duration_seconds] *)
  ht_health : HealthState;
  ht_stopping : bool;
}.

Definition build : Http := {|
  ht_flights := []; ht_bid_limit := limit_new (bid_concurrency cfg); ht_win_limit := limit_new (win_concurrency cfg);
  ht_tracker := {| requests_total := 0; shed_total := 0 |}; ht_timeouts := 0; ht_requests := ∅; ht_durations := ∅;
  ht_health := HealthState_new; ht_stopping := false |}.

Definition set_flights (s : Http) (l : list Flight) : Http := {|
  ht_flights := l; ht_bid_limit := ht_bid_limit s; ht_win_limit := ht_win_limit s; ht_tracker := ht_tracker s;
  ht_timeouts := ht_timeouts s; ht_requests := ht_requests s; ht_durations := ht_durations s;
  ht_health := ht_health s; ht_stopping := ht_stopping s |}.
Definition set_tracker (s : Http) (t : LoadShedTracker) : Http := {|
  ht_flights := ht_flights s; ht_bid_limit := ht_bid_limit s; ht_win_limit := ht_win_limit s; ht_tracker := t;
  ht_timeouts := ht_timeouts s; ht_requests := ht_requests s; ht_durations := ht_durations s;
  ht_health := ht_health s; ht_stopping := ht_stopping s |}.
Definition limit_of (s : Http) (win : bool) : L := if win then ht_win_limit s else ht_bid_limit s.
Definition set_limit (s : Http) (win : bool) (l : L) : Http := {|
  ht_flights := ht_flights s; ht_bid_limit := if win then ht_bid_limit s else l;
  ht_win_limit := if win then l else ht_win_limit s; ht_tracker := ht_tracker s;
  ht_timeouts := ht_timeouts s; ht_requests := ht_requests s; ht_durations := ht_durations s;
  ht_health := ht_health s; ht_stopping := ht_stopping s |}.
Definition count_timeout (s : Http) : Http := {|
  ht_flights := ht_flights s; ht_bid_limit := ht_bid_limit s; ht_win_limit := ht_win_limit s; ht_tracker := ht_tracker s;
  ht_timeouts := as_u64 (ht_timeouts s + 1); ht_requests := ht_requests s; ht_durations := ht_durations s;
  ht_health := ht_health s; ht_stopping := ht_stopping s |}.

(** The metrics layer, once the inner service has answered. *)
Definition record_metrics (s : Http) (f : Flight) (r : Response) (now : Instant) : Http :=
  let ls := labels f r in {|
  ht_flights := ht_flights s; ht_bid_limit := ht_bid_limit s; ht_win_limit := ht_win_limit s; ht_tracker := ht_tracker s;
  ht_timeouts := ht_timeouts s;
  ht_requests := <[ls := as_u64 (unwrap_or (ht_requests s !! ls) 0 + 1)]> (ht_requests s);
  ht_durations := <[ls := unwrap_or (ht_durations s !! ls) [] ++ [as_secs_f64 (duration_since now (fl_start f))]]> (ht_durations s);
  ht_health := ht_health s; ht_stopping := ht_stopping s |}.

Definition timeout_of (win : bool) : Duration := if win then win_timeout cfg else bid_timeout cfg.

(** The permit a request holds goes back. *)
Definition release_held (s : Http) (f : Flight) : Http :=
  match fl_phase f, stack_of (fl_path f) with
  | Handling _, Limited win => set_limit s win (release_permit (limit_of s win))
  | _, _ => s
  end.

(** The inner service's answer, [given] outside the health handlers. *)
Definition response_of (s : Http) (f : Flight) (given : Response) : Response :=
  match endpoint (fl_method f) (fl_path f) with
  | Some Liveness => bare liveness
  | Some Readiness => bare (readiness (ht_health s))
  | _ => given
  end.

(** The first poll: the middleware counts the request and starts its timer. *)
Definition poll (now : Instant) (f : Flight) (s : Http) : Flight * Http :=
  match fl_phase f, stack_of (fl_path f) with
  | Called, Plain => (to_phase f (Handling None), s)
  | Called, Limited win => (to_phase f (Queued (now + timeout_of win)), set_tracker s (record_request (ht_tracker s)))
  | _, _ => (f, s)
  end.

(** A permit becomes available. *)
Definition take_permit (f : Flight) (s : Http) : Flight * Http :=
  match fl_phase f, stack_of (fl_path f) with
  | Queued deadline, Limited win =>
      match acquire (limit_of s win) with
      | Some l => (to_phase f (Handling (Some deadline)), set_limit s win l)
      | None => (f, s)
      end
  | _, _ => (f, s)
  end.

(** The inner service answers. *)
Definition respond (now : Instant) (given : Response) (f : Flight) (s : Http) : Flight * Http :=
  match fl_phase f with
  | Handling deadline =>
      let r := response_of s f given in
      let s := release_held s f in
      let s := match stack_of (fl_path f), rs_status r with
               | Limited _, SERVICE_UNAVAILABLE => set_tracker s (record_shed (ht_tracker s))
               | _, _ => s
               end in
      (to_phase f (Answered r now Handler deadline), record_metrics s f r now)
  | _ => (f, s)
  end.

(** The timer fires: the inner future is dropped. *)
Definition expire (now : Instant) (f : Flight) (s : Http) : Flight * Http :=
  match fl_phase f with
  | Queued deadline | Handling (Some deadline) =>
      if deadline <=? now then
        let r := bare SERVICE_UNAVAILABLE in
        let s := count_timeout (release_held s f) in
        let s := set_tracker s (record_shed (ht_tracker s)) in
        (to_phase f (Answered r now Timer (Some deadline)), record_metrics s f r now)
      else (f, s)
  | _ => (f, s)
  end.

(** The client goes away: the whole future is dropped. *)
Definition disconnect (f : Flight) (s : Http) : Flight * Http :=
  match fl_phase f with
  | Called => (to_phase f (Disconnected false), s)
  | Queued _ | Handling _ => (to_phase f (Disconnected true), release_held s f)
  | _ => (f, s)
  end.

(** [shutdown_signal] completes with either signal; [axum::serve] then accepts no
    more requests and returns when those in flight have ended. *)
Inductive Signal := CtrlC | Terminate.
Inductive Action :=
| Arrive (m : Method) (path : string) (now : Instant)
| Poll (j : nat) (now : Instant)
| Admit (j : nat)
| Respond (j : nat) (now : Instant) (given : Response)
| Expire (j : nat) (now : Instant)
| Disconnect (j : nat)
| SetReady
| Shutdown (sig : Signal).

Definition on_flight (s : Http) (j : nat) (k : Flight -> Http -> Flight * Http) : Http :=
  match ht_flights s !! j with
  | Some f => let '(f, s') := k f s in set_flights s' (<[j := f]> (ht_flights s))
  | None => s
  end.

Definition step (s : Http) (a : Action) : Http :=
  match a with
  | Arrive m path now =>
      if ht_stopping s then s
      else set_flights s (ht_flights s ++ [{| fl_method := m; fl_path := path; fl_start := now; fl_phase := Called |}])
  | Poll j now => on_flight s j (poll now)
  | Admit j => on_flight s j take_permit
  | Respond j now given => on_flight s j (respond now given)
  | Expire j now => on_flight s j (expire now)
  | Disconnect j => on_flight s j disconnect
  | SetReady =>
      {| ht_flights := ht_flights s; ht_bid_limit := ht_bid_limit s; ht_win_limit := ht_win_limit s;
         ht_tracker := ht_tracker s; ht_timeouts := ht_timeouts s; ht_requests := ht_requests s;
         ht_durations := ht_durations s; ht_health := set_ready (ht_health s); ht_stopping := ht_stopping s |}
  | Shutdown _ =>
      {| ht_flights := ht_flights s; ht_bid_limit := ht_bid_limit s; ht_win_limit := ht_win_limit s;
         ht_tracker := ht_tracker s; ht_timeouts := ht_timeouts s; ht_requests := ht_requests s;
         ht_durations := ht_durations s; ht_health := ht_health s; ht_stopping := true |}
  end.
Definition run : Http -> list Action -> Http := foldl step.
End Http.
Arguments Http : clear implicits.

(** ** What each request contributes *)

Definition limited (f : Flight) : bool := match stack_of (fl_path f) with Limited _ => true | Plain => false end.

(** A permit of the bid or the win limit. *)
Definition holding (win : bool) (f : Flight) : Z :=
  match fl_phase f, stack_of (fl_path f) with
  | Handling _, Limited w => if eqb w win then 1 else 0
  | _, _ => 0
  end.
(** A count of the tracker's requests, of its sheds, of the timeout counter. *)
Definition entered (f : Flight) : Z :=
  if limited f then match fl_phase f with Called | Disconnected false => 0 | _ => 1 end else 0.
Definition is_503 (r : Response) : bool := match rs_status r with SERVICE_UNAVAILABLE => true | _ => false end.
Definition shed (f : Flight) : Z :=
  if limited f then match fl_phase f with Answered r _ _ _ => if is_503 r then 1 else 0 | _ => 0 end else 0.
Definition timed_out (f : Flight) : Z := match fl_phase f with Answered _ _ Timer _ => 1 | _ => 0 end.
(** A sample under the labels. *)
Definition answered_as (ls : Labels) (f : Flight) : Z :=
  match fl_phase f with Answered r _ _ _ => if bool_decide (labels f r = ls) then 1 else 0 | _ => 0 end.

(** How far a request has to go, at most. *)
Definition steps_left (f : Flight) : nat :=
  match fl_phase f with Called => 3 | Queued _ => 2 | Handling _ => 1 | _ => 0 end.

(** A deadline exactly behind the middleware; the timer answers 503, not before it. *)
Definition flight_ok (f : Flight) : Prop :=
  match fl_phase f with
  | Called | Disconnected _ => True
  | Queued _ => limited f = true
  | Handling d => is_Some d <-> limited f = true
  | Answered r t Handler _ => True
  | Answered r t Timer d => limited f = true /\ r = bare SERVICE_UNAVAILABLE /\ exists d', d = Some d' /\ d' <= t
  end.

Section Properties.
Context {L : Type} `{ConcurrencyLimitLaws L} (cfg : Config).
Implicit Types s : Http L.

(** Replacing a request by another and the state around it. *)
Record accounted f f' s s' : Prop := {
  ac_permits win : Z.of_nat (free (limit_of s' win)) + holding win f' = Z.of_nat (free (limit_of s win)) + holding win f;
  ac_requests n : requests_total (ht_tracker s) = as_u64 n -> requests_total (ht_tracker s') = as_u64 (n - entered f + entered f');
  ac_shed n : shed_total (ht_tracker s) = as_u64 n -> shed_total (ht_tracker s') = as_u64 (n - shed f + shed f');
  ac_timeouts n : ht_timeouts s = as_u64 n -> ht_timeouts s' = as_u64 (n - timed_out f + timed_out f');
  ac_counts ls n : unwrap_or (ht_requests s !! ls) 0 = as_u64 n ->
    unwrap_or (ht_requests s' !! ls) 0 = as_u64 (n - answered_as ls f + answered_as ls f');
  ac_samples ls n : Z.of_nat (length (unwrap_or (ht_durations s !! ls) [])) = n ->
    Z.of_nat (length (unwrap_or (ht_durations s' !! ls) [])) = n - answered_as ls f + answered_as ls f';
  ac_flight : flight_ok f -> flight_ok f';
  ac_same : fl_method f' = fl_method f /\ fl_path f' = fl_path f /\ fl_start f' = fl_start f;
  ac_left : (steps_left f' < steps_left f)%nat \/ (f' = f /\ s' = s);
  ac_health : ht_health s' = ht_health s;
  ac_stopping : ht_stopping s' = ht_stopping s;
  ac_flights : ht_flights s' = ht_flights s;
}.

Lemma accounted_same f s : accounted f f s s.
Proof. split; intros; rewrite ?Z.sub_add; auto; lia. Qed.

(** The metrics of an answer. *)
Lemma record_metrics_counts s f r now ls :
  unwrap_or (ht_requests (record_metrics s f r now) !! ls) 0 =
    if bool_decide (labels f r = ls) then as_u64 (unwrap_or (ht_requests s !! ls) 0 + 1) else unwrap_or (ht_requests s !! ls) 0.
Proof. cbn. case_bool_decide; [subst; by rewrite lookup_insert_eq|by rewrite lookup_insert_ne]. Qed.

Lemma record_metrics_samples s f r now ls :
  Z.of_nat (length (unwrap_or (ht_durations (record_metrics s f r now) !! ls) [])) =
    Z.of_nat (length (unwrap_or (ht_durations s !! ls) [])) + (if bool_decide (labels f r = ls) then 1 else 0).
Proof.
  cbn. case_bool_decide; [subst; rewrite lookup_insert_eq|rewrite lookup_insert_ne by done; lia].
  cbn. rewrite length_app. cbn. lia.
Qed.

#[local] Ltac tallied :=
  repeat match goal with H : _ = as_u64 _ |- _ => rewrite ?H; clear H end; rewrite ?as_u64_add; f_equal; lia.
Lemma labels_to_phase f ph r : labels (to_phase f ph) r = labels f r.
Proof. done. Qed.
#[local] Ltac account :=
  split; intros; unfold holding, entered, shed, timed_out, answered_as, flight_ok, steps_left, limited, is_503 in *;
  cbn -[labels record_metrics limit_of] in *; rewrite ?record_metrics_counts, ?record_metrics_samples;
  cbn -[labels limit_of] in *; rewrite ?labels_to_phase;
  repeat match goal with
  | H : fl_phase ?f = _ |- _ => rewrite ?H in *; clear H
  | H : stack_of (fl_path ?f) = _ |- _ => rewrite ?H in *; clear H
  | H : rs_status ?f = _ |- _ => rewrite ?H in *; clear H
  end; cbn -[labels limit_of] in *; repeat case_bool_decide; auto; try lia; try tallied.

Lemma poll_accounted now f s : accounted f (poll cfg now f s).1 s (poll cfg now f s).2.
Proof.
  unfold poll. destruct (fl_phase f) eqn:Ep; try apply accounted_same.
  destruct (stack_of (fl_path f)) as [|w] eqn:Es; account. by split; [intros [? ?]|].
Qed.

Lemma limit_of_set s w l win : limit_of (set_limit s w l) win = if eqb w win then l else limit_of s win.
Proof. by destruct w, win. Qed.

(** What [release_held] changes. *)
Lemma release_held_spec s f : exists b w : L,
  release_held s f = {| ht_flights := ht_flights s; ht_bid_limit := b; ht_win_limit := w; ht_tracker := ht_tracker s;
    ht_timeouts := ht_timeouts s; ht_requests := ht_requests s; ht_durations := ht_durations s;
    ht_health := ht_health s; ht_stopping := ht_stopping s |} /\
  forall win : bool, Z.of_nat (free (if win then w else b)) = Z.of_nat (free (limit_of s win)) + holding win f.
Proof.
  unfold release_held, holding. destruct s as [fs b w tr to rq du he st]. destruct (fl_phase f), (stack_of (fl_path f)) as [|[|]];
    cbn; (do 2 eexists; split; [reflexivity|]; intros [|]; cbn; rewrite ?free_release; lia).
Qed.

Lemma take_permit_accounted f s : accounted f (take_permit f s).1 s (take_permit f s).2.
Proof.
  unfold take_permit. destruct (fl_phase f) eqn:Ep; try apply accounted_same.
  destruct (stack_of (fl_path f)) as [|w] eqn:Es; [apply accounted_same|].
  pose proof (acquire_spec (limit_of s w)) as Ha. destruct (acquire (limit_of s w)) as [l|]; [|apply accounted_same].
  account; [|by split; [done|eexists]].
  rewrite limit_of_set. destruct (eqb w win) eqn:E; [|lia]. apply eqb_prop in E as ->. lia.
Qed.

Lemma respond_accounted now given f s : accounted f (respond now given f s).1 s (respond now given f s).2.
Proof.
  unfold respond. destruct (fl_phase f) as [| |d| |] eqn:Ep; try apply accounted_same. cbn zeta.
  generalize (response_of s f given); intros r.
  destruct (release_held_spec s f) as (b & w & -> & Hfree).
  destruct (stack_of (fl_path f)) as [|win] eqn:Es; [|destruct (rs_status r) eqn:Er].
  all: account; rewrite <- Hfree; unfold limit_of; cbn; lia.
Qed.

Lemma expire_accounted now f s : flight_ok f -> accounted f (expire now f s).1 s (expire now f s).2.
Proof.
  intros Hf. unfold flight_ok in Hf. unfold expire. destruct (fl_phase f) as [|d|[d|]| |] eqn:Ep; try apply accounted_same.
  all: destruct (Z.leb_spec d now); [|apply accounted_same]; cbn zeta.
  all: destruct (release_held_spec s f) as (b & w & -> & Hfree).
  all: unfold limited in Hf; destruct (stack_of (fl_path f)) as [|win] eqn:Es; [naive_solver|].
  all: account; [rewrite <- Hfree; unfold limit_of; cbn; lia|by split_and!; [done..|eexists]].
Qed.

Lemma disconnect_accounted f s : accounted f (disconnect f s).1 s (disconnect f s).2.
Proof.
  unfold disconnect. destruct (fl_phase f) as [|d|d| |] eqn:Ep; try apply accounted_same.
  1: destruct (stack_of (fl_path f)) eqn:Es; account.
  all: destruct (release_held_spec s f) as (b & w & -> & Hfree).
  all: destruct (stack_of (fl_path f)) as [|win] eqn:Es; account.
  all: rewrite <- Hfree; unfold limit_of; cbn; lia.
Qed.

#[local] Hint Resolve poll_accounted take_permit_accounted respond_accounted expire_accounted disconnect_accounted : core.

(** ** The books of the server *)

Definition total (g : Flight -> Z) s : Z := sum_by g (ht_flights s).
Definition capacity (win : bool) : nat := if win then win_concurrency cfg else bid_concurrency cfg.

Record http_ok s : Prop := {
  ok_permits win : Z.of_nat (free (limit_of s win)) + total (holding win) s = Z.of_nat (capacity win);
  ok_requests : requests_total (ht_tracker s) = as_u64 (total entered s);
  ok_shed : shed_total (ht_tracker s) = as_u64 (total shed s);
  ok_timeouts : ht_timeouts s = as_u64 (total timed_out s);
  ok_counts ls : unwrap_or (ht_requests s !! ls) 0 = as_u64 (total (answered_as ls) s);
  ok_samples ls : Z.of_nat (length (unwrap_or (ht_durations s !! ls) [])) = total (answered_as ls) s;
  ok_flights : Forall flight_ok (ht_flights s);
}.

Lemma build_ok : http_ok (build cfg).
Proof. split; try done. intros []; cbn; rewrite free_new; lia. Qed.

Lemma on_flight_ok s j k : (forall f, flight_ok f -> accounted f (k f s).1 s (k f s).2) -> http_ok s -> http_ok (on_flight s j k).
Proof.
  intros Hk [Hp Hr Hs Ht Hc Hd Hf]. unfold on_flight. destruct (ht_flights s !! j) as [f|] eqn:Hj; [|by split].
  pose proof (Forall_lookup_1 _ _ _ _ Hf Hj) as Hfj. specialize (Hk f Hfj). destruct (k f s) as [f' s']. cbn in Hk. destruct Hk.
  assert (forall g, total g (set_flights s' (<[j:=f']> (ht_flights s))) = total g s - g f + g f') as Htot.
  { intros g. unfold total. cbn [ht_flights set_flights]. by rewrite (sum_by_insert _ _ _ f). }
  split; intros; rewrite ?Htot; cbn; eauto.
  - specialize (ac_permits0 win). specialize (Hp win). unfold limit_of in *. cbn in *. lia.
  - apply Forall_insert; auto.
Qed.

Lemma http_step_ok s a : http_ok s -> http_ok (step cfg s a).
Proof.
  intros Hs. destruct a; cbn; try (apply on_flight_ok; [|done]; intros f Hf; auto).
  - destruct (ht_stopping s); [done|]. destruct Hs as [Hp Hr Hs Ht Hc Hd Hf].
    assert (forall g, g {| fl_method := m; fl_path := path; fl_start := now; fl_phase := Called |} = 0 ->
      total g (set_flights s (ht_flights s ++ [{| fl_method := m; fl_path := path; fl_start := now; fl_phase := Called |}])) = total g s) as Htot.
    { intros g Hg. unfold total. cbn [ht_flights set_flights]. rewrite sum_by_app, sum_by_cons, Hg. cbn. lia. }
    split; intros; rewrite ?Htot; try done; try (by unfold entered, shed; destruct (limited _)); eauto.
    apply Forall_app. by split; [|constructor].
  - by destruct Hs; split.
  - by destruct Hs; split.
Qed.

Lemma http_run_ok l s : http_ok s -> http_ok (run cfg s l).
Proof. intros Hs. unfold run. apply foldl_inv; auto using http_step_ok. Qed.

(** [C13] Whatever requests arrive, in whatever order they are polled, admitted,
    answered, timed out and abandoned: no more than the configured number are in the
    bid (win) handler, and a permit is lost by none; the tracker behind the hedge
    budget has counted exactly the requests that reached a limited route, and as shed
    exactly those answered 503; the timeout counter has the timer's answers; every
    answer, the timer's included, is in the request counter and the histogram once
    and under its method, route and status; and the timer answers 503, not before
    the route's timeout, to limited routes only.  A request whose client goes away
    is in the tracker, and in no other book. *)
Theorem http_books_balance (l : list Action) :
  let s := run cfg (build cfg) l in
  (forall win, Z.of_nat (free (limit_of s win)) + total (holding win) s = Z.of_nat (capacity win)) /\
  shed_snapshot (ht_tracker s) = (as_u64 (total entered s), as_u64 (total shed s)) /\
  ht_timeouts s = as_u64 (total timed_out s) /\
  (forall ls, unwrap_or (ht_requests s !! ls) 0 = as_u64 (total (answered_as ls) s) /\
              Z.of_nat (length (unwrap_or (ht_durations s !! ls) [])) = total (answered_as ls) s) /\
  forall f r t d, f ∈ ht_flights s -> fl_phase f = Answered r t Timer d ->
    stack_of (fl_path f) <> Plain /\ r = bare SERVICE_UNAVAILABLE /\ exists d', d = Some d' /\ d' <= t.
Proof.
  intros s. destruct (http_run_ok l _ build_ok) as [Hp Hr Hs Ht Hc Hd Hf]. fold s in Hp, Hr, Hs, Ht, Hc, Hd, Hf. split_and!.
  - done.
  - unfold shed_snapshot. by rewrite Hr, Hs.
  - done.
  - intros ls. by rewrite Hc, Hd.
  - intros f r t d Hin Hph. rewrite Forall_forall in Hf. specialize (Hf f Hin). unfold flight_ok, limited in Hf.
    rewrite Hph in Hf. destruct Hf as (Hl & -> & Hd'). split_and!; [|done..]. by destruct (stack_of (fl_path f)).
Qed.

(** ** One request *)

Lemma on_flight_at s j k f : ht_flights s !! j = Some f -> on_flight s j k = set_flights (k f s).2 (<[j := (k f s).1]> (ht_flights s)).
Proof. intros Hj. unfold on_flight. rewrite Hj. by destruct (k f s). Qed.

(** The steps of a request that finds a permit: [run] is what the handler would
    answer and when. *)
Definition unhindered (j : nat) (m : Method) (path : string) (win : bool) (now : Instant) (run : option (Duration * Response))
  : list Action :=
  [Arrive m path now; Poll j now; Admit j;
   match run with
   | Some (latency, r) =>
       if latency <=? timeout_of cfg win then Respond j (now + latency) r else Expire j (now + timeout_of cfg win)
   | None => Expire j (now + timeout_of cfg win)
   end].

Lemma limited_given s f given : limited f = true -> response_of s f given = given.
Proof.
  unfold limited, stack_of, response_of, endpoint. destruct (matched (fl_path f)) as [[p [m []]]|]; try done; by destruct (takes _ _).
Qed.

(** [timeout_middleware] is what such a request sees. *)
Lemma unhindered_is_middleware s m path win now run0 : ht_stopping s = false -> stack_of path = Limited win ->
  (0 < free (limit_of s win))%nat ->
  let s' := run cfg s (unhindered (length (ht_flights s)) m path win now run0) in
  let '(answer, tracker) := timeout_middleware (timeout_of cfg win) (ht_tracker s) run0 in
  ht_tracker s' = tracker /\ free (limit_of s' win) = free (limit_of s win) /\
  exists f t b d, ht_flights s' !! length (ht_flights s) = Some f /\ fl_phase f = Answered answer t b d.
Proof.
  intros Hst Hw Hfree. unfold run, unhindered. cbn [foldl].
  set (f0 := {| fl_method := m; fl_path := path; fl_start := now; fl_phase := Called |}).
  set (j := length (ht_flights s)). set (due := now + timeout_of cfg win).
  set (tr := record_request (ht_tracker s)).
  assert (forall (t : Http L) f k, ht_flights t = ht_flights s ++ [f] -> on_flight t j k = set_flights (k f t).2 (ht_flights s ++ [(k f t).1])) as Hat.
  { intros t f k Ht. erewrite on_flight_at by (rewrite Ht; by apply list_lookup_middle). rewrite Ht. f_equal.
    unfold j. by rewrite insert_app_r_alt, Nat.sub_diag by lia. }
  assert (step cfg s (Arrive m path now) = set_flights s (ht_flights s ++ [f0])) as -> by (cbn; by rewrite Hst).
  set (f1 := to_phase f0 (Queued due)). set (f2 := to_phase f0 (Handling (Some due))).
  assert (step cfg (set_flights s (ht_flights s ++ [f0])) (Poll j now) = set_flights (set_tracker s tr) (ht_flights s ++ [f1])) as ->.
  { cbn [step]. rewrite (Hat _ f0) by done. unfold poll. cbn -[timeout_of]. by rewrite Hw. }
  pose proof (acquire_spec (limit_of s win)) as Ha. destruct (acquire (limit_of s win)) as [l|] eqn:El; [|lia].
  set (s3 := set_flights (set_limit (set_tracker s tr) win l) (ht_flights s ++ [f2])).
  assert (step cfg (set_flights (set_tracker s tr) (ht_flights s ++ [f1])) (Admit j) = s3) as ->.
  { cbn [step]. rewrite (Hat _ f1) by done. unfold take_permit. cbn. rewrite Hw.
    change (acquire _) with (acquire (limit_of s win)). by rewrite El. }
  assert (limited f2 = true) as Hl2 by (unfold limited; cbn; by rewrite Hw).
  assert (holding win f2 = 1) as Hh by (unfold holding; cbn; rewrite Hw; by destruct win).
  assert (free (limit_of s3 win) = free l) as Hfl by (unfold s3; by destruct win).
  assert (ht_tracker s3 = tr) as Htr by (unfold s3; by destruct win).
  assert (flight_ok f2) as Hok by done. assert (ht_flights s3 = ht_flights s ++ [f2]) as Hfs by done. clearbody s3.
  assert (forall k, accounted f2 (k f2 s3).1 s3 (k f2 s3).2 -> holding win (k f2 s3).1 = 0 ->
    free (limit_of (on_flight s3 j k) win) = free (limit_of s win)) as Hperm.
  { intros k Hk Hk0. rewrite (Hat _ f2) by done. pose proof (ac_permits _ _ _ _ Hk win). unfold limit_of in *. cbn in *. lia. }
  assert (forall answer tracker k, accounted f2 (k f2 s3).1 s3 (k f2 s3).2 ->
    (exists t b d, fl_phase (k f2 s3).1 = Answered answer t b d) -> ht_tracker (k f2 s3).2 = tracker ->
    ht_tracker (on_flight s3 j k) = tracker /\ free (limit_of (on_flight s3 j k) win) = free (limit_of s win) /\
    exists f t b d, ht_flights (on_flight s3 j k) !! j = Some f /\ fl_phase f = Answered answer t b d) as Hend.
  { intros answer tracker k Hk (t & b & d & Hph) <-. split_and!.
    - by rewrite (Hat _ f2).
    - apply Hperm; [done|]. unfold holding. by rewrite Hph.
    - rewrite (Hat _ f2) by done. eexists _, t, b, d. split; [by apply list_lookup_middle|done]. }
  assert (let '(answer, tracker) := (bare SERVICE_UNAVAILABLE, record_shed tr) in
    ht_tracker (on_flight s3 j (expire due)) = tracker /\ free (limit_of (on_flight s3 j (expire due)) win) = free (limit_of s win) /\
    exists f t b d, ht_flights (on_flight s3 j (expire due)) !! j = Some f /\ fl_phase f = Answered answer t b d) as Hlate.
  { apply Hend; [auto|..]; unfold expire; cbn -[release_held]; rewrite Z.leb_refl; [by repeat eexists|].
    cbn -[release_held]. destruct (release_held_spec s3 f2) as (b & w & -> & _). cbn. by rewrite Htr. }
  unfold timeout_middleware. fold tr. destruct run0 as [[latency r]|]; [destruct (latency <=? timeout_of cfg win)|]; [|done..].
  apply Hend; [auto|..]; unfold respond; cbn -[release_held]; rewrite (limited_given _ f2) by done; [by repeat eexists|].
  rewrite Hw. destruct (release_held_spec s3 f2) as (b & w & -> & _). by destruct (rs_status r); cbn; rewrite Htr.
Qed.

(** ** Shutdown *)

Definition left_over s : Z := total (fun f => Z.of_nat (steps_left f)) s.
Definition ended (f : Flight) : bool := Nat.eqb (steps_left f) 0.

Lemma on_flight_left s j k : Forall flight_ok (ht_flights s) -> (forall f, flight_ok f -> accounted f (k f s).1 s (k f s).2) ->
  on_flight s j k = s \/ left_over (on_flight s j k) < left_over s.
Proof.
  intros Hs Hk. unfold on_flight. destruct (ht_flights s !! j) as [f|] eqn:Hj; [|by left].
  pose proof (Forall_lookup_1 _ _ _ _ Hs Hj) as Hf. specialize (Hk f Hf).
  destruct (k f s) as [f' s']. cbn in Hk. destruct (ac_left _ _ _ _ Hk) as [Hl|[-> ->]].
  - right. unfold left_over, total. cbn [ht_flights set_flights]. rewrite (sum_by_insert _ _ _ f) by done. lia.
  - left. rewrite list_insert_id by done. by match goal with |- set_flights ?x _ = _ => destruct x end.
Qed.

(** A step moves a request on, or nothing. *)
Lemma step_left s a : Forall flight_ok (ht_flights s) -> ht_stopping s = true ->
  ht_flights (step cfg s a) = ht_flights s \/ left_over (step cfg s a) < left_over s.
Proof.
  intros Hs Hst. destruct a; cbn; rewrite ?Hst; auto.
  all: match goal with |- context [on_flight ?x ?j ?k] => destruct (on_flight_left x j k Hs) as [->|Hl]; auto end.
Qed.

(** What stays the same at a step. *)
Lemma on_flight_rest s j k : Forall flight_ok (ht_flights s) -> (forall f, flight_ok f -> accounted f (k f s).1 s (k f s).2) ->
  length (ht_flights (on_flight s j k)) = length (ht_flights s) /\ ht_health (on_flight s j k) = ht_health s /\
  ht_stopping (on_flight s j k) = ht_stopping s.
Proof.
  intros Hs Hk. unfold on_flight. destruct (ht_flights s !! j) as [f|] eqn:Hj; [|done].
  pose proof (Forall_lookup_1 _ _ _ _ Hs Hj) as Hf. specialize (Hk f Hf). destruct (k f s) as [f' s']. cbn in Hk. destruct Hk.
  cbn. by rewrite length_insert.
Qed.

Lemma step_rest s a : Forall flight_ok (ht_flights s) -> ht_stopping s = true ->
  ht_stopping (step cfg s a) = true /\ length (ht_flights (step cfg s a)) = length (ht_flights s) /\
  (is_ready (ht_health s) = true -> is_ready (ht_health (step cfg s a)) = true).
Proof.
  intros Hs Hst. destruct a; cbn; rewrite ?Hst; auto.
  all: match goal with |- context [on_flight ?x ?j ?k] => destruct (on_flight_rest x j k Hs) as (-> & -> & ->); auto end.
Qed.

(** The steps that end one request: its timer fires, or an unlimited route answers. *)
Definition finish (j : nat) (f : Flight) : list Action :=
  match fl_phase f, stack_of (fl_path f) with
  | Called, Limited win => [Poll j 0; Expire j (0 + timeout_of cfg win)]
  | Called, Plain => [Poll j 0; Respond j 0 (bare OK)]
  | Queued d, _ | Handling (Some d), _ => [Expire j d]
  | Handling None, _ => [Respond j 0 (bare OK)]
  | _, _ => []
  end.

Lemma finish_ends s j f : ht_flights s !! j = Some f ->
  exists f', ended f' = true /\ ht_flights (run cfg s (finish j f)) = <[j := f']> (ht_flights s).
Proof.
  intros Hj. unfold finish. pose proof (lookup_lt_Some _ _ _ Hj) as Hlt.
  destruct (fl_phase f) as [|d|[d|]| |] eqn:Ep; [destruct (stack_of (fl_path f)) as [|w] eqn:Es|..].
  all: unfold run; cbn [foldl step]; rewrite ?(on_flight_at _ _ _ _ Hj).
  - unfold poll. rewrite Ep, Es. cbn [fst snd].
    erewrite on_flight_at by (cbn [ht_flights set_flights]; by apply list_lookup_insert_eq). cbn.
    eexists. split; [|by rewrite list_insert_insert_eq]. done.
  - unfold poll. rewrite Ep, Es. cbn [fst snd].
    erewrite on_flight_at by (cbn [ht_flights set_flights]; by apply list_lookup_insert_eq). unfold expire. cbn -[timeout_of].
    rewrite Z.leb_refl. cbn. eexists. split; [|by rewrite list_insert_insert_eq]. done.
  - unfold expire. rewrite Ep, Z.leb_refl. cbn. eexists. split; [|reflexivity]. done.
  - unfold expire. rewrite Ep, Z.leb_refl. cbn. eexists. split; [|reflexivity]. done.
  - unfold respond. rewrite Ep. cbn. eexists. split; [|reflexivity]. done.
  - exists f. split; [by unfold ended, steps_left; rewrite Ep|by rewrite list_insert_id].
  - exists f. split; [by unfold ended, steps_left; rewrite Ep|by rewrite list_insert_id].
Qed.

Lemma length_finish j f : (length (finish j f) <= 2)%nat.
Proof. unfold finish. destruct (fl_phase f) as [|?|[?|]| |]; [destruct (stack_of (fl_path f))|..]; cbn; lia. Qed.

(** Ending the first [n] requests. *)
Lemma finish_all s n : (n <= length (ht_flights s))%nat ->
  exists l, (length l <= 2 * n)%nat /\ length (ht_flights (run cfg s l)) = length (ht_flights s) /\
    forall j f, (j < n)%nat -> ht_flights (run cfg s l) !! j = Some f -> ended f = true.
Proof.
  induction n as [|n IH]; intros Hn; [exists []; split_and!; cbn; try done; intros; lia|].
  destruct IH as (l & Hl & Hlen & Hend); [lia|].
  destruct (lookup_lt_is_Some_2 (ht_flights (run cfg s l)) n) as [f Hf]; [lia|].
  destruct (finish_ends _ _ _ Hf) as (f' & Hf' & Hfin).
  exists (l ++ finish n f). unfold run in *. rewrite length_app, foldl_app, Hfin, length_insert. pose proof (length_finish n f).
  split_and!; [lia|done|]. intros j g Hj. destruct (decide (j = n)) as [->|Hne].
  - rewrite list_lookup_insert_eq by (by apply lookup_lt_Some in Hf). by intros [= <-].
  - rewrite list_lookup_insert_ne by done. apply Hend. lia.
Qed.

(** [C14] From the shutdown signal on, whatever has happened before: no request is
    added; each step of one takes it closer to its end, so they take finitely many;
    two steps per request are enough to end them all, upon which the server
    returns.  The readiness flag plays no part: a server that was ready goes on
    answering its probes that it is. *)
Theorem shutdown_drains (before : list Action) (sig : Signal) (after : list Action) :
  let s := run cfg (build cfg) (before ++ Shutdown sig :: after) in
  length (ht_flights s) = length (ht_flights (run cfg (build cfg) before)) /\
  (forall a, ht_flights (step cfg s a) = ht_flights s \/ 0 <= left_over (step cfg s a) < left_over s) /\
  (exists l, (length l <= 2 * length (ht_flights s))%nat /\ forallb ended (ht_flights (run cfg s l)) = true) /\
  (is_ready (ht_health (run cfg (build cfg) before)) = true -> readiness (ht_health s) = OK).
Proof.
  intros s. set (s0 := run cfg (build cfg) before). set (s1 := step cfg s0 (Shutdown sig)).
  assert (s = run cfg s1 after) as Hs by (unfold s, s1, s0, run; by rewrite foldl_app).
  assert (http_ok s1) as Hok1 by (apply http_step_ok, http_run_ok, build_ok).
  assert (http_ok s /\ ht_stopping s = true /\ length (ht_flights s) = length (ht_flights s0) /\
    (is_ready (ht_health s0) = true -> is_ready (ht_health s) = true)) as (Hok & Hst & Hlen & Hready).
  { rewrite Hs. unfold run. apply foldl_inv; [by split_and!|]. intros t a _ (Ht & Hstop & Hl & Hr).
    destruct (step_rest t a (ok_flights _ Ht) Hstop) as (? & ? & ?). split_and!; auto using http_step_ok. congruence. }
  split_and!; [done| | |].
  - intros a. destruct (step_left s a (ok_flights _ Hok) Hst) as [|Hl]; [by left|right]. split; [|done].
    apply sum_by_nonneg. lia.
  - destruct (finish_all s (length (ht_flights s))) as (l & Hl & Hn & Hend); [done|]. exists l. split; [done|].
    apply forallb_forall. intros f Hf%list_elem_of_In. apply list_elem_of_lookup in Hf as [j Hj].
    rewrite (Hend j f); [done| |done]. rewrite <- Hn. by eapply lookup_lt_Some.
  - intros Hr. unfold readiness. by rewrite Hready.
Qed.
End Properties.
