(* ===== verification/Setup.v ===== *)
(** * Setting up the process

    The steps of [main] before there is any state: [Config::load] of
    [config/mod.rs], [telemetry::init] and [metrics::init] of
    [bidder-core/src/telemetry/mod.rs] and [metrics/mod.rs], and [build_listener] of
    [bidder-server/src/server/socket.rs].  Each decides what it asks figment, the
    OpenTelemetry SDK, the Prometheus exporter and the socket for; what these answer
    is an argument. *)
From S2P Require Import Prelude Floats Text Config.

(** ** [Config::load] *)

(** What figment merges, the later over the earlier. *)
Inductive Provider :=
| TomlFile (path : string)
| EnvPrefixed (prefix : string) (split : string).

Section Load.
Context (extract : list Provider -> Result Config string).
Definition load_from (path : string) : Result Config string := extract [TomlFile path; EnvPrefixed "BIDDER__" "__"].
Definition load : Result Config string := load_from "config.toml".
End Load.

(** The command line: [--config], or its default. *)
Record Args := { args_config : string }.
Definition Args_parse (config : option string) : Args := {| args_config := unwrap_or config "config.toml"%string |}.

(** ** [telemetry::init] *)

(** The samplers the SDK offers and the code uses: the decision is taken when a
    trace starts. *)
Inductive Sampler := AlwaysOn | TraceIdRatioBased (rate : f64) | ParentBased (root : Sampler).

Inductive FmtLayer := FmtJson | FmtCompact.
Definition fmt_layer (f : LogFormat.t) : FmtLayer :=
  match f with LogFormat.Json => FmtJson | LogFormat.Pretty => FmtCompact end.

Record OtelLayer := { ol_endpoint : string; ol_sampler : Sampler; ol_tracer : string }.
(** The subscriber [init] installs. *)
Record Registry := { rg_filter : string; rg_otel : option OtelLayer; rg_fmt : FmtLayer }.

(** A [tracing::info!]: before a subscriber is installed nobody receives it. *)
Definition emit (subscriber : option Registry) (message : string) (log : list string) : list string :=
  match subscriber with Some _ => log ++ [message] | None => log end.

(** [trim().is_empty()] *)
Definition blank (s : string) : bool := is_empty (trim (utf8 s)).

Section Telemetry.
(** [EnvFilter::try_from_default_env], and [SpanExporter::builder()...build()] for
    an endpoint. *)
Context (env_filter : option string) (build_exporter : string -> Result unit string).

Definition sampler_of (cfg : TelemetryConfig) : Sampler :=
  if tl_tail_sampling_via_collector cfg then ParentBased AlwaysOn
  else ParentBased (TraceIdRatioBased (tl_success_sample_rate cfg)).

Definition tail_sampling_message (endpoint : string) : string :=
  ("telemetry: tail_sampling_via_collector=true, shipping 100% of spans " ++
   "— ensure an OTel Collector with tail_sampling processor is in front of " ++ endpoint)%string.

(** What is installed and what was logged on the way. *)
Definition telemetry_init (cfg : TelemetryConfig) (log : list string) : Result Registry string * list string :=
  let filter := unwrap_or env_filter "info"%string in
  if blank (tl_otlp_endpoint cfg)
  then (Ok {| rg_filter := filter; rg_otel := None; rg_fmt := fmt_layer (tl_log_format cfg) |}, log)
  else
    let endpoint := (tl_otlp_endpoint cfg ++ "/v1/traces")%string in
    match build_exporter endpoint with
    | Err e => (Err e, log)
    | Ok _ =>
        let log := if tl_tail_sampling_via_collector cfg
                   then emit None (tail_sampling_message (tl_otlp_endpoint cfg)) log else log in
        (Ok {| rg_filter := filter;
               rg_otel := Some {| ol_endpoint := endpoint; ol_sampler := sampler_of cfg; ol_tracer := tl_service_name cfg |};
               rg_fmt := fmt_layer (tl_log_format cfg) |}, log)
    end.

(** Set-up fails only on an exporter; spans are exported exactly with an endpoint,
    the reminder to run a collector is never seen. *)
Theorem telemetry_init_spec cfg log :
  (telemetry_init cfg log).2 = log /\
  match (telemetry_init cfg log).1 with
  | Ok r => (is_Some (rg_otel r) <-> blank (tl_otlp_endpoint cfg) = false) /\ rg_fmt r = fmt_layer (tl_log_format cfg)
  | Err e => blank (tl_otlp_endpoint cfg) = false /\ build_exporter (tl_otlp_endpoint cfg ++ "/v1/traces")%string = Err e
  end.
Proof.
  unfold telemetry_init. destruct (blank _) eqn:Eb; cbn.
  { by split_and!. }
  destruct (build_exporter _) as [|e] eqn:Ee; [|by split_and!].
  cbn. split; [by destruct (tl_tail_sampling_via_collector cfg)|]. split; [|done]. by split; [|eexists].
Qed.
End Telemetry.

(** ** [metrics::init] *)

(** [PrometheusBuilder::new().with_http_listener(bind).install()] *)
Definition metrics_init (install : SocketAddr -> Result unit string) (cfg : MetricsConfig) : Result unit string :=
  install (mt_bind cfg).

(** ** [build_listener] *)

Inductive Domain := IPV4 | IPV6.
Definition is_ipv6 (a : SocketAddr) : bool := Nat.eqb (length (sa_ip a)) 16.

Inductive SocketCall :=
| NewSocket (domain : Domain) | SetReuseAddress | SetReusePort | SetNonblocking
| Bind (addr : SocketAddr) | Listen (backlog : Z) | FromStd.

(** The system calls, in order; the first that fails is the error. *)
Definition listener_calls (addr : SocketAddr) : list SocketCall :=
  [NewSocket (if is_ipv6 addr then IPV6 else IPV4); SetReuseAddress; SetReusePort; SetNonblocking; Bind addr; Listen 4096; FromStd].
Fixpoint attempt (sys : SocketCall -> Result unit string) (calls : list SocketCall) : Result unit string :=
  match calls with
  | [] => Ok tt
  | c :: calls => match sys c with Ok _ => attempt sys calls | Err e => Err e end
  end.
Definition build_listener (sys : SocketCall -> Result unit string) (addr : SocketAddr) : Result unit string :=
  attempt sys (listener_calls addr).

(** ** [BidderError] ([error.rs]) *)

(** The library's error type, by the message of its source. *)
Inductive BidderError := ConfigError (e : string) | TelemetryError (e : string) | IoError (e : string).
(** [Display] *)
Definition display_error (e : BidderError) : string :=
  match e with
  | ConfigError e => "configuration error: " ++ e
  | TelemetryError e => "telemetry init error: " ++ e
  | IoError e => "io error: " ++ e
  end%string.
