(* ===== verification/Warmup.v ===== *)
(** * Warm-up

    [bidder-server/src/server/warmup.rs] and the readiness switch of [main.rs]:
    filling the segment cache from Redis before traffic arrives, the self-test
    against the own endpoint, and the readiness flag the load balancer reads.
    Redis' answers, the [rkyv] archive and the HTTP client are parameters. *)
From S2P Require Import Prelude Floats OpenRtb Bitmap Catalog Model Externals Pacing Frequency Scoring Segments.
From S2P Require Import Pipeline PipelineInv Exchange WinNotice Events Server.

(** ** The cache key of a Redis key *)

(** [str::strip_prefix], [trim_start_matches] and [trim_end_matches]. *)
Fixpoint strip_prefix (p s : string) : option string :=
  match p, s with
  | EmptyString, _ => Some s
  | String a p, String b s => if bool_decide (a = b) then strip_prefix p s else None
  | String _ _, EmptyString => None
  end.
Fixpoint trim_start_matches (fuel : nat) (p s : string) : string :=
  match fuel with
  | O => s
  | S fuel => match strip_prefix p s with Some s' => trim_start_matches fuel p s' | None => s end
  end.
Fixpoint trim_end_matches (c : Ascii.ascii) (s : string) : string :=
  match s with
  | EmptyString => EmptyString
  | String a s =>
      let r := trim_end_matches c s in
      match r with EmptyString => if bool_decide (a = c) then EmptyString else String a EmptyString | _ => String a r end
  end.

(** Each round removes at least one character, so the length is enough fuel. *)
Definition user_of_key (key : string) : string :=
  trim_end_matches (Ascii.ascii_of_nat 125) (trim_start_matches (String.length key) "v1:seg:{u:" key).

(** ** [warm_segment_cache] *)

(** [slice::chunks(n)], for a positive [n]; the length is enough fuel. *)
Fixpoint chunks_from {A} (fuel n : nat) (l : list A) : list (list A) :=
  match fuel, l with
  | S fuel, _ :: _ => take n l :: chunks_from fuel n (drop n l)
  | _, _ => []
  end.
Definition chunks {A} (n : nat) (l : list A) : list (list A) := chunks_from (length l) n l.
Definition BATCH : nat := 200.

Section Warm.
Context {C : Type} `{KVCache C string (list SegmentId)}.

(** What the external calls answer: [GET v1:warm:users], the decoding of the
    archived [Vec<u32>], and one [MGET] per batch. *)
Record WarmEnv := {
  we_get : Result (option (list Z)) string;
  we_access : list Z -> Result (list Z) string;
  we_mget : nat -> list string -> Result (list (option (list Z))) string;
}.

Definition warm_one (st : C * nat) (kv : string * option (list Z)) : C * nat :=
  let '(cache, populated) := st in
  match kv.2 with
  | None => st
  | Some raw =>
      if negb (Z.of_nat (length raw) mod 4 =? 0) then st
      else
        let ids := decode_ids raw in
        match get_or_fetch cache (user_of_key kv.1) tt (fun s => (Ok ids, s)) with
        | (Ok _, cache, _) => (cache, S populated)
        | (Err _, cache, _) => (cache, populated)
        end
  end.

Fixpoint warm_batches (env : WarmEnv) (i : nat) (bs : list (list Z)) (st : C * nat) : Result nat string * C :=
  match bs with
  | [] => (Ok st.2, st.1)
  | chunk :: bs =>
      let keys := (fun id => RedisSegmentRepo.segment_key (pretty id)) <$> chunk in
      match we_mget env i keys with
      | Err e => (Err e, st.1)
      | Ok values => warm_batches env (S i) bs (foldl warm_one st (zip keys values))
      end
  end.

(** The number of populated entries, and the cache. *)
Definition warm_segment_cache (env : WarmEnv) (cache : C) : Result nat string * C :=
  match we_get env with
  | Err e => (Err e, cache)
  | Ok None => (Ok 0%nat, cache)
  | Ok (Some warm_bytes) =>
      match we_access env warm_bytes with
      | Err e => (Err e, cache)
      | Ok user_ids => warm_batches env 0 (chunks BATCH user_ids) (cache, 0%nat)
      end
  end.
End Warm.

(** ** The self-test *)

(** [serve] is one request of the client against the endpoint: the status it gets,
    [None] for a transport error, and the server after it. *)
Section SelfTest.
Context {S : Type} (serve : S -> option StatusCode * S).

(** [is_success() || as_u16() == 204] *)
Definition is_success (s : StatusCode) : bool := match s with OK | NO_CONTENT => true | _ => false end.

Fixpoint connect (attempts : nat) (s : S) : bool * S :=
  match attempts with
  | O => (false, s)
  | Datatypes.S n => let '(r, s) := serve s in match r with Some _ => (true, s) | None => connect n s end
  end.

Fixpoint count_failures (n : nat) (failures : Z) (s : S) : Z * S :=
  match n with
  | O => (failures, s)
  | Datatypes.S n =>
      let '(r, s) := serve s in
      count_failures n (match r with Some st => if is_success st then failures else failures + 1 | None => failures + 1 end) s
  end.

Definition self_test (s : S) : Result Z string * S :=
  let '(connected, s) := connect 4 s in
  if negb connected then (Err "self-test: server not reachable after backoff retries"%string, s)
  else
    let '(failures, s) := count_failures 100 0 s in
    if 10 <? failures then (Err "self-test: too many requests failed"%string, s) else (Ok failures, s).

(** [warmup::run] after the cache has been warmed, whatever that gave. *)
Definition warmup_run (health : HealthState) (s : S) : Result unit string * HealthState * S :=
  let '(r, s) := self_test s in
  match r with Err e => (Err e, health, s) | Ok _ => (Ok tt, set_ready health, s) end.

(** The end of [main]: warm up if configured, else be ready at once. *)
Definition start_health (warmup_enabled : bool) (health : HealthState) (s : S) : Result unit string * HealthState * S :=
  if warmup_enabled then warmup_run health s else (Ok tt, set_ready health, s).
End SelfTest.

(** The self-test's request as the server sees it. *)
Definition serve_bid {Value B C G GE Sc F FE P N A K} `{JsonValue Value} `{Bitmap B} `{KVCache C string (list SegmentId)}
    `{UserSegmentRepository G GE} `{Scorer Sc} `{FrequencyCapper F FE} `{BudgetPacer P} `{NoticeUrlBuilder N}
    `{ExchangeAdapter A Value} `{EventPublisher K} (heap_order : list AdCandidate -> list AdCandidate)
    (sv : BidService N A) (env : BidEnv GE FE) (body : list Z) (st : BidState B C G Sc F P K)
  : option StatusCode * BidState B C G Sc F P K :=
  let '(a, st) := bid heap_order sv env body st in
  (match a with Answered r => Some (rs_status r) | Panicked => None end, st).

(** ** Lemmas *)

Lemma strip_prefix_app p s : strip_prefix p (p +:+ s) = Some s.
Proof.
  induction p as [|a p IH]; [done|]. change (String a p +:+ s) with (String a (p +:+ s)). cbn [strip_prefix].
  by rewrite bool_decide_eq_true_2.
Qed.

Lemma trim_end_app c s : has_char c s = false -> trim_end_matches c (s +:+ String c "") = s.
Proof.
  induction s as [|a s IH]; intros Hs; [change (trim_end_matches c (String c "") = ""%string); cbn [trim_end_matches]; by rewrite bool_decide_eq_true_2|].
  simpl in Hs. apply orb_false_iff in Hs as [Ha Hs].
  change (String a s +:+ String c "") with (String a (s +:+ String c "")). cbn [trim_end_matches]. rewrite IH by done.
  destruct s; [by rewrite Ha|done].
Qed.

Lemma user_of_segment_key (z : Z) : user_of_key (RedisSegmentRepo.segment_key (pretty z)) = pretty z.
Proof.
  unfold user_of_key, RedisSegmentRepo.segment_key.
  pose proof (pretty_Z_has_char z (Ascii.ascii_of_nat 125) eq_refl) as Hb.
  pose proof (pretty_Z_has_char z (Ascii.ascii_of_nat 118) eq_refl) as Hv.
  change (String.length ("v1:seg:{u:" +:+ (pretty z +:+ "}"))) with (S (9 + String.length (pretty z +:+ "}"))).
  cbn [trim_start_matches]. rewrite strip_prefix_app.
  assert (forall fuel, trim_start_matches fuel "v1:seg:{u:" (pretty z +:+ "}") = pretty z +:+ "}") as ->.
  { intros [|fuel]; [done|]. cbn [trim_start_matches].
    destruct (pretty z) as [|a s]; [done|]. simpl in Hv. apply orb_false_iff in Hv as [Ha _].
    apply bool_decide_eq_false in Ha. change (String a s +:+ "}") with (String a (s +:+ "}")). cbn [strip_prefix].
    rewrite bool_decide_eq_false_2; [done|]. intros <-. by apply Ha. }
  by apply trim_end_app.
Qed.

Lemma concat_chunks {A} fuel n (l : list A) : (0 < n)%nat -> (length l <= fuel)%nat -> concat (chunks_from fuel n l) = l.
Proof.
  intros Hn. revert l; induction fuel as [|fuel IH]; intros [|a l] Hl; try done; [simpl in Hl; lia|].
  cbn [chunks_from concat]. rewrite IH; [apply take_drop|]. rewrite length_drop. simpl in *. lia.
Qed.

Section WarmLemmas.
Context {C : Type} `{KVCacheLaws C string (list SegmentId)} (store : gmap string (list Z)).
Notation stored z := (store !! RedisSegmentRepo.segment_key (pretty z)).

(** What the value of a user contributes. *)
Definition usable (raw : option (list Z)) : option (list SegmentId) :=
  raw ← raw; if Z.of_nat (length raw) mod 4 =? 0 then Some (decode_ids raw) else None.

Lemma warm_one_get (cache : C) n (id : Z) user :
  kv_get (warm_one (cache, n) (RedisSegmentRepo.segment_key (pretty id), stored id)).1 user =
  match kv_get cache user with
  | Some ids => Some ids
  | None => if decide (user = pretty id) then usable (stored id) else None
  end.
Proof.
  unfold warm_one, usable. cbn [fst snd]. destruct (stored id) as [raw|]; simpl;
    [|destruct (kv_get cache user); [done|by case_decide]].
  destruct (_ =? 0); simpl; [|destruct (kv_get cache user); [done|by case_decide]].
  unfold get_or_fetch. rewrite user_of_segment_key.
  destruct (kv_get cache (pretty id)) as [ids|] eqn:E; simpl; case_decide as Hu; subst; rewrite ?E, ?kv_get_put_same; try done.
  - by destruct (kv_get cache user).
  - rewrite kv_get_put_other by congruence. by destruct (kv_get cache user).
Qed.

Definition entry (id : Z) : string * option (list Z) := (RedisSegmentRepo.segment_key (pretty id), stored id).

Lemma warm_fold_get ids (cache : C) n (id : Z) :
  kv_get (foldl warm_one (cache, n) (entry <$> ids)).1 (pretty id) =
  match kv_get cache (pretty id) with
  | Some l => Some l
  | None => if decide (id ∈ ids) then usable (stored id) else None
  end.
Proof.
  revert cache n; induction ids as [|x ids IH]; intros cache n.
  { cbn [fmap list_fmap foldl fst]. destruct (kv_get cache _); [done|]. rewrite decide_False by set_solver. done. }
  rewrite fmap_cons. cbn [foldl]. pose proof (warm_one_get cache n x (pretty id)) as Hx. fold (entry x) in Hx.
  destruct (warm_one (cache, n) (entry x)) as [cache1 n1]. cbn [fst] in Hx. rewrite IH, Hx.
  destruct (kv_get cache (pretty id)); [done|].
  destruct (decide (pretty id = pretty x)) as [->%(inj pretty)|Hne].
  - rewrite (decide_True (P := x ∈ x :: ids)) by (apply elem_of_cons; auto).
    destruct (usable (stored x)); [done|]. by case_decide.
  - rewrite (decide_ext (id ∈ ids) (id ∈ x :: ids)); [done|]. rewrite elem_of_cons. naive_solver.
Qed.

Lemma warm_fold_other ids (cache : C) n user : user ∉ (pretty : Z -> string) <$> ids ->
  kv_get (foldl warm_one (cache, n) (entry <$> ids)).1 user = kv_get cache user.
Proof.
  revert cache n; induction ids as [|x ids IH]; intros cache n Hu; [done|].
  rewrite fmap_cons in *. cbn [foldl]. apply not_elem_of_cons in Hu as [Hx Hu].
  pose proof (warm_one_get cache n x user) as Hg. fold (entry x) in Hg.
  destruct (warm_one (cache, n) (entry x)) as [cache1 n1]. cbn [fst] in Hg. rewrite IH, Hg by done.
  rewrite decide_False by done. by destruct (kv_get cache user).
Qed.

(** Redis answers a batch from the store. *)
Definition reads_store (env : WarmEnv) : Prop := forall i keys, we_mget env i keys = Ok ((fun k => store !! k) <$> keys).

Lemma warm_batches_concat env i bs (st : C * nat) : reads_store env ->
  warm_batches env i bs st =
  (Ok (foldl warm_one st (entry <$> concat bs)).2, (foldl warm_one st (entry <$> concat bs)).1).
Proof.
  intros Hr. revert i st; induction bs as [|b bs IH]; intros i st; [done|]. cbn [warm_batches concat].
  rewrite Hr, IH. rewrite fmap_app, foldl_app.
  replace (zip _ _) with (entry <$> b); [done|]. rewrite <- list_fmap_compose.
  clear. induction b as [|x b IH]; [done|]. rewrite !fmap_cons. simpl. by rewrite IH.
Qed.

(** Warming agrees with reading through: from an empty cache the warmed cache
    holds, for each listed user, exactly the list the repository would decode from
    the user's value; a missing or malformed value leaves no entry, and no other
    user gets one.  The batching does not show. *)
Theorem warm_cache_agrees (env : WarmEnv) (cache : C) (raw_ids : list Z) (user_ids : list Z)
    (Hempty : forall user, kv_get cache user = None) (Hreads : reads_store env)
    (Hget : we_get env = Ok (Some raw_ids)) (Hacc : we_access env raw_ids = Ok user_ids) :
  let '(r, cache') := warm_segment_cache env cache in
  is_ok r = true /\
  (forall id l, id ∈ user_ids ->
     (kv_get cache' (pretty id) = Some l <->
      exists raw, stored id = Some raw /\ decode_segments (Some raw) = Ok l)) /\
  (forall user, user ∉ (pretty : Z -> string) <$> user_ids -> kv_get cache' user = None).
Proof.
  unfold warm_segment_cache. rewrite Hget, Hacc, warm_batches_concat by done.
  unfold chunks. rewrite concat_chunks by (unfold BATCH; lia). split; [done|]. split.
  - intros id l Hid. rewrite warm_fold_get, Hempty, decide_True by done. unfold usable, decode_segments.
    destruct (stored id) as [raw|]; simpl; [|naive_solver].
    destruct (_ =? 0) eqn:E; simpl; split.
    + intros [= <-]. eexists. split; [done|]. by rewrite E.
    + intros (raw' & [= <-] & Hd). rewrite E in Hd. simpl in Hd. by injection Hd as <-.
    + done.
    + intros (raw' & [= <-] & Hd). by rewrite E in Hd.
  - intros user Hu. by rewrite warm_fold_other, Hempty.
Qed.
End WarmLemmas.

(** ** The self-test of the assembled server *)
Section SelfTestServer.
Context {Value : Type} `{JsonValue Value} {B : Type} `{BitmapLaws B}.
Context {C : Type} `{KVCache C string (list SegmentId)} {G GE : Type} `{UserSegmentRepository G GE}.
Context {Sc : Type} `{Scorer Sc} {F FE : Type} `{FrequencyCapper F FE} {P : Type} `{BudgetPacer P}.
Context {N : Type} `{NoticeUrlBuilder N} {A : Type} `{ExchangeAdapter A Value} {K : Type} `{EventPublisher K}.
Context (heap_order : list AdCandidate -> list AdCandidate).

Lemma self_test_constant {S : Type} (serve : S -> option StatusCode * S) (s : S) (st : StatusCode) :
  serve s = (Some st, s) -> is_success st = true -> self_test serve s = (Ok 0, s).
Proof.
  intros Hs Hst. unfold self_test. cbn [connect]. rewrite Hs. cbn [negb].
  assert (forall n, count_failures serve n 0 s = (0, s)) as ->.
  { induction n as [|n IH]; [done|]. cbn [count_failures]. by rewrite Hs, Hst. }
  done.
Qed.

(** The self-test proves little about the pipeline: its request has no
    impressions, so whatever the state of catalog, Redis, scorer and pacer, every
    one of its requests is answered 204 by the validation stage and changes
    nothing; a server that answers at all becomes ready, having run no stage
    behind the first. *)
Theorem self_test_stops_at_validation (sv : BidService N A) (env : BidEnv GE FE) (body : list Z)
    (st : BidState B C G Sc F P K) (health : HealthState) (req : BidRequest Value)
    (Hdecode : decode_request (bv_adapter sv) body = Ok req) (Hreq : br_imp req = []) :
  start_health (serve_bid heap_order sv env body) true health st = (Ok tt, set_ready health, st).
Proof.
  unfold start_health, warmup_run. rewrite (self_test_constant _ st NO_CONTENT); [done| |done].
  unfold serve_bid. rewrite (rejected_request_untouched heap_order sv env body st req) by auto. done.
Qed.
End SelfTestServer.

Module Sample.
(** Redis with a user whose value is two ids, one without a value and one whose
    value is cut short; the archive is the list of the ids. *)
Definition store : gmap string (list Z) := {["v1:seg:{u:7}"%string := [1; 0; 0; 0; 2; 1; 0; 0]; "v1:seg:{u:9}"%string := [1; 0]]}.
Definition env : WarmEnv := {|
  we_get := Ok (Some [7; 8; 9]); we_access l := Ok l; we_mget _ keys := Ok ((fun k => store !! k) <$> keys) |}.

(** The self-test's request, against a catalog without campaigns. *)
Import PipelineProps.Sample.
Definition no_imp_request : BidRequest Json :=
  Build_BidRequest "warmup" [] None None None None None None None [] [] None [] [] [] [] None None 0 None.
#[global] Instance adapter : ExchangeAdapter OpenRtbGeneric.OpenRtbGenericAdapter Json :=
  OpenRtbGeneric.adapter (fun _ => Ok no_imp_request) Server.Sample.to_vec.
Definition service : BidService NoNoticeUrl OpenRtbGeneric.OpenRtbGenericAdapter := {|
  bv_adapter := OpenRtbGeneric.open_rtb_generic; bv_topic := "events"; bv_deadline_ms := 100; bv_top_k := 50;
  bv_builder := no_notice_url |}.
Definition empty_world : World (gset Z) (gmap string (list SegmentId)) (list SegmentId) FeatureWeightedScorer unit
  Local.LocalBudgetPacer := {|
  w_catalog := catalog_default; w_cache := ∅; w_repo := []; w_scorer := FeatureWeightedScorer_default; w_capper := tt;
  w_pacer := {| Local.counters := ∅ |} |}.
Definition before : BidState (gset Z) (gmap string (list SegmentId)) (list SegmentId) FeatureWeightedScorer unit
  Local.LocalBudgetPacer (list AdEvent.t) := {| bs_world := empty_world; bs_publisher := [] |}.
End Sample.

Lemma warm_cache_agrees_witness :
  let cache := (warm_segment_cache Sample.env (∅ : gmap string (list SegmentId))).2 in
  kv_get cache "7"%string = Some [1; 258] /\ kv_get cache "8"%string = None.
Proof.
  intros cache.
  pose proof (warm_cache_agrees Sample.store Sample.env (∅ : gmap string (list SegmentId)) [7; 8; 9] [7; 8; 9]
    (fun user => lookup_empty user) (fun i keys => eq_refl) eq_refl eq_refl) as Hw.
  change (warm_segment_cache Sample.env ∅) with
    ((warm_segment_cache Sample.env (∅ : gmap string (list SegmentId))).1, cache) in Hw.
  destruct Hw as (_ & Hl & _). split.
  - apply (Hl 7 [1; 258]); [set_solver|]. eexists. split; vm_compute; reflexivity.
  - destruct (kv_get cache "8"%string) as [l|] eqn:E; [|done]. exfalso.
    apply (Hl 8 l) in E as (raw & Hr & _); [|set_solver]. vm_compute in Hr. discriminate Hr.
Defined.

Lemma self_test_stops_at_validation_witness :
  is_ready (start_health (serve_bid (fun l => l) Sample.service Server.Sample.bid_env [] ) true HealthState_new
              Sample.before).1.2 = true.
Proof.
  rewrite (self_test_stops_at_validation (fun l => l) Sample.service Server.Sample.bid_env [] Sample.before
             HealthState_new Sample.no_imp_request); reflexivity.
Defined.
