(* ===== verification/Traffic.v ===== *)
(** * Concurrent requests

    Many requests run the pipeline at once over the state they share, while the
    refresh task reloads the budgets and swaps the catalog.  A request moves stage
    by stage up to the pacing stage; from there on each step is one atomic
    operation on a campaign's counter, as [LocalBudgetPacer] performs it, so that
    the [fetch_sub]s, the compensating [fetch_add]s and the releases of all
    requests interleave freely.  A schedule is a list of [Action]s.

    [bidder-core/src/pacing/local.rs], the stages [budget_pacing.rs] and
    [ranking.rs], [Pipeline::execute] and the refresh loop of [loader.rs]. *)
From S2P Require Import Prelude Floats OpenRtb Bitmap Catalog Model Externals Pacing Frequency Scoring Segments.
From S2P Require Import Pipeline PipelineInv PipelineProps.

(** ** Programs over the counters *)

(** Where a [fetch_add] stands in the code: in [check_and_reserve], undoing a
    refused reservation, or in [release]. *)
Inductive Site := RollBack | GiveBack.

(** What is left to do, up to its next atomic operation: [FetchSub] yields the
    counter's previous value, [None] without a counter. *)
Inductive Prog (A : Type) :=
| Ret (a : A)
| FetchSub (campaign_id bid : Z) (k : option Z -> Prog A)
| FetchAdd (site : Site) (campaign_id bid : Z) (k : Prog A).
Arguments Ret {A}.
Arguments FetchSub {A}.
Arguments FetchAdd {A}.

Definition fetch_sub (p : Local.LocalBudgetPacer) (campaign_id bid : Z) : option Z * Local.LocalBudgetPacer :=
  match Local.counters p !! campaign_id with
  | None => (None, p)
  | Some c => (Some c, {| Local.counters := <[campaign_id := (Local.fetch_sub_test c bid).1]> (Local.counters p) |})
  end.

(** A program without interference. *)
Fixpoint run_prog {A} (pr : Prog A) (p : Local.LocalBudgetPacer) : A * Local.LocalBudgetPacer :=
  match pr with
  | Ret a => (a, p)
  | FetchSub id bid k => let '(c, p) := fetch_sub p id bid in run_prog (k c) p
  | FetchAdd _ id bid k => run_prog k (Local.release p id bid)
  end.

(** [check_and_reserve] *)
Definition reserve {A} (campaign_id bid : Z) (k : PaceDecision -> Prog A) : Prog A :=
  FetchSub campaign_id bid (fun prev =>
    match prev with
    | None => k Exhausted
    | Some c => if c <=? 0 then FetchAdd RollBack campaign_id bid (k Exhausted) else k HasBudget
    end).

(** The reservations of one impression, then of all. *)
Fixpoint reserve_each {A} (l : list AdCandidate) (ex : list Z) (k : list Z -> Prog A) : Prog A :=
  match l with
  | [] => k ex
  | c :: l => reserve (ac_campaign_id c) (ac_bid_price_cents c)
                (fun d => reserve_each l (if decide (d = Exhausted) then ex ++ [ac_campaign_id c] else ex) k)
  end.
Fixpoint pace_each {A} (cs : list (list AdCandidate)) (k : list (list AdCandidate) -> Prog A) : Prog A :=
  match cs with
  | [] => k []
  | l :: cs => reserve_each l [] (fun ex => pace_each cs (fun out => k (retain_granted ex l :: out)))
  end.

(** The releases of one impression's losers, then the winners of all. *)
Fixpoint release_each {A} (l : list AdCandidate) (k : Prog A) : Prog A :=
  match l with
  | [] => k
  | c :: l => FetchAdd GiveBack (ac_campaign_id c) (ac_bid_price_cents c) (release_each l k)
  end.
Fixpoint rank_each {Value A} (req : BidRequest Value) (entries : list (nat * list AdCandidate)) (ws : list ImpWinner)
    (k : list ImpWinner -> Prog A) : Prog A :=
  match entries with
  | [] => k ws
  | (idx, l) :: entries =>
      match max_by rank_cmp l with
      | None => rank_each req entries ws k
      | Some w => release_each (filter (fun c => ac_campaign_id c <> ac_campaign_id w) l)
                    (rank_each req entries (ws ++ [winner_entry req idx w]) k)
      end
  end.

(** ** Requests in flight and the system *)

Section Traffic.
Context {Value : Type} `{JsonValue Value} {B : Type} `{Bitmap B}.
Context {C : Type} `{KVCache C string (list SegmentId)} {G GE : Type} `{UserSegmentRepository G GE}.
Context {Sc : Type} `{Scorer Sc} {F FE : Type} `{FrequencyCapper F FE} {N : Type} `{NoticeUrlBuilder N}.
Context (heap_order : list AdCandidate -> list AdCandidate).
Context (deadline_ms : Z) (top_k : nat) (builder : N) (exchange_id : string).
Notation Ctx := (BidContext Value B).
Notation Shared := (World B C G Sc F Local.LocalBudgetPacer).

(** How a run ends: its result, the number of stages that ran, its context. *)
Definition Final : Type := Result unit string * nat * Ctx.

(** The deadline test before stage [i], and the outcome test after stage [i]. *)
Definition before_stage (env : Env GE FE) (i : nat) (ctx : Ctx) (k : Prog Final) : Prog Final :=
  if deadline_ms <=? elapsed_ms ctx (en_clock env i)
  then Ret (Ok tt, i, set_outcome ctx (NoBid PIPELINE_DEADLINE)) else k.
Definition after_stage (i : nat) (ctx : Ctx) (k : Prog Final) : Prog Final :=
  match outcome ctx with NoBid _ => Ret (Ok tt, S i, ctx) | _ => k end.

(** The run from the pacing stage on. *)
Definition tail_prog (env : Env GE FE) (ctx : Ctx) : Prog Final :=
  before_stage env 6 ctx (pace_each (candidates ctx) (fun cs =>
    let ctx := paced ctx cs in
    after_stage 6 ctx (before_stage env 7 ctx (
      rank_each (request ctx) (imap pair (candidates ctx)) (winners ctx) (fun ws =>
        let ctx := ranked ctx ws in
        after_stage 7 ctx (before_stage env 8 ctx (
          let '(r, ctx) := responded builder exchange_id ctx in Ret (r, 9%nat, ctx)))))))).

(** A cancelled request is one the HTTP timeout has dropped: nothing of it runs
    any more. *)
Inductive Thread :=
| AtStage (i : nat) (ctx : Ctx)
| Running (pr : Prog Final)
| Done (f : Final)
| Cancelled (left : option (Prog Final)).

Record Flight := { fl_env : Env GE FE; fl_thread : Thread }.
Definition with_thread (fl : Flight) (t : Thread) : Flight := {| fl_env := fl_env fl; fl_thread := t |}.

(** One step of a request. *)
Definition advance (fl : Flight) (w : Shared) : Flight * Shared :=
  match fl_thread fl with
  | AtStage i ctx =>
      match take 6 (bid_pipeline heap_order (fl_env fl) top_k builder exchange_id) !! i with
      | None => (with_thread fl (Running (tail_prog (fl_env fl) ctx)), w)
      | Some st =>
          if deadline_ms <=? elapsed_ms ctx (en_clock (fl_env fl) i)
          then (with_thread fl (Done (Ok tt, i, set_outcome ctx (NoBid PIPELINE_DEADLINE))), w)
          else
            let '(r, ctx, w) := stage_execute st ctx w in
            match r with
            | Err e => (with_thread fl (Done (Err e, S i, ctx)), w)
            | Ok _ => match outcome ctx with
                      | NoBid _ => (with_thread fl (Done (Ok tt, S i, ctx)), w)
                      | _ => (with_thread fl (AtStage (S i) ctx), w)
                      end
            end
      end
  | Running (Ret f) => (with_thread fl (Done f), w)
  | Running (FetchSub id bid k) =>
      let '(c, p) := fetch_sub (w_pacer w) id bid in (with_thread fl (Running (k c)), set_pacer w p)
  | Running (FetchAdd _ id bid k) =>
      (with_thread fl (Running k), set_pacer w (Local.release (w_pacer w) id bid))
  | Done _ | Cancelled _ => (fl, w)
  end.

(** [check_and_reserve] holds the read lock until it has undone a refusal. *)
Definition rolling_back (fl : Flight) : bool :=
  match fl_thread fl with Running (FetchAdd RollBack _ _ _) => true | _ => false end.

(** Dropping the request's future: possible at an await, of which there is none
    between a refused [fetch_sub] and its [fetch_add]. *)
Definition cancel (fl : Flight) : Flight :=
  if rolling_back fl then fl
  else match fl_thread fl with
       | AtStage _ _ => with_thread fl (Cancelled None)
       | Running pr => with_thread fl (Cancelled (Some pr))
       | Done _ | Cancelled _ => fl
       end.

Record Sys := { sy_world : Shared; sy_flights : list Flight }.

Definition set_catalog_pacer (w : Shared) (cat : CampaignCatalog B) (p : Local.LocalBudgetPacer) : Shared :=
  {| w_catalog := cat; w_cache := w_cache w; w_repo := w_repo w; w_scorer := w_scorer w;
     w_capper := w_capper w; w_pacer := p |}.

(** A request arrives; request number [j] takes a step or is dropped by the HTTP
    timeout; the refresh task reloads
    the budgets of a new catalog, for which it waits for the write lock, and
    publishes the catalog. *)
Inductive Action :=
| Arrive (req : BidRequest Value) (now : Instant) (env : Env GE FE)
| Advance (j : nat)
| Cancel (j : nat)
| Reload (cat : CampaignCatalog B)
| Publish (cat : CampaignCatalog B).

Definition step (s : Sys) (a : Action) : Sys :=
  let w := sy_world s in
  match a with
  | Arrive req now env =>
      {| sy_world := w;
         sy_flights := sy_flights s ++ [{| fl_env := env; fl_thread := AtStage 0 (BidContext_new req now) |}] |}
  | Advance j =>
      match sy_flights s !! j with
      | None => s
      | Some fl => let '(fl, w) := advance fl w in {| sy_world := w; sy_flights := <[j := fl]> (sy_flights s) |}
      end
  | Cancel j =>
      match sy_flights s !! j with
      | None => s
      | Some fl => {| sy_world := w; sy_flights := <[j := cancel fl]> (sy_flights s) |}
      end
  | Reload cat =>
      if existsb rolling_back (sy_flights s) then s
      else {| sy_world := set_catalog_pacer w (w_catalog w) (Local.reload (w_pacer w) (budget_seeds cat));
              sy_flights := sy_flights s |}
  | Publish cat => {| sy_world := set_catalog_pacer w cat (w_pacer w); sy_flights := sy_flights s |}
  end.

Definition run_schedule (s : Sys) (l : list Action) : Sys := foldl step s l.
End Traffic.
Arguments Done {Value B}.
Arguments AtStage {Value B}.
Arguments Running {Value B}.
Arguments Cancelled {Value B}.
Arguments Sys : clear implicits.
Arguments Flight : clear implicits.

(** ** Accounting *)

(** The prices of the wins of a run that [n] stages of have run. *)
Definition charge {Value B} (f : Final (Value := Value) (B := B)) (id : Z) : Z :=
  let '(_, n, ctx) := f in
  if Nat.ltb n 7 then 0 else if Nat.ltb n 8 then held_all id (candidates ctx) else won id (winners ctx).

Definition on (id : Z) (campaign_id bid : Z) : Z := if decide (campaign_id = id) then bid else 0.

(** What a request has reserved of campaign [id] and not given back, as its
    remaining program shows: the final charge plus the [fetch_add]s ahead, on the
    path on which nothing more is granted. *)
Fixpoint holding {Value B} (pr : Prog (Final (Value := Value) (B := B))) (id : Z) : Z :=
  match pr with
  | Ret f => charge f id
  | FetchSub _ _ k => holding (k None) id
  | FetchAdd _ campaign_id bid k => holding k id + on id campaign_id bid
  end.

Definition owed {Value B GE FE} (fl : Flight Value B GE FE) (id : Z) : Z :=
  match fl_thread fl with
  | AtStage _ _ | Cancelled None => 0
  | Running pr | Cancelled (Some pr) => holding pr id
  | Done f => charge f id
  end.

(** ** Without interference the programs are the stages *)

Lemma run_reserve {A} (p : Local.LocalBudgetPacer) id bid (k : PaceDecision -> Prog A) :
  run_prog (reserve id bid k) p = run_prog (k (check_and_reserve p id bid).1) (check_and_reserve p id bid).2.
Proof.
  cbn [check_and_reserve Local.local_pacer]. unfold reserve, Local.check_and_reserve. cbn [run_prog]. unfold fetch_sub, Local.fetch_sub_test.
  destruct (Local.counters p !! id) as [c|]; [|done]. destruct (c <=? 0); [|done]. cbn [negb fst snd run_prog].
  unfold Local.release. cbn [Local.counters]. by rewrite lookup_insert_eq, insert_insert_eq.
Qed.

Lemma run_reserve_each {A} (p : Local.LocalBudgetPacer) l ex (k : list Z -> Prog A) :
  run_prog (reserve_each l ex k) p =
  let '(p', ex') := foldl (fun '(p, ex) c =>
      let '(d, p') := check_and_reserve p (ac_campaign_id c) (ac_bid_price_cents c) in
      (p', if decide (d = Exhausted) then ex ++ [ac_campaign_id c] else ex)) (p, ex) l in
  run_prog (k ex') p'.
Proof.
  revert p ex; induction l as [|c l IH]; intros p ex; [done|]. cbn [reserve_each foldl]. rewrite run_reserve, IH.
  by destruct (check_and_reserve p _ _).
Qed.

Lemma run_pace_each {A} (p : Local.LocalBudgetPacer) cs (k : list (list AdCandidate) -> Prog A) :
  run_prog (pace_each cs k) p =
  let '(p', out) := each_imp (fun p _ l => pace_imp p l) p cs in run_prog (k out) p'.
Proof.
  unfold each_imp. generalize (fun i : nat => i) as g.
  enough (forall g : nat -> nat, run_prog (pace_each cs k) p =
    let '(p', out) := fold_map (fun p '(idx, l) => match l with [] => (p, l) | _ => pace_imp p l end) p
                        (imap (fun i l => (g i, l)) cs) in run_prog (k out) p') as Hg by (intros _; apply (Hg (fun i => i))).
  revert p k; induction cs as [|l cs IH]; intros p k g; [done|].
  cbn [pace_each imap fold_map]. rewrite run_reserve_each. unfold pace_imp, reserve_all.
  assert (match l with [] => (p, l) | _ :: _ => let '(p', ex) := foldl (fun '(p, ex) c =>
      let '(d, p') := check_and_reserve p (ac_campaign_id c) (ac_bid_price_cents c) in
      (p', if decide (d = Exhausted) then ex ++ [ac_campaign_id c] else ex)) (p, []) l in (p', retain_granted ex l) end
    = let '(p', ex) := foldl (fun '(p, ex) c =>
      let '(d, p') := check_and_reserve p (ac_campaign_id c) (ac_bid_price_cents c) in
      (p', if decide (d = Exhausted) then ex ++ [ac_campaign_id c] else ex)) (p, []) l in (p', retain_granted ex l))
    as -> by by destruct l.
  destruct (foldl _ (p, []) l) as [p' ex]. rewrite (IH p' _ (g ∘ S)).
  change (imap ((fun (i : nat) (l0 : list AdCandidate) => (g i, l0)) ∘ S) cs) with (imap (fun i l => ((g ∘ S) i, l)) cs).
  unfold pace_imp, reserve_all. by destruct (fold_map _ _ _).
Qed.

Lemma run_release_each {A} (p : Local.LocalBudgetPacer) l (k : Prog A) :
  run_prog (release_each l k) p =
  run_prog k (foldl (fun p c => release p (ac_campaign_id c) (ac_bid_price_cents c)) p l).
Proof. revert p; induction l as [|c l IH]; intros p; [done|]. apply IH. Qed.

Lemma run_rank_each {Value A} (req : BidRequest Value) (p : Local.LocalBudgetPacer) entries ws (k : list ImpWinner -> Prog A) :
  run_prog (rank_each req entries ws k) p =
  let '(p', ws') := foldl (rank_imp req) (p, ws) entries in run_prog (k ws') p'.
Proof.
  revert p ws; induction entries as [|[idx l] entries IH]; intros p ws; [done|]. cbn [rank_each foldl rank_imp].
  destruct (max_by rank_cmp l) as [w|]; [|apply IH]. by rewrite run_release_each, IH.
Qed.

Section Alone.
Context {Value : Type} `{JsonValue Value} {B : Type} `{Bitmap B}.
Context {C : Type} `{KVCache C string (list SegmentId)} {G GE : Type} `{UserSegmentRepository G GE}.
Context {Sc : Type} `{Scorer Sc} {F FE : Type} `{FrequencyCapper F FE} {N : Type} `{NoticeUrlBuilder N}.
Context (heap_order : list AdCandidate -> list AdCandidate).
Context (deadline_ms : Z) (top_k : nat) (builder : N) (exchange_id : string).
Implicit Types (ctx : BidContext Value B) (w : World B C G Sc F Local.LocalBudgetPacer) (env : Env GE FE).
Local Notation pipeline env := (bid_pipeline heap_order env top_k builder exchange_id).
Local Notation advance := (advance heap_order deadline_ms top_k builder exchange_id).
Local Notation run_schedule := (run_schedule heap_order deadline_ms top_k builder exchange_id).

Lemma set_pacer_same w : set_pacer w (w_pacer w) = w.
Proof. by destruct w. Qed.

(** From the pacing stage on: the program computes what the stages do. *)
Lemma tail_run env ctx w :
  let '(r, ctx', w') := run_stages env deadline_ms 6 (drop 6 (pipeline env)) ctx w in
  exists n p, run_prog (tail_prog deadline_ms builder exchange_id env ctx) (w_pacer w) = ((r, n, ctx'), p) /\
              w' = set_pacer w p.
Proof.
  unfold tail_prog, before_stage, after_stage. cbn [drop bid_pipeline run_stages].
  destruct (deadline_ms <=? elapsed_ms ctx (en_clock env 6)); [eexists _, _; by rewrite set_pacer_same|].
  rewrite run_pace_each. cbn [stage_execute budget_pacing]. destruct (each_imp _ _ _) as [p cs].
  destruct (outcome (paced ctx cs)); [|by eexists _, _|];
    (destruct (deadline_ms <=? elapsed_ms (paced ctx cs) (en_clock env 7)); [by eexists _, _|];
     rewrite run_rank_each; cbn [stage_execute ranking w_pacer set_pacer];
     destruct (foldl _ _ _) as [p' ws];
     destruct (outcome (ranked (paced ctx cs) ws)); [|by eexists _, _|];
     (destruct (deadline_ms <=? elapsed_ms (ranked (paced ctx cs) ws) (en_clock env 8)); [by eexists _, _|];
      cbn [stage_execute response_build]; destruct (responded _ _ _) as [[[]|e] ctx']; [destruct (outcome ctx')|];
      by eexists _, _)).
Qed.

Definition drive (n : nat) (s : Flight Value B GE FE * World B C G Sc F Local.LocalBudgetPacer) :=
  Nat.iter n (fun s => advance s.1 s.2) s.

Lemma drive_add n m s : drive (n + m) s = drive n (drive m s).
Proof. apply Nat.iter_add. Qed.

Lemma drive_succ n fl w : drive (S n) (fl, w) = drive n (advance fl w).
Proof. rewrite <- Nat.add_1_r, drive_add. by destruct (advance fl w) eqn:E; cbn; rewrite E. Qed.

Lemma drive_done n fl w f : fl_thread fl = Done f -> drive n (fl, w) = (fl, w).
Proof.
  intros Hf. induction n as [|n IH]; [done|]. rewrite drive_succ. unfold Traffic.advance. by rewrite Hf.
Qed.

Lemma drive_prog env pr w : exists n, drive n ({| fl_env := env; fl_thread := Running pr |}, w) =
  ({| fl_env := env; fl_thread := Done (run_prog pr (w_pacer w)).1 |}, set_pacer w (run_prog pr (w_pacer w)).2).
Proof.
  revert w; induction pr as [f|id bid k IH|site id bid k IH]; intros w.
  - exists 1%nat. cbn. by rewrite set_pacer_same.
  - destruct (fetch_sub (w_pacer w) id bid) as [c p] eqn:E. destruct (IH c (set_pacer w p)) as [n Hn].
    exists (S n). rewrite drive_succ. unfold Traffic.advance. cbn [fl_thread fl_env run_prog]. rewrite E. exact Hn.
  - destruct (IH (set_pacer w (Local.release (w_pacer w) id bid))) as [n Hn].
    exists (S n). rewrite drive_succ. exact Hn.
Qed.

(** From any stage up to the pacing stage. *)
Lemma drive_stages env i ctx w : (i <= 6)%nat ->
  let '(r, ctx', w') := run_stages env deadline_ms i (drop i (pipeline env)) ctx w in
  exists n m, drive n ({| fl_env := env; fl_thread := AtStage i ctx |}, w) = ({| fl_env := env; fl_thread := Done (r, m, ctx') |}, w').
Proof.
  intros Hi. remember (6 - i)%nat as d eqn:Hd. revert i ctx w Hi Hd. induction d as [|d IH]; intros i ctx w Hi Hd.
  { assert (i = 6%nat) as -> by lia. pose proof (tail_run env ctx w) as Ht.
    destruct (run_stages _ _ _ _ _ _) as [[r ctx'] w']. destruct Ht as (m & p & Hp & ->).
    destruct (drive_prog env (tail_prog deadline_ms builder exchange_id env ctx) w) as [n Hn].
    exists (S n), m. rewrite drive_succ. change (advance _ w) with
      ({| fl_env := env; fl_thread := Running (tail_prog deadline_ms builder exchange_id env ctx) |}, w). by rewrite Hn, Hp. }
  destruct (lookup_lt_is_Some_2 (take 6 (pipeline env)) i) as [st Hst]; [cbn; lia|].
  assert (pipeline env !! i = Some st) as Hst'.
  { rewrite <- (take_drop 6 (pipeline env)). by apply lookup_app_l_Some. }
  rewrite (drop_S _ _ _ Hst'). cbn [run_stages].
  assert (forall n m fl w1 (r : Result unit string) ctx1 w2, advance {| fl_env := env; fl_thread := AtStage i ctx |} w = (fl, w1) ->
    drive n (fl, w1) = ({| fl_env := env; fl_thread := Done (r, m, ctx1) |}, w2) ->
    exists n m, drive n ({| fl_env := env; fl_thread := AtStage i ctx |}, w) = ({| fl_env := env; fl_thread := Done (r, m, ctx1) |}, w2)) as Hone.
  { intros n m fl w1 r ctx1 w2 Ha Hn. exists (S n), m. by rewrite drive_succ, Ha. }
  unfold Traffic.advance in Hone. cbn [fl_thread fl_env] in Hone. rewrite Hst in Hone.
  destruct (deadline_ms <=? elapsed_ms ctx (en_clock env i)); [by eapply (Hone 0%nat)|].
  destruct (stage_execute st ctx w) as [[r ctx1] w1]. destruct r as [[]|e]; [|by eapply (Hone 0%nat)].
  specialize (IH (S i) ctx1 w1 ltac:(lia) ltac:(lia)).
  destruct (outcome ctx1); [|by eapply (Hone 0%nat)|]; destruct (run_stages _ _ _ _ _ _) as [[r' ctx'] w'];
    destruct IH as (n & m & Hn); by eapply Hone.
Qed.

Lemma schedule_drive n fl w :
  run_schedule {| sy_world := w; sy_flights := [fl] |} (replicate n (Advance 0)) =
  {| sy_world := (drive n (fl, w)).2; sy_flights := [(drive n (fl, w)).1] |}.
Proof.
  revert fl w; induction n as [|n IH]; intros fl w; [done|]. rewrite drive_succ. cbn. destruct (advance fl w) as [fl' w']. apply IH.
Qed.

(** A request on its own, scheduled step by step down to the atomic operations
    on the counters, ends, after finitely many steps, with exactly the result,
    the context and the world of [Pipeline::execute]; further steps change
    nothing. *)
Theorem alone_is_execute (req : BidRequest Value) (now : Instant) env w :
  let '(r, ctx, w') := execute env deadline_ms (pipeline env) (BidContext_new req now) w in
  exists n m, forall k, (n <= k)%nat ->
    run_schedule {| sy_world := w; sy_flights := [] |} (Arrive req now env :: replicate k (Advance 0)) =
    {| sy_world := w'; sy_flights := [{| fl_env := env; fl_thread := Done (r, m, ctx) |}] |}.
Proof.
  pose proof (drive_stages env 0 (BidContext_new req now) w ltac:(lia)) as Hd. unfold execute.
  cbn [drop] in Hd. destruct (run_stages _ _ _ _ _ _) as [[r ctx] w']. destruct Hd as (n & m & Hn).
  exists n, m. intros k Hk. change (run_schedule {| sy_world := w; sy_flights := [] |} (Arrive req now env :: replicate k (Advance 0)))
    with (run_schedule {| sy_world := w; sy_flights := [{| fl_env := env; fl_thread := AtStage 0 (BidContext_new req now) |}] |}
            (replicate k (Advance 0))).
  rewrite schedule_drive. replace k with (k - n + n)%nat by lia. rewrite drive_add, Hn. by erewrite drive_done.
Qed.
End Alone.

(** ** The protocol every request's program follows *)

Section Protocol.
Context {Value B : Type} (price_ok : Z -> Z -> Prop).
Local Notation Final := (Final (Value := Value) (B := B)).
Implicit Types (pr : Prog Final) (h : Z -> Z) (cs : list (list AdCandidate)) (ws : list ImpWinner).

(** Campaigns whose possible prices are all non-negative are charged nothing
    negative; a decision not to bid charges nothing; a response is there only
    after the last stage. *)
Definition settled (f : Final) : Prop :=
  (forall id, (forall bid, price_ok id bid -> 0 <= bid) -> 0 <= charge f id) /\
  (forall reason id, outcome f.2 = NoBid reason -> reason <> PIPELINE_DEADLINE -> charge f id = 0) /\
  (is_Some (bid_response f.2) -> (8 <= f.1.2)%nat).

Definition unrolled pr : Prop := match pr with FetchAdd RollBack _ _ _ => False | _ => True end.

(** A grant is held from then on, a refusal is undone at once, and nothing else
    is ever undone. *)
Fixpoint follows pr : Prop :=
  match pr with
  | Ret f => settled f
  | FetchSub i bid k =>
      price_ok i bid /\ unrolled (k None) /\ follows (k None) /\
      forall c, follows (k (Some c)) /\
        (forall id, holding (k (Some c)) id = holding (k None) id + on id i bid) /\
        (if c <=? 0 then exists pr', k (Some c) = FetchAdd RollBack i bid pr' else unrolled (k (Some c)))
  | FetchAdd _ i bid k => price_ok i bid /\ unrolled k /\ follows k
  end.

(** A program about to run that holds [h]. *)
Definition holds pr h : Prop := follows pr /\ unrolled pr /\ forall id, holding pr id = h id.

Lemma holds_ext pr h h' : holds pr h -> (forall id, h id = h' id) -> holds pr h'.
Proof. intros (? & ? & Hh) He. split_and!; [done..|]. intros id. by rewrite Hh. Qed.

Lemma holds_reserve i bid (k : PaceDecision -> Prog Final) h : price_ok i bid ->
  holds (k Exhausted) h -> holds (k HasBudget) (fun id => h id + on id i bid) -> holds (reserve i bid k) h.
Proof.
  intros Hp (He & Hue & Hhe) (Hb & Hub & Hhb). split_and!; [|done|done]. split_and!; [done..|].
  intros c. destruct (c <=? 0); (split; [|split]).
  - by split_and!.
  - done.
  - by eexists.
  - done.
  - intros id. by rewrite Hhb, Hhe.
  - done.
Qed.

Definition priced (c : AdCandidate) : Prop := price_ok (ac_campaign_id c) (ac_bid_price_cents c).

Lemma held_snoc id l c : held id (l ++ [c]) = held id l + on id (ac_campaign_id c) (ac_bid_price_cents c).
Proof. unfold held. rewrite sum_by_app, sum_by_cons. unfold sum_by at 2. simpl. unfold on. lia. Qed.

Lemma won_snoc id ws w : won id (ws ++ [w]) = won id ws + on id (iw_campaign_id w) (iw_bid_price_cents w).
Proof. unfold won. rewrite sum_by_app, sum_by_cons. unfold sum_by at 2. simpl. unfold on. lia. Qed.

Lemma holds_reserve_each l before ex (k : list Z -> Prog Final) h :
  NoDup (ac_campaign_id <$> before ++ l) -> ex ⊆ ac_campaign_id <$> before -> Forall priced l ->
  (forall ex, holds (k ex) (fun id => h id + held id (filter (fun c => ac_campaign_id c ∉ ex) (before ++ l)))) ->
  holds (reserve_each l ex k) (fun id => h id + held id (filter (fun c => ac_campaign_id c ∉ ex) before)).
Proof.
  revert before ex; induction l as [|c l IH]; intros before ex Hn Hex Hp Hk; [specialize (Hk ex); by rewrite app_nil_r in Hk|].
  apply Forall_cons in Hp as [Hc Hp]. cbn [reserve_each].
  assert (before ++ c :: l = (before ++ [c]) ++ l) as Happ by by rewrite <- app_assoc.
  rewrite Happ in Hn. rewrite Happ in Hk. clear Happ.
  assert (ac_campaign_id c ∉ ac_campaign_id <$> before) as Hfresh.
  { rewrite fmap_app in Hn. apply NoDup_app in Hn as [Hn _]. rewrite fmap_app in Hn.
    apply NoDup_app in Hn as (_ & Hd & _). intros Hi. apply (Hd _ Hi). set_solver. }
  apply holds_reserve; [done| |].
  - rewrite decide_True by done. eapply holds_ext; [apply (IH (before ++ [c])); [done|rewrite fmap_app; set_solver|done|done]|].
    intros id. simpl. f_equal. rewrite filter_app, filter_cons, decide_False, filter_nil, app_nil_r by set_solver.
    f_equal. apply filter_ext_in. intros x Hx.
    assert (ac_campaign_id x <> ac_campaign_id c) by (intros E; apply Hfresh; rewrite <- E; by apply list_elem_of_fmap_2).
    set_solver.
  - rewrite decide_False by done. eapply holds_ext; [apply (IH (before ++ [c])); [done|rewrite fmap_app; set_solver|done|done]|].
    intros id. simpl. rewrite filter_app, filter_cons, decide_True, filter_nil by set_solver. rewrite held_snoc. lia.
Qed.

(** The candidate lists of a context: distinct campaigns per impression, at
    possible prices. *)
Definition lists_ok cs : Prop := Forall (fun l => NoDup (ac_campaign_id <$> l) /\ Forall priced l) cs.
Definition wins_ok ws : Prop := Forall (fun w => price_ok (iw_campaign_id w) (iw_bid_price_cents w)) ws.

Lemma priced_filter (Q : AdCandidate -> Prop) `{forall c, Decision (Q c)} l : Forall priced l -> Forall priced (filter Q l).
Proof. rewrite !Forall_forall. intros Hl c [_ Hc]%list_elem_of_filter. auto. Qed.

Lemma list_ok_filter (Q : AdCandidate -> Prop) `{forall c, Decision (Q c)} l :
  NoDup (ac_campaign_id <$> l) /\ Forall priced l -> NoDup (ac_campaign_id <$> filter Q l) /\ Forall priced (filter Q l).
Proof.
  intros [Hn Hp]. split; [|by apply priced_filter]. by apply NoDup_fmap_filter.
Qed.

Lemma holds_pace_each cs (k : list (list AdCandidate) -> Prog Final) h : lists_ok cs ->
  (forall out, lists_ok out -> holds (k out) (fun id => h id + held_all id out)) -> holds (pace_each cs k) h.
Proof.
  revert k h; induction cs as [|l cs IH]; intros k h Hcs Hk.
  { eapply holds_ext; [by apply (Hk [])|]. intros id. unfold held_all, sum_by. simpl. lia. }
  apply Forall_cons in Hcs as [Hl Hcs]. cbn [pace_each].
  eapply holds_ext; [apply (holds_reserve_each l [] [] _ h); [apply Hl|done|apply Hl|]|].
  - intros ex. apply IH; [done|]. intros out Hout. rewrite retain_granted_filter.
    eapply holds_ext; [apply Hk; constructor; [by apply list_ok_filter|done]|].
    intros id. unfold held_all. rewrite sum_by_cons. simpl. lia.
  - intros id. unfold held, sum_by. simpl. lia.
Qed.

Lemma holds_release_each l (k : Prog Final) h : Forall priced l -> holds k h ->
  holds (release_each l k) (fun id => h id + held id l).
Proof.
  intros Hp Hk. induction Hp as [|c l Hc Hp (IH & IHu & IHh)]; [eapply holds_ext; [exact Hk|intros; unfold held, sum_by; simpl; lia]|].
  split_and!; [done..|]. intros id. cbn [release_each holding]. rewrite IHh. unfold held. rewrite sum_by_cons. unfold on. lia.
Qed.

Lemma holds_rank_each (req : BidRequest Value) entries ws (k : list ImpWinner -> Prog Final) h :
  lists_ok entries.*2 -> wins_ok ws ->
  (forall ws, wins_ok ws -> holds (k ws) (fun id => h id + won id ws)) ->
  holds (rank_each req entries ws k) (fun id => h id + won id ws + held_all id entries.*2).
Proof.
  intros Hl. revert ws; induction entries as [|[idx l] entries IH]; intros ws Hw Hk.
  { eapply holds_ext; [by apply Hk|]. intros id. unfold held_all, sum_by. simpl. lia. }
  apply Forall_cons in Hl as [[Hn Hp] Hl]. cbn [rank_each]. destruct (max_by rank_cmp l) as [w|] eqn:E.
  - pose proof (max_by_elem _ _ _ E) as Hin. rewrite Forall_forall in Hp.
    assert (wins_ok (ws ++ [winner_entry req idx w])) as Hw' by (apply Forall_app; split; [done|repeat constructor; by apply (Hp w)]).
    eapply holds_ext; [apply holds_release_each; [by apply priced_filter, Forall_forall|by apply IH]|].
    intros id. cbv beta. rewrite fmap_cons. unfold held_all. rewrite sum_by_cons, won_snoc. cbn [snd].
    rewrite (held_drop id l w Hn Hin). unfold on. simpl. lia.
  - apply max_by_None in E as ->. eapply holds_ext; [by apply IH|].
    intros id. cbv beta. rewrite fmap_cons. unfold held_all. by rewrite sum_by_cons.
Qed.

Lemma held_all_nonneg cs id : lists_ok cs -> (forall bid, price_ok id bid -> 0 <= bid) -> 0 <= held_all id cs.
Proof.
  intros Hcs Hid. apply sum_by_nonneg. intros l Hl. apply sum_by_nonneg. intros c Hc.
  unfold lists_ok in Hcs. rewrite Forall_forall in Hcs. destruct (Hcs l Hl) as [_ Hp]. rewrite Forall_forall in Hp.
  case_decide as E; [|lia]. apply Hid. rewrite <- E. by apply (Hp c).
Qed.

Lemma won_nonneg ws id : wins_ok ws -> (forall bid, price_ok id bid -> 0 <= bid) -> 0 <= won id ws.
Proof.
  intros Hws Hid. apply sum_by_nonneg. intros w Hw. unfold wins_ok in Hws. rewrite Forall_forall in Hws.
  case_decide as E; [|lia]. apply Hid. rewrite <- E. by apply (Hws w).
Qed.

Lemma holding_nonneg pr id : follows pr -> (forall bid, price_ok id bid -> 0 <= bid) -> 0 <= holding pr id.
Proof.
  intros Hf Hid. induction pr as [f|i bid k IH|site i bid k IH]; simpl in *.
  - by apply Hf.
  - apply IH, Hf.
  - destruct Hf as (Hp & _ & Hf). specialize (IH Hf). unfold on. case_decide as E; [|lia]. subst. specialize (Hid _ Hp). lia.
Qed.
End Protocol.

(** ** What every schedule preserves *)

Section Accounts.
Context {Value : Type} `{JsonValue Value} {B : Type} `{BitmapLaws B}.
Context {C : Type} `{KVCache C string (list SegmentId)} {G GE : Type} `{UserSegmentRepository G GE}.
Context {Sc : Type} `{ScorerLaws Sc} {F FE : Type} `{FrequencyCapper F FE} {N : Type} `{NoticeUrlBuilder N}.
Context (heap_order : list AdCandidate -> list AdCandidate) (heap_order_perm : forall l, heap_order l ≡ₚ l).
Context (deadline_ms : Z) (top_k : nat) (builder : N) (exchange_id : string) (price_ok : Z -> Z -> Prop).
Local Notation Shared := (World B C G Sc F Local.LocalBudgetPacer).
Implicit Types (ctx : BidContext Value B) (w : Shared) (env : Env GE FE) (cat : CampaignCatalog B).
Implicit Types (fl : Flight Value B GE FE) (s : Sys Value B C G GE Sc F FE).
Local Notation advance := (advance heap_order deadline_ms top_k builder exchange_id).
Local Notation step := (step heap_order deadline_ms top_k builder exchange_id).
Local Notation run_schedule := (run_schedule heap_order deadline_ms top_k builder exchange_id).

Definition catalog_priced cat : Prop := forall id cm, campaign cat id = Some cm -> price_ok id (c_bid_floor_cents cm).

(** A request that has not reached the pacing stage. *)
Record ready ctx : Prop := {
  ready_winners : winners ctx = [];
  ready_response : bid_response ctx = None;
  ready_lists : lists_ok price_ok (candidates ctx);
  ready_catalog : forall cat, catalog ctx = Some cat -> catalog_priced cat;
}.

Definition live ctx : Prop := forall reason, outcome ctx <> NoBid reason.

Definition flight_ok fl : Prop :=
  match fl_thread fl with
  | AtStage i ctx => ready ctx /\ live ctx
  | Running pr => follows price_ok pr
  | Done f => settled price_ok f
  | Cancelled None => True
  | Cancelled (Some pr) => follows price_ok pr
  end.

Lemma shrinks_ok l l' : shrinks l l' -> NoDup (ac_campaign_id <$> l) /\ Forall (priced price_ok) l ->
  NoDup (ac_campaign_id <$> l') /\ Forall (priced price_ok) l'.
Proof.
  unfold shrinks. intros Hs [Hn Hp]. split.
  - apply (fmap_submseteq ac_campaign_id) in Hs. rewrite <- !list_fmap_compose in Hs.
    apply submseteq_Permutation in Hs as [k Hk]. change ((ac_campaign_id ∘ unscored) <$> l) with (ac_campaign_id <$> l) in Hk.
    rewrite Hk in Hn. by apply NoDup_app in Hn as [? _].
  - rewrite Forall_forall in *. intros c Hc.
    assert (unscored c ∈ unscored <$> l) as (c' & E & Hc')%list_elem_of_fmap
      by (eapply elem_of_submseteq; [by apply list_elem_of_fmap_2|exact Hs]).
    specialize (Hp c' Hc'). unfold priced in *. by injection E as -> _ -> _ _.
Qed.

Lemma retrieve_ok cat (req : BidRequest Value) segs imp : catalog_priced cat ->
  NoDup (ac_campaign_id <$> retrieve cat req segs imp) /\ Forall (priced price_ok) (retrieve cat req segs imp).
Proof.
  intros Hcat. split; [apply retrieve_ids|]. apply Forall_forall. intros c (cid & _ & Hc)%list_elem_of_omap.
  unfold candidate_of in Hc. apply bind_Some in Hc as (cm & Hcm & (cr & _ & [= <-])%bind_Some). by apply Hcat.
Qed.

(** The stages before pacing touch neither the pacer nor the catalog in use. *)
Definition prepares (st : Stage Value B C G Sc F Local.LocalBudgetPacer) : Prop :=
  forall ctx w, ready ctx -> catalog_priced (w_catalog w) ->
    let '(r, ctx', w') := stage_execute st ctx w in
    r = Ok tt /\ ready ctx' /\ w_catalog w' = w_catalog w /\ w_pacer w' = w_pacer w.

Lemma shrinking_prepares st : shrinking st -> prepares st.
Proof.
  intros Hst ctx w [] Hw. specialize (Hst ctx w). destruct (stage_execute st ctx w) as [[r ctx'] w'].
  destruct Hst as [-> []]. split_and!; [done| |done..]. split; [congruence|congruence| |by rewrite step_snapshot].
  unfold lists_ok. apply Forall_lookup. intros i l' Hl'.
  destruct (Forall2_lookup_r _ _ _ _ _ step_candidates Hl') as (l & Hl & Hs).
  eapply shrinks_ok; [exact Hs|]. by eapply Forall_lookup_1 in ready_lists0.
Qed.

Lemma stages_prepare env i st :
  take 6 (bid_pipeline heap_order env top_k builder exchange_id) !! i = Some st -> prepares st.
Proof.
  intros Hst. pose proof (shrinking_prepares _ (candidate_limit_shrinks heap_order top_k heap_order_perm)) as Hlimit.
  pose proof (shrinking_prepares _ (scoring_shrinks env)) as Hscore.
  pose proof (shrinking_prepares _ (freq_cap_shrinks env)) as Hcap.
  destruct i as [|[|[|[|[|[|i]]]]]]; [injection Hst as <-..|done]; [| | |exact Hlimit|exact Hscore|exact Hcap].
  - intros ctx w [] Hw. cbn [stage_execute request_validation]. repeat case_goal; by split_and!.
  - intros ctx w [] Hw. cbn [stage_execute user_enrichment]. destruct (ctx_user_id _) as [user|].
    + destruct (get_or_fetch _ _ _ _) as [[[ids|e] c] g]; (split_and!; [done| |done..]); split; try done; by intros ? [= <-].
    + split_and!; [done| |done..]. split; try done. by intros ? [= <-].
  - intros ctx w Hr Hw. pose proof Hr as []. cbn [stage_execute candidate_retrieval].
    destruct (catalog ctx) as [cat|] eqn:Ec; [|done]. specialize (ready_catalog0 cat eq_refl).
    destruct (Nat.eqb _ _); [done|]. split_and!; [done| |done..].
    split; try done; [|cbn; rewrite Ec; by intros ? [= <-]]. cbn.
    apply (foldl_inv (lists_ok price_ok)).
    + apply Forall_resize; [by split; constructor|done].
    + intros cs [idx imp] _ Hcs. apply Forall_insert; [done|]. by apply retrieve_ok.
Qed.

(** An end with nothing held, and an end at or after pacing. *)
Lemma holds_early (r : Result unit string) n ctx : (n < 7)%nat -> bid_response ctx = None ->
  holds price_ok (Ret (r, n, ctx)) (fun _ => 0).
Proof.
  intros Hn Hr. unfold holds, follows, settled, holding, charge. cbn [fst snd].
  rewrite (proj2 (Nat.ltb_lt n 7)), Hr by done. by split_and!.
Qed.

Lemma holds_late (r : Result unit string) n ctx h : (7 <= n)%nat -> lists_ok price_ok (candidates ctx) -> wins_ok price_ok (winners ctx) ->
  (n = 7%nat -> bid_response ctx = None) ->
  (forall reason id, outcome ctx = NoBid reason -> reason <> PIPELINE_DEADLINE -> h id = 0) ->
  (forall id, h id = if Nat.ltb n 8 then held_all id (candidates ctx) else won id (winners ctx)) ->
  holds price_ok (Ret (r, n, ctx)) h.
Proof.
  intros Hn Hl Hw Hr Ho Hh. unfold holds, follows, settled, holding, charge. cbn [fst snd].
  rewrite (proj2 (Nat.ltb_ge n 7)) by done. split_and!; [| |intros [x Hx]|done|done].
  - intros id Hid. case_match; eauto using held_all_nonneg, won_nonneg.
  - intros reason id Hre Hne. rewrite <- Hh. by eapply Ho.
  - destruct (decide (n = 7%nat)) as [->|]; [by rewrite Hr in Hx|lia].
Qed.

Lemma ranked_holds env ctx ws : lists_ok price_ok (candidates ctx) -> wins_ok price_ok ws ->
  holds price_ok (after_stage 7 (ranked ctx ws) (before_stage deadline_ms env 8 (ranked ctx ws) (
      let '(r, ctx) := responded builder exchange_id (ranked ctx ws) in Ret (r, 9%nat, ctx)))) (fun id => won id ws).
Proof.
  intros Hl Hw. unfold after_stage, before_stage, responded.
  destruct ws as [|x ws]; cbn [outcome ranked set_outcome]; [by apply holds_late; [lia|..]|].
  case_match; apply holds_late; try done; try lia; by intros ? ? [= <-].
Qed.

Lemma tail_prog_holds env ctx : ready ctx -> live ctx ->
  holds price_ok (tail_prog deadline_ms builder exchange_id env ctx) (fun _ => 0).
Proof.
  intros [] Hlive. unfold tail_prog. unfold before_stage at 1.
  destruct (deadline_ms <=? elapsed_ms ctx (en_clock env 6)); [apply holds_early; [lia|done]|].
  apply holds_pace_each; [done|]. intros out Hout.
  assert (forall (r : Result unit string) o,
    (forall reason id, o = NoBid reason -> reason <> PIPELINE_DEADLINE -> held_all id out = 0) ->
    holds price_ok (Ret (r, 7%nat, set_outcome (set_candidates ctx out) o)) (fun id => 0 + held_all id out)) as Hleaf.
  { intros r o Hz. apply holds_late; try done. cbn. rewrite ready_winners0. constructor. }
  assert (exists o, paced ctx out = set_outcome (set_candidates ctx out) o /\
    (forall reason id, o = NoBid reason -> reason <> PIPELINE_DEADLINE -> held_all id out = 0)) as (o & Ho & Hz).
  { unfold paced. case_match; [exists (outcome ctx); split; [by destruct ctx|]|eexists; split; [done|]].
    - intros reason id Hre. by destruct (Hlive reason).
    - intros reason id _ _. by apply held_all_empty. }
  cbv zeta. rewrite Ho. unfold after_stage at 1.
  destruct (outcome _); [|by apply Hleaf|]; unfold before_stage at 1; (case_match; [by apply Hleaf; intros ? ? [= <-]|]);
    (eapply holds_ext; [apply (holds_rank_each _ _ _ _ _ (fun _ => 0))|]);
    cbn [candidates winners request set_outcome set_candidates]; rewrite ?imap_pair_snd, ?ready_winners0; try done;
    try (intros ws Hws; by apply ranked_holds); by constructor.
Qed.
Lemma deducted_ext d d' (p p' : Local.LocalBudgetPacer) : deducted d p p' -> (forall id, d id = d' id) -> deducted d' p p'.
Proof. intros [Hwf Hd] He. split; [done|]. intros id. by rewrite Hd, He. Qed.

Lemma fetch_sub_deducts (p : Local.LocalBudgetPacer) id bid : pacer_wf p ->
  let '(c, p') := fetch_sub p id bid in
  c = Local.counters p !! id /\ deducted (fun i => match c with Some _ => on i id bid | None => 0 end) p p'.
Proof.
  intros Hwf. pose proof (deducted_zero p Hwf) as Hz. unfold fetch_sub.
  destruct (Local.counters p !! id) as [c|] eqn:E; (split; [done|]); [|exact Hz].
  split; cbn [remaining pacer_wf Local.local_pacer_laws Local.counters Local.fetch_sub_test fst].
  - apply map_Forall_insert_2; [apply as_i64_range|exact Hwf].
  - intros i. unfold on. case_decide; simplify_map_eq; [done|].
    change (Local.counters p !! i) with (remaining p i). by rewrite <- (proj2 Hz i).
Qed.

Lemma advance_ok fl w : flight_ok fl -> catalog_priced (w_catalog w) -> pacer_wf (w_pacer w) ->
  let '(fl', w') := advance fl w in
  flight_ok fl' /\ w_catalog w' = w_catalog w /\ deducted (fun id => owed fl' id - owed fl id) (w_pacer w) (w_pacer w').
Proof.
  intros Hfl Hcat Hwf.
  assert (forall fl', (forall id, owed fl' id = owed fl id) ->
    deducted (fun id => owed fl' id - owed fl id) (w_pacer w) (w_pacer w)) as Hsame.
  { intros fl' He. eapply deducted_ext; [by apply deducted_zero|]. intros id. rewrite He. lia. }
  unfold Traffic.advance. unfold flight_ok in Hfl. destruct (fl_thread fl) as [i ctx|[f|i bid k|site i bid k]|f|l] eqn:Et.
  - destruct Hfl as [Hfl Hlive]. destruct (take 6 _ !! i) as [st|] eqn:Est.
    2:{ destruct (tail_prog_holds (fl_env fl) ctx Hfl Hlive) as (Hf & _ & Hh). split_and!; [done|done|].
        apply Hsame. intros id. unfold owed. rewrite Et. apply Hh. }
    assert (i < 6)%nat as Hi by (apply lookup_lt_Some in Est; cbn in Est; lia).
    assert (forall r n ctx', (n < 7)%nat -> bid_response ctx' = None ->
      flight_ok (with_thread fl (Done (r, n, ctx'))) /\ (forall id, owed (with_thread fl (Done (r, n, ctx'))) id = owed fl id)) as Hdone.
    { intros r n ctx' Hn Hr. destruct (holds_early r n ctx' Hn Hr) as (Hs & _ & Hh). split; [exact Hs|].
      intros id. unfold owed. rewrite Et. apply Hh. }
    destruct (deadline_ms <=? elapsed_ms ctx (en_clock (fl_env fl) i)).
    { destruct (Hdone (Ok tt) i (set_outcome ctx (NoBid PIPELINE_DEADLINE)) ltac:(lia) (ready_response _ Hfl)). auto. }
    pose proof (stages_prepare (fl_env fl) i st Est ctx w Hfl Hcat) as Hst.
    destruct (stage_execute st ctx w) as [[r ctx'] w']. destruct Hst as (-> & Hr & Hc & Hp). rewrite <- Hp in *.
    assert (live ctx' -> flight_ok (with_thread fl (AtStage (S i) ctx'))) as Hgo by by split.
    assert (forall id, owed (with_thread fl (AtStage (S i) ctx')) id = owed fl id) as Hgo'
      by (intros id; unfold owed; by rewrite Et).
    destruct (Hdone (Ok tt) (S i) ctx' ltac:(lia) (ready_response _ Hr)).
    destruct (outcome ctx') eqn:Eo; (split_and!; auto); apply Hgo; unfold live; by rewrite Eo.
  - split_and!; [exact (proj1 (conj Hfl I))|done|]. apply Hsame. intros id. unfold owed. by rewrite Et.
  - pose proof (fetch_sub_deducts (w_pacer w) i bid Hwf) as Hs. destruct (fetch_sub (w_pacer w) i bid) as [c p].
    destruct Hs as [_ Hd]. destruct Hfl as (_ & _ & Hn & Hk). split_and!; [|done|].
    + destruct c; [apply Hk|done].
    + eapply deducted_ext; [exact Hd|]. intros id. unfold owed. rewrite Et. cbn [with_thread fl_thread holding].
      destruct c as [c|]; [|lia]. destruct (Hk c) as (_ & Hh & _). rewrite Hh. lia.
  - split_and!; [apply Hfl|done|]. eapply deducted_ext; [apply (release_deducts (w_pacer w) i bid Hwf)|].
    intros id. unfold owed. rewrite Et. cbn [with_thread fl_thread holding]. unfold on. case_decide; lia.
  - split_and!; [unfold flight_ok; by rewrite Et|done|by apply Hsame].
  - split_and!; [unfold flight_ok; by rewrite Et|done|by apply Hsame].
Qed.
(** ** The system *)

Definition owed_all s (id : Z) : Z := sum_by (fun fl => owed fl id) (sy_flights s).

Record sys_ok s : Prop := {
  ok_flights : Forall flight_ok (sy_flights s);
  ok_catalog : catalog_priced (w_catalog (sy_world s));
  ok_pacer : pacer_wf (w_pacer (sy_world s));
}.

(** What the refresh task may bring. *)
Definition action_ok (a : Action (Value := Value) (B := B) (GE := GE) (FE := FE)) : Prop :=
  match a with
  | Publish cat => catalog_priced cat
  | Reload cat => Forall (fun '(_, budget) => in_i64 budget) (budget_seeds cat)
  | _ => True
  end.
Definition is_reload (a : Action (Value := Value) (B := B) (GE := GE) (FE := FE)) : bool :=
  match a with Reload _ => true | _ => false end.

Lemma cancel_ok fl : flight_ok fl -> flight_ok (cancel fl) /\ forall id, owed (cancel fl) id = owed fl id.
Proof.
  intros Hfl. unfold cancel. destruct (rolling_back fl); [done|]. unfold flight_ok, owed in *.
  destruct (fl_thread fl) eqn:Et; cbn; rewrite ?Et; auto.
Qed.

(** Replacing one request by another. *)
Lemma replace_ok s j fl fl' w' : sys_ok s -> sy_flights s !! j = Some fl -> flight_ok fl' ->
  w_catalog w' = w_catalog (sy_world s) -> pacer_wf (w_pacer w') ->
  sys_ok {| sy_world := w'; sy_flights := <[j := fl']> (sy_flights s) |}.
Proof. intros [] Hj Hfl Hc Hp. split; cbn; [by apply Forall_insert|by rewrite Hc|done]. Qed.

Lemma step_ok s a : sys_ok s -> action_ok a -> let s' := step s a in
  sys_ok s' /\
  (is_reload a = false ->
   deducted (fun id => owed_all s' id - owed_all s id) (w_pacer (sy_world s)) (w_pacer (sy_world s'))).
Proof.
  intros Hs Ha. pose proof Hs as [Hfl Hc Hp].
  assert (forall s', w_pacer (sy_world s') = w_pacer (sy_world s) -> (forall id, owed_all s' id = owed_all s id) ->
    deducted (fun id => owed_all s' id - owed_all s id) (w_pacer (sy_world s)) (w_pacer (sy_world s'))) as Hsame.
  { intros s' -> He. eapply deducted_ext; [by apply deducted_zero|]. intros id. rewrite He. lia. }
  destruct a as [req now env|j|j|cat|cat]; cbn [Traffic.step].
  - split; [split; [|done..]|].
    + apply Forall_app. split; [done|]. repeat constructor; cbn; try done.
      unfold lists_ok. apply Forall_replicate. split; constructor.
    + intros _. apply Hsame; [done|]. intros id. unfold owed_all. cbn [sy_flights]. rewrite sum_by_app. cbn. lia.
  - destruct (sy_flights s !! j) as [fl|] eqn:Ej; [|auto].
    pose proof (advance_ok fl (sy_world s) ltac:(by eapply Forall_lookup_1) Hc Hp) as Hadv.
    destruct (advance fl (sy_world s)) as [fl' w']. destruct Hadv as (Hok & Hcat & Hd).
    split; [by apply (replace_ok s j fl); [..|apply Hd]|]. intros _. eapply deducted_ext; [exact Hd|].
    intros id. unfold owed_all. cbn [sy_flights]. rewrite (sum_by_insert _ _ _ fl) by done. lia.
  - destruct (sy_flights s !! j) as [fl|] eqn:Ej; [|auto].
    destruct (cancel_ok fl ltac:(by eapply Forall_lookup_1)) as [Hok Ho].
    split; [by apply (replace_ok s j fl)|]. intros _. apply Hsame; [done|].
    intros id. unfold owed_all. cbn [sy_flights]. rewrite (sum_by_insert _ _ _ fl), Ho by done. lia.
  - split; [|done]. destruct (existsb rolling_back (sy_flights s)); [done|]. split; cbn; [done..|by apply Local.reload_wf].
  - split; [by split|]. intros _. by apply Hsame.
Qed.

Lemma schedule_ok s l : sys_ok s -> Forall action_ok l -> let s' := run_schedule s l in
  sys_ok s' /\
  (Forall (fun a => is_reload a = false) l ->
   deducted (fun id => owed_all s' id - owed_all s id) (w_pacer (sy_world s)) (w_pacer (sy_world s'))).
Proof.
  intros Hs Hl. unfold Traffic.run_schedule. revert s Hs; induction Hl as [|a l Ha Hl IH]; intros s Hs; cbn [foldl].
  - split; [done|]. intros _. eapply deducted_ext; [by apply deducted_zero; destruct Hs|]. intros id. cbv beta. lia.
  - destruct (step_ok s a Hs Ha) as [Hs' Hd]. destruct (IH _ Hs') as [Hok Hd']. split; [exact Hok|].
    intros [Hr Hrs]%Forall_cons. eapply deducted_trans; [by apply Hd|by apply Hd'|]. intros id. cbv beta. lia.
Qed.
(** *** Grants *)

(** A refused reservation that is still to be undone; what has been granted. *)
Definition pending fl (id : Z) : Z :=
  match fl_thread fl with Running (FetchAdd RollBack campaign_id bid _) => on id campaign_id bid | _ => 0 end.
Definition granted fl (id : Z) : Z := owed fl id - pending fl id.

(** The prices of the bids on a campaign a request has been answered with. *)
Definition spent fl (id : Z) : Z :=
  match fl_thread fl with
  | Done (_, _, ctx) => match bid_response ctx with Some _ => won id (winners ctx) | None => 0 end
  | _ => 0
  end.

Lemma sum_by_add {A} (f g : A -> Z) l : sum_by (fun a => f a + g a) l = sum_by f l + sum_by g l.
Proof. induction l as [|a l IH]; [done|]. rewrite !sum_by_cons, IH. lia. Qed.

Lemma sum_by_ext {A} (f g : A -> Z) l : (forall a, f a = g a) -> sum_by f l = sum_by g l.
Proof. intros He. induction l as [|a l IH]; [done|]. by rewrite !sum_by_cons, He, IH. Qed.

Lemma sum_by_le {A} (f g : A -> Z) l : (forall a, a ∈ l -> f a <= g a) -> sum_by f l <= sum_by g l.
Proof.
  induction l as [|a l IH]; intros Hl; [done|]. rewrite !sum_by_cons.
  pose proof (Hl a ltac:(left)). specialize (IH ltac:(intros; apply Hl; by right)). lia.
Qed.

Lemma sum_by_const {A} (m : Z) (l : list A) : sum_by (fun _ => m) l = Z.of_nat (length l) * m.
Proof. induction l as [|a l IH]; [done|]. rewrite sum_by_cons, IH. cbn [length]. lia. Qed.

Section Bound.
Context (id max_price : Z) (price_bound : forall bid, price_ok id bid -> 0 <= bid <= max_price).

Lemma on_bound i bid : 0 <= max_price -> price_ok i bid -> 0 <= on id i bid <= max_price.
Proof. intros Hm Hp. unfold on. case_decide; [subst; auto|lia]. Qed.

Lemma unrolled_pending env (pr : Prog (Final (Value := Value) (B := B))) : unrolled pr ->
  pending {| fl_env := env; fl_thread := Running pr |} id = 0.
Proof. by destruct pr as [| |[]]. Qed.

Lemma flight_amounts fl : 0 <= max_price -> flight_ok fl ->
  0 <= granted fl id /\ 0 <= pending fl id <= max_price /\ spent fl id <= granted fl id.
Proof.
  intros Hm Hfl. assert (forall bid, price_ok id bid -> 0 <= bid) as Hpos by (intros; by apply price_bound).
  unfold granted, spent, pending, owed, flight_ok in *. destruct (fl_thread fl) as [i ctx|pr|[[r n] ctx]|[pr|]]; try lia.
  - pose proof (holding_nonneg price_ok pr id Hfl Hpos). destruct pr as [|i bid k|[] i bid k]; try lia.
    destruct Hfl as (Hp & _ & Hk). pose proof (on_bound i bid Hm Hp). pose proof (holding_nonneg price_ok k id Hk Hpos).
    cbn [holding]. lia.
  - destruct Hfl as (Hc & _ & Hr). specialize (Hc id Hpos). cbn [fst snd] in Hr. destruct (bid_response ctx); [|lia].
    specialize (Hr ltac:(eauto)). unfold charge in *. rewrite (proj2 (Nat.ltb_ge n 7)), (proj2 (Nat.ltb_ge n 8)) in * by lia. lia.
  - pose proof (holding_nonneg price_ok pr id Hfl Hpos). lia.
Qed.

(** Only a [fetch_sub] that finds budget left grants anything, at most a price. *)
Lemma advance_grants fl w : 0 <= max_price -> flight_ok fl -> catalog_priced (w_catalog w) -> pacer_wf (w_pacer w) ->
  let fl' := (advance fl w).1 in
  granted fl' id <= granted fl id \/
  exists c, Local.counters (w_pacer w) !! id = Some c /\ 0 < c /\ granted fl' id <= granted fl id + max_price.
Proof.
  intros Hm Hfl Hcat Hwf. cbv zeta. unfold Traffic.advance, granted. unfold flight_ok in Hfl.
  destruct (fl_thread fl) as [i ctx|[f|i bid k|site i bid k]|f|l] eqn:Et.
  - left. destruct Hfl as [Hfl Hlive]. unfold owed at 2, pending at 2. rewrite Et.
    destruct (take 6 _ !! i) as [st|] eqn:Est.
    2:{ destruct (tail_prog_holds (fl_env fl) ctx Hfl Hlive) as (_ & Hu & Hh).
        cbn [fst]. unfold with_thread. rewrite (unrolled_pending _ _ Hu). unfold owed. cbn [fl_thread]. rewrite Hh. lia. }
    assert (i < 6)%nat as Hi by (apply lookup_lt_Some in Est; cbn in Est; lia).
    assert (forall r n ctx', (n < 7)%nat -> charge (r, n, ctx') id = 0) as Hz
      by (intros r n ctx' Hn; unfold charge; by rewrite (proj2 (Nat.ltb_lt n 7))).
    destruct (deadline_ms <=? _); [cbn -[charge]; rewrite Hz; lia|].
    destruct (stage_execute st ctx w) as [[r ctx'] w']. destruct r; [destruct (outcome ctx')|];
      cbn -[charge]; rewrite ?Hz by lia; lia.
  - left. unfold owed, pending. rewrite Et. cbn. lia.
  - pose proof (fetch_sub_deducts (w_pacer w) i bid Hwf) as Hs. destruct (fetch_sub (w_pacer w) i bid) as [c p].
    destruct Hs as [Hc _]. destruct Hfl as (Hp & Hu & _ & Hk). pose proof (on_bound i bid Hm Hp). cbn [fst].
    assert (pending fl id = 0) as -> by (unfold pending; by rewrite Et).
    unfold owed. rewrite Et. unfold with_thread. cbn [fl_thread holding].
    destruct c as [c|]; [|left; rewrite (unrolled_pending _ _ Hu); lia].
    destruct (Hk c) as (_ & Hh & Hc0). rewrite Hh. destruct (c <=? 0) eqn:E; zbool.
    + destruct Hc0 as [pr' ->]. left. unfold pending. cbn [fl_thread]. lia.
    + rewrite (unrolled_pending _ _ Hc0). destruct (decide (i = id)) as [->|Hne].
      * right. exists c. split_and!; [done|done|lia].
      * left. assert (on id i bid = 0) by (unfold on; by rewrite decide_False). lia.
  - left. destruct Hfl as (Hp & Hu & _). pose proof (on_bound i bid Hm Hp). cbn [fst]. unfold with_thread.
    rewrite (unrolled_pending _ _ Hu). unfold owed, pending. rewrite Et. cbn [fl_thread holding]. destruct site; lia.
  - by left.
  - by left.
Qed.

Definition granted_all s : Z := sum_by (fun fl => granted fl id) (sy_flights s).
Definition spent_all s : Z := sum_by (fun fl => spent fl id) (sy_flights s).

(** What holds after each prefix of a schedule without reloads: the counter is
    what it was less what has been taken since, and never more than [cap] and one
    price has been granted. *)
Record bounded (budget cap : Z) (n : nat) s : Prop := {
  bounded_ok : sys_ok s;
  bounded_counter : Local.counters (w_pacer (sy_world s)) !! id = Some (as_i64 (budget - owed_all s id));
  bounded_granted : granted_all s < cap + max_price;
  bounded_flights : (length (sy_flights s) <= n)%nat;
}.

Lemma owed_range s : 0 <= max_price -> sys_ok s ->
  0 <= granted_all s <= owed_all s id /\ owed_all s id <= granted_all s + Z.of_nat (length (sy_flights s)) * max_price /\
  spent_all s <= granted_all s.
Proof.
  intros Hm [Hfl _ _]. rewrite Forall_forall in Hfl.
  pose proof (fun fl Hin => flight_amounts fl Hm (Hfl fl Hin)) as Ha. unfold owed_all, granted_all, spent_all.
  rewrite (sum_by_ext (fun fl => owed fl id) (fun fl => granted fl id + pending fl id)), sum_by_add
    by (intros; unfold granted; lia).
  pose proof (sum_by_nonneg (fun fl => granted fl id) (sy_flights s) (fun fl Hin => proj1 (Ha fl Hin))).
  pose proof (sum_by_nonneg (fun fl => pending fl id) (sy_flights s) (fun fl Hin => proj1 (proj1 (proj2 (Ha fl Hin))))).
  pose proof (sum_by_le _ _ (sy_flights s) (fun fl Hin => proj2 (proj1 (proj2 (Ha fl Hin))))) as Hp.
  pose proof (sum_by_le _ _ (sy_flights s) (fun fl Hin => proj2 (proj2 (Ha fl Hin)))).
  rewrite sum_by_const in Hp. lia.
Qed.
Lemma cancel_granted fl : flight_ok fl -> granted (cancel fl) id = granted fl id.
Proof.
  intros Hfl. unfold granted. destruct (cancel_ok fl Hfl) as [_ ->]. f_equal. unfold cancel, rolling_back, pending.
  by destruct (fl_thread fl) as [| [| |[]]| |] eqn:E; cbn; rewrite ?E.
Qed.

Lemma step_grants s a : 0 <= max_price -> sys_ok s -> granted_all (step s a) <= granted_all s \/
  exists c, Local.counters (w_pacer (sy_world s)) !! id = Some c /\ 0 < c /\ granted_all (step s a) <= granted_all s + max_price.
Proof.
  intros Hm [Hfl Hc Hp]. unfold granted_all. destruct a as [req now env|j|j|cat|cat]; cbn [Traffic.step].
  - left. cbn [sy_flights]. rewrite sum_by_app. replace (sum_by _ [_]) with 0 by done. lia.
  - destruct (sy_flights s !! j) as [fl|] eqn:Ej; [|by left].
    pose proof (advance_grants fl (sy_world s) Hm ltac:(by eapply Forall_lookup_1) Hc Hp) as Hg. cbv zeta in Hg.
    destruct (advance fl (sy_world s)) as [fl' w']. cbn [sy_flights fst] in *. rewrite (sum_by_insert _ _ _ fl) by done.
    destruct Hg as [Hg|(c & Hlook & Hpos & Hg)]; [left; lia|right; exists c; split_and!; [done|done|lia]].
  - destruct (sy_flights s !! j) as [fl|] eqn:Ej; [|by left]. left. cbn [sy_flights].
    rewrite (sum_by_insert _ _ _ fl), cancel_granted by (done || by eapply Forall_lookup_1). lia.
  - left. by destruct (existsb _ _).
  - by left.
Qed.

Lemma step_bounded budget cap n s a : 0 <= max_price -> budget <= cap ->
  budget < 2 ^ 63 -> cap - budget + Z.of_nat (S n) * max_price < 2 ^ 63 ->
  bounded budget cap n s -> action_ok a -> is_reload a = false -> bounded budget cap (S n) (step s a).
Proof.
  intros Hm Hb Htop Hroom [Hs Hc Hg Hn] Ha Hr. destruct (step_ok s a Hs Ha) as [Hs' Hd]. specialize (Hd Hr).
  destruct (owed_range s Hm Hs) as (Ho & Hu & _). split; [done| | |].
  - destruct Hd as [_ Hd]. specialize (Hd id). cbn [remaining Local.local_pacer_laws] in Hd. rewrite Hd, Hc. cbn. f_equal.
    replace (as_i64 (budget - owed_all s id) - (owed_all (step s a) id - owed_all s id))
      with (as_i64 (budget - owed_all s id) + (owed_all s id - owed_all (step s a) id)) by lia.
    rewrite as_i64_add. f_equal. lia.
  - destruct (step_grants s a Hm Hs) as [Hle|(c & Hlook & Hpos & Hle)]; [lia|].
    rewrite Hc in Hlook. injection Hlook as <-. rewrite as_i64_id in Hpos by (unfold in_i64; nia). lia.
  - transitivity (S (length (sy_flights s))); [|lia]. destruct a as [req now env|j|j|cat|cat]; cbn [Traffic.step].
    + cbn. rewrite length_app. cbn. lia.
    + destruct (sy_flights s !! j); [|lia]. destruct (advance _ _). cbn. rewrite length_insert. lia.
    + destruct (sy_flights s !! j); [|lia]. cbn. rewrite length_insert. lia.
    + destruct (existsb _ _); cbn; lia.
    + cbn. lia.
Qed.

Lemma schedule_bounded budget cap n s l : 0 <= max_price -> budget <= cap -> budget < 2 ^ 63 ->
  cap - budget + Z.of_nat (n + length l) * max_price < 2 ^ 63 -> bounded budget cap n s -> Forall action_ok l ->
  Forall (fun a => is_reload a = false) l -> bounded budget cap (n + length l) (run_schedule s l).
Proof.
  intros Hm Hb Htop. revert n s. induction l as [|a l IH]; intros n s Hroom Hs Hl Hr; [by rewrite Nat.add_0_r|].
  apply Forall_cons in Hl as [Ha Hl]. apply Forall_cons in Hr as [Hra Hr]. cbn [length] in *.
  rewrite <- Nat.add_succ_comm in *. apply (IH (S n) (step s a)); [done| |done..]. apply step_bounded; [done..|nia|done|done|done].
Qed.

(** A sum over a list some of whose elements are still in the other. *)
Lemma sum_by_kept {A} (P : A -> bool) (h : A -> Z) (l l' : list A) : (forall a, a ∈ l' -> 0 <= h a) ->
  (forall j a, P a = true -> l !! j = Some a -> l' !! j = Some a) ->
  sum_by (fun a => if P a then h a else 0) l <= sum_by h l'.
Proof.
  revert l'; induction l as [|a l IH]; intros l' Hpos Hk; [by apply sum_by_nonneg|]. rewrite sum_by_cons. cbv beta.
  specialize (IH (drop 1 l')). destruct l' as [|b l']; cbn [drop] in IH.
  - assert (P a = false) as -> by (destruct (P a) eqn:E; [discriminate (Hk 0%nat a E eq_refl)|done]).
    apply IH; [done|]. intros j x HP Hj. discriminate (Hk (S j) x HP Hj).
  - rewrite drop_0 in IH. rewrite sum_by_cons.
    specialize (IH ltac:(intros; apply Hpos; by right) (fun j x HP Hj => Hk (S j) x HP Hj)).
    pose proof (Hpos b ltac:(left)). destruct (P a) eqn:E; [|lia]. injection (Hk 0%nat a E eq_refl) as ->. lia.
Qed.
End Bound.
End Accounts.

(** ** Properties *)
Section Properties.
Context {Value : Type} `{JsonValue Value} {B : Type} `{BitmapLaws B}.
Context {C : Type} `{KVCache C string (list SegmentId)} {G GE : Type} `{UserSegmentRepository G GE}.
Context {Sc : Type} `{ScorerLaws Sc} {F FE : Type} `{FrequencyCapper F FE} {N : Type} `{NoticeUrlBuilder N}.
Context (heap_order : list AdCandidate -> list AdCandidate) (heap_order_perm : forall l, heap_order l ≡ₚ l).
Context (deadline_ms : Z) (top_k : nat) (builder : N) (exchange_id : string).
Implicit Types (s : Sys Value B C G GE Sc F FE) (l : list (Action (Value := Value) (B := B) (GE := GE) (FE := FE))).
Local Notation run_schedule := (run_schedule heap_order deadline_ms top_k builder exchange_id).

Definition any_price (id bid : Z) : Prop := True.

Lemma empty_ok price_ok s : sy_flights s = [] -> catalog_priced price_ok (w_catalog (sy_world s)) ->
  pacer_wf (w_pacer (sy_world s)) -> sys_ok price_ok s.
Proof. intros He Hc Hp. split; [by rewrite He|done|done]. Qed.

(** A request that has ended or was dropped. *)
Definition over (fl : Flight Value B GE FE) : bool :=
  match fl_thread fl with Done _ | Cancelled _ => true | _ => false end.

Lemma over_stays s l j fl : over fl = true -> sy_flights s !! j = Some fl ->
  sy_flights (run_schedule s l) !! j = Some fl.
Proof.
  intros Ho Hj. unfold Traffic.run_schedule. apply (foldl_inv (fun s => sy_flights s !! j = Some fl)); [done|].
  clear s Hj. intros s a _ Hj. destruct a as [req now env|i|i|cat|cat]; cbn [step].
  - by apply lookup_app_l_Some.
  - destruct (decide (i = j)) as [->|Hne].
    + rewrite Hj. unfold advance, over in *.
      destruct (fl_thread fl); try done; cbn [sy_flights]; by rewrite list_insert_id.
    + destruct (sy_flights s !! i); [|done]. destruct (advance _ _ _ _ _ _ _). cbn [sy_flights].
      by rewrite list_lookup_insert_ne.
  - destruct (decide (i = j)) as [->|Hne].
    + rewrite Hj. cbn [sy_flights]. unfold cancel, rolling_back, over in *.
      by destruct (fl_thread fl); try done; rewrite list_insert_id.
    + destruct (sy_flights s !! i); [|done]. cbn [sy_flights]. by rewrite list_lookup_insert_ne.
  - by destruct (existsb _ _).
  - done.
Qed.

(** Any schedule without reloads, from any state the system can be in. *)
Lemma no_reload_deducts s l : sys_ok any_price s -> Forall (fun a => is_reload a = false) l ->
  deducted (fun id => owed_all (run_schedule s l) id - owed_all s id)
    (w_pacer (sy_world s)) (w_pacer (sy_world (run_schedule s l))).
Proof.
  intros Hs Hl. apply (schedule_ok heap_order heap_order_perm deadline_ms top_k builder exchange_id any_price); [done| |done].
  eapply Forall_impl; [exact Hl|]. by intros [].
Qed.

Lemma sys_ok_run s l : sys_ok any_price s -> Forall (action_ok any_price) l -> sys_ok any_price (run_schedule s l).
Proof. intros. by apply schedule_ok. Qed.


(** [C6] A reload pays in-flight reservations back twice: the reload sets the
    counter to the full daily budget although requests hold reservations deducted
    from the old one, and what they release afterwards is added on top.  With no
    reload since, the counter is the daily budget, plus what was held when it was
    reloaded, less what is held now; so it exceeds the daily budget whenever the
    requests hold less than they did then. *)
Theorem reload_refunds_in_flight s0 (pre post : list _) (cat : CampaignCatalog B) (id daily : Z)
    (Hempty : sy_flights s0 = []) (Hwf : pacer_wf (w_pacer (sy_world s0)))
    (Hpre : Forall (action_ok any_price) pre) (Hcat : Forall (fun '(_, b) => in_i64 b) (budget_seeds cat))
    (Hpost : Forall (fun a => is_reload a = false) post)
    (Hdaily : Local.last_budget id (budget_seeds cat) = Some daily) :
  let s := run_schedule s0 pre in
  let s' := run_schedule s (Reload cat :: post) in
  existsb rolling_back (sy_flights s) = false ->
  remaining (w_pacer (sy_world s')) id = Some (as_i64 (daily + (owed_all s id - owed_all s' id))).
Proof.
  intros s s' Hfree.
  assert (sys_ok any_price s) as Hs by (apply sys_ok_run; [by apply empty_ok|done]).
  set (s1 := run_schedule s [Reload cat]). assert (sys_ok any_price s1) as Hs1 by (apply sys_ok_run; [done|by constructor]).
  assert (remaining (w_pacer (sy_world s1)) id = Some daily /\ owed_all s1 id = owed_all s id) as [Hr Ho].
  { unfold s1. cbn [Traffic.run_schedule foldl step]. rewrite Hfree. split; [|done].
    cbn [sy_world w_pacer set_catalog_pacer remaining Local.local_pacer_laws]. by rewrite Local.reload_remaining, Hdaily. }
  change s' with (run_schedule s1 post). rewrite (proj2 (no_reload_deducts s1 post Hs1 Hpost) id), Hr, Ho. cbn. do 2 f_equal. lia.
Qed.

Definition floor_within (id max_price : Z) (cat : CampaignCatalog B) : Prop :=
  forall cm, campaign cat id = Some cm -> 0 <= c_bid_floor_cents cm <= max_price.

(** What the requests still being served hold of a campaign's budget. *)
Definition in_flight s (id : Z) : Z := sum_by (fun fl => if over fl then 0 else owed fl id) (sy_flights s).

(** [over] requests hold what they were granted, and only they have spent. *)
Lemma over_amounts (fl : Flight Value B GE FE) (id : Z) :
  if over fl then granted fl id = owed fl id else spent fl id = 0.
Proof. unfold over, granted, pending, spent, owed. destruct (fl_thread fl) as [| |[[r n] ctx]|]; [done|done|lia|lia]. Qed.

Lemma spent_since s s' (id : Z) :
  (forall j fl, over fl = true -> sy_flights s !! j = Some fl -> sy_flights s' !! j = Some fl) ->
  (forall fl, fl ∈ sy_flights s' -> spent fl id <= granted fl id) ->
  spent_all id s' - spent_all id s <= granted_all id s' - owed_all s id + in_flight s id.
Proof.
  intros Hk Hle.
  pose proof (sum_by_kept over (fun fl => granted fl id - spent fl id) (sy_flights s) (sy_flights s')
    ltac:(intros fl Hfl; specialize (Hle fl Hfl); lia) Hk) as Hsum.
  assert (sum_by (fun fl => if over fl then granted fl id - spent fl id else 0) (sy_flights s) + spent_all id s
    + in_flight s id = owed_all s id) as Hs.
  { unfold spent_all, in_flight, owed_all. rewrite <- !sum_by_add. apply sum_by_ext. intros fl.
    pose proof (over_amounts fl id). destruct (over fl); lia. }
  assert (sum_by (fun fl => granted fl id - spent fl id) (sy_flights s') + spent_all id s' = granted_all id s') as Hs'.
  { unfold spent_all, granted_all. rewrite <- sum_by_add. apply sum_by_ext. intros fl. lia. }
  cbv beta in Hsum. lia.
Qed.

(** What the refresh task may bring before: catalogs with the campaign's floor
    within the highest price, and budgets that fit their type. *)
Definition refresh_within (id max_price : Z) (a : Action (Value := Value) (B := B) (GE := GE) (FE := FE)) : Prop :=
  match a with
  | Publish cat => floor_within id max_price cat
  | Reload cat => Forall (fun '(_, b) => in_i64 b) (budget_seeds cat)
  | _ => True
  end.

(** [C5] Overspend is bounded under concurrency.  Start from any state the bidder
    can be in, after any traffic, with requests in flight, dropped and answered,
    and any reloads; from there to the next reload, whatever the number of
    requests and the interleaving of their atomic operations, what the bids on a
    campaign that requests are answered with cost is less than what is left of
    its budget, plus what the requests in flight at the start hold of it (they
    may win with it, or release it to others), plus one bid at its highest
    floor; as long as the counter cannot wrap around. *)
Theorem concurrent_spend_bounded s0 (pre l : list _) (id budget max_price : Z)
    (Hempty : sy_flights s0 = []) (Hwf : pacer_wf (w_pacer (sy_world s0))) (Hprice : 0 < max_price)
    (Hcat : floor_within id max_price (w_catalog (sy_world s0)))
    (Hpre : Forall (refresh_within id max_price) pre)
    (Hl : Forall (fun a => refresh_within id max_price a /\ is_reload a = false) l) :
  let s := run_schedule s0 pre in
  let s' := run_schedule s l in
  remaining (w_pacer (sy_world s)) id = Some budget ->
  Z.abs budget + owed_all s id + Z.of_nat (length (sy_flights s) + length l) * max_price < 2 ^ 63 ->
  sum_by (fun fl => spent fl id) (sy_flights s') - sum_by (fun fl => spent fl id) (sy_flights s)
    < Z.max 0 budget + in_flight s id + max_price.
Proof.
  set (price_ok := fun i bid : Z => i = id -> 0 <= bid <= max_price). intros s s' Hbudget Hroom.
  assert (forall cat, floor_within id max_price cat -> catalog_priced price_ok cat) as Hfloor by (intros cat Hc ? cm Hcm ->; by eapply Hc).
  assert (forall bid, price_ok id bid -> 0 <= bid <= max_price) as Hbound by (intros bid Hb; by apply Hb).
  assert (forall a, refresh_within id max_price a -> action_ok price_ok a) as Hact by (intros []; cbn; auto).
  assert (sys_ok price_ok s) as Hs.
  { apply schedule_ok; [done|by apply empty_ok; auto|]. by eapply Forall_impl; [exact Hpre|]. }
  destruct (owed_range price_ok id max_price Hbound s ltac:(lia) Hs) as (Ho & _ & _).
  assert (bounded price_ok id max_price (budget + owed_all s id) (Z.max 0 budget + owed_all s id) (length (sy_flights s)) s) as Hb.
  { split; [done| |lia|done]. replace (budget + owed_all s id - owed_all s id) with budget by lia.
    rewrite as_i64_id; [exact Hbudget|]. unfold in_i64. lia. }
  destruct (schedule_bounded heap_order heap_order_perm deadline_ms top_k builder exchange_id price_ok id max_price Hbound
    (budget + owed_all s id) (Z.max 0 budget + owed_all s id) (length (sy_flights s)) s l
    ltac:(lia) ltac:(lia) ltac:(lia) ltac:(lia) Hb) as [Hs' _ Hg _].
  - eapply Forall_impl; [exact Hl|]. intros a [Ha _]. by apply Hact.
  - eapply Forall_impl; [exact Hl|]. by intros a [_ Ha].
  - fold s' in Hs', Hg. pose proof Hs' as [Hfl _ _]. rewrite Forall_forall in Hfl.
    pose proof (spent_since s s' id (fun j fl Hover Hj => over_stays s l j fl Hover Hj)
      (fun fl Hin => proj2 (proj2 (flight_amounts price_ok id max_price Hbound fl ltac:(lia) (Hfl fl Hin))))) as Hsp.
    unfold spent_all in Hsp. lia.
Qed.
End Properties.

Module Sample.
Import PipelineProps.Sample.

(** Two identical requests for the bidder of [PipelineProps.Sample], which no
    deadline stops, and the schedules that step them in turn. *)
Notation Sys := (Sys Json (gset Z) (gmap string (list SegmentId)) (list SegmentId) unit FeatureWeightedScorer unit FreqCapOutcome).
Notation Action := (Action (Value := Json) (B := gset Z) (GE := unit) (FE := FreqCapOutcome)).

Definition start (budgets : gmap Z Z) : Sys := {|
  sy_world := set_pacer world {| Local.counters := budgets |}; sy_flights := [] |}.
Definition arrivals : list Action := [Arrive (request None) 0 (env 9 0); Arrive (request None) 0 (env 9 0)].
Definition in_turn (n : nat) : list Action := concat (replicate n [Advance 0; Advance 1]).
Definition schedule : Sys -> list Action -> Sys := run_schedule (fun l => l) 100 50 no_notice_url "openrtb-generic".
Definition budgets : gmap Z Z := {[1 := 5000; 2 := 5000; 3 := 0]}.
Definition midway : Sys := schedule (start budgets) (arrivals ++ in_turn 9).

Lemma start_wf : pacer_wf (w_pacer (sy_world (start budgets))).
Proof. exact world_pacer_wf. Defined.

Lemma in_turn_no_reload n : Forall (fun a => is_reload a = false) (in_turn n).
Proof. induction n as [|n IH]; [constructor|]. by repeat constructor. Qed.

Lemma pre_ok : Forall (action_ok any_price) (arrivals ++ in_turn 9).
Proof.
  apply Forall_app. split; [repeat constructor|]. eapply Forall_impl; [apply in_turn_no_reload|]. by intros [].
Qed.

(** A catalog that gives campaign 2 a daily budget of 150 cents; a third request. *)
Definition low : CampaignCatalog (gset Z) := {|
  campaigns := {[2 := {| c_id := 2; c_advertiser_id := 1; c_bid_floor_cents := 200; c_daily_budget_cents := 150;
    c_hourly_budget_cents := 150; c_daily_cap_imps := 5; c_hourly_cap_imps := 5 |}]};
  creatives := ∅; segment_to_campaigns := ∅; geo_to_campaigns := ∅; device_to_campaigns := ∅; format_to_campaigns := ∅;
  daypart_active_now := ∅; all_campaigns := {[2]}; device_unrestricted := ∅; format_unrestricted := ∅ |}.
Definition third : list Action :=
  Arrive (request None) 0 (env 9 0) :: replicate 40 (Advance 2) ++ in_turn 20.

Lemma catalog_budgets : Forall (fun '(_, b) => in_i64 b) (budget_seeds catalog).
Proof.
  assert (forallb (fun '(_, b) => bool_decide (in_i64 b)) (budget_seeds catalog) = true) as Hb by (vm_compute; reflexivity).
  apply Is_true_eq_left, forallb_True in Hb. eapply Forall_impl; [exact Hb|]. intros [id b]. apply bool_decide_unpack.
Qed.
End Sample.


(** Budgets reloaded midway: campaign 1 ends 200 cents above its daily budget. *)
Lemma reload_refunds_in_flight_witness :
  remaining (w_pacer (sy_world (Sample.schedule Sample.midway (Reload PipelineProps.Sample.catalog :: Sample.in_turn 20)))) 1
    = Some (10000 + 200).
Proof.
  etransitivity; [apply (reload_refunds_in_flight (fun l => l) PipelineProps.Sample.order_id 100 50 no_notice_url
    "openrtb-generic" (Sample.start Sample.budgets) (Sample.arrivals ++ Sample.in_turn 9) (Sample.in_turn 20)
    PipelineProps.Sample.catalog 1 10000 eq_refl Sample.start_wf Sample.pre_ok Sample.catalog_budgets
    (Sample.in_turn_no_reload 20)); vm_compute; reflexivity|vm_compute; reflexivity].
Defined.

(** Campaign 2's budget is reloaded to 150 cents while two requests hold 400 of
    it, and a third request arrives.  It wins too: 600 cents are spent until the
    next reload. *)
Lemma concurrent_spend_bounded_witness :
  let s := Sample.schedule (Sample.start Sample.budgets) (Sample.arrivals ++ Sample.in_turn 9 ++ [Reload Sample.low]) in
  let s' := Sample.schedule s Sample.third in
  remaining (w_pacer (sy_world s)) 2 = Some 150 /\ in_flight s 2 = 400 /\
  sum_by (fun fl => spent fl 2) (sy_flights s') = 600 /\
  sum_by (fun fl => spent fl 2) (sy_flights s') - sum_by (fun fl => spent fl 2) (sy_flights s) < 150 + 400 + 200.
Proof.
  intros s s'. assert (in_flight s 2 = 400) as Hin by (vm_compute; reflexivity).
  split_and!; [vm_compute; reflexivity|exact Hin|vm_compute; reflexivity|]. rewrite <- Hin.
  apply (concurrent_spend_bounded (fun l => l) PipelineProps.Sample.order_id 100 50 no_notice_url "openrtb-generic"
    (Sample.start Sample.budgets) (Sample.arrivals ++ Sample.in_turn 9 ++ [Reload Sample.low]) Sample.third 2 150 200).
  - reflexivity.
  - exact Sample.start_wf.
  - lia.
  - intros cm Hcm. vm_compute in Hcm. injection Hcm as <-. vm_compute. split; discriminate.
  - apply Forall_app_2; [repeat constructor|]. apply Forall_app_2; [repeat constructor|].
    repeat constructor; vm_compute; discriminate.
  - repeat constructor.
  - vm_compute; reflexivity.
  - vm_compute; reflexivity.
Defined.
