(* ===== verification/Process.v ===== *)
(** * The server process

    What [bidder-server/src/main.rs] shares between the components: one breaker,
    hedge bucket and latency tracker for every Redis read (the segment repository
    and the frequency capper), one recorder for the win handler and the
    write-behind drain, one pacer and catalog for the pipeline and the refresh
    task.  A [Process] is that state; an [Event] is one handler, worker, drain,
    eviction, refresh or feedback step, and requests run one after the other.
    [Traffic] is about requests that interleave. *)
From S2P Require Import Prelude Floats OpenRtb Bitmap Catalog Loader Externals Model Hedge Breaker Pacing Frequency Scoring Segments.
From S2P Require Import Pipeline PipelineInv PipelineProps Events WinNotice Exchange Server.

(** ** The capper the server installs *)

Section Capper.
Context {U : Type} `{KVCache U Z (Z * Z)} {M : Type} `{KVCache M string U} {Wt : Type} `{Mpsc Wt InProcess.WriteBehindOp}.

Inductive ServerCapper :=
| Plain (s : RedisCapper.Shared)
| Layered (s : InProcess.InProcessFrequencyCapper RedisCapper.Shared M Wt).

Definition redis_of (c : ServerCapper) : RedisCapper.Shared :=
  match c with Plain s => s | Layered l => InProcess.ip_fallback l end.
Definition with_redis (c : ServerCapper) (s : RedisCapper.Shared) : ServerCapper :=
  match c with
  | Plain _ => Plain s
  | Layered l => Layered {| InProcess.ip_fallback := s; InProcess.ip_counters := InProcess.ip_counters l;
                            InProcess.ip_write_tx := InProcess.ip_write_tx l |}
  end.

(** Dynamic dispatch; the plain capper uses the environment of its own call. *)
Definition server_check (c : ServerCapper) (user : string) (cands : list AdCandidate) (device_type_val hour_of_day : Z)
    (env : InProcess.Env RedisCapper.Env) : FreqCapOutcome * ServerCapper :=
  match c with
  | Plain s => let '(out, s) := RedisCapper.check s user cands device_type_val hour_of_day (InProcess.iev_fallback env) in (out, Plain s)
  | Layered l => let '(out, l) := check_over_redis l user cands device_type_val hour_of_day env in (out, Layered l)
  end.
#[export] Instance server_capper : FrequencyCapper ServerCapper (InProcess.Env RedisCapper.Env) :=
  {| fc_check := server_check |}.
End Capper.
Arguments ServerCapper : clear implicits.

(** ** The pipeline over the shared Redis state

    The world of the pipeline holds a copy of the Redis state for the repository
    and one in the capper; the stage that changes one updates the other. *)
Section Linked.
Context {Value : Type} `{JsonValue Value} {B : Type} `{Bitmap B} {C : Type} `{KVCache C string (list SegmentId)}.
Context {Sc : Type} `{Scorer Sc} {P : Type} `{BudgetPacer P} {N : Type} `{NoticeUrlBuilder N}.
Context {U : Type} `{KVCache U Z (Z * Z)} {M : Type} `{KVCache M string U} {Wt : Type} `{Mpsc Wt InProcess.WriteBehindOp}.
Context (heap_order : list AdCandidate -> list AdCandidate).
Local Notation Capper := (ServerCapper M Wt).
Local Notation Shared := (World B C RedisCapper.Shared Sc Capper P).
Local Notation ServerStage := (Stage Value B C RedisCapper.Shared Sc Capper P).
Local Notation ServerEnv := (Env RedisSegmentRepo.Env (InProcess.Env RedisCapper.Env)).

Definition sync_capper (w : Shared) : Shared := set_capper w (with_redis (w_capper w) (w_repo w)).
Definition sync_repo (w : Shared) : Shared := set_segments w (w_cache w) (redis_of (w_capper w)).
Definition followed_by (sync : Shared -> Shared) (st : ServerStage) : ServerStage := {|
  stage_name := stage_name st;
  stage_execute ctx w := let '(r, ctx, w) := stage_execute st ctx w in (r, ctx, sync w) |}.

Definition server_pipeline (env : ServerEnv) (top_k : nat) (builder : N) (exchange_id : string) : list ServerStage :=
  [request_validation; followed_by sync_capper (user_enrichment env); candidate_retrieval;
   candidate_limit heap_order top_k; scoring env; followed_by sync_repo (freq_cap env); budget_pacing; ranking;
   response_build builder exchange_id].

(** *** Another repository and capper in their place

    A stage that calls neither computes the same over any other two. *)
Definition with_parts {G F} (repo : G) (capper : F) (w : Shared) : World B C G Sc F P := {|
  w_catalog := w_catalog w; w_cache := w_cache w; w_repo := repo; w_scorer := w_scorer w; w_capper := capper;
  w_pacer := w_pacer w |}.
Definition mimics_with {G F} (repo : G) (capper : F) (st : ServerStage) (st' : Stage Value B C G Sc F P)
    (ctx : BidContext Value B) (w : Shared) : Prop :=
  stage_execute st' ctx (with_parts repo capper w) =
  let '(r, ctx', w') := stage_execute st ctx w in (r, ctx', with_parts repo capper w').

Lemma plain_mimics {G GE F FE} `{UserSegmentRepository G GE} `{FrequencyCapper F FE} (repo : G) (capper : F)
    (env : ServerEnv) (e : Env GE FE) ctx w (top_k : nat) (builder : N) (exchange_id : string) : en_secs e = en_secs env ->
  mimics_with repo capper request_validation request_validation ctx w /\
  mimics_with repo capper candidate_retrieval candidate_retrieval ctx w /\
  mimics_with repo capper (candidate_limit heap_order top_k) (candidate_limit heap_order top_k) ctx w /\
  mimics_with repo capper (scoring env) (scoring e) ctx w /\ mimics_with repo capper budget_pacing budget_pacing ctx w /\
  mimics_with repo capper ranking ranking ctx w /\
  mimics_with repo capper (response_build builder exchange_id) (response_build builder exchange_id) ctx w.
Proof.
  intros He. unfold mimics_with. cbn [stage_execute request_validation candidate_retrieval candidate_limit scoring
    budget_pacing ranking response_build with_parts w_scorer w_pacer]. split_and!.
  - by repeat case_goal.
  - destruct (catalog ctx) as [cat|]; [|done]. by destruct (Nat.eqb _ _).
  - done.
  - unfold scoring_context. rewrite He. by destruct (each_imp _ _ _).
  - by destruct (each_imp _ _ _).
  - by destruct (foldl _ _ _).
  - by destruct (responded _ _ _).
Qed.

End Linked.
(** The answers of the repository and of the capper as given values. *)
Notation forget := (with_parts tt tt).

Module Oracle.
#[export] Instance segments : UserSegmentRepository unit (Result (list SegmentId) string) := {| segments_for _ _ r := (r, tt) |}.
#[export] Instance capper : FrequencyCapper unit FreqCapOutcome := {| fc_check _ _ _ _ _ out := (out, tt) |}.
End Oracle.

Section Refinement.
Import Oracle.
Context {Value : Type} `{JsonValue Value} {B : Type} `{Bitmap B} {C : Type} `{KVCache C string (list SegmentId)}.
Context {Sc : Type} `{Scorer Sc} {P : Type} `{BudgetPacer P} {N : Type} `{NoticeUrlBuilder N}.
Context {U : Type} `{KVCache U Z (Z * Z)} {M : Type} `{KVCache M string U} {Wt : Type} `{Mpsc Wt InProcess.WriteBehindOp}.
Context (heap_order : list AdCandidate -> list AdCandidate).
Context (env : Env RedisSegmentRepo.Env (InProcess.Env RedisCapper.Env)) (deadline_ms : Z).
Local Notation Capper := (ServerCapper M Wt).
Local Notation Shared := (World B C RedisCapper.Shared Sc Capper P).
Local Notation OracleEnv := (Env (Result (list SegmentId) string) FreqCapOutcome).
Local Notation ServerStage := (Stage Value B C RedisCapper.Shared Sc Capper P).
Local Notation OracleStage := (Stage Value B C unit Sc unit P).
Implicit Types (ctx : BidContext Value B) (w : Shared) (e : OracleEnv).

Definition agrees e : Prop := en_clock e = en_clock env /\ en_secs e = en_secs env.

Lemma agrees_secs e : agrees e -> en_secs e = en_secs env.
Proof. by intros []. Qed.

(** A stage computes the same from the forgotten world. *)
Local Notation mimics := (mimics_with tt tt).

(** So does a run of several, under every oracle that agrees and satisfies [Q]. *)
Definition simulates (i : nat) (Q : OracleEnv -> Prop) (stages : list ServerStage) (stages' : OracleEnv -> list OracleStage)
    ctx w : Prop :=
  forall e, agrees e -> Q e ->
    run_stages e deadline_ms i (stages' e) ctx (forget w) =
    let '(r, ctx', w') := run_stages env deadline_ms i stages ctx w in (r, ctx', forget w').

Lemma simulates_step i Q st st' stages stages' ctx w :
  (forall e, agrees e -> Q e -> mimics st (st' e) ctx w) ->
  (let '(_, ctx', w') := stage_execute st ctx w in simulates (S i) Q stages stages' ctx' w') ->
  simulates i Q (st :: stages) (fun e => st' e :: stages' e) ctx w.
Proof.
  intros Hst Hrest e He Hq. specialize (Hst e He Hq). unfold mimics_with in Hst. cbn [run_stages].
  rewrite (proj1 He). destruct (_ <=? _); [done|]. rewrite Hst.
  destruct (stage_execute st ctx w) as [[[[]|x] ctx'] w']; [|done]. destruct (outcome ctx'); [|done|]; by apply Hrest.
Qed.

Definition oracle (segs : Result (list SegmentId) string) (outs : nat -> FreqCapOutcome) e : Prop :=
  en_segments e = segs /\ en_cap e = outs.

Lemma simulates_exists i segs st st' stages stages' ctx w :
  (forall outs e, agrees e -> oracle segs outs e -> mimics st (st' e) ctx w) ->
  (let '(_, ctx', w') := stage_execute st ctx w in exists outs, simulates (S i) (oracle segs outs) stages stages' ctx' w') ->
  exists outs, simulates i (oracle segs outs) (st :: stages) (fun e => st' e :: stages' e) ctx w.
Proof.
  intros Hst Hrest. destruct (stage_execute st ctx w) as [[r ctx'] w'] eqn:E. destruct Hrest as [outs Hrest].
  exists outs. apply simulates_step; [by intros; eapply Hst|]. by rewrite E.
Qed.

Lemma enrichment_mimics ctx w e :
  (forall user, ctx_user_id ctx = Some user -> en_segments e = (segments_for (w_repo w) user (en_segments env)).1) ->
  mimics (followed_by sync_capper (user_enrichment env)) (user_enrichment e) ctx w.
Proof.
  intros He. unfold mimics_with. cbn [stage_execute followed_by user_enrichment with_parts w_catalog].
  change (ctx_user_id (set_catalog ctx (Some (w_catalog w)))) with (ctx_user_id ctx).
  destruct (ctx_user_id ctx) as [user|]; [|done]. specialize (He user eq_refl).
  unfold get_or_fetch. cbn [segments_for Oracle.segments w_cache w_repo]. rewrite He.
  destruct (kv_get _ _) as [ids|]; [done|]. by destruct (segments_for _ _ _) as [[ids|x] s].
Qed.

Lemma imap_pair_fst {A} (l : list A) : (imap pair l).*1 = seq 0 (length l).
Proof.
  apply list_eq. intros i. rewrite list_lookup_fmap, list_lookup_imap.
  destruct (l !! i) as [x|] eqn:E; simpl.
  - symmetry. apply lookup_seq. split; [done|]. by eapply lookup_lt_Some.
  - symmetry. apply lookup_ge_None. rewrite length_seq. by apply lookup_ge_None.
Qed.

Lemma cap_imp_ext user dt hour (cap cap' : nat -> FreqCapOutcome) st entries :
  (forall i, i ∈ entries.*1 -> cap i = cap' i) ->
  fold_map (cap_imp user dt hour cap) st entries = fold_map (cap_imp user dt hour cap') st entries.
Proof.
  revert st; induction entries as [|[i l] entries IH]; intros st He; [done|]. cbn [fold_map].
  assert (cap_imp user dt hour cap st (i, l) = cap_imp user dt hour cap' st (i, l)) as ->.
  { unfold cap_imp. destruct st, l; [done|]. by rewrite (He i) by set_solver. }
  destruct (cap_imp _ _ _ _ _ _) as [st' l']. rewrite IH; [done|]. intros j Hj. apply He. set_solver.
Qed.

(** The outcomes of one run of the capping loop, as an oracle. *)
Lemma capping_oracle (f : Capper) log user dt hour entries : NoDup entries.*1 ->
  exists outs : nat -> FreqCapOutcome,
    fold_map (cap_imp user dt hour outs) (tt, log) entries =
    let '((_, log'), cs) := fold_map (cap_imp user dt hour (en_cap env)) (f, log) entries in ((tt, log'), cs).
Proof.
  revert f log; induction entries as [|[i l] entries IH]; intros f log Hn; [by exists (fun _ => SkippedTimeout)|].
  rewrite fmap_cons, NoDup_cons in Hn. destruct Hn as [Hi Hn]. cbn [fold_map].
  set (out := (fc_check f user l dt hour (en_cap env i)).1).
  destruct (cap_imp user dt hour (en_cap env) (f, log) (i, l)) as [[f1 log1] l1] eqn:E1.
  destruct (IH f1 log1 Hn) as [outs Houts]. exists (fun j => if decide (j = i) then out else outs j).
  assert (cap_imp user dt hour (fun j => if decide (j = i) then out else outs j) (tt, log) (i, l) = ((tt, log1), l1)) as ->.
  { unfold cap_imp in *. cbn [fst] in *. destruct l as [|c l]; [by injection E1 as _ <- <-|].
    cbn [fc_check Oracle.capper]. rewrite decide_True by done. unfold out.
    destruct (fc_check f user (c :: l) dt hour (en_cap env i)) as [o f']. cbn [fst].
    by destruct o; injection E1 as _ <- <-. }
  rewrite (cap_imp_ext user dt hour _ outs).
  - rewrite Houts. by destruct (fold_map (cap_imp user dt hour (en_cap env)) _ _) as [[? ?] ?].
  - intros j Hj. rewrite decide_False; [done|]. intros ->. done.
Qed.

Lemma capping_mimics ctx w : exists outs, forall e, agrees e -> en_cap e = outs ->
  mimics (followed_by sync_repo (freq_cap env)) (freq_cap e) ctx w.
Proof.
  unfold mimics_with. cbn [stage_execute followed_by freq_cap]. destruct (ctx_user_id ctx) as [user|].
  2:{ by exists (fun _ => SkippedTimeout). }
  set (dt := match ctx_devicetype ctx with Some dt => device_type dt | None => 0 end).
  destruct (capping_oracle (w_capper w) (freq_cap_results ctx) user dt (current_hour_of_day (en_secs env))
    (imap pair (candidates ctx))) as [outs Houts].
  { rewrite imap_pair_fst. apply NoDup_seq. }
  exists outs. intros e [_ Hs] <-. rewrite Hs. unfold each_imp.
  change (fold_map _ (w_capper (forget w), freq_cap_results ctx) (imap pair (candidates ctx)))
    with (fold_map (cap_imp user dt (current_hour_of_day (en_secs env)) (en_cap e)) (tt, freq_cap_results ctx) (imap pair (candidates ctx))).
  rewrite Houts.
  change (fold_map _ (w_capper w, freq_cap_results ctx) (imap pair (candidates ctx)))
    with (fold_map (cap_imp user dt (current_hour_of_day (en_secs env)) (en_cap env)) (w_capper w, freq_cap_results ctx) (imap pair (candidates ctx))).
  by destruct (fold_map (cap_imp user dt _ (en_cap env)) _ _) as [[f log] cs].
Qed.

(** Every run of the server's pipeline is, but for the Redis state, a run of the
    pipeline on the answers the repository and the capper gave. *)
Lemma server_runs_refine (top_k : nat) (builder : N) (exchange_id : string) ctx w :
  exists e, agrees e /\
    (forall user, ctx_user_id ctx = Some user -> en_segments e = (segments_for (w_repo w) user (en_segments env)).1) /\
    execute e deadline_ms (bid_pipeline heap_order e top_k builder exchange_id) ctx (forget w) =
    let '(r, ctx', w') := execute env deadline_ms (server_pipeline heap_order env top_k builder exchange_id) ctx w in
    (r, ctx', forget w').
Proof.
  set (segs := match ctx_user_id ctx with Some user => (segments_for (w_repo w) user (en_segments env)).1 | None => Ok [] end).
  enough (exists outs, simulates 0 (oracle segs outs) (server_pipeline heap_order env top_k builder exchange_id)
    (fun e => bid_pipeline heap_order e top_k builder exchange_id) ctx w) as [outs Hs].
  { exists {| en_clock := en_clock env; en_secs := en_secs env; en_segments := segs; en_cap := outs |}.
    split_and!; [done|by intros user Hu; cbn; unfold segs; rewrite Hu|by apply Hs]. }
  apply simulates_exists; [intros; by eapply plain_mimics, agrees_secs|].
  assert (ctx_user_id (stage_execute request_validation ctx w).1.2 = ctx_user_id ctx /\
          (stage_execute request_validation ctx w).2 = w) as [Hu Hw].
  { cbn [stage_execute request_validation]. by repeat case_goal. }
  destruct (stage_execute request_validation ctx w) as [[r0 ctx0] w0]. cbn [fst snd] in Hu, Hw. subst w0.
  apply simulates_exists.
  { intros outs e _ [He _]. apply enrichment_mimics. intros user Huser. rewrite He. unfold segs. by rewrite <- Hu, Huser. }
  destruct (stage_execute _ ctx0 w) as [[r1 ctx1] w1].
  do 3 (apply simulates_exists; [intros; by eapply plain_mimics, agrees_secs|]; destruct (stage_execute _ _ _) as [[? ?] ?]).
  match goal with |- exists outs, simulates 5 _ _ _ ?c ?w => destruct (capping_mimics c w) as [outs Ho] end.
  exists outs. apply simulates_step; [intros e He [_ Hq]; by apply Ho|]. destruct (stage_execute _ _ _) as [[? ?] ?].
  do 3 (apply simulates_step; [intros; by eapply plain_mimics, agrees_secs|]; destruct (stage_execute _ _ _) as [[? ?] ?]).
  intros e _ _. done.
Qed.
End Refinement.

(** ** The process and its events *)

Section Process.
Context {Value : Type} `{JsonValue Value} {B : Type} `{Bitmap B} {C : Type} `{KVCache C string (list SegmentId)}.
Context {Sc : Type} `{Scorer Sc} {N : Type} `{NoticeUrlBuilder N} {A : Type} `{ExchangeAdapter A Value}.
Context {U : Type} `{KVCache U Z (Z * Z)} {M : Type} `{KVCache M string U} {Wt : Type} `{Mpsc Wt InProcess.WriteBehindOp}.
Context {K : Type} `{EventPublisher K} {Ch : Type} `{Mpsc Ch RedisCapper.ImpressionEvent} {R : Type} `{Redis R}.
Context {Mac : Type} `{Hmac Mac} {X : Type} `{Hex X} {D : Type} `{DedupStore D} (mac : Mac) (hex : X).
Context (heap_order : list AdCandidate -> list AdCandidate).
Local Notation Capper := (ServerCapper M Wt).
Local Notation Shared := (World B C RedisCapper.Shared Sc Capper Local.LocalBudgetPacer).
Local Notation ServerEnv := (BidEnv RedisSegmentRepo.Env (InProcess.Env RedisCapper.Env)).

(** What does not change while the process runs. *)
Record Service := {
  se_bid : BidService N A;
  se_gate : WinNoticeGateService;
  se_bid_timeout : Duration;
  se_win_timeout : Duration;
}.

(** [ps_local]: the counters and the write-behind queue of the in-process capper,
    when it is enabled.  [ps_counters] is the Redis server's side. *)
Record Process := {
  ps_tables : Loader.Shared B Local.LocalBudgetPacer;
  ps_cache : C;
  ps_redis : RedisCapper.Shared;
  ps_scorer : Sc;
  ps_local : option (M * Wt);
  ps_publisher : K;
  ps_dedup : D;
  ps_recorder : Ch;
  ps_counters : R;
  ps_p95_ms : Z;
  ps_shed : LoadShedTracker;
  ps_prev : Z * Z;
}.

Definition capper_of (redis : RedisCapper.Shared) (local : option (M * Wt)) : Capper :=
  match local with
  | None => Plain redis
  | Some (counters, tx) =>
      Layered {| InProcess.ip_fallback := redis; InProcess.ip_counters := counters; InProcess.ip_write_tx := tx |}
  end.
Definition local_of (c : Capper) : option (M * Wt) :=
  match c with Plain _ => None | Layered l => Some (InProcess.ip_counters l, InProcess.ip_write_tx l) end.

Definition world_of (p : Process) : Shared := {|
  w_catalog := sh_catalog (ps_tables p); w_cache := ps_cache p; w_repo := ps_redis p; w_scorer := ps_scorer p;
  w_capper := capper_of (ps_redis p) (ps_local p); w_pacer := sh_pacer (ps_tables p) |}.

Definition with_world (p : Process) (w : Shared) (k : K) (shed : LoadShedTracker) : Process := {|
  ps_tables := {| sh_catalog := sh_catalog (ps_tables p); sh_registry := sh_registry (ps_tables p);
                  sh_pacer := w_pacer w; consecutive_failures := consecutive_failures (ps_tables p) |};
  ps_cache := w_cache w; ps_redis := w_repo w; ps_scorer := w_scorer w; ps_local := local_of (w_capper w);
  ps_publisher := k; ps_dedup := ps_dedup p; ps_recorder := ps_recorder p; ps_counters := ps_counters p;
  ps_p95_ms := ps_p95_ms p; ps_shed := shed; ps_prev := ps_prev p |}.

Definition stages_of (sv : BidService N A) (env : ServerEnv) : list (Stage Value B C RedisCapper.Shared Sc Capper Local.LocalBudgetPacer) :=
  server_pipeline heap_order (bn_env env) (bv_top_k sv) (bv_builder sv) (adapter_id (bv_adapter sv)).

(** [POST /rtb/openrtb/bid] behind the timeout middleware.  A request that is not
    answered in time is dropped when [stages_run] of its stages have run. *)
Definition serve_bid (se : Service) (p : Process) (env : ServerEnv) (body : list Z) (latency : Duration) (stages_run : nat)
  : option Response * Process :=
  let sv := se_bid se in
  let st := {| bs_world := world_of p; bs_publisher := ps_publisher p |} in
  if latency <=? se_bid_timeout se then
    let '(answer, st) := bid_through (stages_of sv env) sv env body st in
    match answer with
    | Panicked => (None, with_world p (bs_world st) (bs_publisher st) (record_request (ps_shed p)))
    | Answered r =>
        let '(r, shed) := timeout_middleware (se_bid_timeout se) (ps_shed p) (Some (latency, r)) in
        (Some r, with_world p (bs_world st) (bs_publisher st) shed)
    end
  else
    let w := match decode_request (bv_adapter sv) body with
             | Err _ => world_of p
             | Ok req => (execute (bn_env env) (bv_deadline_ms sv) (take stages_run (stages_of sv env))
                            (BidContext_new req (bn_started env)) (world_of p)).2
             end in
    let '(r, shed) := timeout_middleware (se_bid_timeout se) (ps_shed p) None in
    (Some r, with_world p w (ps_publisher p) shed).

Definition win_state (se : Service) (p : Process) : AppState D Ch K := {|
  as_gate := se_gate se; as_dedup := ps_dedup p; as_recorder := ps_recorder p; as_publisher := ps_publisher p;
  as_events_topic := bv_topic (se_bid se) |}.
Definition with_win (p : Process) (d : D) (recorder : Ch) (k : K) (shed : LoadShedTracker) : Process := {|
  ps_tables := ps_tables p; ps_cache := ps_cache p; ps_redis := ps_redis p; ps_scorer := ps_scorer p;
  ps_local := ps_local p; ps_publisher := k; ps_dedup := d; ps_recorder := recorder; ps_counters := ps_counters p;
  ps_p95_ms := ps_p95_ms p; ps_shed := shed; ps_prev := ps_prev p |}.

(** [GET /rtb/win] behind its timeout: the only await is the deduplication write,
    so a notice dropped there records and publishes nothing. *)
Definition serve_win (se : Service) (p : Process) (params : WinParams) (env : WinEnv) (latency : Duration)
  : option Response * Process :=
  let '(status, st) := win mac hex (win_state se p) params env in
  if latency <=? se_win_timeout se then
    let '(r, shed) := timeout_middleware (se_win_timeout se) (ps_shed p) (Some (latency, bare status)) in
    (Some r, with_win p (as_dedup st) (as_recorder st) (as_publisher st) shed)
  else
    let '(r, shed) := timeout_middleware (se_win_timeout se) (ps_shed p) None in
    (Some r, with_win p (as_dedup st) (ps_recorder p) (ps_publisher p) shed).

(** An impression worker takes the next event and runs its two scripts, at the
    given times of the Redis server, [None] for one that fails. *)
Definition run_worker (p : Process) (hour_at day_at : option Instant) : Process :=
  match chan_try_recv (ps_recorder p) with
  | None => p
  | Some (e, recorder) => {|
      ps_tables := ps_tables p; ps_cache := ps_cache p; ps_redis := ps_redis p; ps_scorer := ps_scorer p;
      ps_local := ps_local p; ps_publisher := ps_publisher p; ps_dedup := ps_dedup p; ps_recorder := recorder;
      ps_counters := RedisCapper.write_impression_counters (ps_counters p) e hour_at day_at;
      ps_p95_ms := ps_p95_ms p; ps_shed := ps_shed p; ps_prev := ps_prev p |}
  end.

Definition with_local (p : Process) (local : option (M * Wt)) (recorder : Ch) : Process := {|
  ps_tables := ps_tables p; ps_cache := ps_cache p; ps_redis := ps_redis p; ps_scorer := ps_scorer p;
  ps_local := local; ps_publisher := ps_publisher p; ps_dedup := ps_dedup p; ps_recorder := recorder;
  ps_counters := ps_counters p; ps_p95_ms := ps_p95_ms p; ps_shed := ps_shed p; ps_prev := ps_prev p |}.

(** The drain task takes the next write-behind operation. *)
Definition run_drain (p : Process) : Process :=
  match ps_local p with
  | None => p
  | Some (counters, tx) =>
      match chan_try_recv tx with
      | None => p
      | Some (op, tx) => with_local p (Some (counters, tx)) (drain_op (ps_recorder p) op)
      end
  end.

(** moka drops a user of the in-process capper, or of the segment cache. *)
Definition evict_counters (p : Process) (user : string) : Process :=
  match capper_of (ps_redis p) (ps_local p) with
  | Plain _ => p
  | Layered l => with_local p (local_of (Layered (InProcess.evict l user))) (ps_recorder p)
  end.
Definition evict_segments (p : Process) (user : string) : Process := {|
  ps_tables := ps_tables p; ps_cache := kv_del (ps_cache p) user; ps_redis := ps_redis p; ps_scorer := ps_scorer p;
  ps_local := ps_local p; ps_publisher := ps_publisher p; ps_dedup := ps_dedup p; ps_recorder := ps_recorder p;
  ps_counters := ps_counters p; ps_p95_ms := ps_p95_ms p; ps_shed := ps_shed p; ps_prev := ps_prev p |}.

Definition refresh_tables (p : Process) (queried : Result Rows string) : Process := {|
  ps_tables := refresh (ps_tables p) queried; ps_cache := ps_cache p; ps_redis := ps_redis p; ps_scorer := ps_scorer p;
  ps_local := ps_local p; ps_publisher := ps_publisher p; ps_dedup := ps_dedup p; ps_recorder := ps_recorder p;
  ps_counters := ps_counters p; ps_p95_ms := ps_p95_ms p; ps_shed := ps_shed p; ps_prev := ps_prev p |}.

(** One tick of the hedge feedback loop on the shared trackers. *)
Definition run_feedback (p : Process) : Process :=
  let redis := ps_redis p in
  let latency := unwrap_or (RedisCapper.rs_latency redis) {| lat_count := 0; lat_sum_us := 0 |} in
  let '(_, f) := feedback_tick {|
    fb_hedge := {| hs_budget := RedisCapper.rs_hedge redis; p95_ms := ps_p95_ms p |}; fb_load_shed := ps_shed p;
    fb_latency := latency; fb_prev_total := (ps_prev p).1; fb_prev_shed := (ps_prev p).2 |} in
  {| ps_tables := ps_tables p; ps_cache := ps_cache p;
     ps_redis := {| RedisCapper.rs_breaker := RedisCapper.rs_breaker redis; RedisCapper.rs_hedge := hs_budget (fb_hedge f);
                    RedisCapper.rs_latency := (fun _ => fb_latency f) <$> RedisCapper.rs_latency redis;
                    RedisCapper.rs_timeout_ms := RedisCapper.rs_timeout_ms redis |};
     ps_scorer := ps_scorer p; ps_local := ps_local p; ps_publisher := ps_publisher p; ps_dedup := ps_dedup p;
     ps_recorder := ps_recorder p; ps_counters := ps_counters p; ps_p95_ms := p95_ms (fb_hedge f); ps_shed := ps_shed p;
     ps_prev := (fb_prev_total f, fb_prev_shed f) |}.

Inductive Event :=
| EvBid (env : ServerEnv) (body : list Z) (latency : Duration) (stages_run : nat)
| EvWin (params : WinParams) (env : WinEnv) (latency : Duration)
| EvWorker (hour_at day_at : option Instant)
| EvDrain
| EvEvictCounters (user : string)
| EvEvictSegments (user : string)
| EvRefresh (queried : Result Rows string)
| EvFeedback.

Definition handle (se : Service) (p : Process) (ev : Event) : option Response * Process :=
  match ev with
  | EvBid env body latency stages_run => serve_bid se p env body latency stages_run
  | EvWin params env latency => serve_win se p params env latency
  | EvWorker hour_at day_at => (None, run_worker p hour_at day_at)
  | EvDrain => (None, run_drain p)
  | EvEvictCounters user => (None, evict_counters p user)
  | EvEvictSegments user => (None, evict_segments p user)
  | EvRefresh queried => (None, refresh_tables p queried)
  | EvFeedback => (None, run_feedback p)
  end.
Definition run_events (se : Service) (p : Process) (evs : list Event) : Process :=
  foldl (fun p ev => (handle se p ev).2) p evs.
End Process.
Arguments Process : clear implicits.
Arguments Service : clear implicits.

(** ** Invariants of a run *)

Lemma run_stages_inv {Value B C G Sc F P GE FE} (I : World B C G Sc F P -> Prop) (env : Env GE FE) deadline_ms i
    (stages : list (Stage Value B C G Sc F P)) ctx w :
  Forall (fun st => forall ctx w, I w -> I (stage_execute st ctx w).2) stages -> I w ->
  I (run_stages env deadline_ms i stages ctx w).2.
Proof.
  intros Hs. revert i ctx w; induction Hs as [|st stages Hst Hs IH]; intros i ctx w Hw; [done|]. cbn [run_stages].
  destruct (_ <=? _); [done|]. specialize (Hst ctx w Hw). destruct (stage_execute st ctx w) as [[[[]|e] ctx'] w']; [|done].
  cbn [snd] in Hst. destruct (outcome ctx'); [by apply IH|done|by apply IH].
Qed.

(** *** The shared parts

    [J] of the Redis state and [L] of the in-process layer hold after every run
    if every segment read keeps [J] and every capping call keeps both. *)
Section Keeping.
Context {Value : Type} `{JsonValue Value} {B : Type} `{Bitmap B} {C : Type} `{KVCache C string (list SegmentId)}.
Context {Sc : Type} `{Scorer Sc} {P : Type} `{BudgetPacer P} {N : Type} `{NoticeUrlBuilder N}.
Context {U : Type} `{KVCache U Z (Z * Z)} {M : Type} `{KVCache M string U} {Wt : Type} `{Mpsc Wt InProcess.WriteBehindOp}.
Context (heap_order : list AdCandidate -> list AdCandidate).
Context (env : Env RedisSegmentRepo.Env (InProcess.Env RedisCapper.Env)) (deadline_ms : Z).
Local Notation Capper := (ServerCapper M Wt).
Local Notation Shared := (World B C RedisCapper.Shared Sc Capper P).
Implicit Types (ctx : BidContext Value B) (w : Shared) (c : Capper).
Context (J : RedisCapper.Shared -> Prop) (L : option (M * Wt) -> Prop).
Context (reads_keep : forall s user e, J s -> J (segments_for s user e).2).
Context (checks_keep : forall c user cands dt hour e, J (redis_of c) -> L (local_of c) ->
           J (redis_of (server_check c user cands dt hour e).2) /\ L (local_of (server_check c user cands dt hour e).2)).

(** The two copies agree and satisfy the invariants. *)
Definition coherent w : Prop := w_repo w = redis_of (w_capper w) /\ J (w_repo w) /\ L (local_of (w_capper w)).

Definition keeps (st : Stage Value B C RedisCapper.Shared Sc Capper P) : Prop :=
  forall ctx w, coherent w -> coherent (stage_execute st ctx w).2.

Lemma redis_of_with c s : redis_of (with_redis c s) = s.
Proof. by destruct c. Qed.
Lemma local_of_with c s : local_of (with_redis c s) = local_of c.
Proof. by destruct c. Qed.

Lemma untouched_keeps (st : Stage Value B C RedisCapper.Shared Sc Capper P) :
  (forall ctx w, w_repo (stage_execute st ctx w).2 = w_repo w /\ w_capper (stage_execute st ctx w).2 = w_capper w) -> keeps st.
Proof. intros Hst ctx w Hw. destruct (Hst ctx w) as [Hr Hc]. unfold coherent. by rewrite Hr, Hc. Qed.

Lemma enrichment_keeps : keeps (followed_by sync_capper (user_enrichment env)).
Proof.
  intros ctx w (He & HJ & HL). cbn [stage_execute followed_by user_enrichment].
  destruct (ctx_user_id _) as [user|].
  - unfold get_or_fetch. destruct (kv_get _ _) as [ids|].
    + unfold coherent, sync_capper. cbn. by rewrite redis_of_with, local_of_with.
    + pose proof (reads_keep (w_repo w) user (en_segments env) HJ) as Hr.
      destruct (segments_for _ _ _) as [[ids|e] s]; unfold coherent, sync_capper; cbn; by rewrite redis_of_with, local_of_with.
  - unfold coherent, sync_capper. cbn. by rewrite redis_of_with, local_of_with.
Qed.

Lemma capping_keeps : keeps (followed_by sync_repo (freq_cap env)).
Proof.
  intros ctx w (He & HJ & HL). cbn [stage_execute followed_by freq_cap].
  destruct (ctx_user_id ctx) as [user|]; [|unfold coherent; cbn; by rewrite <- He].
  match goal with |- context [each_imp ?g ?s0 ?cs] =>
    pose proof (each_imp_ind g (fun st _ => J (redis_of st.1) /\ L (local_of st.1)) s0 cs) as Hg end.
  destruct (each_imp _ _ _) as [[c log] cs]. unfold coherent. cbn. split; [done|]. cbn in Hg. rewrite He in HJ.
  apply Hg; [done|]. clear Hg. intros [c' log'] outs l [HJ' HL'] _. cbv zeta. destruct l as [|a l]; [done|].
  cbn [fst] in HJ', HL'. pose proof (checks_keep c' user (a :: l)
    (match ctx_devicetype ctx with Some dt => device_type dt | None => 0 end) (current_hour_of_day (en_secs env)) (en_cap env (length outs)) HJ' HL').
  cbn [fc_check server_capper]. by destruct (server_check _ _ _ _ _ _) as [[]].
Qed.

Lemma server_stages_keep top_k (builder : N) exchange_id : Forall keeps (server_pipeline heap_order env top_k builder exchange_id).
Proof.
  unfold server_pipeline. rewrite !Forall_cons. split_and!; try done; [|apply enrichment_keeps| | | |apply capping_keeps|..];
    apply untouched_keeps; intros ctx w;
    cbn [stage_execute request_validation candidate_retrieval candidate_limit scoring budget_pacing ranking response_build].
  - by repeat case_goal.
  - destruct (catalog ctx); [|done]. by destruct (Nat.eqb _ _).
  - done.
  - by destruct (each_imp _ _ _).
  - by destruct (each_imp _ _ _).
  - by destruct (foldl _ _ _).
  - by destruct (responded _ _ _).
Qed.

Lemma run_stages_keep i stages ctx w : Forall keeps stages -> coherent w ->
  coherent (run_stages env deadline_ms i stages ctx w).2.
Proof. intros Hs. by apply run_stages_inv. Qed.
End Keeping.

Section Handling.
Context {Value : Type} `{JsonValue Value} {B : Type} `{Bitmap B} {C : Type} `{KVCache C string (list SegmentId)}.
Context {Sc : Type} `{Scorer Sc} {N : Type} `{NoticeUrlBuilder N} {A : Type} `{ExchangeAdapter A Value}.
Context {U : Type} `{KVCache U Z (Z * Z)} {M : Type} `{KVCache M string U} {Wt : Type} `{Mpsc Wt InProcess.WriteBehindOp}.
Context {K : Type} `{EventPublisher K} {Ch : Type} `{Mpsc Ch RedisCapper.ImpressionEvent} {R : Type} `{Redis R}.
Context {Mac : Type} `{Hmac Mac} {X : Type} `{Hex X} {D : Type} `{DedupStore D} (mac : Mac) (hex : X).
Context (heap_order : list AdCandidate -> list AdCandidate) (se : Service N A).
Local Notation Proc := (Process B C Sc M Wt K Ch R D).
Local Notation handle := (handle mac hex heap_order se).
Local Notation run_events := (run_events mac hex heap_order se).
Implicit Types (p : Proc).

Context (J : RedisCapper.Shared -> Prop) (L : option (M * Wt) -> Prop) (allowed : Event -> Prop).
Context (reads_keep : forall s user e, J s -> J (segments_for s user e).2).
Context (checks_keep : forall c user cands dt hour e, J (redis_of c) -> L (local_of c) ->
           J (redis_of (server_check c user cands dt hour e).2) /\ L (local_of (server_check c user cands dt hour e).2)).
Context (feedback_keeps : forall s hedge latency, J s ->
           J (RedisCapper.Build_Shared (RedisCapper.rs_breaker s) hedge latency (RedisCapper.rs_timeout_ms s))).
Context (drain_keeps : forall m tx op tx', L (Some (m, tx)) -> chan_try_recv tx = Some (op, tx') -> L (Some (m, tx'))).
Context (evict_keeps : forall l user, allowed (EvEvictCounters user) -> L (local_of (Layered l)) ->
           L (local_of (Layered (InProcess.evict l user)))).

Definition shared_ok p : Prop := J (ps_redis p) /\ L (ps_local p).

Lemma capper_of_parts redis (local : option (M * Wt)) :
  redis_of (capper_of redis local) = redis /\ local_of (capper_of redis local) = local.
Proof. by destruct local as [[]|]. Qed.

Lemma world_coherent p : shared_ok p -> coherent J L (world_of p).
Proof. intros [HJ HL]. unfold coherent, world_of. cbn. by destruct (capper_of_parts (ps_redis p) (ps_local p)) as [-> ->]. Qed.

Lemma coherent_ok p w k shed : coherent J L w -> shared_ok (with_world p w k shed).
Proof. by intros (_ & HJ & HL). Qed.

Lemma execute_keeps (env : Env RedisSegmentRepo.Env (InProcess.Env RedisCapper.Env)) deadline_ms n top_k (builder : N)
    exchange_id (ctx : BidContext Value B) p : shared_ok p ->
  coherent J L (execute env deadline_ms (take n (server_pipeline heap_order env top_k builder exchange_id)) ctx (world_of p)).2.
Proof.
  intros Hp. apply run_stages_keep; [|by apply world_coherent]. apply Forall_take. by apply server_stages_keep.
Qed.

Lemma serve_bid_keeps p env body latency stages_run : shared_ok p ->
  shared_ok (serve_bid heap_order se p env body latency stages_run).2.
Proof.
  intros Hp. unfold serve_bid. destruct (latency <=? se_bid_timeout se) eqn:El.
  - unfold bid_through. destruct (decode_request _ _) as [req|e].
    2:{ unfold timeout_middleware. rewrite El. apply coherent_ok, world_coherent, Hp. }
    pose proof (execute_keeps (bn_env env) (bv_deadline_ms (se_bid se)) 9 (bv_top_k (se_bid se)) (bv_builder (se_bid se))
      (adapter_id (bv_adapter (se_bid se))) (BidContext_new req (bn_started env)) p Hp) as Hw.
    match type of Hw with context [take 9 ?l] => change (take 9 l) with l in Hw end. unfold stages_of. cbn [bs_world].
    destruct (execute _ _ _ _ _) as [[r ctx] w]. cbn [snd] in Hw. unfold timeout_middleware. rewrite El.
    destruct r as [[]|]; [|by apply coherent_ok].
    destruct (outcome ctx); try by apply coherent_ok. destruct (bid_response ctx); [|by apply coherent_ok].
    destruct (encode_response _ _) as [[]|]; by apply coherent_ok.
  - destruct (decode_request _ _) as [req|e]; apply coherent_ok; [by apply execute_keeps|by apply world_coherent].
Qed.

Lemma handle_keeps p ev : allowed ev -> shared_ok p -> shared_ok (handle p ev).2.
Proof.
  intros Ha Hp. destruct ev as [env body latency stages_run|params env latency|h d| |user|user|q|]; cbn [Process.handle snd].
  - by apply serve_bid_keeps.
  - unfold serve_win. destruct (win _ _ _ _ _) as [status st]. unfold timeout_middleware.
    by destruct (latency <=? se_win_timeout se).
  - unfold run_worker. by destruct (chan_try_recv _) as [[]|].
  - unfold run_drain. destruct Hp as [HJ HL]. destruct (ps_local p) as [[m tx]|] eqn:El; [|by split; [|rewrite El]].
    destruct (chan_try_recv tx) as [[op tx']|] eqn:Er; split; try done; [|by rewrite El]. by eapply drain_keeps.
  - unfold evict_counters. destruct (capper_of _ _) as [s|l] eqn:Ec; [done|]. destruct Hp as [HJ HL]. split; [done|].
    cbn. eapply evict_keeps; [done|]. rewrite <- Ec. by destruct (capper_of_parts (ps_redis p) (ps_local p)) as [_ ->].
  - done.
  - done.
  - unfold run_feedback. destruct (feedback_tick _) as [r f]. destruct Hp as [HJ HL]. split; [|done]. by apply feedback_keeps.
Qed.

Lemma run_events_keep p evs : Forall allowed evs -> shared_ok p -> shared_ok (run_events p evs).
Proof.
  intros He. revert p; induction He as [|ev evs Ha He IH]; intros p Hp; [done|]. by apply IH, handle_keeps.
Qed.
End Handling.

(** ** What the in-process capper remembers *)
Section Cached.
Import InProcess.
Context {U : Type} `{KVCacheLaws U Z (Z * Z)} {M : Type} `{KVCacheLaws M string U} {Wt : Type} `{Mpsc Wt WriteBehindOp}.
Local Notation Layer := (InProcessFrequencyCapper RedisCapper.Shared M Wt).

(** The cached counters of a user and a campaign. *)
Definition cached (local : option (M * Wt)) (user : string) (campaign_id : Z) : option (Z * Z) :=
  '(counters, _) ← local; um ← kv_get counters user; kv_get um campaign_id.

Lemma cached_lookup (l : Layer) user c : cached (local_of (Layered l)) user c = lookup l user c.
Proof. done. Qed.

Lemma warm_from_lookup (l : Layer) user fb user' c : (user = user' -> cp_campaign_id fb <> c) ->
  lookup (warm_from l user fb) user' c = lookup l user' c.
Proof.
  intros Hne. unfold warm_from. destruct (cp_day_count fb) as [day|]; [|done]. destruct (cp_hour_count fb) as [hour|]; [|done].
  unfold warm_cache. destruct (unwrap_or _ _) as [d h]. rewrite lookup_put_user. case_decide as E; [|done]. subst user'.
  rewrite kv_get_put_other by by apply Hne. by rewrite user_map_get.
Qed.

Lemma foldl_warm_lookup (l : Layer) user rs user' c : (user = user' -> c ∉ cp_campaign_id <$> rs) ->
  lookup (foldl (fun l fb => warm_from l user fb) l rs) user' c = lookup l user' c.
Proof.
  revert l; induction rs as [|r rs IH]; intros l Hn; [done|]. cbn [foldl]. rewrite IH, warm_from_lookup; [done|..];
    intros E; specialize (Hn E); set_solver.
Qed.

(** A check only fills in pairs that were not cached. *)
Lemma check_lookup (l : Layer) user cands dt hour env user' c v :
  lookup l user' c = Some v -> lookup (check_over_redis l user cands dt hour env).2 user' c = Some v.
Proof.
  intros Hl. unfold check_over_redis, check. destruct (allow_request _ _ _) as [[] cb]; cbn [negb]; [|done].
  set (l1 := {| ip_fallback := share_breaker _ _; ip_counters := _; ip_write_tx := _ |}).
  assert (lookup l1 user' c = Some v) as Hl1 by done.
  destruct (filter (is_cold l1 user) cands) as [|c0 cold] eqn:Ec; [done|].
  destruct (fc_check _ user _ dt hour _) as [out fb] eqn:Ef. destruct out as [rs| |]; try done. cbn [snd].
  assert (user = user' -> c ∉ cp_campaign_id <$> rs) as Hn.
  { intros <- Hin. rewrite (fc_aligned _ _ _ _ _ _ _ _ Ef) in Hin. apply list_elem_of_fmap in Hin as (a & -> & Ha).
    rewrite <- Ec in Ha. apply list_elem_of_filter in Ha as [Ha _]. unfold is_cold in Ha. congruence. }
  set (l2 := {| ip_fallback := fb; ip_counters := _; ip_write_tx := _ |}).
  by rewrite foldl_warm_lookup.
Qed.

Lemma evict_lookup (l : Layer) user user' c : user <> user' -> lookup (evict l user) user' c = lookup l user' c.
Proof.
  intros Hne. unfold evict. destruct (kv_get (ip_counters l) user); [|done]. unfold lookup. cbn [ip_counters].
  by rewrite kv_get_del_other.
Qed.

Lemma server_check_cached (cap : ServerCapper M Wt) user cands dt hour env user' c v :
  cached (local_of cap) user' c = Some v -> cached (local_of (server_check cap user cands dt hour env).2) user' c = Some v.
Proof.
  destruct cap as [s|l]; [done|]. intros Hc. pose proof (check_lookup l user cands dt hour env user' c v Hc) as Hl.
  cbn [server_check]. by destruct (check_over_redis _ _ _ _ _ _).
Qed.
End Cached.

(** ** What a run does to the tables *)
Section Tables.
Context {Value : Type} `{JsonValue Value} {B : Type} `{Bitmap B} {C : Type} `{KVCache C string (list SegmentId)}.
Context {Sc : Type} `{Scorer Sc} {P : Type} `{BudgetPacerLaws P} {N : Type} `{NoticeUrlBuilder N}.
Context {U : Type} `{KVCache U Z (Z * Z)} {M : Type} `{KVCache M string U} {Wt : Type} `{Mpsc Wt InProcess.WriteBehindOp}.
Context (heap_order : list AdCandidate -> list AdCandidate).
Context (env : Env RedisSegmentRepo.Env (InProcess.Env RedisCapper.Env)) (cat : CampaignCatalog B).
Implicit Types (w : World B C RedisCapper.Shared Sc (ServerCapper M Wt) P).

Definition tables w : Prop := w_catalog w = cat /\ pacer_wf (w_pacer w).

Lemma pace_imp_wf (p : P) l : pacer_wf p -> pacer_wf (pace_imp p l).1.
Proof.
  intros Hp. unfold pace_imp, reserve_all.
  pose proof (foldl_inv (fun st : P * list Z => pacer_wf st.1) (fun '(p, ex) c =>
    let '(d, p') := check_and_reserve p (ac_campaign_id c) (ac_bid_price_cents c) in
    (p', if decide (d = Exhausted) then ex ++ [ac_campaign_id c] else ex)) l (p, [])) as Hf.
  destruct (foldl _ _ _) as [p' ex]. apply Hf; [done|]. intros [q ex'] c _ Hq. cbn [fst] in *.
  pose proof (reserve_wf q (ac_campaign_id c) (ac_bid_price_cents c) Hq). by destruct (check_and_reserve q _ _).
Qed.

Lemma rank_imp_wf (req : BidRequest Value) (p : P) ws entry : pacer_wf p -> pacer_wf (rank_imp req (p, ws) entry).1.
Proof.
  intros Hp. destruct entry as [idx l]. unfold rank_imp. destruct (max_by _ _) as [w|]; [|done]. cbn [fst].
  unfold release_losers. apply (foldl_inv pacer_wf); [done|]. intros. by apply release_wf.
Qed.

Lemma server_stages_tables top_k (builder : N) exchange_id :
  Forall (fun st => forall (ctx : BidContext Value B) w, tables w -> tables (stage_execute st ctx w).2)
    (server_pipeline heap_order env top_k builder exchange_id).
Proof.
  unfold server_pipeline. rewrite !Forall_cons. split_and!; try done; intros ctx w [Hc Hp];
    cbn [stage_execute followed_by request_validation user_enrichment candidate_retrieval candidate_limit scoring freq_cap
      budget_pacing ranking response_build].
  - by repeat case_goal.
  - destruct (ctx_user_id _) as [user|]; [|done]. by destruct (get_or_fetch _ _ _ _) as [[[] ?] ?].
  - destruct (catalog ctx); [|done]. by destruct (Nat.eqb _ _).
  - by destruct (each_imp _ _ _).
  - destruct (ctx_user_id ctx) as [user|]; [|done]. by destruct (each_imp _ _ _) as [[]].
  - pose proof (each_imp_ind (fun p _ l => pace_imp p l) (fun p _ => pacer_wf p) (w_pacer w) (candidates ctx) Hp) as Hf.
    destruct (each_imp _ _ _) as [p cs]. split; [done|]. apply Hf. intros q outs [|c l] Hq _; [done|]. by apply pace_imp_wf.
  - pose proof (foldl_inv (fun st : P * list ImpWinner => pacer_wf st.1) (rank_imp (request ctx)) (imap pair (candidates ctx))
      (w_pacer w, winners ctx) Hp) as Hf.
    destruct (foldl _ _ _) as [p ws]. split; [done|]. apply Hf. intros [q ws'] entry _ Hq. by apply rank_imp_wf.
  - by destruct (responded _ _ _).
Qed.
End Tables.
