(* ===== verification/Healthy.v ===== *)
(** * The server over a healthy Redis

    What the shared Redis state of [Process] must look like, and how Redis must
    answer, for the segment repository and the frequency capper to be plain
    lookups; and the repository and the capper as such lookups ([Ideal]).  With
    the breaker closed and no error or slow call in its window, and with reads
    that are answered in time from one state of the store, every stage of the
    server's pipeline does what the same stage does over the lookups, and the
    breaker stays closed. *)
From S2P Require Import Prelude Floats OpenRtb Bitmap Catalog Externals Model Hedge Breaker Pacing Frequency Scoring Segments.
From S2P Require Import Pipeline PipelineInv PipelineProps Process.

(** ** The lookups *)

(** The verdict on a candidate from the impressions counted for its campaign. *)
Definition judge (counts : string -> Z -> Z * Z) (user : string) (c : AdCandidate) : CapResult :=
  let '(day, hour) := counts user (ac_campaign_id c) in
  {| cp_campaign_id := ac_campaign_id c; cp_capped := over_cap c day hour; cp_day_count := Some day; cp_hour_count := Some hour |}.

Lemma judge_id counts user c : cp_campaign_id (judge counts user c) = ac_campaign_id c.
Proof. unfold judge. by destruct (counts _ _). Qed.

Module Ideal.
#[export] Instance segments : UserSegmentRepository (string -> option (list Z)) unit :=
  {| segments_for store user _ := (decode_segments (store (RedisSegmentRepo.segment_key user)), store) |}.
#[export] Instance capper : FrequencyCapper (string -> Z -> Z * Z) unit :=
  {| fc_check counts user cands _ _ _ := (Checked (judge counts user <$> cands), counts) |}.
Definition env {GE FE} (e : Env GE FE) : Env unit unit :=
  {| en_clock := en_clock e; en_secs := en_secs e; en_segments := tt; en_cap _ := tt |}.
End Ideal.

(** ** The breaker of a healthy dependency *)

(** The thresholds of [BreakerConfig::redis]; [main] chooses its own duration of a
    slow call. *)
Definition redis_thresholds (c : BreakerConfig) : Prop :=
  min_calls c = 20 /\ error_rate_threshold c = f64_lit 1 2 /\ slow_call_ratio_threshold c = f64_lit 1 2 /\ window_size c = 100.
Definition healthy_breaker (cb : CircuitBreaker) : Prop :=
  redis_thresholds (cfg cb) /\ state (inner cb) = Closed /\
  errors (window cb) = 0 /\ slow_calls (window cb) = 0 /\ 0 <= calls (window cb) < 100.
Definition healthy (s : RedisCapper.Shared) : Prop := healthy_breaker (RedisCapper.rs_breaker s).

Definition slow_after (s : RedisCapper.Shared) : Duration := slow_call_duration (cfg (RedisCapper.rs_breaker s)).
Definition same_limits (s s' : RedisCapper.Shared) : Prop :=
  RedisCapper.rs_timeout_ms s' = RedisCapper.rs_timeout_ms s /\ slow_after s' = slow_after s.

Lemma same_limits_trans s1 s2 s3 : same_limits s1 s2 -> same_limits s2 s3 -> same_limits s1 s3.
Proof. intros [] []. by split; etransitivity. Qed.

(** A successful call that is not slow leaves the breaker healthy. *)
Lemma record_quick cb d t : healthy_breaker cb -> d < slow_call_duration (cfg cb) -> healthy_breaker (record_outcome cb false d t).
Proof.
  intros (Hc & Hs & He & Hl & Hn) Hd. unfold healthy_breaker. rewrite record_outcome_cfg. split; [done|].
  destruct Hc as (Hmin & Herr & Hslow & Hsize).
  unfold record_outcome, record_locked, Window_record, Window_snapshot. cbn [window inner cfg calls errors slow_calls].
  rewrite Hs, (proj2 (Z.leb_gt _ d) Hd), He, Hl, as_u64_id by (unfold in_u64, u64_max; lia).
  unfold trips. rewrite Herr, Hslow, Hsize, half_rate_exact by lia.
  replace (_ <=? 2 * 0) with false by lia. rewrite andb_false_r.
  destruct (100 <=? calls (window cb) + 1) eqn:E; cbn; rewrite ?Hs, ?He, ?Hl; split_and!; try done; lia.
Qed.

Section Redis.
Context {R : Type} `{Redis R}.
Implicit Types (s : RedisCapper.Shared).

(** A segment read answered from [store], before the call counts as slow. *)
Definition timely_read (store : string -> option (list Z)) s (e : RedisSegmentRepo.Env) : Prop :=
  (forall key, (RedisSegmentRepo.sg_first e key).2 = Ok (store key) /\ (RedisSegmentRepo.sg_second e key).2 = Ok (store key)) /\
  RedisSegmentRepo.sg_elapsed e < slow_after s.

Lemma healthy_read store s user e : healthy s -> timely_read store s e ->
  let '(r, s') := segments_for s user e in
  r = decode_segments (store (RedisSegmentRepo.segment_key user)) /\ healthy s' /\ same_limits s s'.
Proof.
  intros Hh [Hr Hq]. pose proof Hh as (_ & Hs & _). cbn [segments_for RedisSegmentRepo.redis_segment_repo].
  unfold RedisSegmentRepo.segments_for. rewrite allow_request_closed by done. cbn [negb].
  set (key := RedisSegmentRepo.segment_key user). destruct (Hr key) as [H1 H2].
  pose proof (hedged_call_returns (RedisSegmentRepo.attempt (RedisSegmentRepo.sg_first e key))
    (RedisSegmentRepo.attempt (RedisSegmentRepo.sg_second e key)) (from_millis 8)
    (is_closed_sync (RedisCapper.rs_breaker s) (RedisSegmentRepo.sg_readable e)) (RedisSegmentRepo.sg_prefer_first e) None
    (RedisCapper.rs_hedge s) eq_refl) as Hrun.
  cbn [RedisSegmentRepo.attempt value] in Hrun. rewrite H1, H2 in Hrun.
  assert (hr_result (hedged_call (RedisSegmentRepo.attempt (RedisSegmentRepo.sg_first e key))
    (RedisSegmentRepo.attempt (RedisSegmentRepo.sg_second e key)) (from_millis 8)
    (is_closed_sync (RedisCapper.rs_breaker s) (RedisSegmentRepo.sg_readable e)) (RedisSegmentRepo.sg_prefer_first e) None
    (RedisCapper.rs_hedge s)) = Some (Ok (store key))) as -> by set_solver.
  cbn [unwrap_or]. split_and!; [done|by apply record_quick|]. split; [done|]. unfold slow_after. cbn [RedisCapper.rs_breaker]. by rewrite record_outcome_cfg.
Qed.

(** A check answered within the capper's timeout, and before the call counts as
    slow, with the counters Redis [r] has at [now]. *)
Definition timely_check (r : R) (now : Instant) s (e : RedisCapper.Env) : Prop :=
  (forall keys, by_time (latency (RedisCapper.ev_first e keys)) (Some (from_millis (RedisCapper.rs_timeout_ms s))) = true /\
     value (RedisCapper.ev_first e keys) = Ok (redis_mget r now keys) /\
     value (RedisCapper.ev_second e keys) = Ok (redis_mget r now keys)) /\
  RedisCapper.ev_elapsed e < slow_after s.

Lemma timely_check_limits r now s s' e : same_limits s s' -> timely_check r now s e -> timely_check r now s' e.
Proof. unfold timely_check. by intros [-> ->]. Qed.
Lemma timely_read_limits store s s' e : same_limits s s' -> timely_read store s e -> timely_read store s' e.
Proof. unfold timely_read. by intros [_ ->]. Qed.

Definition redis_counts (r : R) (now : Instant) (user : string) (campaign_id : Z) : Z * Z :=
  let count w := unwrap_or (redis_get r now (RedisCapper.fc_key user "c" campaign_id w)) 0 in (count Day, count Hour).

Lemma mget_judged (r : R) now user cands :
  RedisCapper.cap_results cands (redis_mget r now (RedisCapper.cap_keys user cands)) = judge (redis_counts r now) user <$> cands.
Proof.
  apply list_eq. intros i. rewrite list_lookup_fmap. destruct (cands !! i) as [c|] eqn:E.
  - by rewrite (cap_results_mget r now user cands i c E).
  - unfold RedisCapper.cap_results. by rewrite list_lookup_imap, E.
Qed.

Lemma healthy_check (r : R) now s user cands dt hour e : healthy s -> timely_check r now s e ->
  let '(out, s') := RedisCapper.check s user cands dt hour e in
  out = Checked (judge (redis_counts r now) user <$> cands) /\ healthy s' /\ same_limits s s'.
Proof.
  intros Hh [Hr Hq]. pose proof Hh as (_ & Hs & _). unfold RedisCapper.check.
  destruct cands as [|c cands]; [done|]. set (l := c :: cands) in *. rewrite allow_request_closed by done. cbn [negb].
  destruct (Hr (RedisCapper.cap_keys user l)) as (Ht & H1 & H2).
  match goal with |- context [hr_result ?x] => assert (hr_result x = Some (Ok (redis_mget r now (RedisCapper.cap_keys user l)))) as -> end.
  { match goal with |- hr_result (hedged_call ?a ?b ?t ?cl ?p ?d ?bg) = _ =>
      pose proof (hedged_call_returns a b t cl p d bg Ht) as Hrun end. rewrite H1, H2 in Hrun. set_solver. }
  rewrite mget_judged. split_and!; [done|by apply record_quick|]. split; [done|]. unfold slow_after. cbn [RedisCapper.rs_breaker]. by rewrite record_outcome_cfg.
Qed.

(** ** The capper the server installs *)
Context {U : Type} `{KVCacheLaws U Z (Z * Z)} {M : Type} `{KVCacheLaws M string U} {Wt : Type} `{MpscLaws Wt InProcess.WriteBehindOp}.
Implicit Types (cap : ServerCapper M Wt) (local : option (M * Wt)).
Local Notation Layer := (InProcess.InProcessFrequencyCapper RedisCapper.Shared M Wt).

(** The counters a check goes by: the cached pair, else Redis's. *)
Definition seen_counts (r : R) (now : Instant) local (user : string) (campaign_id : Z) : Z * Z :=
  match cached local user campaign_id with Some p => p | None => redis_counts r now user campaign_id end.

Section Check.
Context (r : R) (now : Instant) (s0 : RedisCapper.Shared) (counts : string -> Z -> Z * Z).

(** What a run keeps: the dependency healthy, and the counters as they are seen. *)
Definition shared_healthy s : Prop := healthy s /\ same_limits s0 s.
Definition sees local : Prop := forall user c, seen_counts r now local user c = counts user c.

Lemma sees_layer (l : Layer) user c : sees (local_of (Layered l)) ->
  match InProcess.lookup l user c with Some p => p | None => redis_counts r now user c end = counts user c.
Proof. intros Hl. exact (Hl user c). Qed.

(** Filling the cache with what Redis answered changes nothing that is seen. *)
Lemma warm_sees (l : Layer) user c : sees (local_of (Layered l)) -> InProcess.lookup l user (ac_campaign_id c) = None \/
    InProcess.lookup l user (ac_campaign_id c) = Some (redis_counts r now user (ac_campaign_id c)) ->
  sees (local_of (Layered (InProcess.warm_from l user (judge (redis_counts r now) user c)))).
Proof.
  intros Hl Hc u i. rewrite <- (sees_layer l u i Hl). unfold seen_counts. rewrite cached_lookup.
  unfold InProcess.warm_from, judge. destruct (redis_counts r now user (ac_campaign_id c)) as [day hour] eqn:E. cbn.
  unfold InProcess.warm_cache. rewrite user_map_get.
  assert (unwrap_or (InProcess.lookup l user (ac_campaign_id c)) (day, hour) = (day, hour)) as -> by (by destruct Hc as [->| ->]).
  replace (if day <? day then day else day) with day by (by destruct (day <? day)).
  replace (if hour <? hour then hour else hour) with hour by (by destruct (hour <? hour)).
  rewrite lookup_put_user. case_decide as Eu; [subst u|done]. destruct (decide (ac_campaign_id c = i)) as [<-|Hi].
  - rewrite kv_get_put_same. destruct Hc as [->| ->]; by rewrite ?E.
  - rewrite kv_get_put_other by done. by rewrite user_map_get.
Qed.

Lemma warm_cold (l : Layer) user c i : InProcess.lookup l user i = None \/ InProcess.lookup l user i = Some (redis_counts r now user i) ->
  let l' := InProcess.warm_from l user (judge (redis_counts r now) user c) in
  InProcess.lookup l' user i = None \/ InProcess.lookup l' user i = Some (redis_counts r now user i).
Proof.
  intros Hi. cbv zeta. destruct (decide (ac_campaign_id c = i)) as [<-|Hne].
  - right. unfold InProcess.warm_from, judge. destruct (redis_counts r now user (ac_campaign_id c)) as [day hour] eqn:E. cbn.
    unfold InProcess.warm_cache. rewrite user_map_get.
    assert (unwrap_or (InProcess.lookup l user (ac_campaign_id c)) (day, hour) = (day, hour)) as -> by (by destruct Hi as [->| ->]).
    rewrite lookup_put_user, decide_True, kv_get_put_same by done.
    by destruct (day <? day), (hour <? hour).
  - rewrite warm_from_lookup; [done|]. intros _. by rewrite judge_id.
Qed.

Lemma warm_all_sees (l : Layer) user (cold : list AdCandidate) : sees (local_of (Layered l)) ->
  (forall c, c ∈ cold -> InProcess.lookup l user (ac_campaign_id c) = None \/
     InProcess.lookup l user (ac_campaign_id c) = Some (redis_counts r now user (ac_campaign_id c))) ->
  sees (local_of (Layered (foldl (fun l fb => InProcess.warm_from l user fb) l (judge (redis_counts r now) user <$> cold)))).
Proof.
  revert l; induction cold as [|c cold IH]; intros l Hl Hc; [done|]. cbn [fmap list_fmap foldl].
  apply IH; [apply warm_sees; [done|apply Hc; left]|]. intros c' Hin. apply warm_cold, Hc. by right.
Qed.

(** Distinct keys tell the elements of a list apart. *)
Lemma NoDup_fmap_eq {X Y} (f : X -> Y) (l : list X) x y : NoDup (f <$> l) -> x ∈ l -> y ∈ l -> f x = f y -> x = y.
Proof.
  intros Hn [i Hi]%list_elem_of_lookup [j Hj]%list_elem_of_lookup He.
  assert (i = j) as <- by (eapply (NoDup_lookup _ i j (f x) Hn); rewrite list_lookup_fmap, ?Hi, ?Hj; cbn; by rewrite ?He).
  congruence.
Qed.

(** The verdicts of a layered check whose fallback answered from Redis. *)
Lemma verdict_judged (l : Layer) user cands c : sees (local_of (Layered l)) -> NoDup (ac_campaign_id <$> cands) -> c ∈ cands ->
  verdict l user (Checked (judge (redis_counts r now) user <$> filter (InProcess.is_cold l user) cands)) c = judge counts user c.
Proof.
  intros Hl Hn Hc. unfold verdict, judge at 2. rewrite <- (sees_layer l user (ac_campaign_id c) Hl).
  destruct (InProcess.lookup l user (ac_campaign_id c)) as [[d h]|] eqn:El; [done|].
  set (fbs := _ <$> filter _ _).
  assert (judge (redis_counts r now) user c ∈ fbs) as Hin.
  { apply list_elem_of_fmap_2, list_elem_of_filter. by split. }
  destruct (find_first_is_Some (fun x => cp_campaign_id x =? ac_campaign_id c) fbs _ Hin) as [fb Hf]; [rewrite judge_id; lia|].
  rewrite Hf. cbn [unwrap_or]. apply find_first_Some in Hf as [Hfb He]. zbool.
  apply list_elem_of_fmap in Hfb as (a & -> & Ha). rewrite judge_id in He. apply list_elem_of_filter in Ha as [_ Ha].
  by rewrite (NoDup_fmap_eq ac_campaign_id cands a c Hn Ha Hc He).
Qed.

Lemma warm_all_fallback (l : Layer) user rs :
  InProcess.ip_fallback (foldl (fun l fb => InProcess.warm_from l user fb) l rs) = InProcess.ip_fallback l.
Proof.
  revert l; induction rs as [|x rs IH]; intros l; [done|]. cbn [foldl]. rewrite IH. unfold InProcess.warm_from, InProcess.warm_cache.
  destruct (cp_day_count x), (cp_hour_count x); try done. by destruct (unwrap_or _ _).
Qed.

Lemma check_ideal cap user cands dt hour e : shared_healthy (redis_of cap) -> sees (local_of cap) ->
  NoDup (ac_campaign_id <$> cands) -> timely_check r now s0 (InProcess.iev_fallback e) ->
  let '(out, cap') := server_check cap user cands dt hour e in
  out = Checked (judge counts user <$> cands) /\ shared_healthy (redis_of cap') /\ sees (local_of cap').
Proof.
  intros [Hh Ht] Hsees Hn Htimely. apply (timely_check_limits _ _ _ _ _ Ht) in Htimely. destruct cap as [s|l]; cbn [server_check redis_of] in *.
  - pose proof (healthy_check r now s user cands dt hour (InProcess.iev_fallback e) Hh Htimely) as Hc.
    destruct (RedisCapper.check _ _ _ _ _ _) as [out s']. destruct Hc as (-> & Hh' & Ht').
    split; [|split; [by split; [|by eapply same_limits_trans]|exact Hsees]]. f_equal. apply list_fmap_ext. intros i c _. unfold judge.
    by rewrite <- (Hsees user (ac_campaign_id c)).
  - unfold check_over_redis, InProcess.check. destruct Hh as (Hcfg & Hclosed & Hrest).
    rewrite allow_request_closed by done. cbn [negb].
    set (l1 := {| InProcess.ip_fallback := share_breaker _ _; InProcess.ip_counters := _; InProcess.ip_write_tx := _ |}).
    assert (forall user c, InProcess.lookup l1 user c = InProcess.lookup l user c) as Hlook by done.
    assert (sees (local_of (Layered l1))) as Hsees1 by exact Hsees.
    assert (healthy (InProcess.ip_fallback l1)) as Hh1 by by split.
    pose proof (verdict_judged l1 user cands) as Hv. fold l1.
    destruct (filter (InProcess.is_cold l1 user) cands) as [|c0 cold] eqn:Ec.
    + split_and!; [|by split; [split|]|exact Hsees1]. f_equal. apply list_fmap_ext. intros i c Hi%list_elem_of_lookup_2.
      rewrite <- (Hv c Hsees1 Hn Hi). unfold InProcess.first_pass, verdict.
      destruct (InProcess.lookup l1 user (ac_campaign_id c)) as [[]|] eqn:El; [done|].
      assert (c ∈ filter (InProcess.is_cold l1 user) cands) as Hin by (by apply list_elem_of_filter).
      rewrite Ec in Hin. by apply not_elem_of_nil in Hin.
    + rewrite <- Ec in *. cbn [fc_check RedisCapper.redis_capper].
      pose proof (healthy_check r now (InProcess.ip_fallback l1) user (filter (InProcess.is_cold l1 user) cands) dt hour
        (InProcess.iev_fallback e) Hh1 Htimely) as Hc.
      destruct (RedisCapper.check _ _ _ _ _ _) as [out s']. destruct Hc as (-> & Hh' & Ht').
      set (l2 := {| InProcess.ip_fallback := s'; InProcess.ip_counters := _; InProcess.ip_write_tx := _ |}).
      split_and!.
      * f_equal. rewrite (patched_verdicts l1 user cands).
        -- apply list_fmap_ext. intros i c Hi%list_elem_of_lookup_2. by apply Hv.
        -- done.
        -- rewrite <- list_fmap_compose. apply list_fmap_ext. intros i c _. apply judge_id.
      * cbn [redis_of]. rewrite warm_all_fallback. by split; [|by eapply same_limits_trans].
      * apply (warm_all_sees l2); [exact Hsees1|]. intros c [Hcold _]%list_elem_of_filter. by left.
Qed.
End Check.
End Redis.

(** ** The pipeline *)
Section Run.
Import Ideal.
Context {Value : Type} `{JsonValue Value} {B : Type} `{BitmapLaws B} {C : Type} `{KVCache C string (list SegmentId)}.
Context {Sc : Type} `{ScorerLaws Sc} {P : Type} `{BudgetPacer P} {N : Type} `{NoticeUrlBuilder N} {R : Type} `{Redis R}.
Context {U : Type} `{KVCacheLaws U Z (Z * Z)} {M : Type} `{KVCacheLaws M string U} {Wt : Type} `{MpscLaws Wt InProcess.WriteBehindOp}.
Context (heap_order : list AdCandidate -> list AdCandidate) (heap_order_perm : forall l, heap_order l ≡ₚ l).
Context (env : Env RedisSegmentRepo.Env (InProcess.Env RedisCapper.Env)) (deadline_ms : Z).
Context (r : R) (now : Instant) (s0 : RedisCapper.Shared) (store : string -> option (list Z)) (counts : string -> Z -> Z * Z).
Context (reads : timely_read store s0 (en_segments env)).
Context (checks : forall idx, timely_check r now s0 (InProcess.iev_fallback (en_cap env idx))).
Local Notation Capper := (ServerCapper M Wt).
Local Notation Shared := (World B C RedisCapper.Shared Sc Capper P).
Local Notation ServerStage := (Stage Value B C RedisCapper.Shared Sc Capper P).
Local Notation IdealStage := (Stage Value B C (string -> option (list Z)) Sc (string -> Z -> Z * Z) P).
Local Notation ideal := (with_parts store counts).
Implicit Types (ctx : BidContext Value B) (w : Shared).

(** What holds before each stage: one Redis state, healthy, the counters as they
    are seen, and no campaign twice in a candidate list. *)
Definition distinct (cs : list (list AdCandidate)) : Prop := Forall (fun l => NoDup (ac_campaign_id <$> l)) cs.
Record settled_at ctx w : Prop := {
  at_shared : w_repo w = redis_of (w_capper w);
  at_healthy : shared_healthy s0 (w_repo w);
  at_seen : sees r now counts (local_of (w_capper w));
  at_distinct : distinct (candidates ctx);
}.

Definition tracks (st : ServerStage) (st' : IdealStage) : Prop :=
  forall ctx w, settled_at ctx w ->
    mimics_with store counts st st' ctx w /\
    let '(_, ctx', w') := stage_execute st ctx w in settled_at ctx' w'.

Lemma shrinks_distinct l l' : shrinks l l' -> NoDup (ac_campaign_id <$> l) -> NoDup (ac_campaign_id <$> l').
Proof.
  unfold shrinks. intros Hs Hn. apply (fmap_submseteq ac_campaign_id) in Hs. rewrite <- !list_fmap_compose in Hs.
  apply submseteq_Permutation in Hs as [k Hk]. change ((ac_campaign_id ∘ unscored) <$> l) with (ac_campaign_id <$> l) in Hk.
  rewrite Hk in Hn. by apply NoDup_app in Hn as [? _].
Qed.

Lemma shrinks_all_distinct cs cs' : Forall2 shrinks cs cs' -> distinct cs -> distinct cs'.
Proof.
  unfold distinct. intros Hc Hd. induction Hc as [|l l' cs cs' Hl _ IH]; [constructor|].
  apply Forall_cons in Hd as [Hn Hd]. constructor; [by eapply shrinks_distinct|by apply IH].
Qed.

Lemma shrink_settled ctx ctx' w w' : settled_at ctx w -> shrink_step ctx w ctx' w' ->
  w_repo w' = w_repo w -> w_capper w' = w_capper w -> settled_at ctx' w'.
Proof.
  intros [Hs Hh Hv Hd] [Hc _ _ _ _ _ _ _ _] Hr Hcap. split; rewrite ?Hr, ?Hcap; try done.
  by eapply shrinks_all_distinct.
Qed.

(** A stage that changes neither the Redis state nor the lists. *)
Lemma settled_same ctx ctx' w w' : settled_at ctx w -> candidates ctx' = candidates ctx ->
  w_repo w' = w_repo w -> w_capper w' = w_capper w -> settled_at ctx' w'.
Proof. intros [Hs Hh Hv Hd] Hc Hr Hcap. by split; rewrite ?Hr, ?Hcap, ?Hc. Qed.

Lemma enrichment_tracks : tracks (followed_by sync_capper (user_enrichment env)) (user_enrichment (Ideal.env env)).
Proof.
  intros ctx w Hw. pose proof Hw as [Hs [Hh Ht] Hv Hd]. unfold mimics_with.
  cbn [stage_execute followed_by user_enrichment with_parts w_catalog].
  change (ctx_user_id (set_catalog ctx (Some (w_catalog w)))) with (ctx_user_id ctx).
  destruct (ctx_user_id ctx) as [user|].
  2:{ split; [done|]. split; cbn; rewrite ?redis_of_with, ?local_of_with; done. }
  unfold get_or_fetch. cbn [w_cache w_repo]. destruct (kv_get _ _) as [ids|].
  { split; [done|]. split; cbn; rewrite ?redis_of_with, ?local_of_with; done. }
  pose proof (healthy_read store (w_repo w) user (en_segments env) Hh (timely_read_limits _ _ _ _ Ht reads)) as Hr.
  destruct (segments_for (w_repo w) user (en_segments env)) as [ids s']. destruct Hr as (-> & Hh' & Ht').
  cbn [segments_for Ideal.segments].
  destruct (decode_segments _) as [ids|e]; (split; [done|]); split; cbn; rewrite ?redis_of_with, ?local_of_with; try done;
    by split; [|by eapply same_limits_trans].
Qed.

Lemma capping_ideal user dt hour (c : Capper) log entries : shared_healthy s0 (redis_of c) -> sees r now counts (local_of c) ->
  Forall (fun e => NoDup (ac_campaign_id <$> e.2)) entries ->
  let '((c', log'), cs) := fold_map (cap_imp user dt hour (en_cap env)) (c, log) entries in
  fold_map (cap_imp user dt hour (en_cap (Ideal.env env))) (counts, log) entries = ((counts, log'), cs) /\
  shared_healthy s0 (redis_of c') /\ sees r now counts (local_of c') /\ distinct cs.
Proof.
  revert c log; induction entries as [|[i l] entries IH]; intros c log Hh Hv Hn; [by split_and!; [..|constructor]|].
  apply Forall_cons in Hn as [Hl Hn]. cbn [fst snd] in Hl. cbn [fold_map]. unfold cap_imp at 1 3.
  destruct l as [|a l].
  { specialize (IH c log Hh Hv Hn). destruct (fold_map (cap_imp _ _ _ (en_cap env)) _ _) as [[c' log'] cs].
    destruct IH as (-> & Hh' & Hv' & Hd). split_and!; try done. by constructor. }
  pose proof (check_ideal r now s0 counts c user (a :: l) dt hour (en_cap env i) Hh Hv Hl (checks i)) as Hc.
  cbn [fc_check server_capper Ideal.capper]. destruct (server_check _ _ _ _ _ _) as [out c1]. destruct Hc as (-> & Hh1 & Hv1).
  match goal with |- context [fold_map (cap_imp _ _ _ (en_cap env)) (c1, ?log1) entries] => specialize (IH c1 log1 Hh1 Hv1 Hn) end.
  destruct (fold_map (cap_imp _ _ _ (en_cap env)) _ _) as [[c' log'] cs]. destruct IH as (-> & Hh' & Hv' & Hd).
  split_and!; try done. constructor; [|done]. by apply NoDup_fmap_filter.
Qed.

Lemma capping_tracks : tracks (followed_by sync_repo (freq_cap env)) (freq_cap (Ideal.env env)).
Proof.
  intros ctx w Hw. pose proof Hw as [Hs Hh Hv Hd]. unfold mimics_with. cbn [stage_execute followed_by freq_cap].
  destruct (ctx_user_id ctx) as [user|].
  2:{ split; [unfold with_parts; cbn; done|]. split; cbn; try done. by rewrite <- Hs. }
  set (dt := match ctx_devicetype ctx with Some dt => device_type dt | None => 0 end).
  rewrite Hs in Hh.
  pose proof (capping_ideal user dt (current_hour_of_day (en_secs env)) (w_capper w) (freq_cap_results ctx) (imap pair (candidates ctx)) Hh Hv) as Hc.
  unfold each_imp.
  change (fold_map _ (w_capper (ideal w), freq_cap_results ctx) (imap pair (candidates ctx)))
    with (fold_map (cap_imp user dt (current_hour_of_day (en_secs env)) (en_cap (Ideal.env env))) (counts, freq_cap_results ctx) (imap pair (candidates ctx))).
  change (fold_map _ (w_capper w, freq_cap_results ctx) (imap pair (candidates ctx)))
    with (fold_map (cap_imp user dt (current_hour_of_day (en_secs env)) (en_cap env)) (w_capper w, freq_cap_results ctx) (imap pair (candidates ctx))).
  destruct (fold_map (cap_imp user dt _ (en_cap env)) _ _) as [[f log] cs].
  destruct Hc as (Hc & Hh' & Hv' & Hd').
  { rewrite <- (imap_pair_snd (candidates ctx)) in Hd. unfold distinct in Hd. by rewrite Forall_fmap in Hd. }
  rewrite Hc. split; [done|]. by split.
Qed.

Lemma retrieval_tracks : tracks candidate_retrieval candidate_retrieval.
Proof.
  intros ctx w Hw. split; [eapply (plain_mimics heap_order store counts env (Ideal.env env) ctx w 0 no_notice_url ""%string eq_refl)|].
  pose proof Hw as [Hs Hh Hv Hd]. cbn [stage_execute candidate_retrieval]. destruct (catalog ctx) as [cat|]; [|done].
  destruct (Nat.eqb _ _); [by split|]. split; try done. cbn.
  apply (foldl_inv distinct).
  - apply Forall_resize; [constructor|done].
  - intros cs [idx imp] _ Hcs. apply Forall_insert; [done|]. apply retrieve_ids.
Qed.

Lemma pipeline_tracks (top_k : nat) (builder : N) (exchange_id : string) :
  Forall2 tracks (server_pipeline heap_order env top_k builder exchange_id)
    (bid_pipeline heap_order (Ideal.env env) top_k builder exchange_id).
Proof.
  pose proof (fun ctx w => plain_mimics heap_order store counts env (Ideal.env env) ctx w top_k builder exchange_id eq_refl) as Hp.
  unfold server_pipeline, bid_pipeline.
  repeat (apply Forall2_cons_2; [|]); [| apply enrichment_tracks|apply retrieval_tracks| | |apply capping_tracks| | | |constructor];
    intros ctx w Hw; (split; [apply Hp|]).
  - cbn [stage_execute request_validation]. repeat case_goal; by eapply settled_same.
  - pose proof (candidate_limit_shrinks heap_order top_k heap_order_perm ctx w) as Hst.
    destruct (stage_execute _ _ _) as [[x ctx'] w'] eqn:E. eapply shrink_settled; [done|apply Hst|..]; by injection E as _ _ <-.
  - pose proof (scoring_shrinks env ctx w) as Hst. destruct (stage_execute _ _ _) as [[x ctx'] w'] eqn:E.
    cbn [stage_execute scoring] in E. destruct (each_imp _ _ _) as [s cs].
    eapply shrink_settled; [done|apply Hst|..]; by injection E as _ _ <-.
  - cbn [stage_execute budget_pacing].
    pose proof (each_imp_Forall2 (fun p _ l => pace_imp p l) shrinks (w_pacer w) (candidates ctx) ltac:(done)
      ltac:(intros; apply pace_shrinks)) as Hcs.
    destruct (each_imp _ _ _) as [p cs]. cbn [snd] in Hcs. pose proof Hw as [? ? ? Hd]. split; try done.
    assert (candidates (paced ctx cs) = cs) as -> by (unfold paced; by case_match).
    by eapply shrinks_all_distinct.
  - cbn [stage_execute ranking]. destruct (foldl _ _ _) as [p ws]. by eapply settled_same.
  - cbn [stage_execute response_build]. destruct (responded _ _ _) as [x ctx'] eqn:E. eapply settled_same; [done| |done..].
    unfold responded in E. by repeat (case_match; simplify_eq/=).
Qed.

Lemma run_ideal i stages stages' ctx w : Forall2 tracks stages stages' -> settled_at ctx w ->
  let '(x, ctx', w') := run_stages env deadline_ms i stages ctx w in
  run_stages (Ideal.env env) deadline_ms i stages' ctx (ideal w) = (x, ctx', ideal w') /\ settled_at ctx' w'.
Proof.
  intros Hs. revert i ctx w; induction Hs as [|st st' stages stages' Hst _ IH]; intros i ctx w Hw; [done|]. cbn [run_stages].
  change (en_clock (Ideal.env env) i) with (en_clock env i).
  destruct (_ <=? _); [split; [done|by eapply settled_same]|]. destruct (Hst ctx w Hw) as [Hm Hw']. unfold mimics_with in Hm.
  rewrite Hm. destruct (stage_execute st ctx w) as [[[[]|x] ctx'] w']; [|done]. by destruct (outcome ctx'); [apply IH| |apply IH].
Qed.
End Run.
