(* ===== verification/ProcessProps.v ===== *)
(** * Properties of the server process

    What holds over every sequence of handler, worker, eviction, refresh and
    feedback steps of a [Process]: what the in-process capper remembers, what a
    breaker whose probe was lost does to the server, and which campaigns the
    served bids are for; and what the wired bid endpoint promises over a healthy
    Redis, from [Healthy]. *)
From S2P Require Import Prelude Floats OpenRtb Bitmap Catalog Loader Externals Model Hedge Breaker Pacing Frequency Scoring Segments.
From S2P Require Import Pipeline PipelineInv PipelineProps Config Events WinNotice Exchange Server Process Healthy.

Section Memory.
Context {Value : Type} `{JsonValue Value} {B : Type} `{Bitmap B} {C : Type} `{KVCache C string (list SegmentId)}.
Context {Sc : Type} `{Scorer Sc} {N : Type} `{NoticeUrlBuilder N} {A : Type} `{ExchangeAdapter A Value}.
Context {U : Type} `{KVCacheLaws U Z (Z * Z)} {M : Type} `{KVCacheLaws M string U} {Wt : Type} `{MpscLaws Wt InProcess.WriteBehindOp}.
Context {K : Type} `{EventPublisher K} {Ch : Type} `{Mpsc Ch RedisCapper.ImpressionEvent} {R : Type} `{Redis R}.
Context {Mac : Type} `{Hmac Mac} {X : Type} `{Hex X} {D : Type} `{DedupStore D} (mac : Mac) (hex : X).
Context (heap_order : list AdCandidate -> list AdCandidate) (se : Service N A).
Implicit Types (p : Process B C Sc M Wt K Ch R D).
Local Notation run_events := (run_events mac hex heap_order se).

(** [C10] The in-process capper never learns of an impression: no handler and no
    background task of the server counts one in its cache.  Once a user and a
    campaign are cached, their counters stay what they were until the user is
    evicted, through any sequence of bid requests, win notices, counter writes,
    drains, refreshes and feedback ticks, however many impressions are won and
    recorded in Redis meanwhile; and every completed check judges the campaign by
    those counters. *)
Theorem cached_counts_are_final p (evs : list Event) (user : string) (campaign_id day hour : Z)
    (Hcached : cached (ps_local p) user campaign_id = Some (day, hour))
    (Hkept : EvEvictCounters user ∉ evs) :
  let p' := run_events p evs in
  cached (ps_local p') user campaign_id = Some (day, hour) /\
  forall cands dt h env rs cap c,
    server_check (capper_of (ps_redis p') (ps_local p')) user cands dt h env = (Checked rs, cap) ->
    NoDup (ac_campaign_id <$> cands) -> c ∈ cands -> ac_campaign_id c = campaign_id ->
    exists res, res ∈ rs /\ cp_campaign_id res = campaign_id /\ cp_capped res = over_cap c day hour.
Proof.
  intros p'.
  assert (shared_ok (fun _ => True) (fun local => cached local user campaign_id = Some (day, hour)) p') as [_ Hc].
  { apply (run_events_keep mac hex heap_order se _ _ (fun ev => ev <> EvEvictCounters user)); [done| |done|done| | |done].
    - intros cap u cands dt h e _ Hc. split; [done|]. by apply server_check_cached.
    - intros l u Hu Hl. rewrite cached_lookup in *. rewrite evict_lookup; [done|]. by intros ->.
    - apply Forall_forall. by intros ev Hev ->. }
  split; [done|]. intros cands dt h env rs cap c Hchk Hn Hin Hid.
  destruct (ps_local p') as [[m tx]|]; [|done]. cbn [capper_of server_check] in Hchk.
  set (l := {| InProcess.ip_fallback := _; InProcess.ip_counters := m; InProcess.ip_write_tx := tx |}) in *.
  destruct (check_over_redis _ _ _ _ _ _) as [out l'] eqn:E. injection Hchk as -> _.
  rewrite (check_verdicts _ _ _ _ _ _ _ _ _ _ Hn E).
  eexists. split; [by apply list_elem_of_fmap_2|]. unfold verdict. rewrite Hid.
  change (InProcess.lookup l user campaign_id) with (cached (Some (m, tx)) user campaign_id). by rewrite Hc.
Qed.

(** [C11] A lost probe disables Redis for the whole server: when the shared breaker
    is half-open with its probe out and nobody left to record the outcome, no
    sequence of events brings it back; from then on every segment read answers
    no segments without asking Redis and every frequency-cap check of either
    capper is skipped, so that no impression is capped. *)
Theorem lost_probe_is_final p (evs : list Event) (Hprobe : probe_out (RedisCapper.rs_breaker (ps_redis p))) :
  let p' := run_events p evs in
  RedisCapper.rs_breaker (ps_redis p') = RedisCapper.rs_breaker (ps_redis p) /\
  (forall user env, segments_for (ps_redis p') user env = (Ok [], ps_redis p')) /\
  (forall user cands dt h env, cands <> [] ->
     (server_check (capper_of (ps_redis p') (ps_local p')) user cands dt h env).1 = SkippedTimeout).
Proof.
  intros p'. set (cb := RedisCapper.rs_breaker (ps_redis p)) in *.
  assert (forall (cap : ServerCapper M Wt) user cands dt h env, RedisCapper.rs_breaker (redis_of cap) = cb ->
    (cands <> [] -> (server_check cap user cands dt h env).1 = SkippedTimeout) /\
    RedisCapper.rs_breaker (redis_of (server_check cap user cands dt h env).2) = cb) as Hskip.
  { intros cap user cands dt h env Hcb. destruct cap as [s'|l]; cbn [server_check redis_of] in *.
    - destruct cands as [|c cands]; [by split|]. rewrite redis_check_probe_out; [done|done|by rewrite Hcb].
    - by rewrite check_over_redis_probe_out by by rewrite Hcb. }
  assert (shared_ok (fun s => RedisCapper.rs_breaker s = cb) (fun _ => True) p') as [Hcb _].
  { apply (run_events_keep mac hex heap_order se _ _ (fun _ => True)); try done.
    - intros s user e Hs. by rewrite segments_for_refused by by rewrite Hs.
    - intros cap user cands dt h e Hs _. split; [|done]. by apply Hskip.
    - by apply Forall_true. }
  split_and!; [done| |].
  - intros user env. apply segments_for_refused. by rewrite Hcb.
  - intros user cands dt h env Hne. apply Hskip; [|done].
    by destruct (capper_of_parts (ps_redis p') (ps_local p')) as [-> _].
Qed.
End Memory.

(** ** From the tables to the bids *)
Section Served.
Import Oracle.
Context {Value : Type} `{JsonValue Value} {B : Type} `{BitmapLaws B} {C : Type} `{KVCache C string (list SegmentId)}.
Context {Sc : Type} `{ScorerLaws Sc} {N : Type} `{NoticeUrlBuilder N} {A : Type} `{ExchangeAdapter A Value}.
Context {U : Type} `{KVCache U Z (Z * Z)} {M : Type} `{KVCache M string U} {Wt : Type} `{Mpsc Wt InProcess.WriteBehindOp}.
Context {K : Type} `{EventPublisher K} {Ch : Type} `{Mpsc Ch RedisCapper.ImpressionEvent} {R : Type} `{Redis R}.
Context {Mac : Type} `{Hmac Mac} {X : Type} `{Hex X} {D : Type} `{DedupStore D} (mac : Mac) (hex : X).
Context (heap_order : list AdCandidate -> list AdCandidate) (heap_order_perm : forall l, heap_order l ≡ₚ l).
Context (se : Service N A).
Implicit Types (p : Process B C Sc M Wt K Ch R D) (rows : Rows).
Local Notation run_events := (run_events mac hex heap_order se).
Local Notation handle := (handle mac hex heap_order se).

(** A campaign of the tables for an impression: active, its targeting rows match
    the request, one of its creatives has the impression's format, and the price
    is its floor. *)
Definition db_serves (db : Db) (hour : Z) (req : BidRequest Value) (segs : list SegmentId) (imp : Imp Value)
    (cid crid price : Z) : Prop :=
  exists row crow, (active, row) ∈ db_campaign db /\ row_id row = cid /\ price = row_bid_floor_cents row /\
    db_matches db hour (candidate_request req segs imp) cid /\
    crow ∈ db_creative db /\ crow_campaign_id crow = cid /\ crid = as_u32 (crow_id crow) /\
    (forall f, imp_ad_format imp = Some f -> parse_ad_format (crow_ad_format crow) = Some f).

Lemma serves_db db hour rows req segs imp cid crid price : db_wf db -> answers db hour rows ->
  serves (Loader.build (B := B) rows).1 req segs imp cid crid price -> db_serves db hour req segs imp cid crid price.
Proof.
  intros Hdb Hans (cm & cr & Hcm & Hm & Hcr & <- & Hf & ->).
  destruct (build_campaign_active db hour rows Hdb Hans _ _ Hcm) as (row & Hrow & Hid & ->).
  destruct (build_creative_active db hour rows Hdb Hans _ _ Hcr) as (crow & Hcrow & Hcid & Hcrid & Hfmt).
  exists row, crow. split_and!; try done.
  - apply (build_matches db hour rows Hdb Hans); [|done]. by exists row.
  - intros f Ef. rewrite Ef in Hf. cbn in Hf. apply bool_decide_eq_true in Hf. by rewrite Hfmt, Hf.
Qed.

(** The query results of the last successful refresh. *)
Definition served_rows rows (evs : list Event) : Rows :=
  foldl (fun rows ev => match ev with EvRefresh (Ok rows') => rows' | _ => rows end) rows evs.

(** The budgets are 64-bit columns. *)
Definition budgets_ok rows : Prop := Forall (fun row => in_i64 (row_daily_budget_cents row)) (campaigns_rows rows).
Definition refresh_ok (ev : Event) : Prop := match ev with EvRefresh (Ok rows) => budgets_ok rows | _ => True end.

Definition holds_tables rows p : Prop :=
  sh_catalog (ps_tables p) = (Loader.build rows).1 /\ pacer_wf (sh_pacer (ps_tables p)).

Lemma seeds_ok rows : budgets_ok rows -> Forall (fun '(_, b) => in_i64 b) (budget_seeds (Loader.build (B := B) rows).1).
Proof.
  intros Hb. unfold budget_seeds. apply Forall_fmap, Forall_forall. intros [cid cm] Hin%elem_of_map_to_list. cbn in *.
  apply build_campaign_row in Hin as (row & Hrow & _ & ->). unfold budgets_ok in Hb. rewrite Forall_forall in Hb. by apply Hb.
Qed.

Lemma execute_tables (env : Env RedisSegmentRepo.Env (InProcess.Env RedisCapper.Env)) deadline_ms n top_k (builder : N)
    exchange_id (ctx : BidContext Value B) p rows : holds_tables rows p ->
  tables (Loader.build rows).1 (execute env deadline_ms (take n (server_pipeline heap_order env top_k builder exchange_id)) ctx (world_of p)).2.
Proof. intros Hp. unfold execute. apply run_stages_inv; [|exact Hp]. apply Forall_take, server_stages_tables. Qed.

Lemma handle_tables p rows ev : refresh_ok ev -> holds_tables rows p -> holds_tables (served_rows rows [ev]) (handle p ev).2.
Proof.
  intros Hev Hp. destruct ev as [env body latency stages_run|params env latency|h d| |user|user|[rows'|e]|]; cbn [Process.handle snd served_rows foldl].
  - unfold serve_bid. destruct (latency <=? se_bid_timeout se) eqn:El.
    + unfold bid_through. destruct (decode_request _ _) as [req|e].
      2:{ unfold timeout_middleware. by rewrite El. }
      pose proof (execute_tables (bn_env env) (bv_deadline_ms (se_bid se)) 9 (bv_top_k (se_bid se)) (bv_builder (se_bid se))
        (adapter_id (bv_adapter (se_bid se))) (BidContext_new req (bn_started env)) p rows Hp) as [_ Hw].
      match type of Hw with context [take 9 ?l] => change (take 9 l) with l in Hw end. unfold stages_of. cbn [bs_world].
      destruct (execute _ _ _ _ _) as [[r ctx] w]. cbn [snd] in Hw. unfold timeout_middleware. rewrite El.
      destruct Hp as [Hc _]. destruct r as [[]|]; [|by split].
      destruct (outcome ctx); try by split. destruct (bid_response ctx); [|by split].
      destruct (encode_response _ _) as [[]|]; by split.
    + destruct (decode_request _ _) as [req|e]; [|done].
      pose proof (execute_tables (bn_env env) (bv_deadline_ms (se_bid se)) stages_run (bv_top_k (se_bid se)) (bv_builder (se_bid se))
        (adapter_id (bv_adapter (se_bid se))) (BidContext_new req (bn_started env)) p rows Hp) as [_ Hw].
      destruct Hp as [Hc _]. by split.
  - unfold serve_win. destruct (win _ _ _ _ _) as [status st]. unfold timeout_middleware. by destruct (latency <=? se_win_timeout se).
  - unfold run_worker. by destruct (chan_try_recv _) as [[]|].
  - unfold run_drain. destruct (ps_local p) as [[m tx]|]; [|done]. by destruct (chan_try_recv tx) as [[op tx']|].
  - unfold evict_counters. by destruct (capper_of _ _).
  - done.
  - destruct Hp as [_ Hp]. split; [done|]. cbn. apply Local.reload_wf; [exact Hp|by apply seeds_ok].
  - done.
  - unfold run_feedback. by destruct (feedback_tick _).
Qed.

Lemma run_tables p rows evs : Forall refresh_ok evs -> holds_tables rows p -> holds_tables (served_rows rows evs) (run_events p evs).
Proof.
  intros He. revert p rows; induction He as [|ev evs Hev He IH]; intros p rows Hp; [done|].
  cbn [Process.run_events served_rows foldl]. by apply IH, handle_tables.
Qed.

Lemma same_segments p (env : Env RedisSegmentRepo.Env (InProcess.Env RedisCapper.Env)) (e : Env (Result (list SegmentId) string) FreqCapOutcome)
    (req : BidRequest Value) now :
  (forall user, ctx_user_id (B := B) (BidContext_new req now) = Some user ->
     en_segments e = (segments_for (ps_redis p) user (en_segments env)).1) ->
  user_segments e req (forget (world_of p)) = user_segments env req (world_of p).
Proof.
  intros Hs. unfold user_segments. change (ctx_user_id (B := B) (BidContext_new req now)) with (u ← br_user req; user_id u) in Hs.
  destruct (u ← br_user req; user_id u) as [user|]; [|done]. specialize (Hs user eq_refl).
  unfold get_or_fetch. cbn [segments_for Oracle.segments forget w_cache w_repo world_of]. rewrite Hs.
  destruct (kv_get _ _); [done|]. cbn [segments_for RedisSegmentRepo.redis_segment_repo].
  by destruct (RedisSegmentRepo.segments_for _ _ _) as [[]].
Qed.

(** [C1] From the tables to the bids: a server started on one answer of Postgres
    and run through any sequence of requests, notices, background steps and
    refreshes answers a bid request with 200 only for bids that the tables of the
    last successful refresh allow: each is for an impression of the request and
    an active campaign whose targeting rows match it under the user's segments,
    with a creative row in the impression's format, at the campaign's floor
    price, and its campaign had budget left. *)
Theorem served_bids_match_the_tables p0 rows0 (evs : list Event) (db : Db) (hour : Z)
    (env : BidEnv RedisSegmentRepo.Env (InProcess.Env RedisCapper.Env)) body latency stages_run resp p2
    (Hstart : start (Ok rows0) Local.new = Ok (ps_tables p0)) (Hbudgets : budgets_ok rows0) (Hevs : Forall refresh_ok evs)
    (Hdb : db_wf db) (Hanswers : answers db hour (served_rows rows0 evs))
    (Hbid : handle (run_events p0 evs) (EvBid env body latency stages_run) = (Some resp, p2))
    (Hok : rs_status resp = OK) :
  let p := run_events p0 evs in
  exists req rsp sb ct, decode_request (bv_adapter (se_bid se)) body = Ok req /\
    encode_response (bv_adapter (se_bid se)) rsp = Ok (rs_body resp, ct) /\ resp_id rsp = br_id req /\
    resp_seatbid rsp = [sb] /\ sb_bid sb <> [] /\
    forall b, b ∈ sb_bid sb ->
      exists imp cid crid price left, imp ∈ br_imp req /\
        bid_impid b = imp_id imp /\ bid_cid b = Some (pretty cid) /\ bid_crid b = Some (pretty crid) /\
        bid_price b = f64_div (f64_of_Z price) (f64_of_Z 100) /\
        db_serves db hour req (user_segments (bn_env env) req (world_of p)) imp cid crid price /\
        remaining (sh_pacer (ps_tables p)) cid = Some left /\ 0 < left.
Proof.
  intros p.
  assert (holds_tables (served_rows rows0 evs) p) as [Hcat Hpacer].
  { apply run_tables; [done|]. unfold holds_tables. injection Hstart as <-. split; [done|]. apply Local.reload_wf; [apply map_Forall_empty|by apply seeds_ok]. }
  cbn [Process.handle] in Hbid. fold p in Hbid. unfold serve_bid in Hbid.
  destruct (latency <=? se_bid_timeout se) eqn:El; [|by injection Hbid as <- _].
  unfold bid_through in Hbid. destruct (decode_request _ _) as [req|x]; [|unfold timeout_middleware in Hbid; rewrite El in Hbid; by injection Hbid as <- _].
  destruct (server_runs_refine heap_order (bn_env env) (bv_deadline_ms (se_bid se)) (bv_top_k (se_bid se)) (bv_builder (se_bid se))
    (adapter_id (bv_adapter (se_bid se))) (BidContext_new req (bn_started env)) (world_of p)) as (e & He & Hs & Hrun).
  unfold stages_of in Hbid. cbn [bs_world] in Hbid. destruct (execute (bn_env env) _ _ _ _) as [[r ctx] w].
  unfold timeout_middleware in Hbid. rewrite El in Hbid. destruct r as [[]|]; [|by injection Hbid as <- _].
  destruct (outcome ctx); [done|by injection Hbid as <- _|].
  destruct (bid_response ctx) as [rsp|] eqn:Ersp; [|by injection Hbid as <- _].
  destruct (encode_response _ _) as [[bytes ct]|] eqn:Eenc; [|by injection Hbid as <- _]. injection Hbid as <- _.
  change (pacer_wf (w_pacer (forget (world_of p)))) in Hpacer.
  destruct (response_run heap_order heap_order_perm _ _ _ _ _ _ _ _ Hpacer _ _ _ _ Hrun Ersp) as [Hinv Hrsp].
  assert (resp_id rsp = br_id req) as Hid by (rewrite Hrsp; cbn; by rewrite (inv_request _ _ _ _ _ _ _ _ Hinv)).
  eexists req, rsp, _, ct. split; [done|]. split; [exact Eenc|]. split; [done|].
  split; [by rewrite Hrsp|]. split.
  { cbn. intros Hn%fmap_nil_inv. by apply (inv_some_winner _ _ _ _ _ _ _ _ Hinv); [lia|]. }
  intros b Hb. match type of Hb with _ ∈ sb_bid ?x => set (sb := x) in *; assert (sb ∈ resp_seatbid rsp) as Hsb by (rewrite Hrsp; by apply list_elem_of_singleton) end.
  assert (catalog_wf (w_catalog (forget (world_of p)))) as Hwf by (cbn; rewrite Hcat; by eapply build_wf).
  destruct (bids_are_eligible heap_order heap_order_perm _ _ _ _ _ _ _ _ Hwf Hpacer _ _ _ Hrun _ _ _ Ersp Hsb Hb)
    as (imp & cid & crid & price & left & Himp & Hi & Hc & Hcr & Hpr & Hserves & Hleft).
  exists imp, cid, crid, price, left. split_and!; try done; try apply Hleft.
  rewrite (same_segments p (bn_env env) e req (bn_started env) Hs) in Hserves.
  eapply serves_db; [done|done|]. cbn [w_catalog forget world_of] in Hserves. by rewrite Hcat in Hserves.
Qed.

End Served.

(** ** The wired endpoint and its contract *)
Section Contract.
Import Ideal.
Context {Value : Type} `{JsonValue Value} {B : Type} `{BitmapLaws B} {C : Type} `{KVCache C string (list SegmentId)}.
Context {Sc : Type} `{ScorerLaws Sc} {N : Type} `{NoticeUrlBuilder N} {A : Type} `{ExchangeAdapter A Value}.
Context {U : Type} `{KVCacheLaws U Z (Z * Z)} {M : Type} `{KVCacheLaws M string U} {Wt : Type} `{MpscLaws Wt InProcess.WriteBehindOp}.
Context {K : Type} `{EventPublisher K} {Ch : Type} `{Mpsc Ch RedisCapper.ImpressionEvent} {R : Type} `{Redis R}.
Context {Mac : Type} `{Hmac Mac} {X : Type} `{Hex X} {D : Type} `{DedupStore D} (mac : Mac) (hex : X).
Context (heap_order : list AdCandidate -> list AdCandidate) (heap_order_perm : forall l, heap_order l ≡ₚ l).
Context (se : Service N A).
Implicit Types (p : Process B C Sc M Wt K Ch R D).
Local Notation handle := (handle mac hex heap_order se).

Lemma bid_ideal p (env : BidEnv RedisSegmentRepo.Env (InProcess.Env RedisCapper.Env)) body store now :
  healthy (ps_redis p) -> timely_read store (ps_redis p) (en_segments (bn_env env)) ->
  (forall idx, timely_check (ps_counters p) now (ps_redis p) (InProcess.iev_fallback (en_cap (bn_env env) idx))) ->
  let counts := seen_counts (ps_counters p) now (ps_local p) in
  let '(answer, st) := bid_through (stages_of heap_order (se_bid se) env) (se_bid se) env body
                           {| bs_world := world_of p; bs_publisher := ps_publisher p |} in
  bid heap_order (se_bid se)
    {| bn_env := Ideal.env (bn_env env); bn_started := bn_started env; bn_timestamp_ms := bn_timestamp_ms env |} body
    {| bs_world := with_parts store counts (world_of p); bs_publisher := ps_publisher p |} =
  (answer, {| bs_world := with_parts store counts (bs_world st); bs_publisher := bs_publisher st |}) /\
  healthy (w_repo (bs_world st)) /\ sees (ps_counters p) now counts (local_of (w_capper (bs_world st))).
Proof.
  intros Hh Hr Hc counts.
  assert (forall req now', settled_at (ps_counters p) now (ps_redis p) counts
    (BidContext_new (Value := Value) (B := B) req now') (world_of p)) as Hw.
  { intros req now'. destruct (capper_of_parts (ps_redis p) (ps_local p)) as [Hredis Hlocal].
    split; cbn; rewrite ?Hredis, ?Hlocal; try done. by apply Forall_replicate, NoDup_nil_2. }
  unfold bid, bid_through. destruct (decode_request _ _) as [req|x].
  2:{ split_and!; [done..|]. cbn. by destruct (capper_of_parts (ps_redis p) (ps_local p)) as [_ ->]. }
  pose proof (run_ideal (bn_env env) (bv_deadline_ms (se_bid se)) (ps_counters p) now (ps_redis p) store counts
    0 _ _ (BidContext_new req (bn_started env)) (world_of p)
    (pipeline_tracks heap_order heap_order_perm (bn_env env) (ps_counters p) now (ps_redis p) store counts
       Hr Hc (bv_top_k (se_bid se)) (bv_builder (se_bid se)) (adapter_id (bv_adapter (se_bid se)))) (Hw req (bn_started env))) as Hrun.
  unfold stages_of, execute. cbn [bn_env bn_started bn_timestamp_ms bs_world].
  destruct (run_stages (bn_env env) _ _ _ _ _) as [[r ctx] w]. destruct Hrun as (-> & [_ [Hh' _] Hs _]).
  destruct r as [[]|]; [|done]. destruct (outcome ctx); [done..|]. destruct (bid_response ctx); [|done].
  by destruct (encode_response _ _) as [[]|].
Qed.

(** [C9] What the wired bid endpoint promises over a healthy Redis.  The segment
    repository and the frequency capper share one breaker, hedge bucket and
    latency tracker, race hedged reads and keep an in-process layer; yet, while
    the breaker is closed with no error or slow call in its window and Redis
    answers the request's reads in time, a request completed in time is answered
    exactly as by a bid handler whose repository decodes the value stored under
    the key of the user asked for, and whose capper caps a candidate exactly when
    the impressions of its user and campaign have reached a cap: those the
    in-process layer remembers, or else the day and hour counters in Redis.  The
    events published and the segment cache, scorer and budgets left are the same,
    Redis stays healthy and the counters are seen as before, so that this holds
    again for the next request. *)
Theorem wired_endpoint_refines_handler p (env : BidEnv RedisSegmentRepo.Env (InProcess.Env RedisCapper.Env)) body latency stages_run
    (store : string -> option (list Z)) (now : Instant)
    (Htime : latency <= se_bid_timeout se) (Hhealthy : healthy (ps_redis p))
    (Hreads : timely_read store (ps_redis p) (en_segments (bn_env env)))
    (Hchecks : forall idx, timely_check (ps_counters p) now (ps_redis p)
                             (InProcess.iev_fallback (en_cap (bn_env env) idx))) :
  let counts := seen_counts (ps_counters p) now (ps_local p) in
  let '(answer, st) := bid heap_order (se_bid se)
       {| bn_env := Ideal.env (bn_env env); bn_started := bn_started env; bn_timestamp_ms := bn_timestamp_ms env |} body
       {| bs_world := with_parts store counts (world_of p); bs_publisher := ps_publisher p |} in
  let '(response, p') := handle p (EvBid env body latency stages_run) in
  response = match answer with Answered r => Some r | Panicked => None end /\
  ps_publisher p' = bs_publisher st /\ ps_cache p' = w_cache (bs_world st) /\ ps_scorer p' = w_scorer (bs_world st) /\
  sh_pacer (ps_tables p') = w_pacer (bs_world st) /\
  healthy (ps_redis p') /\ forall user c, seen_counts (ps_counters p') now (ps_local p') user c = counts user c.
Proof.
  intros counts. pose proof (bid_ideal p env body store now Hhealthy Hreads Hchecks) as Hb. fold counts in Hb. cbv zeta in Hb.
  cbn [Process.handle]. unfold serve_bid. rewrite (proj2 (Z.leb_le _ _) Htime).
  destruct (bid_through _ _ _ _ _) as [answer st]. destruct Hb as (-> & Hh & Hs).
  destruct answer as [r|]; [|done]. unfold timeout_middleware. by rewrite (proj2 (Z.leb_le _ _) Htime).
Qed.
End Contract.

(** ** A concrete server

    One campaign, capped at one impression per hour, that matches the request of
    the user u7, who is known to have segment 10; the in-process capper is on. *)
Module Sample.
Notation Proc := (Process (gset Z) (gmap string (list SegmentId)) FeatureWeightedScorer (gmap string (gmap Z (Z * Z)))
  (nat * list InProcess.WriteBehindOp) (list AdEvent.t) (nat * list RedisCapper.ImpressionEvent)
  (gmap string (Z * option Instant)) (gmap string Instant)).

Definition service : Service NoNoticeUrl OpenRtbGeneric.OpenRtbGenericAdapter := {|
  se_bid := Server.Sample.service;
  se_gate := WinNoticeGateService_new {| require_auth := false; cfg_secret := ""; cfg_secrets := ∅; dedup_ttl_secs := 3600;
                                         notice_base_url := "" |};
  se_bid_timeout := from_millis 50; se_win_timeout := from_millis 500 |}.

Definition db : Db := {|
  db_campaign := [(active, {| row_id := 1; row_advertiser_id := 7; row_bid_floor_cents := 150; row_daily_budget_cents := 10000;
                              row_hourly_budget_cents := 1000; row_daily_cap_imps := 10; row_hourly_cap_imps := 1 |})];
  db_creative := db_creative sample_db; db_segment := db_segment sample_db; db_targeting_segment := [(1, 10)];
  db_targeting_geo := []; db_targeting_device := []; db_targeting_format := [(1, "BANNER"%string)]; db_daypart := [] |}.

Lemma db_is_wf : db_wf db.
Proof.
  split; simpl; intros *; repeat setoid_rewrite elem_of_cons; repeat setoid_rewrite elem_of_nil; try naive_solver;
    intros [[= -> ->]|[]]; [unfold in_u32, u32_max; simpl; lia..|by eexists].
Qed.

Definition rows : Rows := run_queries db 0.
Definition tables : Loader.Shared (gset Z) Local.LocalBudgetPacer := {|
  sh_catalog := (Loader.build rows).1; sh_registry := (Loader.build (B := gset Z) rows).2;
  sh_pacer := Local.reload Local.new (budget_seeds (Loader.build (B := gset Z) rows).1); consecutive_failures := 0 |}.

Definition process (redis : RedisCapper.Shared) : Proc := {|
  ps_tables := tables; ps_cache := {["u7"%string := [10]]}; ps_redis := redis; ps_scorer := FeatureWeightedScorer_default;
  ps_local := Some (∅, (100%nat, [])); ps_publisher := []; ps_dedup := ∅; ps_recorder := (100%nat, []);
  ps_counters := ∅; ps_p95_ms := 0; ps_shed := {| requests_total := 0; shed_total := 0 |}; ps_prev := (0, 0) |}.

(** A request at time [t], for which Redis knows no impressions of u7. *)
Definition bid_env (t : Instant) : BidEnv RedisSegmentRepo.Env (InProcess.Env RedisCapper.Env) := {|
  bn_env := {| en_clock _ := t; en_secs := 0;
               en_segments := {| RedisSegmentRepo.sg_now_read := t; RedisSegmentRepo.sg_now_write := t;
                                 RedisSegmentRepo.sg_readable := true; RedisSegmentRepo.sg_first _ := (1, Ok None);
                                 RedisSegmentRepo.sg_second _ := (1, Ok None); RedisSegmentRepo.sg_prefer_first := true;
                                 RedisSegmentRepo.sg_elapsed := 1; RedisSegmentRepo.sg_now_record := t |};
               en_cap _ := {| InProcess.iev_now_read := t; InProcess.iev_now_write := t;
                              InProcess.iev_fallback := sample_env {| latency := Some 1; value := Ok [Some 0; Some 0] |} |} |};
  bn_started := t; bn_timestamp_ms := 0 |}.
Definition bid_at (t : Instant) : Event := EvBid (bid_env t) [123; 125] (from_millis 5) 0.
Definition won : Event :=
  EvWin {| wp_request_id := "req-1"; wp_imp_id := "imp-1"; wp_campaign_id := 1; wp_creative_id := 900;
           wp_clearing_price_micros := 1500000; wp_user_id := Some "u7"%string; wp_token := None; wp_exchange_id := None |}
        {| wv_now := 0; wv_fate := WinNotice.Answered 1; wv_secs := 0; wv_timestamp_ms := 0 |} 1.
(** Nothing is cached; u7's segments are stored in Redis, and one impression of
    campaign 1 in the hour that ends at 3600 s. *)
Definition store (key : string) : option (list Z) :=
  if bool_decide (key = RedisSegmentRepo.segment_key "u7") then Some [10; 0; 0; 0] else None.
Definition counting : Proc := {|
  ps_tables := tables; ps_cache := ∅; ps_redis := sample_shared; ps_scorer := FeatureWeightedScorer_default;
  ps_local := Some (∅, (100%nat, [])); ps_publisher := []; ps_dedup := ∅; ps_recorder := (100%nat, []);
  ps_counters := {[RedisCapper.fc_key "u7" "c" 1 Frequency.Hour := (1, Some (from_secs 3600))]};
  ps_p95_ms := 0; ps_shed := {| requests_total := 0; shed_total := 0 |}; ps_prev := (0, 0) |}.
Definition contract_env (t : Instant) : BidEnv RedisSegmentRepo.Env (InProcess.Env RedisCapper.Env) := {|
  bn_env := {| en_clock _ := t; en_secs := 0;
               en_segments := {| RedisSegmentRepo.sg_now_read := t; RedisSegmentRepo.sg_now_write := t;
                                 RedisSegmentRepo.sg_readable := true; RedisSegmentRepo.sg_first key := (1, Ok (store key));
                                 RedisSegmentRepo.sg_second key := (1, Ok (store key)); RedisSegmentRepo.sg_prefer_first := true;
                                 RedisSegmentRepo.sg_elapsed := 1; RedisSegmentRepo.sg_now_record := t |};
               en_cap _ := {| InProcess.iev_now_read := t; InProcess.iev_now_write := t;
                              InProcess.iev_fallback := reading_env (ps_counters counting) t |} |};
  bn_started := t; bn_timestamp_ms := 0 |}.
Import Ideal.
Definition contract (t : Instant) : Answer :=
  (bid (fun l => l) (se_bid service)
    {| bn_env := Ideal.env (bn_env (contract_env t)); bn_started := t; bn_timestamp_ms := 0 |} [123; 125]
    {| bs_world := with_parts store (seen_counts (ps_counters counting) t (ps_local counting)) (world_of counting);
       bs_publisher := [] |}).1.
Definition run (p : Proc) (evs : list Event) : Proc := run_events tt tt (fun l => l) service p evs.
End Sample.

(** A first request caches u7; then u7 wins, the impression reaches Redis, where
    the hourly cap of one is reached, and a second request is answered with a bid
    (the third event published) all the same. *)
Lemma cached_counts_are_final_witness :
  let p1 := Sample.run (Sample.process sample_shared) [Sample.bid_at 0] in
  let p2 := Sample.run p1 [Sample.won; EvWorker (Some 2) (Some 2); Sample.bid_at 5] in
  redis_get (ps_counters p2) 5 (RedisCapper.fc_key "u7" "c" 1 Frequency.Hour) = Some 1 /\ length (ps_publisher p2) = 3%nat /\
  cached (ps_local p2) "u7" 1 = Some (0, 0).
Proof.
  intros p1 p2. split; [vm_compute; reflexivity|]. split; [vm_compute; reflexivity|].
  apply (cached_counts_are_final tt tt (fun l => l) Sample.service p1
    [Sample.won; EvWorker (Some 2) (Some 2); Sample.bid_at 5] "u7" 1 0 0); [vm_compute; reflexivity|].
  rewrite !not_elem_of_cons. split_and!; try discriminate. apply not_elem_of_nil.
Defined.

(** The breaker opened a minute ago; one request of a user whose segments are
    cached loses the probe, and a day later nothing has changed. *)
Lemma lost_probe_is_final_witness :
  let open := {| cfg := redis "redis"; window := Window_new;
                 inner := {| state := Open; opened_at := Some 0; half_open_probe_in_flight := false |} |} in
  let p1 := Sample.run (Sample.process (share_breaker sample_shared open)) [Sample.bid_at (from_secs 60)] in
  let p2 := Sample.run p1 [Sample.bid_at (from_secs 86400); EvFeedback] in
  RedisCapper.rs_breaker (ps_redis p2) = RedisCapper.rs_breaker (ps_redis p1).
Proof.
  intros open p1 p2.
  apply (lost_probe_is_final tt tt (fun l => l) Sample.service p1 [Sample.bid_at (from_secs 86400); EvFeedback]).
  vm_compute. auto.
Defined.

(** The request of u7 is answered with a bid. *)
Lemma served_bids_match_the_tables_witness :
  let p := Sample.process sample_shared in
  exists imp cid crid price, db_serves Sample.db 0 (PipelineProps.Sample.request None) [10] imp cid crid price.
Proof.
  intros p.
  assert (forall resp p2, handle tt tt (fun l => l) Sample.service p (Sample.bid_at 0) = (Some resp, p2) -> rs_status resp = OK ->
    exists imp cid crid price, db_serves Sample.db 0 (PipelineProps.Sample.request None) [10] imp cid crid price) as Hany.
  { intros resp p2 Hbid Hok.
    destruct (served_bids_match_the_tables tt tt (fun l => l) PipelineProps.Sample.order_id Sample.service p Sample.rows [] Sample.db 0
      (Sample.bid_env 0) [123; 125] (from_millis 5) 0 resp p2 eq_refl ltac:(repeat constructor; vm_compute; discriminate)
      (Forall_nil_2 _) Sample.db_is_wf (run_queries_answers Sample.db 0) Hbid Hok) as (req & rsp & sb & ct & Hreq & _ & _ & _ & Hne & Hb).
    injection Hreq as <-.
    assert (exists b, b ∈ sb_bid sb) as [b Hin] by (clear -Hne; destruct (sb_bid sb) as [|b l]; [done|]; exists b; left).
    destruct (Hb b Hin) as (imp & cid & crid & price & left & _ & _ & _ & _ & _ & Hs & _).
    by exists imp, cid, crid, price. }
  set (r := handle tt tt (fun l => l) Sample.service p (Sample.bid_at 0)) in *.
  assert (match r.1 with Some resp => rs_status resp = OK | None => False end) as Hok by (vm_compute; reflexivity).
  clearbody r. destruct r as [[resp|] p2]; [|done]. by eapply Hany.
Defined.

(** The request of u7 while the hour in which campaign 1 reached its cap lasts, and
    two hours later: no bid, then a bid; both as the contract has it. *)
Lemma wired_endpoint_refines_handler_witness :
  let answer t := (handle tt tt (fun l => l) Sample.service Sample.counting (EvBid (Sample.contract_env t) [123; 125] (from_millis 5) 0)).1 in
  (rs_status <$> answer (from_secs 60)) = Some NO_CONTENT /\ (rs_status <$> answer (from_secs 7200)) = Some OK /\
  forall t, answer t = match Sample.contract t with Answered r => Some r | Panicked => None end.
Proof.
  intros answer. split; [vm_compute; reflexivity|]. split; [vm_compute; reflexivity|]. intros t.
  pose proof (wired_endpoint_refines_handler tt tt (fun l => l) PipelineProps.Sample.order_id Sample.service Sample.counting
    (Sample.contract_env t) [123; 125] (from_millis 5) 0 Sample.store t) as Hc. cbv zeta in Hc.
  unfold answer, Sample.contract. destruct (bid _ _ _ _ _) as [a st]. destruct (handle _ _ _ _ _ _) as [response p'].
  apply Hc.
  - vm_compute. discriminate.
  - split; [by split_and!|]. vm_compute. repeat split; discriminate || reflexivity.
  - split; [by split|vm_compute; reflexivity].
  - intros idx. split; [|vm_compute; reflexivity]. intros keys. split_and!; [vm_compute; reflexivity|done|done].
Defined.
