(* ===== verification/TestKit.v ===== *)
(** * Running the repository's unit tests

    A unit test of the repository, transcribed over the definitions of the model, is
    a boolean: a conjunction of assertions, or a script of calls on a state that the
    assertions read.  A script that fails an assertion stops there. *)
From S2P Require Import Prelude.

Declare Scope test_scope.
Delimit Scope test_scope with test.

(** [assert_eq!] *)
Definition assert_eq {A} `{EqDecision A} (a b : A) : bool := bool_decide (a = b).

(** A script: [None] after a failed assertion. *)
Definition Script (S A : Type) : Type := S -> option (A * S).
Definition script_ret {S A} (a : A) : Script S A := fun s => Some (a, s).
Definition script_bind {S A B} (m : Script S A) (k : A -> Script S B) : Script S B :=
  fun s => match m s with Some (a, s) => k a s | None => None end.
(** A call that changes the state, one that also returns, one that only reads. *)
Definition update {S} (f : S -> S) : Script S unit := fun s => Some (tt, f s).
Definition call {S A} (f : S -> A * S) : Script S A := fun s => Some (f s).
Definition read {S A} (f : S -> A) : Script S A := fun s => Some (f s, s).
Definition assert {S} (b : bool) : Script S unit := fun s => if b then Some (tt, s) else None.
Fixpoint repeat_script {S} (n : nat) (m : Script S unit) : Script S unit :=
  match n with 0%nat => script_ret tt | Datatypes.S n => script_bind m (fun _ => repeat_script n m) end.

Definition passes {S A} (m : Script S A) (s : S) : bool := match m s with Some _ => true | None => false end.

Notation "x <- m ; k" := (script_bind m (fun x => k)) (at level 100, m at next level, right associativity, only parsing) : test_scope.
Notation "m ;; k" := (script_bind m (fun _ => k)) (at level 100, k at level 200, right associativity, only parsing) : test_scope.

(** The tests of one source file, by name. *)
Definition Suite : Type := list (string * bool).
Definition all_pass (l : Suite) : bool := forallb snd l.
Definition failing (l : Suite) : list string := fst <$> filter (fun t => t.2 = false) l.

(** No failing test is no failure. *)
Lemma all_pass_failing l : failing l = [] -> all_pass l = true.
Proof.
  unfold failing, all_pass. induction l as [|[n []] l IH]; [done|..]; rewrite ?filter_cons; cbn; [|done].
  intros H. apply IH, H.
Qed.
