(* ===== verification/CoreTests.v ===== *)
(** * Unit tests of the shared state

    The tests of [clock.rs], [pacing/local.rs], [breaker/mod.rs], [hedge.rs],
    [hedge_feedback.rs], [kafka_incident.rs], [targeting/mod.rs] and
    [catalog/types.rs], over the definitions that model these files.  A [sleep] is a
    later reading of the clock. *)
From S2P Require Import Prelude Floats Config Pacing Breaker Catalog Model Hedge Kafka TestKit.

Module Clock.
Definition MONDAY_2024_01_01_UTC : Z := 1704067200.
Definition SATURDAY_2024_01_06_1230_UTC : Z := 1704544200.
Definition SUNDAY_2024_01_07_END_UTC : Z := 1704671999.

Definition day_and_hour_known_values : bool :=
  assert_eq (day_and_hour_from_unix MONDAY_2024_01_01_UTC) (0, 0) &&
  assert_eq (day_and_hour_from_unix SATURDAY_2024_01_06_1230_UTC) (5, 12) &&
  assert_eq (day_and_hour_from_unix SUNDAY_2024_01_07_END_UTC) (6, 23).
Definition epoch_was_a_thursday : bool := assert_eq (day_and_hour_from_unix 0) (3, 0).
(** The pattern against itself, as the test has it, and against [is_weekend_utc]. *)
Definition weekend_classification_via_helper : bool :=
  forallb (fun day =>
    let secs := MONDAY_2024_01_01_UTC + Z.of_nat day * 86400 in
    let dow := (day_and_hour_from_unix secs).1 in
    let is_weekend_expected := bool_decide (dow = 5 \/ dow = 6) in
    assert_eq (bool_decide (dow = 5 \/ dow = 6)) is_weekend_expected && assert_eq (is_weekend_utc secs) is_weekend_expected) (seq 0 7).
Definition suite : Suite := [
  ("day_and_hour_known_values", day_and_hour_known_values); ("epoch_was_a_thursday", epoch_was_a_thursday);
  ("weekend_classification_via_helper", weekend_classification_via_helper)]%string.
End Clock.

Module Pacer.
Import Local.
Local Open Scope test_scope.
Definition pacer_with (budgets : list (Z * Z)) : LocalBudgetPacer := reload new budgets.
Definition try (id bid : Z) : Script LocalBudgetPacer PaceDecision := call (fun p => check_and_reserve p id bid).
Definition expect (id bid : Z) (d : PaceDecision) : Script LocalBudgetPacer unit := d' <- try id bid; assert (assert_eq d' d).

Definition has_budget_decrements_counter : bool :=
  passes (expect 1 100 HasBudget;; expect 1 100 HasBudget;; expect 1 300 HasBudget) (pacer_with [(1, 500)]).
Definition exhausted_when_budget_zero : bool := passes (expect 1 1 Exhausted) (pacer_with [(1, 0)]).
Definition allows_one_overshoot_then_blocks : bool :=
  passes (expect 1 100 HasBudget;; expect 1 1 Exhausted) (pacer_with [(1, 50)]).
Definition missing_campaign_is_exhausted : bool := passes (expect 99 10 Exhausted) new.
Definition release_restores_budget : bool :=
  passes (try 1 100;; expect 1 1 Exhausted;; update (fun p => release p 1 100);; expect 1 100 HasBudget) (pacer_with [(1, 100)]).
Definition reload_updates_existing_budget : bool :=
  passes (try 1 100;; update (fun p => reload p [(1, 500)]);; expect 1 500 HasBudget) (pacer_with [(1, 100)]).
Definition suite : Suite := [
  ("has_budget_decrements_counter", has_budget_decrements_counter); ("exhausted_when_budget_zero", exhausted_when_budget_zero);
  ("allows_one_overshoot_then_blocks", allows_one_overshoot_then_blocks);
  ("missing_campaign_is_exhausted", missing_campaign_is_exhausted); ("release_restores_budget", release_restores_budget);
  ("reload_updates_existing_budget", reload_updates_existing_budget)]%string.
End Pacer.

Module BreakerSuite.
Local Open Scope test_scope.
Definition fast_cfg : BreakerConfig := {|
  bc_name := "test"; min_calls := 3; error_rate_threshold := f64_div (f64_of_Z 1) (f64_of_Z 2);
  slow_call_ratio_threshold := f64_div (f64_of_Z 1) (f64_of_Z 2); slow_call_duration := from_millis 100;
  open_duration := from_millis 50; window_size := 10 |}.

(** The breaker and the clock. *)
Definition State : Type := CircuitBreaker * Instant.
Definition start : State := (CircuitBreaker_new fast_cfg, 0).
Definition allow : Script State bool := call (fun s => let '(b, cb) := allow_request s.1 s.2 s.2 in (b, (cb, s.2))).
Definition outcome (error : bool) (ms : Z) : Script State unit := update (fun s => (record_outcome s.1 error (from_millis ms) s.2, s.2)).
Definition sleep (ms : Z) : Script State unit := update (fun s => (s.1, s.2 + from_millis ms)).
Definition in_state (b : BreakerState) : Script State unit := b' <- read (fun s => breaker_state s.1); assert (assert_eq b' b).
Definition allowed (b : bool) : Script State unit := b' <- allow; assert (assert_eq b' b).

Definition starts_closed_and_allows_requests : bool := passes (in_state Closed;; allowed true) start.
Definition opens_after_error_rate_threshold : bool :=
  passes (repeat_script 3 (outcome true 1);; in_state Open;; allowed false) start.
Definition opens_after_slow_call_ratio_threshold : bool := passes (repeat_script 3 (outcome false 200);; in_state Open) start.
Definition does_not_open_below_min_calls : bool := passes (repeat_script 2 (outcome true 1);; in_state Closed) start.
Definition transitions_open_to_half_open_after_duration : bool :=
  passes (repeat_script 3 (outcome true 1);; in_state Open;; sleep 60;; allowed true;; in_state HalfOpen) start.
Definition half_open_allows_only_one_probe : bool :=
  passes (repeat_script 3 (outcome true 1);; sleep 60;; allowed true;; allowed false) start.
Definition closes_after_successful_probe : bool :=
  passes (repeat_script 3 (outcome true 1);; sleep 60;; allow;; outcome false 1;; in_state Closed) start.
Definition reopens_after_failed_probe : bool :=
  passes (repeat_script 3 (outcome true 1);; sleep 60;; allow;; outcome true 1;; in_state Open) start.
Definition suite : Suite := [
  ("starts_closed_and_allows_requests", starts_closed_and_allows_requests);
  ("opens_after_error_rate_threshold", opens_after_error_rate_threshold);
  ("opens_after_slow_call_ratio_threshold", opens_after_slow_call_ratio_threshold);
  ("does_not_open_below_min_calls", does_not_open_below_min_calls);
  ("transitions_open_to_half_open_after_duration", transitions_open_to_half_open_after_duration);
  ("half_open_allows_only_one_probe", half_open_allows_only_one_probe);
  ("closes_after_successful_probe", closes_after_successful_probe);
  ("reopens_after_failed_probe", reopens_after_failed_probe)]%string.
End BreakerSuite.

Module HedgeSuite.
Local Open Scope test_scope.
Definition closed_breaker : CircuitBreaker := CircuitBreaker_new (redis "test").
(** A call whose attempts take [ms] and return [v]. *)
Definition hedge (ms : Z) (v : Z) (trigger : Duration) (budget : HedgeBudget) : HedgeRun Z :=
  let attempt := {| latency := Some (from_millis ms); value := v |} in
  hedged_call attempt attempt trigger (is_closed_sync closed_breaker true) true None budget.

Definition fast_path_returns_without_hedge : bool :=
  let r := hedge 0 42 (from_secs 10) (HedgeBudget_new 100) in
  assert_eq (hr_result r) (Some 42) && assert_eq (hr_calls r) 1%nat.
Definition hedge_fires_exactly_two_calls : bool :=
  let r := hedge 50 99 (from_millis 5) (HedgeBudget_new 100) in
  assert_eq (hr_result r) (Some 99) && assert_eq (hr_calls r) 2%nat.
Definition hedge_blocked_when_budget_exhausted : bool :=
  assert_eq (hr_calls (hedge 50 0 (from_millis 5) (HedgeBudget_new 0))) 1%nat.

Definition consumes (b : bool) : Script HedgeBudget unit := b' <- call try_consume; assert (assert_eq b' b).
Definition restore_does_not_exceed_capacity : bool :=
  passes (repeat_script 10 (consumes true);; consumes false;; repeat_script 20 (update restore);;
          t <- read tokens; assert (t <=? 10)) (HedgeBudget_new 10).
Definition cap_is (n : Z) : Script HedgeBudget unit := c <- read effective_cap; assert (assert_eq c n).
Definition set_load_shed_rate_contracts_budget : bool :=
  passes (update (fun b => set_load_shed_rate b (f64_div (f64_of_Z 2) (f64_of_Z 100)));; cap_is 20;;
          update (fun b => set_load_shed_rate b (f64_div (f64_of_Z 6) (f64_of_Z 100)));; cap_is 0;; consumes false;;
          update (fun b => set_load_shed_rate b (f64_of_Z 0));; cap_is 100) (HedgeBudget_new 100).
Definition suite : Suite := [
  ("fast_path_returns_without_hedge", fast_path_returns_without_hedge);
  ("hedge_fires_exactly_two_calls", hedge_fires_exactly_two_calls);
  ("hedge_blocked_when_budget_exhausted", hedge_blocked_when_budget_exhausted);
  ("restore_does_not_exceed_capacity", restore_does_not_exceed_capacity);
  ("set_load_shed_rate_contracts_budget", set_load_shed_rate_contracts_budget)]%string.
End HedgeSuite.

Module FeedbackSuite.
Local Open Scope test_scope.
Definition load_shed_tracker_counts : bool :=
  passes (update record_request;; update record_request;; update record_shed;;
          c <- read shed_snapshot; assert (assert_eq c (2, 1))) {| requests_total := 0; shed_total := 0 |}.
Definition tracker : RedisLatencyTracker := {| lat_count := 0; lat_sum_us := 0 |}.
Definition redis_latency_tracker_drains : bool :=
  passes (update (fun t => record_latency t (from_millis 5));; update (fun t => record_latency t (from_millis 15));;
          d <- call drain_latency; assert (assert_eq d (2, 20000));;
          d <- call drain_latency; assert (assert_eq d (0, 0))) tracker.
Definition redis_latency_tracker_preserves_sub_ms : bool :=
  passes (update (fun t => record_latency t (from_micros 300));; update (fun t => record_latency t (from_micros 450));;
          d <- call drain_latency; assert (assert_eq d (2, 750))) tracker.
Definition suite : Suite := [
  ("load_shed_tracker_counts", load_shed_tracker_counts); ("redis_latency_tracker_drains", redis_latency_tracker_drains);
  ("redis_latency_tracker_preserves_sub_ms", redis_latency_tracker_preserves_sub_ms)]%string.
End FeedbackSuite.

Module IncidentSuite.
Definition auto_flip_disabled_for_static_policies : bool :=
  let s := KafkaIncidentState_new KafkaDropPolicy.Newest in
  negb (auto_flip s) && assert_eq (effective_policy s) EffectivePolicy.Newest.
Definition incident_mode_starts_at_base_with_auto_flip_on : bool :=
  let s := KafkaIncidentState_new KafkaDropPolicy.IncidentMode in
  auto_flip s && assert_eq (effective_policy s) EffectivePolicy.Newest.
Definition counters_increment : bool :=
  assert_eq (snapshot (record_dropped (record_published (record_published (KafkaIncidentState_new KafkaDropPolicy.Newest))))) (2, 1).
Definition suite : Suite := [
  ("auto_flip_disabled_for_static_policies", auto_flip_disabled_for_static_policies);
  ("incident_mode_starts_at_base_with_auto_flip_on", incident_mode_starts_at_base_with_auto_flip_on);
  ("counters_increment", counters_increment)]%string.
End IncidentSuite.

Module RegistrySuite.
Definition resolve_known_and_unknown : bool :=
  let reg := registry_insert (registry_insert registry_default "sports-fans" 1) "gamers" 2 in
  assert_eq (registry_resolve reg ["sports-fans"; "unknown"; "gamers"]%string) [1; 2].
Definition resolve_empty_input : bool :=
  assert_eq (registry_resolve (registry_insert registry_default "sports-fans" 1) []) [].
Definition len_and_is_empty : bool :=
  let reg := registry_insert registry_default "a" 1 in
  assert_eq (registry_len registry_default) 0%nat && assert_eq (registry_len reg) 1%nat && negb (assert_eq (registry_len reg) 0%nat).
Definition openrtb_device_mapping : bool :=
  forallb (fun '(code, d) => assert_eq (from_openrtb code) d)
    [(1, Mobile); (4, Mobile); (2, Desktop); (5, Tablet); (3, Ctv); (6, Ctv); (7, Ctv); (0, Other); (255, Other)].
Definition suite : Suite := [
  ("resolve_known_and_unknown", resolve_known_and_unknown); ("resolve_empty_input", resolve_empty_input);
  ("len_and_is_empty", len_and_is_empty); ("openrtb_device_mapping", openrtb_device_mapping)]%string.
End RegistrySuite.

Definition core_suite : Suite :=
  Clock.suite ++ Pacer.suite ++ BreakerSuite.suite ++ HedgeSuite.suite ++ FeedbackSuite.suite ++ IncidentSuite.suite ++ RegistrySuite.suite.

Lemma core_suite_passes : failing core_suite = [].
Proof. vm_compute. reflexivity. Qed.
