(* ===== verification/StageTests.v ===== *)
(** * Unit tests of retrieval, stages and scorers

    The tests of [catalog/campaign_catalog.rs], of the stages [candidate_limit.rs]
    and [ranking.rs], and of [scoring/], over the definitions that model these
    files.  Bitmaps are the [gset] instance; a test reads a bitmap's iterator in
    ascending order. *)
From S2P Require Import Prelude Floats OpenRtb Bitmap Catalog Model Externals Pacing Frequency Scoring Ml Segments.
From S2P Require Import Pipeline PipelineProps TestKit.
Import PipelineProps.Sample (Json, json_value, fixed_segments, fixed_capper).

(** [|a - b| < eps] *)
Definition near (eps a b : f32) : bool := flt (SFabs (f32_sub a b)) eps.
Definition micro : f32 := f32_lit 1 1000000.
Definition feq (a b : f32) : bool := SFeqb a b.

(** A bitmap and its elements in order. *)
Definition bitmap (l : list Z) : gset Z := bm_of_list l.
Definition ids (b : gset Z) : list Z := bm_iter b.

(** [CampaignCatalog::new_for_test] *)
Definition values_union {K} `{Countable K} (index : gmap K (gset Z)) : gset Z :=
  foldl (fun acc bm => bm_or acc bm) bm_new (map_to_list index).*2.
Definition new_for_test (campaigns : gmap CampaignId Campaign) (creatives : gmap CampaignId (list Creative))
    (segments : gmap SegmentId (gset Z)) (geos : gmap GeoKey (gset Z)) (devices : gmap DeviceTargetType (gset Z))
    (formats : gmap AdFormat.t (gset Z)) (daypart all : gset Z) : CampaignCatalog (gset Z) := {|
  campaigns := campaigns; creatives := creatives; segment_to_campaigns := segments; geo_to_campaigns := geos;
  device_to_campaigns := devices; format_to_campaigns := formats; daypart_active_now := daypart; all_campaigns := all;
  device_unrestricted := bm_sub all (values_union devices); format_unrestricted := bm_sub all (values_union formats) |}.

(** A campaign of a catalog built this way is unrestricted in a dimension exactly
    when no entry of its index names it. *)
Lemma new_for_test_unrestricted cs crs segs geos devs fmts day all id :
  id ∈ device_unrestricted (new_for_test cs crs segs geos devs fmts day all) <->
  id ∈ all /\ forall d b, devs !! d = Some b -> id ∉ b.
Proof.
  assert (forall (l : list (gset Z)) acc, id ∈ foldl (fun acc bm => bm_or acc bm) acc l <-> id ∈ acc \/ exists b, b ∈ l /\ id ∈ b) as Hu.
  { induction l as [|b l IH]; intros acc; cbn; [set_solver|]. rewrite IH. change (bm_or acc b) with (acc ∪ b). set_solver. }
  cbn. change (bm_sub all (values_union devs)) with (all ∖ values_union devs). rewrite elem_of_difference. unfold values_union.
  rewrite Hu. split; intros [Hall Hn]; (split; [done|]).
  - intros d b Hd Hid. apply Hn. right. exists b. split; [|done]. apply list_elem_of_fmap. exists (d, b). split; [done|]. by apply elem_of_map_to_list.
  - intros [[]%not_elem_of_empty|(b & Hb & Hid)]. apply list_elem_of_fmap in Hb as ([d b'] & -> & Hd). by apply elem_of_map_to_list, Hn in Hd.
Qed.

Module CatalogSuite.
Definition make_catalog : CampaignCatalog (gset Z) := {|
  campaigns := ∅; creatives := ∅;
  segment_to_campaigns := {[10 := bitmap [1; 2]; 20 := bitmap [2; 3]]}; geo_to_campaigns := ∅;
  device_to_campaigns := {[Mobile := bitmap [1; 2; 3]]}; format_to_campaigns := {[AdFormat.Banner := bitmap [1; 3]]};
  daypart_active_now := bitmap []; all_campaigns := bitmap [1; 2; 3];
  device_unrestricted := bitmap []; format_unrestricted := bitmap [2] |}.
Definition req (segments : list SegmentId) (device : option DeviceTargetType) (format : option AdFormat.t) : CandidateRequest :=
  {| rq_segment_ids := segments; rq_geo_keys := None; rq_device_type := device; rq_ad_format := format |}.
Definition answer (cat : CampaignCatalog (gset Z)) (r : CandidateRequest) : list Z := ids (candidates_for cat r).

Definition no_restrictions_returns_all : bool := assert_eq (length (answer make_catalog (req [] None None))) 3%nat.
Definition segment_union_then_device_intersection : bool :=
  assert_eq (length (answer make_catalog (req [10; 20] (Some Mobile) None))) 3%nat.
Definition format_intersection_narrows_results : bool :=
  assert_eq (answer make_catalog (req [10] None (Some AdFormat.Banner))) [1; 2].
Definition unknown_device_returns_empty : bool := bm_is_empty (candidates_for make_catalog (req [] (Some Ctv) None)).
Definition unrestricted_campaign_survives_device_filter : bool :=
  let cat := new_for_test ∅ ∅ ∅ ∅ {[Mobile := bitmap [1]]} ∅ (bitmap []) (bitmap [1; 99]) in
  let cat := {| campaigns := campaigns cat; creatives := creatives cat; segment_to_campaigns := segment_to_campaigns cat;
                geo_to_campaigns := geo_to_campaigns cat; device_to_campaigns := device_to_campaigns cat;
                format_to_campaigns := format_to_campaigns cat; daypart_active_now := daypart_active_now cat;
                all_campaigns := all_campaigns cat; device_unrestricted := device_unrestricted cat;
                format_unrestricted := bitmap [] |} in
  let result := answer cat (req [] (Some Desktop) None) in
  bool_decide (99 ∈ result) && bool_decide (1 ∉ result).
Definition anonymous_traffic_with_no_filters_returns_all_unchanged : bool :=
  assert_eq (answer make_catalog (req [] None None)) (ids (all_campaigns make_catalog)).
Definition lazy_universe_seeded_by_first_filter_skips_segment_clone : bool :=
  assert_eq (answer make_catalog (req [] (Some Mobile) None)) [1; 2; 3].
Definition empty_catalog_returns_empty : bool :=
  bm_is_empty (candidates_for (catalog_default (B := gset Z)) (req [] None None)).
Definition suite : Suite := [
  ("no_restrictions_returns_all", no_restrictions_returns_all);
  ("segment_union_then_device_intersection", segment_union_then_device_intersection);
  ("format_intersection_narrows_results", format_intersection_narrows_results);
  ("unknown_device_returns_empty", unknown_device_returns_empty);
  ("unrestricted_campaign_survives_device_filter", unrestricted_campaign_survives_device_filter);
  ("anonymous_traffic_with_no_filters_returns_all_unchanged", anonymous_traffic_with_no_filters_returns_all_unchanged);
  ("lazy_universe_seeded_by_first_filter_skips_segment_clone", lazy_universe_seeded_by_first_filter_skips_segment_clone);
  ("empty_catalog_returns_empty", empty_catalog_returns_empty)]%string.
End CatalogSuite.

(** ** The stages *)

Definition no_imp (id : string) : Imp Json :=
  Build_Imp id None None None None None None None 0 None None None 0 0 [] None None None None.
(** A request of which only the ids are given. *)
Definition bare_request (id : string) (imps : list string) : BidRequest Json :=
  Build_BidRequest id (no_imp <$> imps) None None None None None None None [] [] None [] [] [] [] None None 0 None.
Definition ad (campaign creative price : Z) (score : f32) : AdCandidate := {|
  ac_campaign_id := campaign; ac_creative_id := creative; ac_bid_price_cents := price; ac_score := score;
  ac_daily_cap_imps := u32_max; ac_hourly_cap_imps := u32_max |}.

Definition TestWorld : Type :=
  World (gset Z) (gmap string (list SegmentId)) (list SegmentId) FeatureWeightedScorer unit Local.LocalBudgetPacer.
Definition TestStage : Type :=
  Stage Json (gset Z) (gmap string (list SegmentId)) (list SegmentId) FeatureWeightedScorer unit Local.LocalBudgetPacer.
Definition world_with (budgets : list (Z * Z)) : TestWorld := {|
  w_catalog := catalog_default; w_cache := ∅; w_repo := []; w_scorer := FeatureWeightedScorer_default; w_capper := tt;
  w_pacer := Local.reload Local.new budgets |}.
Definition run_stage (st : TestStage) (req : BidRequest Json) (cands : list (list AdCandidate)) (w : TestWorld)
  : BidContext Json (gset Z) := (stage_execute st (set_candidates (BidContext_new req 0) cands) w).1.2.

Module LimitSuite.
Definition execute (top_k : nat) (cands : list AdCandidate) : list AdCandidate :=
  unwrap_or (candidates (run_stage (candidate_limit (fun l => l) top_k) (bare_request "t" ["i1"%string]) [cands] (world_with [])) !! 0%nat) [].
Definition candidate (id price : Z) : AdCandidate := ad id 1 price (f32_of_Z 0).

Definition keeps_top_k_by_price : bool :=
  assert_eq (sort_by Z.compare (ac_bid_price_cents <$>
    execute 3 [candidate 1 10; candidate 2 50; candidate 3 30; candidate 4 80; candidate 5 20])) [30; 50; 80].
Definition noop_when_under_limit : bool := assert_eq (length (execute 10 [candidate 1 100; candidate 2 200])) 2%nat.
Definition noop_on_empty : bool := assert_eq (length (execute 5 [])) 0%nat.
Definition suite : Suite := [
  ("keeps_top_k_by_price", keeps_top_k_by_price); ("noop_when_under_limit", noop_when_under_limit); ("noop_on_empty", noop_on_empty)]%string.
End LimitSuite.

Module RankingSuite.
Definition execute (cands : list (list AdCandidate)) : BidContext Json (gset Z) :=
  run_stage ranking (bare_request "test" ["imp1"; "imp2"]%string) cands
    (world_with [(1, 100000); (2, 100000); (3, 100000); (4, 100000); (10, 100000); (20, 100000)]).
Definition candidate (id : Z) (tenths : Z) : AdCandidate := ad id 1 100 (f32_lit tenths 10).
Definition winner_ids (ctx : BidContext Json (gset Z)) : list Z := iw_campaign_id <$> winners ctx.

Definition picks_highest_score : bool :=
  let ctx := execute [[candidate 1 3; candidate 2 8; candidate 3 5]] in
  assert_eq (winner_ids ctx) [2] && assert_eq (outcome ctx) OutcomeBid.
Definition empty_candidates_gives_no_bid : bool :=
  let ctx := execute [[]] in
  assert_eq (length (winners ctx)) 0%nat && assert_eq (outcome ctx) (NoBid NO_ELIGIBLE_BIDS).
Definition one_winner_per_impression : bool :=
  assert_eq (winner_ids (execute [[candidate 1 9; candidate 2 5]; [candidate 3 7; candidate 4 2]])) [1; 3].
Definition tie_broken_by_price : bool :=
  assert_eq (winner_ids (execute [[ad 10 1 50 (f32_lit 5 10); ad 20 1 200 (f32_lit 5 10)]]) !! 0%nat) (Some 20).
Definition suite : Suite := [
  ("picks_highest_score", picks_highest_score); ("empty_candidates_gives_no_bid", empty_candidates_gives_no_bid);
  ("one_winner_per_impression", one_winner_per_impression); ("tie_broken_by_price", tie_broken_by_price)]%string.
End RankingSuite.

(** ** The scorers *)

Definition ctx_with (segments : list SegmentId) : ScoringContext := {|
  sc_segment_ids := segments; sc_device_type := None; sc_ad_format := None; sc_hour_of_day := 12; sc_is_weekend := false;
  sc_user_id := ""; sc_is_top_market := false |}.
Definition ctx : ScoringContext := ctx_with [].
Definition in_unit (s : f32) : bool := fge s (f32_of_Z 0) && fle s (f32_of_Z 1).

Module FeatureSuite.
(** The tests read no logarithm. *)
Definition features (c : ScoringContext) : ScoringFeatures := extract (fun x => x) (ad 5 1 500 (f32_of_Z 0)) c.
Definition weekend (b : bool) : ScoringContext := {|
  sc_segment_ids := []; sc_device_type := None; sc_ad_format := None; sc_hour_of_day := 12; sc_is_weekend := b;
  sc_user_id := ""; sc_is_top_market := false |}.
Definition on_mobile : ScoringContext := {|
  sc_segment_ids := []; sc_device_type := Some Mobile; sc_ad_format := None; sc_hour_of_day := 12; sc_is_weekend := false;
  sc_user_id := ""; sc_is_top_market := false |}.

Definition pack_layout_matches_feature_count : bool :=
  let row := pack (features ctx) in
  assert_eq (length row) FEATURE_COUNT &&
  match row with r :: _ => near micro r (f32_lit 5 10) | [] => false end.
Definition is_weekend_propagates_into_feature_vector : bool :=
  feq (is_weekend (features (weekend true))) (f32_of_Z 1) && feq (is_weekend (features (weekend false))) (f32_of_Z 0).
Definition device_one_hot_exclusive : bool :=
  let f := features on_mobile in
  feq (device_desktop f) (f32_of_Z 0) && feq (device_mobile f) (f32_of_Z 1) && feq (device_tablet f) (f32_of_Z 0) &&
  feq (device_ctv f) (f32_of_Z 0).
Definition suite : Suite := [
  ("pack_layout_matches_feature_count", pack_layout_matches_feature_count);
  ("is_weekend_propagates_into_feature_vector", is_weekend_propagates_into_feature_vector);
  ("device_one_hot_exclusive", device_one_hot_exclusive)]%string.
End FeatureSuite.

Module WeightedSuite.
Definition candidate (id price : Z) : AdCandidate := ad id 1 price (f32_of_Z 0).
Definition scores (s : FeatureWeightedScorer) (l : list AdCandidate) (c : ScoringContext) : list f32 := ac_score <$> (score_all s l c).1.

Definition scores_are_in_range : bool :=
  forallb in_unit (scores FeatureWeightedScorer_default [candidate 1 0; candidate 2 500; candidate 3 1000] (ctx_with [10; 20; 30])).
Definition higher_price_candidate_scores_higher_when_same_overlap : bool :=
  let scorer := {| weight_price := f32_of_Z 1; weight_segment_overlap := f32_of_Z 0; max_bid_price_cents := f32_of_Z 1000 |} in
  match scores scorer [candidate 0 100; candidate 0 500] ctx with [a; b] => fgt b a | _ => false end.
Definition no_segments_uses_fallback_overlap : bool :=
  let s := FeatureWeightedScorer_default in
  let expected := f32_add (f32_mul (weight_price s) (f32_div (f32_of_Z 100) (f32_of_Z 1000)))
                          (f32_mul (weight_segment_overlap s) (f32_lit 5 10)) in
  match scores s [candidate 5 100] ctx with [a] => near micro a expected | _ => false end.
Definition suite : Suite := [
  ("scores_are_in_range", scores_are_in_range);
  ("higher_price_candidate_scores_higher_when_same_overlap", higher_price_candidate_scores_higher_when_same_overlap);
  ("no_segments_uses_fallback_overlap", no_segments_uses_fallback_overlap)]%string.
End WeightedSuite.

Module CascadeSuite.
(** The second stages of the tests: adding one, reordering by campaign, dropping the
    odd campaigns, scoring by campaign and creative. *)
Inductive Stage2 := PlusOne | ReorderingMarker | DropHalf | StageTwo.
Definition stage2_score_all (s : Stage2) (l : list AdCandidate) : list AdCandidate :=
  match s with
  | PlusOne => (fun c => with_score c (f32_add (ac_score c) (f32_of_Z 1))) <$> l
  | ReorderingMarker =>
      (fun c => with_score c (f32_add (f32_of_Z 100) (f32_of_Z (ac_campaign_id c)))) <$>
        sort_by (fun a b => Z.compare (ac_campaign_id a) (ac_campaign_id b)) l
  | DropHalf => (fun c => with_score c (f32_lit 99 100)) <$> filter (fun c => ac_campaign_id c mod 2 = 0) l
  | StageTwo =>
      (fun c => with_score c (f32_add (f32_add (f32_of_Z 100) (f32_mul (f32_of_Z (ac_campaign_id c)) (f32_of_Z 10)))
                                      (f32_of_Z (ac_creative_id c)))) <$> l
  end.
#[global] Instance stage2_scorer : Scorer Stage2 := {| score_all s l _ := (stage2_score_all s l, s) |}.

Definition cand (id price : Z) : AdCandidate := ad id 1 price (f32_of_Z 0).
Definition run (s2 : Stage2) (top_k : nat) (threshold : f32) (l : list AdCandidate) : list AdCandidate :=
  (score_all (Build_CascadeScorer FeatureWeightedScorer_default s2 top_k threshold) l ctx).1.

Definition top_k_limits_stage2 : bool :=
  let out := run PlusOne 2 (f32_of_Z 0) [cand 1 100; cand 2 500; cand 3 1000; cand 4 50] in
  assert_eq (length (filter (fun c => fgt (ac_score c) (f32_of_Z 1) = true) out)) 2%nat.
Definition writeback_matches_by_campaign_id_not_position : bool :=
  forallb (fun c => feq (ac_score c) (f32_add (f32_of_Z 100) (f32_of_Z (ac_campaign_id c))))
    (run ReorderingMarker 0 (f32_of_Z 0) [cand 7 100; cand 3 200; cand 11 300]).
Definition writeback_handles_stage2_dropping_candidates : bool :=
  forallb (fun c => if ac_campaign_id c mod 2 =? 0 then near micro (ac_score c) (f32_lit 99 100)
                    else flt (ac_score c) (f32_of_Z 1) && fge (ac_score c) (f32_of_Z 0))
    (run DropHalf 0 (f32_of_Z 0) [cand 1 100; cand 2 200; cand 3 300]).
Definition writeback_distinguishes_creatives_within_same_campaign : bool :=
  match ac_score <$> run StageTwo 0 (f32_of_Z 0) [ad 5 1 100 (f32_of_Z 0); ad 5 2 200 (f32_of_Z 0)] with
  | [a; b] => feq a (f32_of_Z 151) && feq b (f32_of_Z 152)
  | _ => false
  end.
Definition threshold_filters_below : bool :=
  forallb (fun c => fle (ac_score c) (f32_of_Z 1)) (run PlusOne 0 (f32_of_Z 100) [cand 1 100; cand 2 500]).
Definition suite : Suite := [
  ("top_k_limits_stage2", top_k_limits_stage2);
  ("writeback_matches_by_campaign_id_not_position", writeback_matches_by_campaign_id_not_position);
  ("writeback_handles_stage2_dropping_candidates", writeback_handles_stage2_dropping_candidates);
  ("writeback_distinguishes_creatives_within_same_campaign", writeback_distinguishes_creatives_within_same_campaign);
  ("threshold_filters_below", threshold_filters_below)]%string.
End CascadeSuite.

Module AbSuite.
Definition scorer (share : f32) (seed : string) : ABTestScorer FeatureWeightedScorer FeatureWeightedScorer := {|
  ab_control := FeatureWeightedScorer_default; ab_treatment := FeatureWeightedScorer_default;
  treatment_share := share; hash_seed := seed |}.
#[global] Instance Arm_eq_dec : EqDecision Arm.
Proof. solve_decision. Defined.
(** [format!("u{}", u)] for [u] in [0..n]. *)
Definition users (n : nat) : list string := (fun u => "u" +:+ pretty (N.of_nat u)) <$> seq 0 n.

Definition empty_user_id_always_goes_to_control : bool := assert_eq (pick_arm (scorer (f32_of_Z 1) "test") "") Control.
Definition hashing_is_stable : bool :=
  let s := scorer (f32_lit 5 10) "experiment-1" in assert_eq (pick_arm s "user-42") (pick_arm s "user-42").
Definition different_seeds_route_independently : bool :=
  let s1 := scorer (f32_lit 5 10) "seed-A" in
  let s2 := scorer (f32_lit 5 10) "seed-B" in
  Nat.ltb 100 (length (filter (fun u => pick_arm s1 u <> pick_arm s2 u) (users 1000))).

(** The hash with its mask computed once. *)
Definition mask64 : Z := Eval vm_compute in u64_max.
Definition fnv_step_masked (h b : Z) : Z := Z.land (Z.lxor h b * FNV_PRIME) mask64.
Definition fnv1a_masked (seed user_id : string) : Z :=
  foldl fnv_step_masked (fnv_step_masked (foldl fnv_step_masked FNV_OFFSET (bytes seed)) 124) (bytes user_id).
Lemma fnv_step_masked_eq h b : fnv_step h b = fnv_step_masked h b.
Proof. unfold fnv_step, fnv_step_masked, as_u64. change mask64 with (Z.ones 64). by rewrite Z.land_ones by lia. Qed.
Lemma fnv1a_masked_eq seed user_id : fnv1a seed user_id = fnv1a_masked seed user_id.
Proof.
  assert (forall l h, foldl fnv_step h l = foldl fnv_step_masked h l) as Hf
    by (induction l as [|b l IH]; intros h; cbn; [done|]; by rewrite fnv_step_masked_eq, IH).
  unfold fnv1a, fnv1a_masked. by rewrite !Hf, fnv_step_masked_eq.
Qed.

Definition pick_arm_masked (share : f32) (seed user_id : string) : Arm :=
  if decide (user_id = ""%string) then Control
  else if fle share (f32_of_Z 0) then Control
  else if fge share (f32_of_Z 1) then Treatment
  else if flt (f32_div (f32_of_Z (fnv1a_masked seed user_id mod 10000)) (f32_of_Z 10000)) share then Treatment else Control.
Lemma pick_arm_masked_eq s user_id : pick_arm (S1 := FeatureWeightedScorer) (S2 := FeatureWeightedScorer) s user_id =
  pick_arm_masked (treatment_share s) (hash_seed s) user_id.
Proof. unfold pick_arm, pick_arm_masked. by rewrite fnv1a_masked_eq. Qed.

(** Among the first 300 users already more than a hundred differ. *)
Lemma different_seeds_pass : different_seeds_route_independently = true.
Proof.
  unfold different_seeds_route_independently. apply Nat.ltb_lt.
  set (half := f32_lit 5 10).
  rewrite (list_filter_iff _ (fun u => pick_arm_masked half "seed-A" u <> pick_arm_masked half "seed-B" u)) by
    (intros u; by rewrite !pick_arm_masked_eq).
  set (differ := fun u => pick_arm_masked half "seed-A" u <> pick_arm_masked half "seed-B" u).
  assert (users 1000 = users 300 ++ ((fun u => "u" +:+ pretty (N.of_nat u)) <$> seq 300 700)) as ->
    by (unfold users; by rewrite <- fmap_app, <- seq_app).
  rewrite filter_app, length_app.
  assert (Nat.ltb 100 (length (filter differ (users 300))) = true) as H%Nat.ltb_lt by (vm_compute; reflexivity).
  lia.
Qed.
Definition ctx_for_compiles : bool :=
  let c := {| sc_segment_ids := []; sc_device_type := None; sc_ad_format := None; sc_hour_of_day := 12; sc_is_weekend := false;
              sc_user_id := "user-1"; sc_is_top_market := false |} in
  assert_eq (length (score_all (scorer (f32_lit 5 10) "x") [ad 1 1 100 (f32_of_Z 0)] c).1) 1%nat.
Definition suite : Suite := [
  ("empty_user_id_always_goes_to_control", empty_user_id_always_goes_to_control); ("hashing_is_stable", hashing_is_stable);
  ("ctx_for_compiles", ctx_for_compiles)]%string.
End AbSuite.

Module MlSuite.
Definition cfg : Scoring.MLScorerConfig := {|
  model_path := "/dev/null"; parity_path := None; input_tensor_name := "features"; output_tensor_name := "pctr";
  pool_size := 0; max_batch := 8; batch_pad_to := 8 |}.
(** Whatever the files and the runtime answer. *)
Definition rejects_zero_pool_size : bool :=
  negb (is_ok (new_with_fallback (F := unit) Ml.Sample.nan_model Ml.Sample.parse Ml.Sample.files cfg None)).
Definition suite : Suite := [("rejects_zero_pool_size", rejects_zero_pool_size)]%string.
End MlSuite.

Definition stage_suite : Suite :=
  CatalogSuite.suite ++ LimitSuite.suite ++ RankingSuite.suite ++ FeatureSuite.suite ++ WeightedSuite.suite ++ CascadeSuite.suite ++
  AbSuite.suite ++ MlSuite.suite.

Lemma stage_suite_passes : failing stage_suite = [].
Proof. vm_compute. reflexivity. Qed.
