(* ===== verification/ServerTests.v ===== *)
(** * Unit tests of the capper, the gate and the adapters, and the integration test

    The tests of [frequency/in_process.rs], [exchange/google_adx.rs],
    [exchange/openrtb_generic.rs] and [bidder-server/src/win_notice.rs], and
    [bidder-core/tests/pipeline_integration.rs], over the definitions that model
    these files.  Where a test runs library code the model takes as an argument, a
    concrete function stands for it: HMAC by the pair of its inputs, protobuf by a
    table of the messages the test encodes. *)
From S2P Require Import Prelude Floats Text Config OpenRtb Bitmap Catalog Model Externals Pacing Breaker Frequency Scoring Segments.
From S2P Require Import Pipeline PipelineProps WinNotice Exchange TestKit StageTests.

Module InProcessSuite.
Import InProcess.
Local Open Scope test_scope.
(** [StubCapper]: the users it was asked about, its next outcome; the breaker is
    the one the capper is built with. *)
Record StubCapper := { sc_calls : list string; sc_outcome : option FreqCapOutcome; sc_breaker : CircuitBreaker }.
#[global] Instance stub_capper : FrequencyCapper StubCapper unit := {|
  fc_check s user _ _ _ _ :=
    (unwrap_or (sc_outcome s) (Checked []), {| sc_calls := sc_calls s ++ [user]; sc_outcome := None; sc_breaker := sc_breaker s |}) |}.
Definition set_stub_breaker (s : StubCapper) (b : CircuitBreaker) : StubCapper :=
  {| sc_calls := sc_calls s; sc_outcome := sc_outcome s; sc_breaker := b |}.

Definition Capper : Type := InProcessFrequencyCapper StubCapper (gmap string (gmap Z (Z * Z))) (nat * list WriteBehindOp).
Definition breaker : CircuitBreaker := CircuitBreaker_new (Breaker.redis "test").
Definition with_outcome (o : option FreqCapOutcome) (cfg : InProcessConfig) : Capper :=
  new {| sc_calls := []; sc_outcome := o; sc_breaker := breaker |} cfg.
Definition capper : Capper := with_outcome None InProcessConfig_default.
Definition candidate (id daily hourly : Z) : AdCandidate := {|
  ac_campaign_id := id; ac_creative_id := 1; ac_bid_price_cents := 100; ac_score := f32_lit 5 10;
  ac_daily_cap_imps := daily; ac_hourly_cap_imps := hourly |}.

Definition ask (user : string) (l : list AdCandidate) : Script Capper FreqCapOutcome :=
  call (fun s => check sc_breaker set_stub_breaker s user l 2 12 {| iev_now_read := 0; iev_now_write := 0; iev_fallback := tt |}).
Definition record (user : string) (id : Z) : Script Capper bool := call (fun s => record_impression s user id).
Definition calls : Script Capper (list string) := read (fun s => sc_calls (ip_fallback s)).
Definition receive : Script Capper (option WriteBehindOp) := call (fun s =>
  match chan_try_recv (ip_write_tx s) with
  | Some (o, tx) => (Some o, {| ip_fallback := ip_fallback s; ip_counters := ip_counters s; ip_write_tx := tx |})
  | None => (None, s)
  end).

Definition cold_miss_falls_through_to_fallback : bool :=
  passes (o <- ask "user-1" [candidate 42 10 3];
          assert (match o with Checked [r] => (cp_campaign_id r =? 42) && negb (cp_capped r) | _ => false end);;
          c <- calls; assert (assert_eq (length c) 1%nat))
    (with_outcome (Some (Checked [{| cp_campaign_id := 42; cp_capped := false; cp_day_count := Some 0; cp_hour_count := Some 0 |}]))
       InProcessConfig_default).
Definition warm_hit_skips_fallback : bool :=
  passes (record "user-2" 99;; o <- ask "user-2" [candidate 99 10 3];
          assert (match o with Checked [r] => negb (cp_capped r) | _ => false end);;
          c <- calls; assert (assert_eq c [])) capper.
Definition warm_hit_caps_when_count_exceeds_threshold : bool :=
  passes (repeat_script 4 (record "user-3" 99;; script_ret tt);; o <- ask "user-3" [candidate 99 100 3];
          assert (match o with Checked (r :: _) => cp_capped r | _ => false end)) capper.

(** [run_pending_tasks] for any choice of four victims. *)
Definition touched : list string := ["u-a"; "u-b"; "u-c"; "u-d"; "u-e"; "u-f"]%string.
Definition moka_eviction_flushes_counters_to_redis_queue : bool :=
  forallb (fun survivors : string * string =>
    let victims := filter (fun u => u <> survivors.1 /\ u <> survivors.2) touched in
    let s := foldl (fun s u => (record_impression s u 42).2)
               (with_outcome None {| cap_capacity := 2; write_buffer_size := 65536; flush_interval := from_secs 1 |}) touched in
    let s := foldl evict s victims in
    Nat.leb (size (ip_counters s)) 2 &&
    forallb (fun u => bool_decide (u ∈ wb_user_id <$> chan_items (ip_write_tx s))) touched)
  (a ← touched; b ← touched; if decide (a = b) then [] else [(a, b)]).
Definition record_impression_queues_writes : bool :=
  passes (ok <- record "user-4" 7; assert ok;; a <- receive; b <- receive;
          assert (match a, b with
                  | Some a, Some b =>
                      assert_eq (wb_user_id a) "user-4"%string && (wb_campaign_id a =? 7) &&
                      assert_eq (wb_user_id b) "user-4"%string && (wb_campaign_id b =? 7) &&
                      bool_decide (Day ∈ [wb_window a; wb_window b]) && bool_decide (Hour ∈ [wb_window a; wb_window b])
                  | _, _ => false
                  end)) capper.
Definition suite : Suite := [
  ("cold_miss_falls_through_to_fallback", cold_miss_falls_through_to_fallback); ("warm_hit_skips_fallback", warm_hit_skips_fallback);
  ("warm_hit_caps_when_count_exceeds_threshold", warm_hit_caps_when_count_exceeds_threshold);
  ("moka_eviction_flushes_counters_to_redis_queue", moka_eviction_flushes_counters_to_redis_queue);
  ("record_impression_queues_writes", record_impression_queues_writes)]%string.
End InProcessSuite.

Module WinSuite.
(** A MAC that no two inputs share. *)
Inductive PlainMac := plain_mac.
#[global] Instance plain_hmac : Hmac PlainMac := {| hmac_sha256 _ secret message := Some (utf8 secret ++ [0] ++ utf8 message) |}.
#[global] Instance plain_hmac_laws : HmacLaws PlainMac.
Proof.
  split; [by eexists|]. intros [] secret message mac [= <-]. split; [by destruct (utf8 secret)|].
  assert (forall s, Forall in_u8 (utf8 s)) as Hs.
  { intros s. unfold utf8. apply Forall_fmap, Forall_forall. intros c _. unfold in_u8, u8_max, compose.
    pose proof (Ascii.nat_ascii_bounded c). lia. }
  apply Forall_app. split; [apply Hs|]. constructor; [unfold in_u8, u8_max; lia|apply Hs].
Defined.

Definition cfg (auth : bool) (secret : string) (secrets : gmap string string) (base : string) : WinNoticeConfig := {|
  require_auth := auth; cfg_secret := secret; cfg_secrets := secrets; dedup_ttl_secs := 3600; notice_base_url := base |}.
Definition service (auth : bool) (secret : string) : WinNoticeGateService := WinNoticeGateService_new (cfg auth secret ∅ "").
Definition with_base (secret base : string) : WinNoticeGateService :=
  WinNoticeGateService_new (cfg (negb (bool_decide (secret = ""%string))) secret ∅ base).
Definition msg : string := signing_message "r" "i" 1 2.
Definition signed (svc : WinNoticeGateService) (m exchange : string) : option string := sign plain_mac tt svc m exchange.
Definition verifies (svc : WinNoticeGateService) (m : string) (token : option string) (exchange : string) : bool :=
  verify_token plain_mac tt svc m token exchange.
(** [expect]: a test fails where there is no token. *)
Definition with_token (o : option string) (k : string -> bool) : bool := match o with Some t => k t | None => false end.
Definition repeat_string (s : string) (n : nat) : string := Nat.iter n (fun acc => s +:+ acc) ""%string.
Definition notice (rid iid : string) (cid crid price : Z) (user : string) : WinNoticeRequest := {|
  wn_request_id := rid; wn_imp_id := iid; wn_campaign_id := cid; wn_creative_id := crid; wn_clearing_price_micros := price;
  wn_user_id := user; wn_exchange_id := "" |}.

Definition signing_message_is_canonical_form : bool := assert_eq (signing_message "req1" "imp1" 42 7) "req1|imp1|42|7"%string.
Definition sign_then_verify_round_trips : bool :=
  let svc := service true "shared-secret-XYZ" in with_token (signed svc msg "") (fun t => verifies svc msg (Some t) "").
Definition verify_rejects_wrong_token : bool := negb (verifies (service true "shared-secret-XYZ") msg (Some (repeat_string "00" 32)) "").
Definition verify_rejects_missing_token_when_auth_required : bool :=
  let svc := service true "shared-secret-XYZ" in negb (verifies svc msg None "") && negb (verifies svc msg (Some ""%string) "").
Definition verify_accepts_when_auth_disabled : bool := verifies (service false "") msg None "".
Definition verify_accepts_when_secret_empty_even_if_required : bool := verifies (service true "") msg None "".
Definition verify_rejects_non_hex_token : bool := negb (verifies (service true "secret") msg (Some "not-hex-token!!"%string) "").
Definition notice_url_omitted_when_base_empty : bool :=
  assert_eq (build plain_mac tt (with_base "secret" "") (notice "r1" "i1" 1 2 100 "u1")) None.

(** [url.split("token=").nth(1)], for a [token=] that is the last parameter. *)
Fixpoint after_token (s : string) : option string :=
  match s with
  | EmptyString => None
  | String _ rest => if String.prefix "token=" s then Some (String.substring 6 (String.length s - 6) s) else after_token rest
  end.
Definition notice_url_signed_and_round_trips : bool :=
  let svc := with_base "shared-secret" "https://bid.example.com/rtb/win" in
  let r := notice "r1" "i1" 42 7 1500000 "user-9" in
  with_token (build plain_mac tt svc r) (fun url => with_token (after_token url) (fun tok =>
    verifies svc (signing_message (wn_request_id r) (wn_imp_id r) (wn_campaign_id r) (wn_creative_id r)) (Some tok) "")).
Definition percent_encode_handles_unsafe_chars : bool :=
  assert_eq (percent_encode "a&b=c") "a%26b%3Dc"%string && assert_eq (percent_encode "foo.bar~baz") "foo.bar~baz"%string.
Definition signature_changes_with_request_imp_or_campaign : bool :=
  let svc := service true "secret" in
  with_token (signed svc msg "") (fun t =>
    forallb (fun variant => negb (verifies svc variant (Some t) ""))
      [signing_message "OTHER" "i" 1 2; signing_message "r" "OTHER" 1 2; signing_message "r" "i" 99 2; signing_message "r" "i" 1 99]).
Definition per_ssp_secret_overrides_default : bool :=
  let svc := WinNoticeGateService_new (cfg true "default-secret" {["googleadx"%string := "adx-secret"%string]} "") in
  with_token (signed svc msg "googleadx") (fun adx => with_token (signed svc msg "openrtb") (fun default =>
    negb (assert_eq adx default) && verifies svc msg (Some adx) "googleadx" && negb (verifies svc msg (Some adx) "openrtb") &&
    verifies svc msg (Some default) "")).
Definition signature_is_independent_of_clearing_price : bool :=
  let svc := service true "secret" in with_token (signed svc msg "") (fun t => verifies svc msg (Some t) "").
Definition suite : Suite := [
  ("signing_message_is_canonical_form", signing_message_is_canonical_form);
  ("sign_then_verify_round_trips", sign_then_verify_round_trips); ("verify_rejects_wrong_token", verify_rejects_wrong_token);
  ("verify_rejects_missing_token_when_auth_required", verify_rejects_missing_token_when_auth_required);
  ("verify_accepts_when_auth_disabled", verify_accepts_when_auth_disabled);
  ("verify_accepts_when_secret_empty_even_if_required", verify_accepts_when_secret_empty_even_if_required);
  ("verify_rejects_non_hex_token", verify_rejects_non_hex_token);
  ("notice_url_omitted_when_base_empty", notice_url_omitted_when_base_empty);
  ("notice_url_signed_and_round_trips", notice_url_signed_and_round_trips);
  ("percent_encode_handles_unsafe_chars", percent_encode_handles_unsafe_chars);
  ("signature_changes_with_request_imp_or_campaign", signature_changes_with_request_imp_or_campaign);
  ("per_ssp_secret_overrides_default", per_ssp_secret_overrides_default);
  ("signature_is_independent_of_clearing_price", signature_is_independent_of_clearing_price)]%string.
End WinSuite.

Module AdxSuite.
Import Exchange.Sample (Json, JStr, JFloat, JObj, json_value, json_build, from_value).
(** [to_string], as far as an object's keys. *)
Definition quote : string := String (Ascii.ascii_of_nat 34) EmptyString.
Definition print_keys (v : Json) : string :=
  match v with JObj members => "{" +:+ foldr (fun m s => quote +:+ m.1 +:+ quote +:+ ":..," +:+ s) "}"%string members | _ => ".." end.
#[local] Instance printing : JsonValue Json := {|
  json_get := json_get; json_as_str := json_as_str; json_object := JObj; json_f32 := json_f32; json_u32 := json_u32;
  json_str := JStr; json_to_string := print_keys |}.
Definition sample_request : AdxBidRequest := {|
  axq_id := utf8 "test-req-1";
  axq_adslot := Some {| as_id := 42; as_width := [300]; as_height := [250]; as_matching_ad_data_minimum_cpm_micros := 1500000 |};
  axq_site := Some {| ax_url := "https://publisher.example.com/article"; ax_referrer := "https://google.com" |};
  axq_mobile := None;
  axq_user := Some {| ax_google_user_id := "user-abc" |};
  axq_geo := Some {| ax_country := "US"; ax_region := "CA"; ax_city := "SF" |};
  axq_device := Some {| ax_ua := "Mozilla/5.0"; ax_ip := "1.2.3.4" |} |}.
Definition no_slot : AdxBidRequest := {|
  axq_id := utf8 "r"; axq_adslot := None; axq_site := None; axq_mobile := None; axq_user := None; axq_geo := None; axq_device := None |}.

(** prost, as far as the tests go: the encodings of the two requests. *)
Definition encode_req (r : AdxBidRequest) : list Z := match axq_adslot r with Some _ => [1] | None => [2] end.
Definition decode (body : list Z) : Result AdxBidRequest string :=
  if bool_decide (body = [1]) then Ok sample_request else if bool_decide (body = [2]) then Ok no_slot
  else Err "invalid wire type"%string.
Definition decoded (body : list Z) : Result (BidRequest Json) string :=
  @decode_request _ _ (adx_adapter decode (fun _ => Ok []) from_value) google_adx body.

Definition id_is_stable : bool :=
  assert_eq (@adapter_id _ _ (adx_adapter decode (fun _ => Ok []) from_value) google_adx) "google-adx"%string.
Definition decode_protobuf_round_trips_to_internal : bool :=
  match decoded (encode_req sample_request) with
  | Ok req =>
      assert_eq (br_id req) "test-req-1"%string &&
      assert_eq ((fun i => (imp_id i, b ← imp_banner i; ban_w b)) <$> br_imp req) [("42"%string, Some 300)] &&
      assert_eq (u ← br_user req; user_id u) (Some "user-abc"%string) &&
      match (i ← head (br_imp req); imp_bidfloor i) with
      | Some f => flt (SFabs (f64_sub f (f64_lit 15 10))) (f64_lit 1 1000000)
      | None => false
      end
  | Err _ => false
  end.
Definition decode_returns_error_on_invalid_protobuf : bool := negb (is_ok (decoded (utf8 "not a protobuf payload at all"))).
Definition decode_returns_error_when_adslot_missing : bool := negb (is_ok (decoded (encode_req no_slot))).

Definition response : BidResponse Json := {|
  resp_id := "req-99";
  resp_seatbid := [{| sb_bid := [{|
    bid_id := "bid-1"; bid_impid := "7"; bid_price := f64_lit 25 10; bid_nurl := Some "https://bid.example.com/win?token=..."%string;
    bid_crid := Some "100"%string; bid_cid := Some "42"%string; bid_adid := Some "100"%string; bid_burl := None; bid_lurl := None;
    bid_adm := None; bid_adomain := None; bid_bundle := None; bid_iurl := None; bid_tactic := None; bid_cat := []; bid_attr := [];
    bid_api := None; bid_protocol := None; bid_qagmediarating := None; bid_language := None; bid_dealid := None; bid_w := None;
    bid_h := None; bid_wratio := None; bid_hratio := None; bid_exp := None;
    bid_ext := Some (JObj [("bidder_pctr"%string, JFloat (f64_lit 42 100))]) |}]; sb_seat := None; sb_group := 0; sb_ext := None |}];
  resp_bidid := None; resp_cur := Some "USD"%string; resp_customdata := None; resp_nbr := None; resp_ext := None |}.
Definition contains (needle s : string) : bool := match String.index 0 needle s with Some _ => true | None => false end.
(** The encoder keeps the message, which is what decoding its bytes gives back. *)
Definition encode_produces_octet_stream_with_one_ad : bool :=
  match @encode_response _ _ (adx_adapter decode (fun r => Ok (ad_max_cpm_micros <$> axr_ad r)) from_value) google_adx response with
  | Ok (body, ct) => assert_eq ct "application/octet-stream"%string && assert_eq body [2500000]
  | Err _ => false
  end &&
  match axr_ad (internal_to_adx response) with
  | [ad] => (ad_max_cpm_micros ad =? 2500000) && (ad_buyer_creative_id ad =? 100) && (ad_adslot_id ad =? 7) &&
            contains "token=" (ad_nurl ad) && contains "bidder_pctr" (ad_ext_json ad)
  | _ => false
  end.

Definition generic := @OpenRtbGeneric.adapter Json (fun _ => Err "expected value"%string) (fun r => Ok (utf8 (resp_id r))).
Definition generic_id_is_stable : bool := assert_eq (@adapter_id _ _ generic OpenRtbGeneric.open_rtb_generic) "openrtb-generic"%string.
Definition decode_returns_error_on_invalid_json : bool :=
  negb (is_ok (@decode_request _ _ generic OpenRtbGeneric.open_rtb_generic (utf8 "not json at all"))).
Definition encode_produces_application_json : bool :=
  let response := {|
    resp_id := "req-1"; resp_seatbid := []; resp_bidid := None; resp_cur := Some "USD"%string; resp_customdata := None;
    resp_nbr := None; resp_ext := None |} in
  match @encode_response _ _ generic OpenRtbGeneric.open_rtb_generic response with
  | Ok (body, ct) => assert_eq ct "application/json"%string && assert_eq body (utf8 "req-1")
  | Err _ => false
  end.
Definition suite : Suite := [
  ("google_adx::id_is_stable", id_is_stable); ("decode_protobuf_round_trips_to_internal", decode_protobuf_round_trips_to_internal);
  ("decode_returns_error_on_invalid_protobuf", decode_returns_error_on_invalid_protobuf);
  ("decode_returns_error_when_adslot_missing", decode_returns_error_when_adslot_missing);
  ("encode_produces_octet_stream_with_one_ad", encode_produces_octet_stream_with_one_ad);
  ("openrtb_generic::id_is_stable", generic_id_is_stable);
  ("decode_returns_error_on_invalid_json", decode_returns_error_on_invalid_json);
  ("encode_produces_application_json", encode_produces_application_json)]%string.
End AdxSuite.

(** ** [pipeline_integration.rs] *)

Module Integration.
Import PipelineProps.Sample (Json, json_value, fixed_segments, fixed_capper).
Definition creative (id : Z) (f : AdFormat.t) (w h : Z) : Creative := {|
  cr_id := id; cr_campaign_id := 1; cr_ad_format := f; cr_click_url := "https://example.com"; cr_image_url := None;
  cr_width := Some w; cr_height := Some h |}.
Definition make_catalog : CampaignCatalog (gset Z) :=
  let geo code :=
    ({| gk_kind := if forallb (fun c => let n := Ascii.nat_of_ascii c in Nat.leb 48 n && Nat.leb n 57)
                        (String.list_ascii_of_string code) then Metro else Country; gk_code := code |}, bitmap [1]) in
  new_for_test
    {[1 := {| c_id := 1; c_advertiser_id := 1; c_bid_floor_cents := 5; c_daily_budget_cents := 100000; c_hourly_budget_cents := 10000;
              c_daily_cap_imps := 10; c_hourly_cap_imps := 3 |}]}
    {[1 := [creative 10 AdFormat.Banner 300 250; creative 11 AdFormat.Video 640 480]]}
    ∅ (list_to_map (geo <$> ["USA"; "501"]%string)) {[Desktop := bitmap [1]]}
    {[AdFormat.Banner := bitmap [1]; AdFormat.Video := bitmap [1]]} (bitmap []) (bitmap [1]).

Definition latency_config : LatencyBudgetConfig := {|
  http_parse_ms := 2; request_validate_ms := 1; user_enrichment_ms := 5; candidate_retrieval_ms := 5; candidate_limit_ms := 1;
  scoring_ms := 2; frequency_cap_ms := 5; ranking_ms := 1; budget_pacing_ms := 2; response_build_ms := 2;
  pipeline_deadline_ms := 50; http_timeout_ms := 50; win_timeout_ms := 500 |}.

(** [tests/fixtures/golden-bid-request.json]: its impressions, device, geo, user and
    auction members; the stages read neither the site nor the user's data. *)
Definition companion (id : string) (w h : Z) (expdir : list Z) : Banner Json :=
  Build_Banner [] (Some w) (Some h) None None None None [] [13; 14] (Some 1) [] None expdir [] (Some id) None None.
Definition video : Video Json := {|
  vid_mimes := ["video/x-flv"; "video/mp4"; "application/javascript"]%string; vid_minduration := Some 5; vid_maxduration := Some 30;
  vid_protocols := [2; 3]; vid_w := Some 640; vid_h := Some 480; vid_startdelay := Some 0; vid_placement := None; vid_plcmt := None;
  vid_linearity := Some 1; vid_skip := None; vid_skipmin := None; vid_skipafter := None; vid_sequence := None; vid_battr := [13; 14];
  vid_maxextended := Some 30; vid_minbitrate := Some 300; vid_maxbitrate := Some 1500; vid_boxingallowed := Some 1;
  vid_playbackmethod := [1; 3]; vid_playbackend := []; vid_delivery := [2]; vid_pos := Some 1;
  vid_companionad := [companion "1234567893-1" 300 250 [2; 4]; companion "1234567893-2" 728 90 []]; vid_api := [];
  vid_companiontype := [1; 2]; vid_ext := None |}.
Definition imp (id : string) (b : option (Banner Json)) (v : option (Video Json)) : Imp Json :=
  Build_Imp id b v None None None None None 0 None (Some (f64_lit 3 100)) None 0 0 [] None None None None.
Definition GOLDEN : BidRequest Json :=
  let banner := Build_Banner [] (Some 300) (Some 250) None None None None [] [] (Some 0) [] None [] [] None None None in
  let geo := Build_Geo None None (Some 2) None None None (Some "USA") (Some "NY") None (Some "501") (Some "New York") (Some "10013") None None in
  let device := Build_Device
    (Some "Mozilla/5.0 (Macintosh; U; Intel Mac OS X 10.6; en-US; rv:1.9.2.16) Gecko/20110319 Firefox/3.6.16") (Some geo) None None None
    None (Some {| device_type := 2 |}) None None (Some "OS X") None None None None None None (Some 1) None None None None None None None
    None None None None None None None in
  let user := Build_User (Some "42") (Some "545678765467876567898765678987654") None None None None None [] None None in
  Build_BidRequest "1234567893" [imp "1" None (Some video); imp "2" (Some banner) None] None None None (Some device) (Some user)
    (Some {| auction_type := 2 |}) (Some 120) [] [] (Some ["USD"]) [] [] [] [] None None 0 None.

Definition env : Env unit FreqCapOutcome := {| en_clock _ := 0; en_secs := 0; en_segments := tt; en_cap _ := SkippedTimeout |}.
Definition stages : list TestStage :=
  [request_validation; candidate_retrieval; candidate_limit (fun l => l) 20; scoring env; budget_pacing; ranking;
   response_build no_notice_url "openrtb"].
Definition golden_request_produces_bid : bool :=
  let ctx := set_segment_ids (set_catalog (BidContext_new GOLDEN 0) (Some make_catalog)) [] in
  let '(r, ctx, _) := execute env (pipeline_deadline_ms latency_config) stages ctx (world_with [(1, 100000)]) in
  is_ok r && assert_eq (outcome ctx) OutcomeBid && negb (assert_eq (length (winners ctx)) 0%nat) &&
  match bid_response ctx with Some _ => true | None => false end.
Definition suite : Suite := [("golden_request_produces_bid", golden_request_produces_bid)]%string.
End Integration.

Definition server_suite : Suite := InProcessSuite.suite ++ WinSuite.suite ++ AdxSuite.suite ++ Integration.suite.

Lemma server_suite_passes : failing server_suite = [].
Proof. vm_compute. reflexivity. Qed.
