(* ===== verification/Conformance.v ===== *)
(** * The model passes the repository's unit tests

    The suites of [CoreTests], [StageTests] and [ServerTests] together: 90 tests of
    the repository, each under its own name.  Not among them are the tests of serde's
    decoding of [WinParams], of the generic adapter's JSON round trip and of the ONNX
    runtime, which run library code only, and [treatment_share_approximates_target],
    whose ten thousand hashes take the kernel too long. *)
From S2P Require Import Prelude TestKit CoreTests StageTests ServerTests.

Definition repository_tests : Suite :=
  core_suite ++ stage_suite ++ server_suite ++
  [("different_seeds_route_independently"%string, AbSuite.different_seeds_route_independently)].

Lemma all_pass_app l1 l2 : all_pass (l1 ++ l2) = all_pass l1 && all_pass l2.
Proof. apply forallb_app. Qed.

Lemma all_pass_one name b : all_pass [(name, b)] = b.
Proof. apply andb_true_r. Qed.

(** Every test passes. *)
Theorem repository_tests_pass : all_pass repository_tests = true.
Proof.
  unfold repository_tests.
  by rewrite !all_pass_app, (all_pass_failing _ core_suite_passes), (all_pass_failing _ stage_suite_passes),
    (all_pass_failing _ server_suite_passes), all_pass_one, AbSuite.different_seeds_pass.
Qed.
